(* ===== verification/_CoqProject ===== *)
-Q . S2P
Prelude.v
Mpf.v
ToyHash.v
MpfProofs.v
LbTypes.v
Assets.v
PlutusData.v
Intention.v
GreenOrder.v
AccountStore.v
AccountIndex.v
AccountIndexProofs.v
AccountIndexExamples.v
LbCore.v
LbCoreProofs.v
RoyaltyPool.v
RoyaltyPoolProofs.v
LbGreen.v
LbState.v
LbStateProofs.v
Tlb.v
TlbProofs.v
TlbGreen.v
StateIndex.v
StateIndexProofs.v
Containers.v
Engine.v
EngineProofs.v
EngineFunding.v
EngineTlb.v
EngineGreen.v
Redeemers.v
TxBlueprint.v
TxBlueprintProofs.v
Interpreter.v
InterpreterProofs.v
GreenExec.v
RoyaltyDatum.v
Graduation.v
GreenTx.v
RoyaltyDatumProofs.v
Admission.v
AdmissionProofs.v
Backlog.v
GreenTxExamples.v
EventSink.v
EventSinkProofs.v
EventSinkExamples.v
ChainSync.v
ChainSyncProofs.v
ChainSyncExamples.v
LimitOrder.v
LimitOrderProofs.v
LimitOrderExamples.v
TxTracker.v
TxTrackerProofs.v
TxTrackerExamples.v
ConstFnPool.v
ConstFnPoolProofs.v
ConstFnPoolExamples.v
PoolOrders.v
PoolOrdersProofs.v
PoolOrdersExamples.v
StablePool.v
StablePoolProofs.v
StablePoolExamples.v
AdhocOrder.v
AdhocOrderProofs.v
AdhocOrderExamples.v
GridOrder.v
GridOrderProofs.v
QuadraticPool.v
QuadraticPoolProofs.v
QuadraticPoolExamples.v
BalancePool.v
BalancePoolProofs.v
BalancePoolExamples.v
ClassifiedPool.v
PoolExec.v
PoolExecExamples.v
