(* ===== verification/Prelude.v ===== *)
(** * Verification of the green-order off-chain agent

    The agent keeps the state of Aleph accounts, admits signed intents to trade
    from them, matches the intents against each other and against liquidity
    pools, and builds the transactions that execute the matches.  This library
    models that core and proves what makes it correct.

    ** The program and its model

    - The Merkle Patricia Forestry of an account
      ([green-order-cardano-agent/src/mpf.rs]): [Mpf.v], proofs in
      [MpfProofs.v].  The hash is a parameter (class [Hashing]); [ToyHash.v] is
      a concrete one for evaluation.
    - Assets, tokens, bundles and pairs ([spectrum-cardano-lib/src/lib.rs],
      [value.rs], [data/pair.rs]): [Assets.v].  Plutus data
      ([plutus_data.rs]): [PlutusData.v].
    - Intentions, their canonical encoding and digest, account datum, nonces,
      orders and the account's value in a fill
      ([bloom-offchain-cardano/src/orders/green.rs]): [Intention.v],
      [GreenOrder.v].
    - The store of pending intents of an account ([account_store.rs]):
      [AccountStore.v]; the index of all accounts, its observations of the
      chain, plans, rollbacks and persistence ([account_index.rs],
      [account_events.rs]): [AccountIndex.v], [AccountIndexProofs.v],
      [AccountIndexExamples.v].
    - The liquidity book ([bloom-offchain/src/execution_engine/liquidity_book]):
      vocabulary and traits in [LbTypes.v]; trades, batches and recipes
      ([core.rs]) in [LbCore.v], [LbCoreProofs.v]; takers, pools and previews
      ([state/]) in [LbState.v], [LbStateProofs.v]; the matchmaking loop
      ([mod.rs]) in [Tlb.v], [TlbProofs.v].
    - The royalty pool ([pool_math/cfmm_math.rs], [royalty_pool.rs],
      [royalty_v1.rs]): [RoyaltyPool.v], [RoyaltyPoolProofs.v].
    - The executor ([execution_engine/mod.rs]) with its index of on-chain states
      ([storage/mod.rs], [resolver.rs]) and containers ([circular_filter.rs],
      [focus_set.rs], [multi_pair.rs], [funding_effect.rs]): [StateIndex.v],
      [StateIndexProofs.v], [Containers.v], [Engine.v], [EngineProofs.v],
      [EngineFunding.v].
    - The building of a transaction from a recipe: redeemers ([green.rs]) in
      [Redeemers.v]; the blueprint of a transaction and its projection onto the
      builder ([execution_state.rs], [script.rs]) in [TxBlueprint.v],
      [TxBlueprintProofs.v]; the interpreter and its correction of the fee
      ([interpreter.rs]) in [Interpreter.v], [InterpreterProofs.v]; the execution
      of green orders ([instances.rs], [context.rs]) in [GreenExec.v] and of
      pools, with their datum ([royalty_pool.rs], [royalty_v1.rs],
      [cfmm_pool.rs]), in [RoyaltyDatum.v], [RoyaltyDatumProofs.v]; all together
      in [GreenTx.v].
    - The admission of intents ([intent_source.rs]): [Admission.v],
      [AdmissionProofs.v].  The backlog of orders ([backlog.rs]): [Backlog.v].
      [GreenTxExamples.v] takes one order from admission to the ledger.
    - The event sink ([bloom-offchain-cardano/src/event_sink], with
      [spectrum-offchain/src/event_sink.rs] and the chain of handlers of
      [main.rs]): [EventSink.v], [EventSinkProofs.v], [EventSinkExamples.v]; the
      tracking of graduated pools it drives ([graduation.rs]): [Graduation.v].
    - The ledger stream that feeds it ([cardano-chain-sync]): [ChainSync.v],
      [ChainSyncProofs.v], [ChainSyncExamples.v].
    - Submission of transactions, the tracker that waits for their confirmation
      and the mempool ([tx_submission.rs], [tx_tracker], [cardano-mempool-sync]):
      [TxTracker.v], [TxTrackerProofs.v], [TxTrackerExamples.v].
    - Limit orders, another kind of taker of the same book and interpreter
      ([orders/limit.rs], [instances.rs]): [LimitOrder.v],
      [LimitOrderProofs.v], [LimitOrderExamples.v]; orders that are executed at
      once, with a fee in the ADA of the trade ([orders/instant.rs],
      [orders/adhoc.rs]): [AdhocOrder.v], [AdhocOrderProofs.v],
      [AdhocOrderExamples.v]; grid orders ([orders/grid.rs]): [GridOrder.v],
      [GridOrderProofs.v].
    - Constant-product pools without and with a treasury ([data/cfmm_pool.rs],
      [classic_pool.rs], [fee_switch_pool.rs]) and the orders that add and
      withdraw their liquidity ([deposit.rs], [redeem.rs],
      [operation_output.rs]): [ConstFnPool.v], [ConstFnPoolProofs.v],
      [ConstFnPoolExamples.v]; the orders of royalty holders and of the DAO
      ([royalty_withdraw_request.rs], [dao_request.rs], [royalty_pool.rs]) and the
      transaction that runs an order against a pool ([pool.rs], [order.rs]):
      [PoolOrders.v], [PoolOrdersProofs.v], [PoolOrdersExamples.v].
    - Stable pools ([stable_pool_t2t.rs], [pool_math/stable_pool_t2t_exact_math.rs],
      [pool_math/stable_math.rs]): [StablePool.v], [StablePoolProofs.v],
      [StablePoolExamples.v].  Launchpad pools ([quadratic_pool.rs],
      [pool_math/degen_quadratic_math.rs]): [QuadraticPool.v],
      [QuadraticPoolProofs.v], [QuadraticPoolExamples.v].  Weighted pools
      ([balance_pool.rs], [pool_math/balance_math.rs]): [BalancePool.v],
      [BalancePoolProofs.v], [BalancePoolExamples.v].
    - Pools that graduated from the launchpad and the fee on trades with them
      ([pools/classified.rs], [graduation.rs], [orders/mod.rs]):
      [ClassifiedPool.v]; the execution of pools of every kind
      ([instances.rs], [data/pool.rs]): [PoolExec.v], [PoolExecExamples.v].

    Components meet at type classes, as in the source: an order is a
    [MarketTaker], a pool a [MarketMaker], a book a [LiquidityBook], an index a
    [StateIndex].  The theorems of a client are proved against the laws of the
    class ([TakerTradeLaws], [LiquidityBookLaws], [StateIndexLaws], ...); the
    files [LbGreen.v], [TlbGreen.v], [EngineTlb.v] and [EngineGreen.v] show that
    green orders, the royalty pool, the matchmaker and the in-memory index obey
    them, and evaluate the theorems on concrete books.

    ** What the theorems show

    Authenticated stores: generated proofs verify, changes through a proof give
    the root of the changed trie, a proof binds one value, every store the agent
    can build carries the root of its leaves; or two messages with one hash are
    exhibited.  Accounts: the index stays consistent through every sequence of
    observations, plans and rollbacks; a planned transaction is confirmed
    exactly; a restart and a rollback lose nothing.  Trading: crossing orders
    match fairly, an accepted recipe conserves both assets and pays every order
    its minimum, a pool's product does not fall.  Previews: whatever an attempt
    does, a failure restores the book.  Execution: no poll of the executor
    panics or loops, a rejected transaction leaves no trace, the index of states
    refines a table.  Transactions: what the matchmaker's batch becomes on the
    ledger balances to the network fee, redeemers stand in the ledger's order, a
    traded pool is read back as the book predicted it, an admitted order that is
    filled is executed; where the correction of the fee ends and where it does
    not.  A partly filled limit order is read back as predicted; an ad-hoc
    order pays its owner all but the trade, its costs and the agreed share; a grid
    order against ADA is applied to the wrong reserves.
    Events: the ledger stream follows the node's chain through roll-backs
    and restarts, an executor's funding boxes are the unspent ones of its
    address, undoing a transaction sends the inverse of what applying it sent;
    where the index of entities loses a live state or keeps a dead one.  After
    submission: the tracker reports exactly the transactions that missed their
    deadline, and settles every one; which ones a rollback hides from it, and
    what the mempool reports twice.  Liquidity: whatever orders a
    constant-product pool goes through, a share of it never loses value; a royalty
    holder's signature authorises one withdrawal; the transaction of an order
    balances; a pool that is written is read back; a swap does not lower the
    invariant of a stable pool, and a deposit to one may dilute the others; a
    launchpad pool that is backed buys back its whole supply in any portions; a swap
    does not lower the weighted invariant of a balance pool; a trade with a
    graduated pool conserves both assets, its fee included; the output of an
    executed pool of any kind holds what the book says the trade moved.

    ** Bounds and fuel

    Machine integers are [Z] with the wrap-around, saturation or check of the
    source written out.  The recursion of the trie is bounded by the 64 nibbles
    of a path ([depth_fuel] = 65 - cursor); the search for a fill halves a 64-bit
    interval ([search_fuel] = 64, proved enough).  The two loops of an attempt at
    matching have no bound in the source, which can loop for ever
    ([downgrade_never_returns]): they take their number of rounds and report
    when it is used up.  A poll of the executor takes at most the number of
    queued events plus three rounds, and its loop over the pairs in focus at
    most one round per pair, both proved enough.  The correction of the fee has
    no bound in the source either ([fee_correction_oscillates]): the interpreter
    takes its number of builds and reports [OutOfFuel], which is no result of the
    source, when it is used up.  The backlog pops at most as often as its queue
    is long, proved enough.  A roll-back takes at most one round per cached block
    and one more, proved enough.  The loops of the stable invariant have no bound
    in the source and need not end ([invariant_never_found]): they take their
    number of rounds and report [OutOfRounds]; the loop of the treasury's fee ends
    within as many rounds as the output has units ([stable_fees_spec]), and the
    search for the quote of a weighted pool within as many as its estimate has
    ([weighted_quote_found]).

    ** Not modelled

    Networking and persistence around the core: the sockets of chain and mempool
    synchronisation and of submission, the explorer, the HTTP and TCP servers,
    configuration, deployment files, health and reporting.  The decoding of
    blocks from their bytes, the depth of a launchpad pool at a price (a
    numerical search in floating point that changes no state), and the libraries:
    hashing, CBOR, JSON, big numbers, transaction builder. *)

From stdpp Require Import base gmap list sorting strings.
From Stdlib Require Import ZArith Lia Strings.Byte.

Declare Scope agent_scope.
Delimit Scope agent_scope with agent.

(** Lemmas on machine integers. *)
Create HintDb bounds.

(** ** Results of fallible code

    A Rust [Result<T, E>] computation may also panic ([expect], [unwrap],
    index out of range).  [outcome E T] keeps the three apart. *)

Inductive outcome (E T : Type) : Type :=
| Ok (t : T)
| Err (e : E)
| Panic.

Arguments Ok {E T} _.
Arguments Err {E T} _.
Arguments Panic {E T}.

Global Instance outcome_eq_dec {E T} `{EqDecision E, EqDecision T} : EqDecision (outcome E T).
Proof. solve_decision. Defined.

Global Instance outcome_ret {E} : MRet (outcome E) := fun _ t => Ok t.
Global Instance outcome_bind {E} : MBind (outcome E) := fun _ _ f m =>
  match m with Ok t => f t | Err e => Err e | Panic => Panic end.
Global Instance outcome_fmap {E} : FMap (outcome E) := fun _ _ f m =>
  match m with Ok t => Ok (f t) | Err e => Err e | Panic => Panic end.

(** [Option::ok_or]. *)
Definition ok_or {E T} (o : option T) (e : E) : outcome E T :=
  match o with Some t => Ok t | None => Err e end.

(** [Result::map_err]. *)
Definition map_err {E F T} (f : E -> F) (m : outcome E T) : outcome F T :=
  match m with Ok t => Ok t | Err e => Err (f e) | Panic => Panic end.

(** [Result::expect]: an [Err] becomes a panic. *)
Definition expect {E F T} (m : outcome E T) : outcome F T :=
  match m with Ok t => Ok t | _ => Panic end.

(** The value of a computation known to succeed. *)
Definition from_ok {E A} (m : outcome E (list A)) : list A :=
  match m with Ok t => t | _ => [] end.

(** [iter.map(f).collect::<Result<Vec<_>, _>>()]: stops at the first failure. *)
Fixpoint map_outcome {E A B} (f : A -> outcome E B) (l : list A) : outcome E (list B) :=
  match l with
  | [] => Ok []
  | a :: l => b ← f a; bs ← map_outcome f l; Ok (b :: bs)
  end.

(** ** Machine integers *)

Definition u16_max : Z := 2 ^ 16 - 1.
Definition u64_max : Z := 2 ^ 64 - 1.
Definition u128_max : Z := 2 ^ 128 - 1.
Definition i64_min : Z := - 2 ^ 63.
Definition i64_max : Z := 2 ^ 63 - 1.

Definition is_u64 (z : Z) : Prop := (0 <= z <= u64_max)%Z.
Definition is_u16 (z : Z) : Prop := (0 <= z <= u16_max)%Z.

Definition wrap_u64 (z : Z) : Z := (z mod 2 ^ 64)%Z.
Definition wrap_u128 (z : Z) : Z := (z mod 2 ^ 128)%Z.

(** Wrapping operators on [u64]. *)
Notation "a ⊕ b" := (wrap_u64 (a + b)) (at level 50, left associativity) : agent_scope.
Notation "a ⊖ b" := (wrap_u64 (a - b)) (at level 50, left associativity) : agent_scope.
Notation "a ⊗ b" := (wrap_u64 (a * b)) (at level 40, left associativity) : agent_scope.

(** [x as i64] for [x : u64]: two's complement reinterpretation. *)
Definition u64_as_i64 (z : Z) : Z := if (z <=? i64_max)%Z then z else (z - 2 ^ 64)%Z.
(** [x as u64] for [x : i64]. *)
Definition i64_as_u64 (z : Z) : Z := (z mod 2 ^ 64)%Z.

Definition checked_add (a b : Z) : option Z :=
  if (a + b <=? u64_max)%Z then Some (a + b)%Z else None.
Definition checked_sub (a b : Z) : option Z :=
  if (b <=? a)%Z then Some (a - b)%Z else None.
Definition checked_mul (a b : Z) : option Z :=
  if (a * b <=? u64_max)%Z then Some (a * b)%Z else None.
Definition checked_div (a b : Z) : option Z :=
  if (b =? 0)%Z then None else Some (a / b)%Z.
Definition saturating_add (a b : Z) : Z := Z.min (a + b) u64_max.
Definition saturating_sub (a b : Z) : Z := Z.max (a - b) 0.
Definition saturating_mul (a b : Z) : Z := Z.min (a * b) u64_max.

Definition i128_max : Z := 2 ^ 127 - 1.

(** Arithmetic on [i64] and the casts between [u128] and [i128] wrap. *)
Definition wrap_i64 (z : Z) : Z := ((z + 2 ^ 63) mod 2 ^ 64 - 2 ^ 63)%Z.
Definition u128_as_i128 (z : Z) : Z := if (z <=? i128_max)%Z then z else (z - 2 ^ 128)%Z.
Definition i128_as_u128 (z : Z) : Z := (z mod 2 ^ 128)%Z.

(** [i64::checked_add]. *)
Definition checked_add_i64 (a b : Z) : option Z :=
  if ((i64_min <=? a + b) && (a + b <=? i64_max))%Z then Some (a + b)%Z else None.

(** [usize::checked_add] on positions, which the model keeps as [nat]. *)
Definition checked_add_usize (a b : nat) : option nat :=
  if (Z.of_nat a + Z.of_nat b <=? u64_max)%Z then Some (a + b) else None.

(** [min]/[max] of an iterator under a three-way comparison: [Iterator::min_by]
    keeps the first of equal elements, [Iterator::max_by] the last. *)
Definition min_by {A} (cmp : A -> A -> comparison) (l : list A) : option A :=
  match l with
  | [] => None
  | a :: l => Some (fold_left (fun m x => match cmp m x with Gt => x | _ => m end) l a)
  end.
Definition max_by {A} (cmp : A -> A -> comparison) (l : list A) : option A :=
  match l with
  | [] => None
  | a :: l => Some (fold_left (fun m x => match cmp m x with Gt => m | _ => x end) l a)
  end.

(** ** Hash maps

    A [HashMap] is a finite map; the order in which it is iterated is not
    specified, so it is a parameter that enumerates each binding once. *)
Class HashOrder (K : Type) `{Countable K} :=
  hash_iter : forall V, gmap K V -> list (K * V).
Arguments hash_iter {K _ _ _ V} _.
Class HashOrderLaws (K : Type) `{HashOrder K} : Prop :=
  hash_iter_perm : forall V (m : gmap K V), hash_iter m ≡ₚ map_to_list m.

(** ** Bytes

    [u8] is [Byte.byte]; [Vec<u8>] and [[u8; N]] are lists of bytes, the
    array length being a well-formedness condition. *)

Notation bytes := (list byte).

Global Instance byte_eq_dec : EqDecision byte := Byte.byte_eq_dec.
Global Program Instance byte_countable : Countable byte :=
  inj_countable Byte.to_N Byte.of_N _.
Next Obligation. intros b. apply Byte.of_to_N. Qed.

(** The numeric value of a byte and the truncating cast [x as u8]. *)
Definition byte_val (b : byte) : nat := Byte.to_nat b.
Definition as_u8 (n : nat) : byte := default x00 (Byte.of_nat (n mod 256)).
Definition z_as_u8 (z : Z) : byte := as_u8 (Z.to_nat (z mod 256)).

(** [to_be_bytes] of an [n]-byte unsigned integer. *)
Fixpoint to_be_bytes (n : nat) (z : Z) : bytes :=
  match n with
  | O => []
  | S m => z_as_u8 (z / 256 ^ Z.of_nat m) :: to_be_bytes m z
  end.

(** [Ord] on [Vec<u8>]: lexicographic. *)
Fixpoint bytes_leb (a b : bytes) : bool :=
  match a, b with
  | [], _ => true
  | _ :: _, [] => false
  | x :: a, y :: b =>
    if byte_val x =? byte_val y then bytes_leb a b else byte_val x <? byte_val y
  end.

(** A [BTreeMap<Vec<u8>, V>] is a finite map; iterating it goes through the
    keys in increasing order. *)
Definition key_le {V} (a b : bytes * V) : Prop := bytes_leb a.1 b.1 = true.
Global Instance key_le_dec {V} : RelDecision (@key_le V).
Proof. intros a b. unfold key_le. apply _. Defined.

Definition btree_iter {V} (m : gmap bytes V) : list (bytes * V) :=
  merge_sort key_le (map_to_list m).

(** ** Generic lemmas *)

Lemma checked_sub_Some a b : (b <= a)%Z -> checked_sub a b = Some (a - b)%Z.
Proof. unfold checked_sub. intros. by destruct (Z.leb_spec b a); [|lia]. Qed.

Lemma checked_sub_inv a b c : checked_sub a b = Some c -> (b <= a /\ c = a - b)%Z.
Proof. unfold checked_sub. destruct (Z.leb_spec b a); [|done]. intros [= <-]. done. Qed.

Lemma checked_sub_None a b : checked_sub a b = None -> (a < b)%Z.
Proof. unfold checked_sub. by destruct (Z.leb_spec b a). Qed.

Lemma checked_sub_lt a b : (a < b)%Z -> checked_sub a b = None.
Proof. unfold checked_sub. intros. by destruct (Z.leb_spec b a); [lia|]. Qed.

Lemma wrap_u64_small z : is_u64 z -> wrap_u64 z = z.
Proof. unfold is_u64, u64_max, wrap_u64. intros. apply Z.mod_small. lia. Qed.

Lemma wrap_u64_range z : is_u64 (wrap_u64 z).
Proof. unfold is_u64, u64_max, wrap_u64. pose proof (Z.mod_pos_bound z (2 ^ 64)). lia. Qed.

Lemma wrap_u128_small z : (0 <= z <= u128_max)%Z -> wrap_u128 z = z.
Proof. unfold u128_max, wrap_u128. intros. apply Z.mod_small. lia. Qed.

#[export] Hint Resolve wrap_u64_range : bounds.
#[export] Hint Rewrite wrap_u64_small wrap_u128_small checked_sub_Some checked_sub_lt using (unfold is_u64, u64_max, u128_max in *; lia) : bounds.

(** Decide a proposition through an equivalent one. *)
Definition dec_iff {P Q : Prop} (E : P <-> Q) `{dP : Decision P} : Decision Q :=
  match dP with
  | left p => left (proj1 E p)
  | right n => right (fun q => n (proj2 E q))
  end.

Lemma byte_val_bound b : byte_val b < 256.
Proof. pose proof (Byte.to_nat_bounded b). unfold byte_val. lia. Qed.

Lemma byte_val_inj b c : byte_val b = byte_val c -> b = c.
Proof.
  unfold byte_val. intros E. pose proof (Byte.of_to_nat b) as Hb.
  rewrite E, Byte.of_to_nat in Hb. congruence.
Qed.

Lemma byte_val_as_u8 n : n < 256 -> byte_val (as_u8 n) = n.
Proof.
  intros Hn. unfold as_u8. rewrite Nat.mod_small by done.
  destruct (Byte.of_nat n) as [b|] eqn:E; simpl.
  - by apply Byte.to_of_nat.
  - apply Byte.of_nat_None_iff in E. lia.
Qed.

Lemma as_u8_byte_val b : as_u8 (byte_val b) = b.
Proof. apply byte_val_inj, byte_val_as_u8, byte_val_bound. Qed.

Lemma as_u8_inj m n : m < 256 -> n < 256 -> as_u8 m = as_u8 n -> m = n.
Proof.
  intros Hm Hn E. rewrite <- (byte_val_as_u8 m Hm), <- (byte_val_as_u8 n Hn). by rewrite E.
Qed.

Lemma to_be_bytes_length n z : length (to_be_bytes n z) = n.
Proof. induction n as [|n IH]; [done|]. simpl. by rewrite IH. Qed.

Lemma btree_iter_perm {V} (m : gmap bytes V) : btree_iter m ≡ₚ map_to_list m.
Proof. apply merge_sort_Permutation. Qed.

Lemma map_outcome_Ok {E A B} (f : A -> outcome E B) (g : A -> B) l :
  (forall a, a ∈ l -> f a = Ok (g a)) -> map_outcome f l = Ok (g <$> l).
Proof.
  induction l as [|a l IH]; intros Hf; [done|]. simpl.
  rewrite Hf by left. rewrite IH; [done|]. intros. apply Hf. by right.
Qed.

Lemma map_outcome_Forall2 {E A B} (f : A -> outcome E B) l bs :
  Forall2 (fun a b => f a = Ok b) l bs -> map_outcome f l = Ok bs.
Proof. induction 1 as [|a b l bs Hab _ IH]; [done|]. simpl. by rewrite Hab, IH. Qed.

(** Unfold a monadic equation [m ≫= f = Ok r] into its successful steps. *)
Lemma map_outcome_inv {E A B} (f : A -> outcome E B) l bs :
  map_outcome f l = Ok bs -> Forall2 (fun a b => f a = Ok b) l bs.
Proof.
  revert bs. induction l as [|a l IH]; intros bs; cbn; [by intros [= <-]|].
  destruct (f a) as [b| |] eqn:Ea; [|done..]. cbn.
  destruct (map_outcome f l) as [cs| |]; [|done..]. cbn. intros [= <-]. constructor; auto.
Qed.

Lemma bind_Ok_inv {E A B} (m : outcome E A) (f : A -> outcome E B) r :
  m ≫= f = Ok r -> exists a, m = Ok a /\ f a = Ok r.
Proof. destruct m; simpl; intros; try discriminate. by eexists. Qed.

Lemma expect_Ok {E F A} (m : outcome E A) (a : A) : m = Ok a -> @expect E F A m = Ok a.
Proof. by intros ->. Qed.

Lemma ok_or_Ok {E A} (o : option A) (e : E) a : ok_or o e = Ok a <-> o = Some a.
Proof. destruct o; simpl; split; congruence. Qed.

Ltac inv_outcome :=
  repeat match goal with
  | H : _ ≫= _ = Ok _ |- _ =>
    let a := fresh "a" in let Ha := fresh "Ha" in
    apply bind_Ok_inv in H as (a & Ha & H)
  | H : Ok _ = Ok _ |- _ => injection H as H
  | H : Err _ = Ok _ |- _ => discriminate H
  | H : Panic = Ok _ |- _ => discriminate H
  end.

Global Arguments Nat.div : simpl never.
Global Arguments Nat.modulo : simpl never.
Global Arguments Z.div : simpl never.
Global Arguments Z.modulo : simpl never.
Global Arguments Z.mul : simpl never.
Global Arguments Z.pow : simpl never.

Lemma Forall_exists_choice {A B} (P : A -> B -> Prop) l :
  Forall (fun a => exists b, P a b) l -> exists bs, Forall2 P l bs.
Proof.
  induction 1 as [|a l [b Hb] _ [bs IH]]; [by exists []|]. exists (b :: bs). by constructor.
Qed.

Lemma filter_all {A} (P : A -> Prop) `{!forall x, Decision (P x)} (l : list A) :
  Forall P l -> filter P l = l.
Proof. induction 1 as [|x l Hx _ IH]; [done|]. by rewrite filter_cons_True, IH. Qed.

Lemma filter_none {A} (P : A -> Prop) `{!forall x, Decision (P x)} (l : list A) :
  Forall (fun x => ~ P x) l -> filter P l = [].
Proof. induction 1 as [|x l Hx _ IH]; [done|]. by rewrite filter_cons_False, IH. Qed.

Lemma nth_lookup_lt {A} (l : list A) i d : i < length l -> l !! i = Some (nth i l d).
Proof. intros Hi. destruct (nth_lookup_or_length l i d); [done|lia]. Qed.

(** Two successful runs of one computation return one value. *)
Ltac unify_ok :=
  repeat match goal with
  | H1 : ?m = Ok ?x, H2 : ?m = Ok ?y |- _ =>
    rewrite H1 in H2; injection H2 as H2; try subst y; try subst x
  end.

(** ** Sums over lists and maps *)

Definition zsum (l : list Z) : Z := foldr Z.add 0%Z l.

Global Instance zsum_perm : Proper ((≡ₚ) ==> (=)) zsum.
Proof. intros l l' P. unfold zsum. induction P; simpl; lia. Qed.

(** The head of a sum over key-value pairs. *)
Lemma zsum_cons {K V} (f : V -> Z) (k : K) v l :
  zsum ((fun p : K * V => f p.2) <$> (k, v) :: l) = (f v + zsum ((fun p : K * V => f p.2) <$> l))%Z.
Proof. done. Qed.

Lemma zsum_app l l' : zsum (l ++ l') = (zsum l + zsum l')%Z.
Proof. induction l as [|x l IH]; simpl; [done|]. unfold zsum in *. simpl in *. lia. Qed.

(** The sum of [f] over the values of a map. *)
Definition msum {K V} `{Countable K} (f : V -> Z) (m : gmap K V) : Z :=
  zsum ((fun p => f p.2) <$> map_to_list m).

Section MapSums.
Context {K V : Type} `{Countable K}.
Implicit Types (f g : V -> Z) (m : gmap K V).

Lemma msum_empty f : msum f (∅ : gmap K V) = 0%Z.
Proof. unfold msum. by rewrite map_to_list_empty. Qed.

Lemma msum_insert_new f m k v : m !! k = None -> msum f (<[k := v]> m) = (f v + msum f m)%Z.
Proof. intros Hk. unfold msum. by rewrite map_to_list_insert. Qed.

Lemma msum_delete f m k v : m !! k = Some v ->
  msum f m = (f v + msum f (base.delete k m))%Z.
Proof. intros Hk. unfold msum. by rewrite <- (map_to_list_delete m k v Hk). Qed.

Lemma msum_insert_old f m k v w : m !! k = Some w ->
  msum f (<[k := v]> m) = (msum f m + f v - f w)%Z.
Proof.
  intros Hk. rewrite (msum_delete f m k w Hk), <- insert_delete_eq.
  rewrite msum_insert_new by apply lookup_delete_eq. lia.
Qed.

Lemma zsum_le (l : list (K * V)) f g : Forall (fun p => f p.2 <= g p.2)%Z l ->
  (zsum ((fun p => f p.2) <$> l) <= zsum ((fun p => g p.2) <$> l))%Z.
Proof.
  induction 1 as [|p l Hp _ IH]; [done|]. rewrite !fmap_cons. by apply Z.add_le_mono.
Qed.

Lemma msum_list_to_map f (l : list (K * V)) : NoDup l.*1 ->
  msum f (list_to_map l : gmap K V) = zsum ((fun p => f p.2) <$> l).
Proof. intros Hn. unfold msum. by rewrite map_to_list_to_map. Qed.

Lemma msum_hash_iter `{HO : !HashOrder K} `{!HashOrderLaws K} f m :
  zsum ((fun p => f p.2) <$> hash_iter m) = msum f m.
Proof. unfold msum. by rewrite (hash_iter_perm _ m). Qed.

Lemma hash_iter_lookup `{HO : !HashOrder K} `{!HashOrderLaws K} m k v :
  (k, v) ∈ hash_iter m <-> m !! k = Some v.
Proof. by rewrite (hash_iter_perm _ m), elem_of_map_to_list. Qed.

Lemma hash_iter_nodup `{HO : !HashOrder K} `{!HashOrderLaws K} m : NoDup (hash_iter m).*1.
Proof. rewrite (hash_iter_perm _ m). apply NoDup_fst_map_to_list. Qed.

Lemma msum_nonneg f m : map_Forall (fun _ v => 0 <= f v)%Z m -> (0 <= msum f m)%Z.
Proof.
  intros Hf. unfold msum. rewrite map_Forall_to_list in Hf. revert Hf.
  induction (map_to_list m) as [|[k v] l IH]; intros Hf; [done|].
  apply Forall_cons in Hf as [Hv Hf]. rewrite fmap_cons. cbn.
  apply Z.add_nonneg_nonneg; [done|by apply IH].
Qed.

End MapSums.
