(* ===== verification/Mpf.v ===== *)
(** * Merkle Patricia Forestry ([green-order-cardano-agent/src/mpf.rs])

    The authenticated store of an Aleph account.  [Trie] is the off-chain
    store (a sorted map from keys to values), [root_for] its Merkle root,
    [proof_for_path] the generator of inclusion and exclusion proofs, and
    [including]/[excluding] the verifier that the on-chain script also runs.

    The hash is [cml_crypto::blake2b256], a library function: it is a
    parameter of every definition (class [Hashing]). *)

From stdpp Require Import base gmap list sorting.
From Stdlib Require Import ZArith Lia Strings.Byte.
From S2P Require Import Prelude.

(** The hash functions the code takes from [cml_crypto]. *)
Class Hashing := {
  blake2b256 : bytes -> bytes;
  blake2b224 : bytes -> bytes;
}.

(** What their documentation promises: fixed digest sizes. *)
Class HashingLaws `{Hashing} : Prop := {
  blake2b256_length : forall m, length (blake2b256 m) = 32;
  blake2b224_length : forall m, length (blake2b224 m) = 28;
}.

(** Two different messages with one digest: what a theorem that rests on the
    hash exhibits when its conclusion fails. *)
Definition collision `{Hashing} : Prop :=
  exists x y : bytes, x <> y /\ blake2b256 x = blake2b256 y.

Section Mpf.
Context `{H256 : Hashing}.

Definition EMPTY_ROOT : bytes := replicate 32 x00.

Record Neighbor := mkNeighbor {
  nb_nibble : byte;
  nb_prefix : bytes;
  nb_root : bytes;
}.

Inductive ProofStep :=
| Branch (skip : nat) (neighbors : bytes)
| Fork (skip : nat) (neighbor : Neighbor)
| LeafStep (skip : nat) (key value : bytes).

Inductive MpfError :=
| InvalidBranchNeighbors (actual : nat)
| InvalidProof
| ExistingKey
| MissingKey
| PathExhausted.

Global Instance mpf_error_eq_dec : EqDecision MpfError.
Proof. solve_decision. Defined.

(** [struct Trie { leaves: BTreeMap<Vec<u8>, Vec<u8>> }]. *)
Record Trie := mkTrie { trie_leaves : gmap bytes bytes }.

Record Leaf := mkLeaf {
  leaf_key : bytes;
  leaf_path : bytes;
  leaf_value : bytes;
  leaf_value_hash : bytes;
}.

Definition hash (m : bytes) : bytes := blake2b256 m.

Definition combine (left right : bytes) : bytes := hash (left ++ right).

Definition ensure_cursor (cursor : nat) : outcome MpfError unit :=
  if 64 <? cursor then Err PathExhausted else Ok tt.

(** [path[index / 2]] is in range for a 32-byte path and [index < 64]. *)
Definition nibble (path : bytes) (index : nat) : outcome MpfError nat :=
  if 64 <=? index then Err PathExhausted
  else
    let byte := byte_val (nth (index / 2) path x00) in
    if index mod 2 =? 0 then Ok (byte / 16) else Ok (byte mod 16).

Definition nibbles (path : bytes) (start stop : nat) : outcome MpfError bytes :=
  if (stop <? start) || (64 <? stop) then Err PathExhausted
  else map_outcome (fun ix => n ← nibble path ix; Ok (as_u8 n)) (seq start (stop - start)).

Definition suffix (path : bytes) (cursor : nat) : outcome MpfError bytes :=
  ensure_cursor cursor ≫= fun _ =>
  if cursor mod 2 =? 0 then Ok (xff :: drop (cursor / 2) path)
  else n ← nibble path cursor; Ok (x00 :: as_u8 n :: drop ((cursor + 1) / 2) path).

(** The 2-, 4-, 8- and 16-leaf Merkle trees over child roots; the slices are
    taken from an array of 16 roots. *)
Definition at_root (roots : list bytes) (i : nat) : bytes := nth i roots [].

Definition merkle_2_roots (roots : list bytes) : bytes :=
  combine (at_root roots 0) (at_root roots 1).
Definition merkle_4_roots (roots : list bytes) : bytes :=
  combine (merkle_2_roots (take 2 roots)) (merkle_2_roots (take 2 (drop 2 roots))).
Definition merkle_8_roots (roots : list bytes) : bytes :=
  combine (merkle_4_roots (take 4 roots)) (merkle_4_roots (take 4 (drop 4 roots))).
Definition merkle_16_roots (roots : list bytes) : bytes :=
  combine (merkle_8_roots (take 8 roots)) (merkle_8_roots (take 8 (drop 8 roots))).

Definition branch_neighbors (branch : nat) (roots : list bytes) : bytes :=
  let neighbor_8 :=
    if branch <? 8 then merkle_8_roots (take 8 (drop 8 roots))
    else merkle_8_roots (take 8 roots) in
  let group_8_base := branch / 8 * 8 in
  let neighbor_4_base := group_8_base + (if branch mod 8 <? 4 then 4 else 0) in
  let neighbor_4 := merkle_4_roots (take 4 (drop neighbor_4_base roots)) in
  let group_4_base := branch / 4 * 4 in
  let neighbor_2_base := group_4_base + (if branch mod 4 <? 2 then 2 else 0) in
  let neighbor_2 := merkle_2_roots (take 2 (drop neighbor_2_base roots)) in
  let neighbor_1 := at_root roots (Nat.lxor branch 1) in
  neighbor_8 ++ neighbor_4 ++ neighbor_2 ++ neighbor_1.

Definition sparse_merkle_16 (me : nat) (me_hash : bytes) (neighbor : nat)
    (neighbor_hash : bytes) : bytes :=
  merkle_16_roots (<[neighbor := neighbor_hash]> (<[me := me_hash]> (replicate 16 EMPTY_ROOT))).

Definition validate_neighbors (neighbors : bytes) : outcome MpfError unit :=
  if length neighbors =? 128 then Ok tt
  else Err (InvalidBranchNeighbors (length neighbors)).

Definition merkle_16 (branch : nat) (root neighbors : bytes) : outcome MpfError bytes :=
  validate_neighbors neighbors ≫= fun _ =>
  let neighbor_8 := take 32 neighbors in
  let neighbor_4 := take 32 (drop 32 neighbors) in
  let neighbor_2 := take 32 (drop 64 neighbors) in
  let neighbor_1 := take 32 (drop 96 neighbors) in
  let pair := if branch mod 2 =? 0 then combine root neighbor_1 else combine neighbor_1 root in
  let group_4 := if branch mod 4 <? 2 then combine pair neighbor_2 else combine neighbor_2 pair in
  let group_8 :=
    if branch mod 8 <? 4 then combine group_4 neighbor_4 else combine neighbor_4 group_4 in
  if branch <? 8 then Ok (combine group_8 neighbor_8) else Ok (combine neighbor_8 group_8).

Definition branch_root (path : bytes) (cursor next_cursor : nat) (root neighbors : bytes)
    : outcome MpfError bytes :=
  validate_neighbors neighbors ≫= fun _ =>
  branch ← nibble path next_cursor;
  prefix ← nibbles path cursor next_cursor;
  m ← merkle_16 branch root neighbors;
  Ok (combine prefix m).

Definition fork_root (path : bytes) (cursor next_cursor : nat) (root : bytes)
    (neighbor : Neighbor) : outcome MpfError bytes :=
  branch ← nibble path next_cursor;
  if (branch =? byte_val (nb_nibble neighbor)) || (15 <? byte_val (nb_nibble neighbor)) then
    Err InvalidProof
  else
    prefix ← nibbles path cursor next_cursor;
    let neighbor_root := combine (nb_prefix neighbor) (nb_root neighbor) in
    Ok (combine prefix
          (sparse_merkle_16 branch root (byte_val (nb_nibble neighbor)) neighbor_root)).

(** [cursor.checked_add(skip)] followed by [ensure_cursor]. *)
Definition next_position (cursor skip : nat) : outcome MpfError nat :=
  next_cursor ← ok_or (checked_add_usize cursor skip) PathExhausted;
  ensure_cursor next_cursor ≫= fun _ => Ok next_cursor.

(** The [Leaf] arm builds the neighbor of a fork from the other leaf's path. *)
Definition leaf_neighbor (key value : bytes) (next_cursor : nat) : outcome MpfError Neighbor :=
  prefix ← suffix key (next_cursor + 1);
  n ← nibble key next_cursor;
  Ok (mkNeighbor (as_u8 n) prefix value).

Fixpoint including (path value_hash : bytes) (cursor : nat) (proof : list ProofStep)
    : outcome MpfError bytes :=
  ensure_cursor cursor ≫= fun _ =>
  match proof with
  | [] => s ← suffix path cursor; Ok (combine s value_hash)
  | Branch skip neighbors :: steps =>
    validate_neighbors neighbors ≫= fun _ =>
    next_cursor ← next_position cursor skip;
    root ← including path value_hash (next_cursor + 1) steps;
    branch_root path cursor next_cursor root neighbors
  | Fork skip neighbor :: steps =>
    next_cursor ← next_position cursor skip;
    root ← including path value_hash (next_cursor + 1) steps;
    fork_root path cursor next_cursor root neighbor
  | LeafStep skip key value :: steps =>
    next_cursor ← next_position cursor skip;
    root ← including path value_hash (next_cursor + 1) steps;
    neighbor ← leaf_neighbor key value next_cursor;
    fork_root path cursor next_cursor root neighbor
  end.

Fixpoint excluding (path : bytes) (cursor : nat) (proof : list ProofStep)
    : outcome MpfError bytes :=
  ensure_cursor cursor ≫= fun _ =>
  match proof with
  | [] => Ok EMPTY_ROOT
  | Branch skip neighbors :: steps =>
    validate_neighbors neighbors ≫= fun _ =>
    next_cursor ← next_position cursor skip;
    root ← excluding path (next_cursor + 1) steps;
    branch_root path cursor next_cursor root neighbors
  | [Fork skip neighbor] =>
    if 15 <? byte_val (nb_nibble neighbor) then Err InvalidProof
    else
      prefix ← (if 0 <? skip then nibbles path cursor (cursor + skip) else Ok []);
      Ok (combine (prefix ++ [nb_nibble neighbor] ++ nb_prefix neighbor) (nb_root neighbor))
  | Fork skip neighbor :: steps =>
    next_cursor ← next_position cursor skip;
    root ← excluding path (next_cursor + 1) steps;
    fork_root path cursor next_cursor root neighbor
  | [LeafStep _ key value] => s ← suffix key cursor; Ok (combine s value)
  | LeafStep skip key value :: steps =>
    next_cursor ← next_position cursor skip;
    root ← excluding path (next_cursor + 1) steps;
    neighbor ← leaf_neighbor key value next_cursor;
    fork_root path cursor next_cursor root neighbor
  end.

(** [== Ok(root)] on results. *)
Definition is_ok_root (m : outcome MpfError bytes) (root : bytes) : bool :=
  match m with Ok r => bool_decide (r = root) | _ => false end.

Definition has (root key value : bytes) (proof : list ProofStep) : bool :=
  is_ok_root (including (hash key) (hash value) 0 proof) root.

Definition miss (root key : bytes) (proof : list ProofStep) : bool :=
  is_ok_root (excluding (hash key) 0 proof) root.

Definition insert (root key value : bytes) (proof : list ProofStep) : outcome MpfError bytes :=
  let path := hash key in
  r ← excluding path 0 proof;
  if bool_decide (r <> root) then Err InvalidProof
  else including path (hash value) 0 proof.

Definition update (root key : bytes) (proof : list ProofStep) (old_value new_value : bytes)
    : outcome MpfError bytes :=
  let path := hash key in
  r ← including path (hash old_value) 0 proof;
  if bool_decide (r <> root) then Err InvalidProof
  else including path (hash new_value) 0 proof.

Definition delete (root key value : bytes) (proof : list ProofStep) : outcome MpfError bytes :=
  let path := hash key in
  r ← including path (hash value) 0 proof;
  if bool_decide (r <> root) then Err InvalidProof
  else excluding path 0 proof.

(** [(cursor..64)] *)
Definition positions_from (cursor : nat) : list nat := seq cursor (64 - cursor).

(** [nibble(a, ix) != nibble(b, ix)], both results. *)
Definition nibble_neq (a b : outcome MpfError nat) : bool :=
  match a, b with
  | Ok x, Ok y => negb (x =? y)
  | Err x, Err y => bool_decide (x <> y)
  | _, _ => true
  end.

Fixpoint common_split_at (first : Leaf) (leaves : list Leaf) (ixs : list nat)
    : outcome MpfError nat :=
  match ixs with
  | [] => Err PathExhausted
  | ix :: ixs =>
    nib ← nibble (leaf_path first) ix;
    if existsb (fun leaf => nibble_neq (nibble (leaf_path leaf) ix) (Ok nib)) leaves
    then Ok ix
    else common_split_at first leaves ixs
  end.

Definition common_split (leaves : list Leaf) (cursor : nat) : outcome MpfError nat :=
  first ← ok_or (head leaves) InvalidProof;
  common_split_at first leaves (positions_from cursor).

Definition first_divergence (lhs rhs : bytes) (cursor : nat) : outcome MpfError nat :=
  ok_or (find (fun ix => nibble_neq (nibble lhs ix) (nibble rhs ix)) (positions_from cursor))
    PathExhausted.

(** [children[i].push(leaf)] for each leaf in order. *)
Fixpoint push_groups (children : list (list Leaf)) (leaves : list Leaf) (split : nat)
    : outcome MpfError (list (list Leaf)) :=
  match leaves with
  | [] => Ok children
  | leaf :: leaves =>
    i ← nibble (leaf_path leaf) split;
    push_groups (alter (fun g => g ++ [leaf]) i children) leaves split
  end.

Definition child_groups (leaves : list Leaf) (split : nat)
    : outcome MpfError (list (list Leaf)) :=
  push_groups (replicate 16 []) leaves split.

(** [root_for], [child_roots]: the recursion descends to a strictly larger
    cursor, so [fuel = 65 - cursor] levels are enough; its failures are the
    [expect]s of the source. *)
Fixpoint root_for (fuel : nat) (leaves : list Leaf) (cursor : nat) : outcome MpfError bytes :=
  match leaves with
  | [] => Ok EMPTY_ROOT
  | [leaf] =>
    s ← expect (suffix (leaf_path leaf) cursor);
    Ok (combine s (leaf_value_hash leaf))
  | leaf :: _ =>
    match fuel with
    | O => Panic
    | S fuel =>
      split ← expect (common_split leaves cursor);
      children ← expect (child_groups leaves split);
      child_roots ← map_outcome (fun g => root_for fuel g (split + 1)) children;
      let subtree := merkle_16_roots child_roots in
      prefix ← expect (nibbles (leaf_path leaf) cursor split);
      Ok (combine prefix subtree)
    end
  end.

Definition depth_fuel (cursor : nat) : nat := 65 - cursor.

Definition child_roots (children : list (list Leaf)) (cursor : nat)
    : outcome MpfError (list bytes) :=
  map_outcome (fun g => root_for (depth_fuel cursor) g cursor) children.

Definition sparse_neighbor_step (skip cursor nib : nat) (leaves : list Leaf)
    : outcome MpfError ProofStep :=
  match leaves with
  | [leaf] => Ok (LeafStep skip (leaf_path leaf) (leaf_value_hash leaf))
  | _ =>
    split ← common_split leaves cursor;
    children ← child_groups leaves split;
    roots ← child_roots children (split + 1);
    leaf0 ← ok_or (head leaves) InvalidProof;
    prefix ← nibbles (leaf_path leaf0) cursor split;
    Ok (Fork skip (mkNeighbor (as_u8 nib) prefix (merkle_16_roots roots)))
  end.

(** The non-empty children other than the path's own, with their indices. *)
Definition branch_others (branch : nat) (children : list (list Leaf))
    : list (nat * list Leaf) :=
  filter (fun c => c.1 <> branch /\ c.2 <> []) (imap pair children).

Definition proof_step_for_branch (path : bytes) (cursor split branch : nat)
    (children : list (list Leaf)) : outcome MpfError ProofStep :=
  match branch_others branch children with
  | [(nib, leaves)] => sparse_neighbor_step (split - cursor) (split + 1) nib leaves
  | _ =>
    roots ← child_roots children (split + 1);
    b ← nibble path split;
    Ok (Branch (split - cursor) (branch_neighbors b roots))
  end.

Fixpoint proof_for_path (fuel : nat) (leaves : list Leaf) (path : bytes) (cursor : nat)
    : outcome MpfError (list ProofStep) :=
  match leaves with
  | [] => Ok []
  | [leaf] =>
    if bool_decide (leaf_path leaf = path) then Ok []
    else
      split ← first_divergence path (leaf_path leaf) cursor;
      Ok [LeafStep (split - cursor) (leaf_path leaf) (leaf_value_hash leaf)]
  | _ =>
    match fuel with
    | O => Panic
    | S fuel =>
      split ← common_split leaves cursor;
      branch ← nibble path split;
      children ← child_groups leaves split;
      step ← proof_step_for_branch path cursor split branch children;
      match nth branch children [] with
      | [] => Ok [step]
      | group =>
        steps ← proof_for_path fuel group path (split + 1);
        Ok (step :: steps)
      end
    end
  end.

(** ** The trie *)

Definition Trie_empty : Trie := mkTrie ∅.
Definition from_leaves (leaves : gmap bytes bytes) : Trie := mkTrie leaves.

Definition to_leaf (kv : bytes * bytes) : Leaf :=
  mkLeaf kv.1 (hash kv.1) kv.2 (hash kv.2).

Definition mpf_leaves (t : Trie) : list Leaf := to_leaf <$> btree_iter (trie_leaves t).

Definition Trie_root (t : Trie) : outcome MpfError bytes :=
  root_for (depth_fuel 0) (mpf_leaves t) 0.

(** The [&mut self] operations return the trie they leave behind with their
    result. *)
Definition Trie_insert (t : Trie) (key value : bytes) : Trie * outcome MpfError bytes :=
  match trie_leaves t !! key with
  | Some _ => (t, Err ExistingKey)
  | None => let t' := mkTrie (<[key := value]> (trie_leaves t)) in (t', Trie_root t')
  end.

Definition Trie_update (t : Trie) (key value : bytes) : Trie * outcome MpfError bytes :=
  match trie_leaves t !! key with
  | None => (t, Err MissingKey)
  | Some _ => let t' := mkTrie (<[key := value]> (trie_leaves t)) in (t', Trie_root t')
  end.

Definition Trie_delete (t : Trie) (key : bytes) : Trie * outcome MpfError bytes :=
  match trie_leaves t !! key with
  | None => (t, Err MissingKey)
  | Some _ => let t' := mkTrie (base.delete key (trie_leaves t)) in (t', Trie_root t')
  end.

Definition proof_for_missing (t : Trie) (key : bytes) : outcome MpfError (list ProofStep) :=
  match trie_leaves t !! key with
  | Some _ => Err ExistingKey
  | None => proof_for_path (depth_fuel 0) (mpf_leaves t) (hash key) 0
  end.

Definition proof_for_present (t : Trie) (key : bytes) : outcome MpfError (list ProofStep) :=
  match trie_leaves t !! key with
  | None => Err MissingKey
  | Some _ => proof_for_path (depth_fuel 0) (mpf_leaves t) (hash key) 0
  end.

End Mpf.
