(* ===== verification/ToyHash.v ===== *)
(** * A concrete hash

    A polynomial digest of the documented widths.  It instantiates the hash
    parameter wherever a theorem is evaluated on a concrete input. *)

From stdpp Require Import base list.
From Stdlib Require Import ZArith Lia Strings.Byte.
From S2P Require Import Prelude Mpf.

Definition mask : Z := Eval vm_compute in (2 ^ 256 - 1)%Z.

Definition mix (m : bytes) : Z :=
  foldl (fun a b => Z.land mask ((a * 1000003 + Z.of_N (Byte.to_N b) + 17) * 69069))%Z 1%Z m.

Fixpoint low_bytes (n : nat) (z : Z) : bytes :=
  match n with
  | O => []
  | S m => default x00 (Byte.of_N (Z.to_N (Z.land z 255))) :: low_bytes m (Z.shiftr z 8)
  end.

Definition digest (n : nat) (m : bytes) : bytes :=
  rev (low_bytes n (Z.land mask (mix m * 0x9E3779B97F4A7C15F39CC0605CEDC8341082276BF3A27251F86C6A11D0C18E95))).

Lemma digest_length n m : length (digest n m) = n.
Proof.
  unfold digest. rewrite length_rev. generalize (Z.land mask (mix m * 0x9E3779B97F4A7C15F39CC0605CEDC8341082276BF3A27251F86C6A11D0C18E95)).
  induction n as [|n IH]; intros z; [done|]. simpl. by rewrite IH.
Qed.

Definition toy : Hashing := {| blake2b256 := digest 32; blake2b224 := digest 28 |}.

Lemma toy_laws : @HashingLaws toy.
Proof. split; intros m; apply digest_length. Qed.
