(* ===== verification/MpfProofs.v ===== *)
(** * Correctness of the Merkle Patricia Forestry *)

From stdpp Require Import base gmap list sorting.
From Stdlib Require Import ZArith Lia Strings.Byte.
From S2P Require Import Prelude Mpf ToyHash.

(** ** Nibbles of a path *)

(** The value [nibble] returns for an index in range. *)
Definition nibv (path : bytes) (i : nat) : nat :=
  let b := byte_val (nth (i / 2) path x00) in
  if i mod 2 =? 0 then b / 16 else b mod 16.

Lemma nibble_nibv p i : i < 64 -> nibble p i = Ok (nibv p i).
Proof.
  intros Hi. unfold nibble, nibv. destruct (64 <=? i) eqn:E; [apply Nat.leb_le in E; lia|].
  by destruct (i mod 2 =? 0).
Qed.

Lemma nibv_bound p i : nibv p i < 16.
Proof.
  unfold nibv. pose proof (byte_val_bound (nth (i / 2) p x00)).
  destruct (i mod 2 =? 0).
  - by apply Nat.Div0.div_lt_upper_bound.
  - by apply Nat.mod_upper_bound.
Qed.

(** A 32-byte path is determined by its 64 nibbles. *)
Lemma nibv_ext p q :
  length p = 32 -> length q = 32 -> (forall i, i < 64 -> nibv p i = nibv q i) -> p = q.
Proof.
  intros Hp Hq Hn. apply (nth_ext p q x00 x00); [congruence|]. intros k Hk.
  apply byte_val_inj.
  assert (H0 := Hn (2 * k) ltac:(lia)). assert (H1 := Hn (2 * k + 1) ltac:(lia)).
  unfold nibv in H0, H1.
  rewrite (Nat.mul_comm 2 k), Nat.Div0.mod_mul, Nat.div_mul in H0 by lia.
  replace ((2 * k + 1) / 2) with k in H1
    by (rewrite (Nat.mul_comm 2 k), Nat.div_add_l by lia; change (1 / 2) with 0; lia).
  replace ((2 * k + 1) mod 2) with 1 in H1
    by (rewrite (Nat.mul_comm 2 k), Nat.add_comm, Nat.Div0.mod_add; done).
  cbn [Nat.eqb] in H0, H1.
  pose proof (Nat.div_mod_eq (byte_val (nth k p x00)) 16).
  pose proof (Nat.div_mod_eq (byte_val (nth k q x00)) 16). lia.
Qed.

(** The byte string [nibbles] builds. *)
Definition nibs (p : bytes) (start stop : nat) : bytes :=
  (fun i => as_u8 (nibv p i)) <$> seq start (stop - start).

Lemma nibbles_nibs p a b : a <= b -> b <= 64 -> nibbles p a b = Ok (nibs p a b).
Proof.
  intros Hab Hb. unfold nibbles, nibs.
  destruct ((b <? a) || (64 <? b)) eqn:E.
  { apply orb_true_iff in E as [E|E]; apply Nat.ltb_lt in E; lia. }
  apply map_outcome_Ok. intros i Hi. apply elem_of_seq in Hi.
  by rewrite nibble_nibv by lia.
Qed.

Lemma nibs_eq p q a b :
  (forall i, a <= i < b -> nibv p i = nibv q i) -> nibs p a b = nibs q a b.
Proof.
  intros Hn. unfold nibs. apply list_fmap_ext. intros k i Hk.
  apply list_elem_of_lookup_2, elem_of_seq in Hk. rewrite Hn by lia. done.
Qed.

Lemma nibs_inj p q a b :
  nibs p a b = nibs q a b -> forall i, a <= i < b -> nibv p i = nibv q i.
Proof.
  unfold nibs. intros Heq i Hi.
  assert (Hk : seq a (b - a) !! (i - a) = Some i) by (apply lookup_seq; lia).
  assert (H1 := f_equal (fun l => l !! (i - a)) Heq). simpl in H1.
  rewrite !list_lookup_fmap, Hk in H1. simpl in H1. injection H1 as H1.
  pose proof (nibv_bound p i). pose proof (nibv_bound q i).
  apply as_u8_inj in H1; lia.
Qed.

Lemma nibs_length p a b : length (nibs p a b) = b - a.
Proof. unfold nibs. by rewrite length_fmap, length_seq. Qed.

Lemma nibs_split p a s b : a <= s -> s < b -> nibs p a b = nibs p a s ++ as_u8 (nibv p s) :: nibs p (s + 1) b.
Proof.
  intros Ha Hb. unfold nibs.
  replace (b - a) with ((s - a) + S (b - (s + 1))) by lia.
  rewrite seq_app, fmap_app. f_equal. replace (a + (s - a)) with s by lia.
  simpl. by replace (S s) with (s + 1) by lia.
Qed.

(** The byte string [suffix] builds. *)
Definition sfx (p : bytes) (c : nat) : bytes :=
  if c mod 2 =? 0 then xff :: drop (c / 2) p
  else x00 :: as_u8 (nibv p c) :: drop ((c + 1) / 2) p.

Lemma suffix_sfx p c : c <= 64 -> suffix p c = Ok (sfx p c).
Proof.
  intros Hc. unfold suffix, sfx, ensure_cursor.
  destruct (64 <? c) eqn:E; [apply Nat.ltb_lt in E; lia|]. simpl.
  destruct (c mod 2 =? 0) eqn:Em; [done|].
  assert (c < 64).
  { destruct (decide (c = 64)) as [->|]; [discriminate Em|lia]. }
  by rewrite nibble_nibv.
Qed.

(** ** Groups of leaves *)

(** The first index at or after [c] where the leaves do not agree. *)
Definition splits (L : list Leaf) (c s : nat) : Prop :=
  c <= s < 64 /\
  (forall l l' i, l ∈ L -> l' ∈ L -> c <= i < s ->
     nibv (leaf_path l) i = nibv (leaf_path l') i) /\
  exists l l', l ∈ L /\ l' ∈ L /\ nibv (leaf_path l) s <> nibv (leaf_path l') s.

(** Leaves of one subtree: distinct 32-byte paths that share the nibbles
    before the cursor. *)
Definition wf_group (L : list Leaf) (c : nat) : Prop :=
  NoDup (leaf_path <$> L) /\
  (forall l, l ∈ L -> length (leaf_path l) = 32) /\
  (forall l l' i, l ∈ L -> l' ∈ L -> i < c -> nibv (leaf_path l) i = nibv (leaf_path l') i).

(** The leaves of child [i] below a split at [s]. *)
Definition child (L : list Leaf) (s i : nat) : list Leaf :=
  filter (fun l => nibv (leaf_path l) s = i) L.

Lemma elem_of_child L s i l : l ∈ child L s i <-> nibv (leaf_path l) s = i /\ l ∈ L.
Proof. unfold child. by rewrite list_elem_of_filter. Qed.

Lemma splits_perm L L' c s : L ≡ₚ L' -> splits L c s -> splits L' c s.
Proof.
  intros HP (Hs & Hag & l & l' & Hl & Hl' & Hne). split_and!; [lia|lia| |].
  - intros a b i Ha Hb. apply Hag; by rewrite HP.
  - exists l, l'. by rewrite <- HP.
Qed.

Lemma splits_unique L c s s' : splits L c s -> splits L c s' -> s = s'.
Proof.
  intros (? & Hag & l & l' & Hl & Hl' & Hne) (? & Hag' & k & k' & Hk & Hk' & Hne').
  destruct (lt_eq_lt_dec s s') as [[Hlt|]|Hlt]; [|done|].
  - by specialize (Hag' l l' s Hl Hl' ltac:(lia)).
  - by specialize (Hag k k' s' Hk Hk' ltac:(lia)).
Qed.

Lemma common_split_at_spec f L n c s :
  f ∈ L -> splits L c s -> s < c + n -> c + n <= 64 ->
  common_split_at f L (seq c n) = Ok s.
Proof.
  revert c. induction n as [|n IH]; intros c Hf (Hs & Hag & Hex) Hn Hle; [lia|]. simpl.
  rewrite nibble_nibv by lia. simpl.
  destruct (existsb _ L) eqn:E.
  - apply existsb_exists in E as (l & Hin%list_elem_of_In & Hl).
    rewrite nibble_nibv in Hl by lia. simpl in Hl. apply negb_true_iff, Nat.eqb_neq in Hl.
    destruct (decide (c = s)) as [->|]; [done|]. exfalso. apply Hl. apply Hag; [done|done|lia].
  - assert (Hall : forall l, l ∈ L -> nibv (leaf_path l) c = nibv (leaf_path f) c).
    { intros l Hl. destruct (decide (nibv (leaf_path l) c = nibv (leaf_path f) c)); [done|].
      rewrite <- not_true_iff_false in E. destruct E. apply existsb_exists. exists l.
      split; [by apply list_elem_of_In|]. rewrite nibble_nibv by lia. simpl.
      by apply negb_true_iff, Nat.eqb_neq. }
    destruct (decide (c = s)) as [->|].
    { exfalso. destruct Hex as (l & l' & Hl & Hl' & Hne). apply Hne.
      rewrite (Hall l Hl), (Hall l' Hl'). done. }
    replace (S c) with (c + 1) by lia. apply IH; [done| |lia|lia]. split_and!; [lia|lia| |done].
    intros l l' i Hl Hl' Hi. apply Hag; [done|done|lia].
Qed.

Lemma common_split_splits L c s : splits L c s -> common_split L c = Ok s.
Proof.
  intros HS. pose proof HS as (Hs & _ & l & _ & Hl & _).
  unfold common_split, positions_from. destruct L as [|f L]; [by apply elem_of_nil in Hl|]. simpl.
  apply common_split_at_spec; [left|done|lia|lia].
Qed.

(** Two distinct paths part somewhere before their end. *)
Lemma first_difference p q c :
  length p = 32 -> length q = 32 -> p <> q ->
  (forall i, i < c -> nibv p i = nibv q i) ->
  exists s, c <= s < 64 /\ nibv p s <> nibv q s /\ forall i, i < s -> nibv p i = nibv q i.
Proof.
  intros Hp Hq Hne Hc.
  destruct (decide (Exists (fun i => nibv p i <> nibv q i) (seq 0 64))) as [Hex|Hno].
  - assert (Hmin : forall n, (exists i, i < n /\ nibv p i <> nibv q i) ->
        exists s, s < n /\ nibv p s <> nibv q s /\ forall i, i < s -> nibv p i = nibv q i).
    { induction n as [|n IH]; intros (i & Hi & Hd); [lia|].
      destruct (decide (Exists (fun j => nibv p j <> nibv q j) (seq 0 n))) as [Hl|Hl].
      - apply Exists_exists in Hl as (j & Hj%elem_of_seq & Hjd).
        destruct IH as (s & ? & ? & ?); [exists j; split; [lia|done]|].
        exists s. split_and!; [lia|done|done].
      - assert (Hbelow : forall j, j < n -> nibv p j = nibv q j).
        { intros j Hj. destruct (decide (nibv p j = nibv q j)); [done|].
          destruct Hl. apply Exists_exists. exists j. split; [apply elem_of_seq; lia|done]. }
        exists n. split_and!; [lia| |done].
        destruct (decide (i = n)) as [<-|]; [done|]. exfalso. apply Hd, Hbelow. lia. }
    apply Exists_exists in Hex as (i & Hi%elem_of_seq & Hd).
    destruct (Hmin 64) as (s & Hs & Hsd & Hbelow); [exists i; split; [lia|done]|].
    exists s. split_and!; [|lia|done|done].
    destruct (decide (s < c)); [|lia]. by destruct (Hsd (Hc s ltac:(lia))).
  - exfalso. apply Hne, nibv_ext; [done|done|]. intros i Hi.
    destruct (decide (nibv p i = nibv q i)); [done|]. destruct Hno.
    apply Exists_exists. exists i. split; [apply elem_of_seq; lia|done].
Qed.

Lemma splits_from_pair L c l l' s :
  l ∈ L -> l' ∈ L -> c <= s < 64 -> nibv (leaf_path l) s <> nibv (leaf_path l') s ->
  exists s', splits L c s' /\ s' <= s.
Proof.
  intros Hl Hl' [Hcs Hs64] Hne.
  assert (Hind : forall n c, s - c <= n -> c <= s -> exists s', splits L c s' /\ s' <= s).
  { clear c Hcs. induction n as [|n IH]; intros c Hn Hcs.
    - exists s. split; [|lia]. split_and!; [lia|lia|intros; lia|]. by exists l, l'.
    - destruct (decide (Exists (fun a => Exists (fun b =>
                  nibv (leaf_path a) c <> nibv (leaf_path b) c) L) L)) as [Hex|Hno].
      + apply Exists_exists in Hex as (a & Ha & (b & Hb & Hab)%Exists_exists).
        exists c. split; [|lia]. split_and!; [lia|lia|intros; lia|]. by exists a, b.
      + destruct (decide (c = s)) as [->|].
        { destruct Hno. apply Exists_exists. exists l. split; [done|].
          apply Exists_exists. by exists l'. }
        destruct (IH (c + 1)) as (s' & (? & Hag & Hd) & ?); [lia|lia|].
        exists s'. split; [|done]. split_and!; [lia|lia| |done].
        intros a b i Ha Hb Hi. destruct (decide (i = c)) as [->|]; [|apply Hag; [done|done|lia]].
        destruct (decide (nibv (leaf_path a) c = nibv (leaf_path b) c)); [done|].
        destruct Hno. apply Exists_exists. exists a. split; [done|].
        apply Exists_exists. by exists b. }
  by apply (Hind (s - c) c).
Qed.

Lemma wf_group_splits L c : wf_group L c -> 2 <= length L -> exists s, splits L c s.
Proof.
  intros (HND & Hlen & Hag) HL. destruct L as [|l [|l' L]]; simpl in HL; [lia|lia|].
  apply NoDup_cons in HND as [Hnin _].
  assert (Hl : l ∈ l :: l' :: L) by left. assert (Hl' : l' ∈ l :: l' :: L) by (right; left).
  destruct (first_difference (leaf_path l) (leaf_path l') c) as (s & ? & ? & _); auto.
  - intros E. apply Hnin. rewrite E. left.
  - destruct (splits_from_pair (l :: l' :: L) c l l' s) as (s' & ? & _); eauto.
Qed.

Lemma wf_group_perm L L' c : L ≡ₚ L' -> wf_group L c -> wf_group L' c.
Proof.
  intros HP (? & Hlen & Hag). split_and!.
  - by rewrite <- HP.
  - intros l. rewrite <- HP. apply Hlen.
  - intros l l' i. rewrite <- HP. apply Hag.
Qed.

Lemma NoDup_fmap_filter {A B} (f : A -> B) (P : A -> Prop) `{!forall x, Decision (P x)} l :
  NoDup (f <$> l) -> NoDup (f <$> filter P l).
Proof.
  induction l as [|a l IH]; [done|]. intros [Hn HND]%NoDup_cons.
  rewrite filter_cons. case_decide; [|auto]. apply NoDup_cons. split; [|auto].
  intros (b & Heq & Hb)%list_elem_of_fmap. apply Hn. rewrite Heq.
  apply list_elem_of_filter in Hb as [_ Hb]. by apply list_elem_of_fmap_2.
Qed.

Lemma wf_group_child L c s i : wf_group L c -> splits L c s -> wf_group (child L s i) (s + 1).
Proof.
  intros (HND & Hlen & Hag) (Hs & Hag' & _). split_and!.
  - by apply NoDup_fmap_filter.
  - intros l [_ Hl]%elem_of_child. auto.
  - intros l l' j [Hi Hl]%elem_of_child [Hi' Hl']%elem_of_child Hj.
    destruct (decide (j < c)); [by apply Hag|].
    destruct (decide (j = s)) as [->|]; [congruence|]. apply Hag'; [done|done|lia].
Qed.

(** [child_groups] distributes the leaves over the sixteen children. *)
Lemma push_groups_spec L s (G : nat -> list Leaf) :
  s < 64 ->
  push_groups (G <$> seq 0 16) L s = Ok ((fun i => G i ++ child L s i) <$> seq 0 16).
Proof.
  intros Hs. revert G. induction L as [|l L IH]; intros G.
  - cbn [push_groups]. f_equal. apply list_fmap_ext. intros _ i _. unfold child.
    by rewrite filter_nil, app_nil_r.
  - cbn [push_groups]. rewrite nibble_nibv by done. cbn [mbind outcome_bind].
    set (n := nibv (leaf_path l) s).
    assert (Hn : n < 16) by apply nibv_bound.
    replace (alter (fun g => g ++ [l]) n (G <$> seq 0 16))
      with ((fun i => if decide (i = n) then G i ++ [l] else G i) <$> seq 0 16).
    + rewrite IH. f_equal. apply list_fmap_ext. intros _ i _. unfold child.
      rewrite filter_cons. fold n. repeat case_decide; try congruence.
      by rewrite <- app_assoc.
    + apply list_eq. intros k. rewrite list_lookup_fmap.
      destruct (decide (k < 16)) as [Hk|Hk].
      * rewrite lookup_seq_lt by done. cbn [fmap option_fmap option_map Nat.add].
        destruct (decide (k = n)) as [->|Hkn].
        -- rewrite list_lookup_alter_eq, list_lookup_fmap, lookup_seq_lt by done. done.
        -- rewrite list_lookup_alter_ne by done. rewrite list_lookup_fmap, lookup_seq_lt by done. done.
      * rewrite (lookup_ge_None_2 (seq 0 16)) by (rewrite length_seq; lia). symmetry.
        apply lookup_ge_None_2. rewrite length_alter, length_fmap, length_seq. lia.
Qed.

Lemma child_groups_spec L s : s < 64 -> child_groups L s = Ok (child L s <$> seq 0 16).
Proof. intros Hs. apply (push_groups_spec L s (fun _ => [])); done. Qed.

Section WithHash.
Context `{HL : HashingLaws}.

(** ** The root as a relation

    [is_root L c r]: the Merkle root of the subtree of [L] at cursor [c] is
    [r], without fuel, failures or an order on the leaves. *)
Inductive is_root : list Leaf -> nat -> bytes -> Prop :=
| is_root_nil c : is_root [] c EMPTY_ROOT
| is_root_leaf l c : c <= 64 ->
    is_root [l] c (combine (sfx (leaf_path l) c) (leaf_value_hash l))
| is_root_node L c s p rs :
    splits L c s ->
    (forall l i, l ∈ L -> c <= i < s -> nibv p i = nibv (leaf_path l) i) ->
    length rs = 16 ->
    (forall i, i < 16 -> is_root (child L s i) (s + 1) (at_root rs i)) ->
    is_root L c (combine (nibs p c s) (merkle_16_roots rs)).

Lemma combine_length a b : length (combine a b) = 32.
Proof. apply blake2b256_length. Qed.

Lemma EMPTY_ROOT_length : length EMPTY_ROOT = 32.
Proof. done. Qed.

Lemma is_root_length L c r : is_root L c r -> length r = 32.
Proof. destruct 1; [apply EMPTY_ROOT_length|apply combine_length..]. Qed.

Lemma list_of_roots rs : length rs = 16 -> at_root rs <$> seq 0 16 = rs.
Proof.
  intros Hlen. apply list_eq. intros k. rewrite list_lookup_fmap.
  destruct (decide (k < 16)).
  - rewrite lookup_seq_lt by done. simpl. unfold at_root. symmetry.
    apply nth_lookup_lt. lia.
  - rewrite (lookup_ge_None_2 (seq 0 16)) by (rewrite length_seq; lia).
    symmetry. apply lookup_ge_None_2. lia.
Qed.

(** The executable [root_for] computes the relation with enough fuel. *)
Lemma is_root_root_for L c r f : is_root L c r -> depth_fuel c <= f -> root_for f L c = Ok r.
Proof.
  unfold depth_fuel. intros HR. revert f. induction HR as [c|l c Hc|L c s p rs HS Hp Hlen HR IH]; intros f Hf.
  - by destruct f.
  - destruct f; simpl; by rewrite suffix_sfx.
  - pose proof HS as (Hs & Hag & a & b & Ha & Hb & Hab).
    destruct L as [|l [|l' L]]; [by apply elem_of_nil in Ha| |].
    { apply list_elem_of_singleton in Ha as ->. by apply list_elem_of_singleton in Hb as ->. }
    destruct f as [|f]; [lia|]. cbn [root_for].
    rewrite (common_split_splits _ _ _ HS). cbn [expect mbind outcome_bind].
    rewrite child_groups_spec by lia. cbn [expect mbind outcome_bind].
    rewrite (map_outcome_Forall2 _ _ rs).
    + cbn [mbind outcome_bind]. rewrite nibbles_nibs by lia. simpl.
      rewrite (nibs_eq (leaf_path l) p); [done|]. intros i Hi. symmetry. apply Hp; [left|lia].
    + rewrite <- (list_of_roots rs Hlen). apply Forall2_fmap_2, Forall_Forall2_diag, Forall_forall.
      intros i Hi%elem_of_seq. apply IH; lia.
Qed.

Global Instance child_Permutation : Proper ((≡ₚ) ==> (=) ==> (=) ==> (≡ₚ)) child.
Proof. intros L L' HP s ? <- i ? <-. unfold child. by rewrite HP. Qed.

Lemma is_root_perm L L' c r : is_root L c r -> L ≡ₚ L' -> is_root L' c r.
Proof.
  intros HR. revert L'. induction HR as [c|l c Hc|L c s p rs HS Hp Hlen HR IH]; intros L' HP.
  - apply Permutation_nil in HP. subst. constructor.
  - apply Permutation_length_1_inv in HP. subst. by constructor.
  - apply is_root_node; [by eapply splits_perm| |done|].
    + intros l i. rewrite <- HP. apply Hp.
    + intros i Hi. apply IH; [done|]. by rewrite HP.
Qed.

(** Every well-formed group has a root. *)
Lemma is_root_exists L c : wf_group L c -> c <= 64 -> exists r, is_root L c r.
Proof.
  remember (65 - c) as n eqn:Hn. revert L c Hn.
  induction n as [n IH] using lt_wf_ind. intros L c Hn Hwf Hc.
  destruct L as [|l [|l' L]]; [eexists; constructor|eexists; by constructor|].
  set (L0 := l :: l' :: L) in *.
  destruct (wf_group_splits L0 c Hwf) as [s HS]; [simpl; lia|].
  pose proof HS as (Hs & Hag & _).
  assert (Hch : Forall (fun i => exists r, is_root (child L0 s i) (s + 1) r) (seq 0 16)).
  { apply Forall_forall. intros i _. apply (IH (65 - (s + 1)));
      [lia|done|by eapply wf_group_child|lia]. }
  apply Forall_exists_choice in Hch as [rs Hrs].
  exists (combine (nibs (leaf_path l) c s) (merkle_16_roots rs)).
  apply is_root_node; [done| | |].
  - intros k i Hk Hi. apply Hag; [left|done|done].
  - apply Forall2_length in Hrs. by rewrite length_seq in Hrs.
  - intros i Hi. pose proof (Forall2_length _ _ _ Hrs) as Hlen. rewrite length_seq in Hlen.
    destruct (lookup_lt_is_Some_2 rs i) as [r Hr]; [lia|].
    unfold at_root. rewrite (nth_lookup_Some rs i [] r Hr).
    apply (Forall2_lookup_lr _ _ _ i i r Hrs); [|done]. by apply lookup_seq_lt.
Qed.

(** ** The sixteen-way Merkle node *)

Lemma validate_neighbors_128 ns : length ns = 128 -> validate_neighbors ns = Ok tt.
Proof. intros E. unfold validate_neighbors. by rewrite E. Qed.

Lemma take_drop_parts (a b c d : bytes) :
  length a = 32 -> length b = 32 -> length c = 32 -> length d = 32 ->
  take 32 (a ++ b ++ c ++ d) = a /\ take 32 (drop 32 (a ++ b ++ c ++ d)) = b /\
  take 32 (drop 64 (a ++ b ++ c ++ d)) = c /\ take 32 (drop 96 (a ++ b ++ c ++ d)) = d.
Proof.
  intros Ha Hb Hc Hd. split_and!.
  - by rewrite take_app_length'.
  - by rewrite drop_app_length', take_app_length'.
  - rewrite (app_assoc a), drop_app_length', take_app_length'; [done..|].
    rewrite length_app; lia.
  - rewrite (app_assoc b), (app_assoc a), drop_app_length' by (rewrite !length_app; lia).
    by rewrite take_ge by lia.
Qed.

(** [merkle_16] rebuilds the sixteen-way root from one child and the
    neighbours [branch_neighbors] computed for it. *)
Lemma merkle_16_branch_neighbors b r rs :
  b < 16 -> length rs = 16 -> (forall i, i < 16 -> length (at_root rs i) = 32) ->
  merkle_16 b r (branch_neighbors b rs) = Ok (merkle_16_roots (<[b := r]> rs)).
Proof.
  intros Hb Hlen H32.
  do 16 (destruct rs as [|? rs]; [discriminate Hlen|]). destruct rs; [|discriminate Hlen].
  unfold branch_neighbors, merkle_16.
  match goal with |- context [validate_neighbors (?a ++ ?b ++ ?c ++ ?d)] =>
    assert (Ha : length a = 32) by (destruct (_ <? 8); apply combine_length);
    assert (Hb' : length b = 32) by apply combine_length;
    assert (Hc : length c = 32) by apply combine_length;
    assert (Hd : length d = 32);
    [|destruct (take_drop_parts a b c d Ha Hb' Hc Hd) as (-> & -> & -> & ->);
      rewrite validate_neighbors_128 by (rewrite !length_app; lia)]
  end.
  { apply H32. do 16 (destruct b as [|b]; [vm_compute; lia|]). lia. }
  clear -Hb. do 16 (destruct b as [|b]; [reflexivity|]). lia.
Qed.

(** ** Nodes rebuilt by the verifier *)

Lemma next_position_ok c s : c <= s -> s <= 64 -> next_position c (s - c) = Ok s.
Proof.
  intros Hc Hs. unfold next_position, checked_add_usize, ensure_cursor.
  replace (c + (s - c)) with s by lia.
  rewrite (proj2 (Z.leb_le _ _)) by (unfold u64_max; lia). simpl.
  by rewrite (proj2 (Nat.ltb_ge _ _)).
Qed.

Lemma ensure_cursor_ok c : c <= 64 -> ensure_cursor c = Ok tt.
Proof. intros Hc. unfold ensure_cursor. by rewrite (proj2 (Nat.ltb_ge _ _)). Qed.

Lemma branch_root_ok p c s r b rs :
  c <= s < 64 -> nibv p s = b -> length rs = 16 ->
  (forall i, i < 16 -> length (at_root rs i) = 32) ->
  branch_root p c s r (branch_neighbors b rs)
  = Ok (combine (nibs p c s) (merkle_16_roots (<[b := r]> rs))).
Proof.
  intros Hs Hb Hlen H32. unfold branch_root.
  assert (Hm := merkle_16_branch_neighbors b r rs ltac:(subst; apply nibv_bound) Hlen H32).
  destruct (validate_neighbors (branch_neighbors b rs)) as [[]| |] eqn:Hv.
  2,3: unfold merkle_16 in Hm; rewrite Hv in Hm; discriminate Hm.
  cbn [mbind outcome_bind]. rewrite nibble_nibv by lia. cbn [mbind outcome_bind].
  rewrite nibbles_nibs by lia. cbn [mbind outcome_bind]. rewrite Hb, Hm. done.
Qed.

Lemma fork_root_ok p c s r nb :
  c <= s < 64 -> nibv p s <> byte_val (nb_nibble nb) -> byte_val (nb_nibble nb) < 16 ->
  fork_root p c s r nb
  = Ok (combine (nibs p c s)
          (sparse_merkle_16 (nibv p s) r (byte_val (nb_nibble nb))
             (combine (nb_prefix nb) (nb_root nb)))).
Proof.
  intros Hs Hne Hlt. unfold fork_root. rewrite nibble_nibv by lia. cbn [mbind outcome_bind].
  rewrite (proj2 (Nat.eqb_neq _ _)) by done. rewrite (proj2 (Nat.ltb_ge _ _)) by lia.
  rewrite nibbles_nibs by lia. done.
Qed.

Lemma at_root_insert rs b i r :
  b < length rs -> at_root (<[b := r]> rs) i = if decide (i = b) then r else at_root rs i.
Proof.
  intros Hb. unfold at_root. rewrite !nth_lookup. case_decide; subst.
  - by rewrite list_lookup_insert_eq.
  - by rewrite list_lookup_insert_ne.
Qed.

(** Replacing the root of the child under the path in a full node. *)
Lemma is_root_replace L L' c s p b r rs :
  splits L' c s -> nibv p s = b ->
  (forall l i, l ∈ L' -> c <= i < s -> nibv p i = nibv (leaf_path l) i) ->
  length rs = 16 ->
  (forall i, i < 16 -> is_root (child L s i) (s + 1) (at_root rs i)) ->
  is_root (child L' s b) (s + 1) r ->
  (forall i, i < 16 -> i <> b -> child L' s i = child L s i) ->
  is_root L' c (combine (nibs p c s) (merkle_16_roots (<[b := r]> rs))).
Proof.
  intros HS Hb Hp Hlen Hrs Hr Hsame. pose proof (nibv_bound p s).
  apply is_root_node; [done|done|by rewrite length_insert|].
  intros i Hi. rewrite at_root_insert by lia. case_decide; subst; [done|].
  rewrite Hsame by done. by apply Hrs.
Qed.

(** A node with two non-empty children only. *)
Lemma is_root_sparse L' c s p b j r rj :
  splits L' c s -> nibv p s = b -> j < 16 -> j <> b ->
  (forall l i, l ∈ L' -> c <= i < s -> nibv p i = nibv (leaf_path l) i) ->
  is_root (child L' s b) (s + 1) r -> is_root (child L' s j) (s + 1) rj ->
  (forall i, i < 16 -> i <> b -> i <> j -> child L' s i = []) ->
  is_root L' c (combine (nibs p c s) (sparse_merkle_16 b r j rj)).
Proof.
  intros HS Hb Hj Hjb Hp Hr Hrj Hemp. pose proof (nibv_bound p s). unfold sparse_merkle_16.
  apply is_root_node; [done|done|by rewrite !length_insert|].
  intros i Hi. rewrite at_root_insert by (rewrite length_insert, length_replicate; lia).
  case_decide; [by subst|]. rewrite at_root_insert by (rewrite length_replicate; lia).
  case_decide; [by subst|]. rewrite Hemp by done.
  unfold at_root. rewrite nth_lookup, lookup_replicate_2 by done. constructor.
Qed.

(** What a proof step tells the verifier about its only neighbour: the fork
    node it stands for. *)
Definition step_neighbor (st : ProofStep) (skip s : nat) (nb : Neighbor) : Prop :=
  st = Fork skip nb \/
  exists key value, st = LeafStep skip key value /\ leaf_neighbor key value s = Ok nb.

Lemma including_sparse p vh c s st nb steps :
  c <= s < 64 -> step_neighbor st (s - c) s nb ->
  including p vh c (st :: steps) =
  (r ← including p vh (s + 1) steps; fork_root p c s r nb).
Proof.
  intros Hs [->|(key & value & -> & Hnb)]; cbn [including];
    rewrite ensure_cursor_ok by lia; cbn [mbind outcome_bind];
    rewrite next_position_ok by lia; cbn [mbind outcome_bind]; [done|].
  by destruct (including _ _ _ _); simpl; rewrite ?Hnb.
Qed.

Lemma excluding_sparse p c s st nb steps :
  c <= s < 64 -> steps <> [] -> step_neighbor st (s - c) s nb ->
  excluding p c (st :: steps) =
  (r ← excluding p (s + 1) steps; fork_root p c s r nb).
Proof.
  intros Hs Hne. destruct steps as [|st' steps]; [done|]. clear Hne.
  set (rest := st' :: steps). intros [->|(key & value & -> & Hnb)].
  - transitivity (ensure_cursor c ≫= fun _ => n ← next_position c (s - c);
                  r ← excluding p (n + 1) rest; fork_root p c n r nb); [done|].
    rewrite ensure_cursor_ok by lia. cbn [mbind outcome_bind].
    by rewrite next_position_ok by lia.
  - transitivity (ensure_cursor c ≫= fun _ => n ← next_position c (s - c);
                  r ← excluding p (n + 1) rest; nb ← leaf_neighbor key value n;
                  fork_root p c n r nb); [done|].
    rewrite ensure_cursor_ok by lia. cbn [mbind outcome_bind].
    rewrite next_position_ok by lia. cbn [mbind outcome_bind]. rewrite Hnb. done.
Qed.

Lemma including_branch p vh c s ns steps :
  c <= s < 64 -> length ns = 128 ->
  including p vh c (Branch (s - c) ns :: steps) =
  (r ← including p vh (s + 1) steps; branch_root p c s r ns).
Proof.
  intros Hs Hns. cbn [including]. rewrite ensure_cursor_ok by lia. cbn [mbind outcome_bind].
  rewrite validate_neighbors_128 by done. cbn [mbind outcome_bind].
  rewrite next_position_ok by lia. done.
Qed.

Lemma excluding_branch p c s ns steps :
  c <= s < 64 -> length ns = 128 ->
  excluding p c (Branch (s - c) ns :: steps) =
  (r ← excluding p (s + 1) steps; branch_root p c s r ns).
Proof.
  intros Hs Hns. cbn [excluding]. rewrite ensure_cursor_ok by lia. cbn [mbind outcome_bind].
  rewrite validate_neighbors_128 by done. cbn [mbind outcome_bind].
  rewrite next_position_ok by lia. done.
Qed.

Lemma branch_neighbors_length b rs :
  b < 16 -> length rs = 16 -> (forall i, i < 16 -> length (at_root rs i) = 32) ->
  length (branch_neighbors b rs) = 128.
Proof.
  intros Hb Hlen H32. unfold branch_neighbors. rewrite !length_app.
  assert (H8 : forall x : bool, length (if x then merkle_8_roots (take 8 (drop 8 rs))
                              else merkle_8_roots (take 8 rs)) = 32)
    by (intros []; apply combine_length).
  rewrite H8, (H32 (Nat.lxor b 1)).
  - unfold merkle_4_roots, merkle_2_roots. by rewrite !combine_length.
  - clear -Hb. do 16 (destruct b as [|b]; [vm_compute; lia|]). lia.
Qed.

(** The step [sparse_neighbor_step] builds stands for the neighbour group. *)
Lemma sparse_neighbor_step_ok p c s j G :
  c <= s < 64 -> G <> [] -> wf_group G (s + 1) ->
  (forall l, l ∈ G -> nibv (leaf_path l) s = j) ->
  (forall l i, l ∈ G -> c <= i < s -> nibv p i = nibv (leaf_path l) i) ->
  exists st nb, sparse_neighbor_step (s - c) (s + 1) j G = Ok st /\
    step_neighbor st (s - c) s nb /\ byte_val (nb_nibble nb) = j /\
    is_root G (s + 1) (combine (nb_prefix nb) (nb_root nb)) /\
    exists r, is_root G c r /\ excluding p c [st] = Ok r.
Proof.
  intros Hs Hne Hwf Hj Hp.
  assert (Hj16 : j < 16).
  { destruct G as [|l G]; [done|]. rewrite <- (Hj l) by left. apply nibv_bound. }
  destruct G as [|l [|l' G]]; [done| |].
  - (* a single leaf *)
    assert (Hl : nibv (leaf_path l) s = j) by (apply Hj; left).
    eexists _, (mkNeighbor (as_u8 j) (sfx (leaf_path l) (s + 1)) (leaf_value_hash l)).
    split; [done|]. split_and!.
    + right. eexists _, _. split; [done|]. unfold leaf_neighbor.
      rewrite suffix_sfx, nibble_nibv by lia. simpl. by rewrite Hl.
    + simpl. apply byte_val_as_u8. lia.
    + constructor. lia.
    + eexists. split; [constructor; lia|]. cbn [excluding].
      rewrite ensure_cursor_ok by lia. cbn [mbind outcome_bind].
      rewrite suffix_sfx by lia. done.
  - (* a subtree *)
    set (G0 := l :: l' :: G) in *.
    destruct (wf_group_splits G0 (s + 1) Hwf) as [s' HS']; [simpl; lia|].
    pose proof HS' as (Hs' & Hag' & a & a' & Ha & Ha' & Hd).
    destruct (is_root_exists G0 (s + 1) Hwf ltac:(lia)) as [r0 Hr0].
    inversion Hr0 as [| |? ? s'' q rs HS'' Hq Hlen Hrs]; subst.
    assert (s'' = s') as -> by (by eapply splits_unique).
    assert (Hhead : forall i, s + 1 <= i < s' -> nibv (leaf_path l) i = nibv q i).
    { intros i Hi. symmetry. apply Hq; [left|done]. }
    eexists _, (mkNeighbor (as_u8 j) (nibs q (s + 1) s') (merkle_16_roots rs)).
    split.
    { unfold sparse_neighbor_step, G0. fold G0. rewrite (common_split_splits _ _ _ HS').
      cbn [mbind outcome_bind]. rewrite child_groups_spec by lia. cbn [mbind outcome_bind].
      unfold child_roots. rewrite (map_outcome_Forall2 _ _ rs).
      - cbn [mbind outcome_bind head ok_or]. unfold G0 at 1. cbn [head ok_or mbind outcome_bind].
        rewrite nibbles_nibs by lia. cbn [mbind outcome_bind].
        by rewrite (nibs_eq _ _ _ _ Hhead).
      - rewrite <- (list_of_roots rs Hlen).
        apply Forall2_fmap_2, Forall_Forall2_diag, Forall_forall.
        intros i Hi%elem_of_seq. apply is_root_root_for; [|done]. apply Hrs. lia. }
    split_and!; [by left|simpl; apply byte_val_as_u8; lia|done|].
    assert (Hsplit : splits G0 c s').
    { split_and!; [lia|lia| |by exists a, a']. intros x y i Hx Hy Hi.
      destruct (decide (i < s)); [rewrite <- (Hp x), <- (Hp y) by (done || lia); done|].
      destruct (decide (i = s)) as [->|]; [by rewrite !Hj|]. apply Hag'; [done|done|lia]. }
    exists (combine (nibs (leaf_path l) c s') (merkle_16_roots rs)). split.
    + apply is_root_node; [done| |done|].
      * intros x i Hx Hi. destruct Hsplit as (_ & Hag & _). apply Hag; [left|done|done].
      * intros i Hi. by apply Hrs.
    + cbn [excluding]. rewrite ensure_cursor_ok by lia. cbn [mbind outcome_bind nb_nibble].
      rewrite (proj2 (Nat.ltb_ge _ _)) by (rewrite byte_val_as_u8; lia).
      assert (Hpre : (if 0 <? s - c then nibbles p c (c + (s - c)) else Ok []) = Ok (nibs p c s)
                     :> outcome MpfError bytes).
      { destruct (Nat.ltb_spec 0 (s - c)).
        - replace (c + (s - c)) with s by lia. apply nibbles_nibs; lia.
        - unfold nibs. by replace (s - c) with 0 by lia. }
      rewrite Hpre. cbn [mbind outcome_bind nb_prefix nb_root app].
      rewrite (nibs_split (leaf_path l) c s s') by lia.
      rewrite (Hj l) by left. rewrite (nibs_eq (leaf_path l) q (s + 1)) by done.
      rewrite (nibs_eq p (leaf_path l) c s); [done|]. intros i Hi. apply Hp; [left|done].
Qed.

(** ** The path of a key through a group of leaves *)

(** The leaves stored under other paths. *)
Definition others (L : list Leaf) (p : bytes) : list Leaf :=
  filter (fun l => leaf_path l <> p) L.

Global Instance others_Permutation : Proper ((≡ₚ) ==> (=) ==> (≡ₚ)) others.
Proof. intros L L' HP p ? <-. unfold others. by rewrite HP. Qed.

Lemma elem_of_others L p l : l ∈ others L p <-> leaf_path l <> p /\ l ∈ L.
Proof. unfold others. by rewrite list_elem_of_filter. Qed.

Lemma others_nil p : others [] p = [].
Proof. done. Qed.

Lemma others_all L p : (forall l, l ∈ L -> leaf_path l <> p) -> others L p = L.
Proof.
  unfold others. induction L as [|l L IH]; intros Hall; [done|].
  rewrite filter_cons, decide_True by (apply Hall; left). f_equal. apply IH.
  intros k Hk. apply Hall. by right.
Qed.

Lemma child_others L p s i : child (others L p) s i = others (child L s i) p.
Proof.
  unfold child, others. induction L as [|l L IH]; [done|].
  rewrite !filter_cons. repeat (case_decide; rewrite ?filter_cons; rewrite ?IH); done.
Qed.

Lemma child_others_ne L p s i : nibv p s <> i -> child (others L p) s i = child L s i.
Proof.
  intros Hi. rewrite child_others. apply others_all. intros l [Hl _]%elem_of_child Hp. congruence.
Qed.

Lemma child_cons L l s i :
  child (l :: L) s i = if decide (nibv (leaf_path l) s = i) then l :: child L s i else child L s i.
Proof. unfold child. by rewrite filter_cons. Qed.

(** [p] follows the compressed prefixes of the subtree: it leaves the
    existing paths only at a branching node. *)
Inductive aligned (p : bytes) : list Leaf -> nat -> Prop :=
| aligned_small L c : length L <= 1 -> aligned p L c
| aligned_node L c s :
    splits L c s ->
    (forall l i, l ∈ L -> c <= i < s -> nibv p i = nibv (leaf_path l) i) ->
    aligned p (child L s (nibv p s)) (s + 1) ->
    aligned p L c.

Lemma imap_pair_fmap {A} (f : nat -> A) n k :
  imap (fun i x => (k + i, x)) (f <$> seq k n) = (fun i => (i, f i)) <$> seq k n.
Proof.
  revert k. induction n as [|n IH]; intros k; [done|]. cbn [seq].
  rewrite !fmap_cons, imap_cons, Nat.add_0_r. f_equal. rewrite <- (IH (S k)).
  apply imap_ext. intros i x _. unfold compose. f_equal. lia.
Qed.

Lemma elem_of_branch_others b L s i g :
  (i, g) ∈ branch_others b (child L s <$> seq 0 16) <->
  i < 16 /\ g = child L s i /\ i <> b /\ g <> [].
Proof.
  unfold branch_others. rewrite (imap_ext _ (fun i x => (0 + i, x))) by done.
  rewrite imap_pair_fmap, list_elem_of_filter, list_elem_of_fmap. cbn [fst snd]. split.
  - intros ((? & ?) & j & [= <- ->] & ?%elem_of_seq). split_and!; [lia|done..].
  - intros (Hi & -> & ? & ?). split; [done|]. exists i. split; [done|]. apply elem_of_seq. lia.
Qed.

Lemma branch_others_NoDup b L s : NoDup (branch_others b (child L s <$> seq 0 16)).
Proof.
  unfold branch_others. rewrite (imap_ext _ (fun i x => (0 + i, x))) by done.
  rewrite imap_pair_fmap. apply NoDup_filter, NoDup_fmap_2; [|apply NoDup_seq].
  by intros i j [= ->].
Qed.

Lemma child_nonempty L s l : l ∈ L -> child L s (nibv (leaf_path l) s) <> [].
Proof.
  intros Hl. assert (Hin : l ∈ child L s (nibv (leaf_path l) s)) by by apply elem_of_child.
  by destruct (child _ _ _); [apply elem_of_nil in Hin|].
Qed.

Lemma branch_others_cases b L c s :
  splits L c s ->
  (exists j, branch_others b (child L s <$> seq 0 16) = [(j, child L s j)] /\
     j < 16 /\ j <> b /\ child L s j <> [] /\
     forall i, i < 16 -> i <> b -> i <> j -> child L s i = []) \/
  ((forall x, branch_others b (child L s <$> seq 0 16) <> [x]) /\
   exists j j' : nat, j <> j' /\ j <> b /\ j' <> b /\ child L s j <> [] /\ child L s j' <> []).
Proof.
  intros (Hs & _ & a & a' & Ha & Ha' & Hd).
  assert (Hsome : exists i, i <> b /\ i < 16 /\ child L s i <> []).
  { destruct (decide (nibv (leaf_path a) s = b)) as [Hab|Hab].
    - exists (nibv (leaf_path a') s). split_and!; [congruence|apply nibv_bound|].
      by apply child_nonempty.
    - eexists. split_and!; [done|apply nibv_bound|by apply child_nonempty]. }
  destruct Hsome as (i & Hib & Hi & Hine).
  pose proof (branch_others_NoDup b L s) as HND.
  pose proof (elem_of_branch_others b L s) as Hel.
  destruct (branch_others _ _) as [|[j g] [|[j' g'] rest]].
  - exfalso. apply (not_elem_of_nil (i, child L s i)). by apply Hel.
  - left. destruct (proj1 (Hel j g)) as (? & -> & ? & ?); [left|]. exists j. split_and!; [done..|].
    intros k Hk Hkb Hkj. destruct (child L s k) eqn:E; [done|]. exfalso. apply Hkj.
    assert (Hin : (k, child L s k) ∈ [(j, child L s j)]) by (apply Hel; rewrite E; done).
    apply list_elem_of_singleton in Hin. congruence.
  - right. split; [done|]. destruct (proj1 (Hel j g)) as (? & -> & ? & ?); [left|].
    destruct (proj1 (Hel j' g')) as (? & -> & ? & ?); [right; left|].
    exists j, j'. split_and!; [|done..]. intros <-. apply NoDup_cons in HND as [Hnin _].
    apply Hnin. left.
Qed.

(** Adding the path's own leaf to the other leaves keeps an aligned split. *)
Lemma splits_insert L c s l :
  splits L c s ->
  (forall k i, k ∈ L -> c <= i < s -> nibv (leaf_path l) i = nibv (leaf_path k) i) ->
  splits (l :: others L (leaf_path l)) c s.
Proof.
  intros (Hs & Hag & a & a' & Ha & Ha' & Hd) Hl.
  assert (Hl' : forall k i, k ∈ l :: others L (leaf_path l) -> c <= i < s ->
                nibv (leaf_path l) i = nibv (leaf_path k) i).
  { intros k i [->|[_ Hk]%elem_of_others]%elem_of_cons Hi; [done|by apply Hl]. }
  split_and!; [lia|lia| |].
  - intros k k' i Hk Hk' Hi. rewrite <- (Hl' k), <- (Hl' k') by done. done.
  - assert (Hex : exists k, k ∈ L /\ nibv (leaf_path k) s <> nibv (leaf_path l) s).
    { destruct (decide (nibv (leaf_path a) s = nibv (leaf_path l) s)); [|by exists a].
      exists a'. split; [done|congruence]. }
    destruct Hex as (k & Hk & Hne). exists k, l. split_and!; [|left|done].
    right. apply elem_of_others. split; [congruence|done].
Qed.

Lemma splits_others L c s p k k' :
  splits L c s -> k ∈ others L p -> k' ∈ others L p ->
  nibv (leaf_path k) s <> nibv (leaf_path k') s -> splits (others L p) c s.
Proof.
  intros (Hs & Hag & _) Hk Hk' Hne. split_and!; [lia|lia| |by exists k, k'].
  intros x y i [_ Hx]%elem_of_others [_ Hy]%elem_of_others. by apply Hag.
Qed.

Lemma nonempty_elem {A} (l : list A) : l <> [] -> exists x, x ∈ l.
Proof. destruct l as [|x l]; [done|]. intros _. exists x. left. Qed.

Lemma find_seq_first (f : nat -> bool) c n s :
  c <= s < c + n -> f s = true -> (forall i, c <= i < s -> f i = false) ->
  find f (seq c n) = Some s.
Proof.
  revert c. induction n as [|n IH]; intros c Hs Hf Hbelow; [lia|]. simpl.
  destruct (decide (c = s)) as [->|]; [by rewrite Hf|].
  rewrite Hbelow by lia. apply IH; [lia|done|]. intros i Hi. apply Hbelow. lia.
Qed.

Lemma first_divergence_ok p q c s :
  c <= s < 64 -> nibv p s <> nibv q s -> (forall i, c <= i < s -> nibv p i = nibv q i) ->
  first_divergence p q c = Ok s.
Proof.
  intros Hs Hd Hag. unfold first_divergence, positions_from. apply ok_or_Ok.
  apply find_seq_first; [lia| |].
  - rewrite !nibble_nibv by lia. simpl. by apply negb_true_iff, Nat.eqb_neq.
  - intros i Hi. rewrite !nibble_nibv by lia. simpl. apply negb_false_iff, Nat.eqb_eq.
    apply Hag. lia.
Qed.

Lemma child_all L s j : (forall l, l ∈ L -> nibv (leaf_path l) s = j) -> child L s j = L.
Proof.
  unfold child. induction L as [|l L IH]; intros Hall; [done|].
  rewrite filter_cons, decide_True by (apply Hall; left). f_equal. apply IH.
  intros k Hk. apply Hall. by right.
Qed.

(** What a generated proof establishes at a cursor. *)
Definition proof_good (p : bytes) (L : list Leaf) (c : nat) (prf : list ProofStep) : Prop :=
  (prf = [] <-> others L p = []) /\
  (forall l, leaf_path l = p ->
     exists r, is_root (l :: others L p) c r /\ including p (leaf_value_hash l) c prf = Ok r) /\
  (exists r, is_root (others L p) c r /\ excluding p c prf = Ok r).

Lemma proof_good_nil p L c : c <= 64 -> others L p = [] -> proof_good p L c [].
Proof.
  intros Hc HO. split_and!; [done| |].
  - intros l <-. rewrite HO. eexists. split; [by constructor|]. simpl.
    rewrite ensure_cursor_ok by done. simpl. by rewrite suffix_sfx.
  - rewrite HO. eexists. split; [constructor|]. simpl. by rewrite ensure_cursor_ok.
Qed.

(** Exactly one other child: the proof step is a [Fork] or a [Leaf]. *)
Lemma proof_good_sparse p L c s j st nb steps :
  splits L c s ->
  (forall l i, l ∈ L -> c <= i < s -> nibv p i = nibv (leaf_path l) i) ->
  j < 16 -> j <> nibv p s -> child L s j <> [] ->
  (forall i, i < 16 -> i <> nibv p s -> i <> j -> child L s i = []) ->
  step_neighbor st (s - c) s nb -> byte_val (nb_nibble nb) = j ->
  is_root (child L s j) (s + 1) (combine (nb_prefix nb) (nb_root nb)) ->
  (exists r, is_root (child L s j) c r /\ excluding p c [st] = Ok r) ->
  proof_good p (child L s (nibv p s)) (s + 1) steps ->
  proof_good p L c (st :: steps).
Proof.
  intros HS Hp Hj Hjb Hjne Hemp Hst Hnib Hrj (rl & Hrl & Hexl) (Hnil & Hin & r & Hr & Hex).
  pose proof HS as (Hs & _). pose proof (nibv_bound p s).
  destruct (nonempty_elem _ Hjne) as [k [Hkj Hk]%elem_of_child].
  assert (Hko : k ∈ others L p) by (apply elem_of_others; split; [congruence|done]).
  assert (Hfork : forall x, fork_root p c s x nb
            = Ok (combine (nibs p c s) (sparse_merkle_16 (nibv p s) x j
                                          (combine (nb_prefix nb) (nb_root nb))))).
  { intros x. rewrite <- Hnib. apply fork_root_ok; [lia|congruence|lia]. }
  split_and!.
  - split; [done|]. intros HO. by rewrite HO in Hko; apply elem_of_nil in Hko.
  - intros l Hl. destruct (Hin l Hl) as (r' & Hr' & Hinc).
    eexists. split; [|rewrite (including_sparse _ _ _ s _ nb) by done; rewrite Hinc; simpl; apply Hfork].
    subst p. apply is_root_sparse; [by apply splits_insert|done|done|done| | | |].
    + intros x i [->|[_ Hx]%elem_of_others]%elem_of_cons Hi; [done|by apply Hp].
    + rewrite child_cons, decide_True, child_others by done. done.
    + rewrite child_cons, decide_False, child_others_ne by done. done.
    + intros i Hi Hib Hij. rewrite child_cons, decide_False, child_others_ne by done. auto.
  - destruct steps as [|st' steps].
    + exists rl. split; [|done].
      replace (others L p) with (child L s j); [done|].
      rewrite <- (child_others_ne L p s j) by done. apply child_all.
      intros l Hl. destruct (decide (nibv (leaf_path l) s = j)) as [|Hlj]; [done|]. exfalso.
      assert (Hl' : l ∈ child (others L p) s (nibv (leaf_path l) s)) by by apply elem_of_child.
      destruct (decide (nibv (leaf_path l) s = nibv p s)) as [E|E].
      * rewrite E, child_others, (proj1 Hnil) in Hl' by done. by apply elem_of_nil in Hl'.
      * rewrite child_others_ne, Hemp in Hl' by (done || apply nibv_bound).
        by apply elem_of_nil in Hl'.
    + eexists. split; [|rewrite (excluding_sparse _ _ s _ nb) by done; rewrite Hex; simpl; apply Hfork].
      assert (HOb : others (child L s (nibv p s)) p <> []).
      { intros HO. apply Hnil in HO. done. }
      destruct (nonempty_elem _ HOb) as [k' Hk'].
      rewrite <- child_others in Hk'. apply elem_of_child in Hk' as [Hk's Hk'].
      apply is_root_sparse; [|done|done|done| | | |].
      * apply (splits_others L c s p k k'); [done|done|done|congruence].
      * intros x i [_ Hx]%elem_of_others Hi. by apply Hp.
      * by rewrite child_others.
      * by rewrite child_others_ne.
      * intros i Hi Hib Hij. rewrite child_others_ne by done. auto.
Qed.

(** Several other children: the step carries the Merkle neighbours. *)
Lemma proof_good_branch p L c s rs steps :
  splits L c s ->
  (forall l i, l ∈ L -> c <= i < s -> nibv p i = nibv (leaf_path l) i) ->
  length rs = 16 ->
  (forall i, i < 16 -> is_root (child L s i) (s + 1) (at_root rs i)) ->
  (exists j j', j <> j' /\ j <> nibv p s /\ j' <> nibv p s /\
     child L s j <> [] /\ child L s j' <> []) ->
  proof_good p (child L s (nibv p s)) (s + 1) steps ->
  proof_good p L c (Branch (s - c) (branch_neighbors (nibv p s) rs) :: steps).
Proof.
  intros HS Hp Hlen Hrs (j & j' & Hjj & Hj & Hj' & Hjne & Hjne') (Hnil & Hin & r & Hr & Hex).
  pose proof HS as (Hs & _). pose proof (nibv_bound p s) as Hb.
  assert (H32 : forall i, i < 16 -> length (at_root rs i) = 32).
  { intros i Hi. eapply is_root_length. by apply Hrs. }
  pose proof (branch_neighbors_length _ rs Hb Hlen H32) as Hns.
  destruct (nonempty_elem _ Hjne) as [k [Hkj Hk]%elem_of_child].
  destruct (nonempty_elem _ Hjne') as [k' [Hkj' Hk']%elem_of_child].
  assert (Hko : k ∈ others L p) by (apply elem_of_others; split; [congruence|done]).
  assert (Hko' : k' ∈ others L p) by (apply elem_of_others; split; [congruence|done]).
  split_and!.
  - split; [done|]. intros HO. by rewrite HO in Hko; apply elem_of_nil in Hko.
  - intros l Hl. destruct (Hin l Hl) as (r' & Hr' & Hinc).
    eexists. split; [|rewrite including_branch by done; rewrite Hinc; simpl; by apply branch_root_ok].
    subst p. eapply (is_root_replace L); [by apply splits_insert|done| |done|done| |].
    + intros x i [->|[_ Hx]%elem_of_others]%elem_of_cons Hi; [done|by apply Hp].
    + rewrite child_cons, decide_True, child_others by done. done.
    + intros i Hi Hib. by rewrite child_cons, decide_False, child_others_ne by done.
  - eexists. split; [|rewrite excluding_branch by done; rewrite Hex; simpl; by apply branch_root_ok].
    eapply (is_root_replace L); [|done| |done|done| |].
    + apply (splits_others L c s p k k'); [done|done|done|congruence].
    + intros x i [_ Hx]%elem_of_others Hi. by apply Hp.
    + by rewrite child_others.
    + intros i Hi Hib. by rewrite child_others_ne.
Qed.

Lemma proof_for_path_node f L p c s step steps :
  splits L c s ->
  proof_step_for_branch p c s (nibv p s) (child L s <$> seq 0 16) = Ok step ->
  proof_for_path f (child L s (nibv p s)) p (s + 1) = Ok steps ->
  proof_for_path (S f) L p c = Ok (step :: steps).
Proof.
  intros HS Hstep Hsteps. pose proof HS as (Hs & _ & a & a' & Ha & Ha' & Hd).
  pose proof (nibv_bound p s) as Hb.
  destruct L as [|l [|l' L]]; [by apply elem_of_nil in Ha| |].
  { apply list_elem_of_singleton in Ha as ->. by apply list_elem_of_singleton in Ha' as ->. }
  cbn [proof_for_path]. rewrite (common_split_splits _ _ _ HS). cbn [mbind outcome_bind].
  rewrite nibble_nibv by lia. cbn [mbind outcome_bind].
  rewrite child_groups_spec by lia. cbn [mbind outcome_bind]. rewrite Hstep.
  cbn [mbind outcome_bind].
  assert (Hnth : nth (nibv p s) (child (l :: l' :: L) s <$> seq 0 16) []
                 = child (l :: l' :: L) s (nibv p s)).
  { apply nth_lookup_Some. rewrite list_lookup_fmap, lookup_seq_lt by done. done. }
  rewrite Hnth. destruct (child (l :: l' :: L) s (nibv p s)) as [|k G].
  - destruct f; injection Hsteps as <-; done.
  - rewrite Hsteps. done.
Qed.

(** A subtree with at most one leaf: the proof is empty or one [Leaf] step. *)
Lemma proof_complete_small p L c :
  length L <= 1 -> wf_group L c -> c <= 64 -> length p = 32 ->
  (forall l i, l ∈ L -> i < c -> nibv p i = nibv (leaf_path l) i) ->
  exists prf, (forall f, proof_for_path f L p c = Ok prf) /\ proof_good p L c prf.
Proof.
  intros Hsmall Hwf Hc Hp32 Hpc.
  destruct L as [|q [|? ?]]; simpl in Hsmall; [| |lia].
  { exists []. split; [by intros []|by apply proof_good_nil]. }
  destruct (decide (leaf_path q = p)) as [Hq|Hq].
  { exists []. split.
    - intros []; simpl; by rewrite bool_decide_true.
    - apply proof_good_nil; [done|]. unfold others.
      rewrite filter_cons, decide_False; [done|]. by intros []. }
  destruct (first_difference p (leaf_path q) c) as (s & Hs & Hd & Hbelow); [done| |congruence| |].
  { apply Hwf. left. }
  { intros i Hi. apply Hpc; [left|done]. }
  assert (Hother : others [q] p = [q]).
  { apply others_all. by intros l ->%list_elem_of_singleton. }
  destruct (sparse_neighbor_step_ok p c s (nibv (leaf_path q) s) [q])
    as (st & nb & Hst & Hnb & Hnib & Hroot & rl & Hrl & Hexl);
    [done|done| | | |].
  { destruct Hwf as (? & ? & _). split_and!; [done..|].
    by intros l l' i ->%list_elem_of_singleton ->%list_elem_of_singleton. }
  { by intros l ->%list_elem_of_singleton. }
  { intros l i ->%list_elem_of_singleton Hi. apply Hbelow. lia. }
  injection Hst as <-.
  exists [LeafStep (s - c) (leaf_path q) (leaf_value_hash q)]. split.
  { intros []; cbn [proof_for_path]; rewrite bool_decide_false by done;
      rewrite (first_divergence_ok _ _ _ s) by (done || (intros; apply Hbelow; lia)); done. }
  pose proof (nibv_bound (leaf_path q) s).
  split_and!; [split; [done|by rewrite Hother]| |].
  + intros l Hl. rewrite (including_sparse _ _ _ s _ nb) by done. subst p.
    cbn [including]. rewrite ensure_cursor_ok by lia. cbn [mbind outcome_bind].
    rewrite suffix_sfx by lia. cbn [mbind outcome_bind].
    rewrite fork_root_ok by (lia || congruence). rewrite Hnib, Hother. eexists. split; [|done].
    apply is_root_sparse; [|done|done|done| | | |].
    * split_and!; [lia|lia| |].
      -- intros x y i [-> | ->%list_elem_of_singleton]%elem_of_cons
           [-> | ->%list_elem_of_singleton]%elem_of_cons Hi; try done;
           [|symmetry]; apply Hbelow; lia.
      -- exists l, q. split_and!; [left|right; left|done].
    * intros x i [-> | ->%list_elem_of_singleton]%elem_of_cons Hi; [done|]. apply Hbelow. lia.
    * rewrite !child_cons, decide_True, decide_False by (done || congruence). constructor. lia.
    * rewrite !child_cons, decide_False, decide_True by (done || congruence). exact Hroot.
    * intros i Hi Hi1 Hi2. by rewrite !child_cons, !decide_False by congruence.
  + exists rl. by rewrite Hother.
Qed.

(** The proof generator succeeds on an aligned path and its proof verifies,
    for inclusion (whatever the value) and for exclusion. *)
Lemma proof_complete p L c :
  aligned p L c -> wf_group L c -> c <= 64 -> length p = 32 ->
  (forall l i, l ∈ L -> i < c -> nibv p i = nibv (leaf_path l) i) ->
  exists prf, (forall f, depth_fuel c <= f -> proof_for_path f L p c = Ok prf) /\
    proof_good p L c prf.
Proof.
  unfold depth_fuel. induction 1 as [L c Hsmall|L c s HS Hag Hal IH]; intros Hwf Hc Hp32 Hpc.
  - destruct (proof_complete_small p L c) as (prf & Hprf & Hgood); [done..|].
    exists prf. split; [|done]. intros f _. apply Hprf.
  - pose proof HS as (Hs & Hagl & _). pose proof (nibv_bound p s) as Hb.
    destruct IH as (steps & Hsteps & Hgood); [by eapply wf_group_child|lia|done| |].
    { intros l i [Hls Hl]%elem_of_child Hi. destruct (decide (i < c)); [by apply Hpc|].
      destruct (decide (i = s)) as [->|]; [done|]. apply Hag; [done|lia]. }
    assert (Hfuel : forall f, 65 - c <= f -> exists f', f = S f' /\ 65 - (s + 1) <= f').
    { intros [|f'] Hf; [lia|]. exists f'. split; [done|lia]. }
    destruct (branch_others_cases (nibv p s) L c s HS)
      as [(j & Hbo & Hj & Hjb & Hjne & Hemp)|(Hbo & Htwo)].
    + destruct (sparse_neighbor_step_ok p c s j (child L s j))
        as (st & nb & Hst & Hnb & Hnib & Hroot & Hex); [done|done|by eapply wf_group_child| | |].
      { by intros l [? _]%elem_of_child. }
      { intros l i [_ Hl]%elem_of_child Hi. by apply Hag. }
      exists (st :: steps). split; [|by apply (proof_good_sparse p L c s j st nb)].
      intros f (f' & -> & Hf')%Hfuel. apply (proof_for_path_node _ _ _ _ s); [done| |by apply Hsteps].
      unfold proof_step_for_branch. by rewrite Hbo.
    + destruct (is_root_exists L c Hwf Hc) as [r0 Hr0].
      inversion Hr0 as [|q ? ?|? ? s'' q rs HS'' Hq Hlen Hrs]; subst.
      { destruct HS as (_ & _ & a & ? & Ha & _). by apply elem_of_nil in Ha. }
      { destruct HS as (_ & _ & a & a' & Ha & Ha' & Hne).
        apply list_elem_of_singleton in Ha as ->. by apply list_elem_of_singleton in Ha' as ->. }
      assert (s'' = s) as -> by (by eapply splits_unique).
      exists (Branch (s - c) (branch_neighbors (nibv p s) rs) :: steps).
      split; [|by apply proof_good_branch].
      intros f (f' & -> & Hf')%Hfuel. apply (proof_for_path_node _ _ _ _ s); [done| |by apply Hsteps].
      unfold proof_step_for_branch.
      assert (Hcr : child_roots (child L s <$> seq 0 16) (s + 1) = Ok rs).
      { unfold child_roots. apply map_outcome_Forall2. rewrite <- (list_of_roots rs Hlen).
        apply Forall2_fmap_2, Forall_Forall2_diag, Forall_forall.
        intros i Hi%elem_of_seq. apply is_root_root_for; [|done]. apply Hrs. lia. }
      destruct (branch_others _ _) as [|[i g] [|x' rest]]; [|by destruct (Hbo (i, g))|];
        rewrite Hcr; cbn [mbind outcome_bind]; by rewrite nibble_nibv by lia.
Qed.

(** ** Binding: equal roots come from equal contents, or the hash collides *)

Lemma hash_inj_or_collision a b : hash a = hash b -> a = b \/ collision.
Proof. intros E. destruct (decide (a = b)); [by left|]. right. by exists a, b. Qed.

Lemma combine_inj_l a a' b b' :
  combine a b = combine a' b' -> length a = length a' -> (a = a' /\ b = b') \/ collision.
Proof.
  intros [E|]%hash_inj_or_collision Hlen; [|by right]. left. by apply app_inj_1.
Qed.

Lemma combine_inj_r a a' b b' :
  combine a b = combine a' b' -> length b = length b' -> (a = a' /\ b = b') \/ collision.
Proof.
  intros [E|]%hash_inj_or_collision Hlen; [|by right]. left. by apply app_inj_2.
Qed.

(** [f] on lists of [n] digests is injective up to a collision. *)
Definition merkle_inj (n : nat) (f : list bytes -> bytes) : Prop :=
  (forall rs, length (f rs) = 32) /\
  forall rs rs', length rs = n -> length rs' = n ->
    Forall (fun r => length r = 32) rs -> Forall (fun r => length r = 32) rs' ->
    f rs = f rs' -> rs = rs' \/ collision.

Lemma merkle_inj_2 : merkle_inj 2 merkle_2_roots.
Proof.
  split; [intros; apply combine_length|]. intros [|a [|b [|]]] [|a' [|b' [|]]] ? ?; try done.
  intros HA HB E. inversion_clear HA; inversion_clear HB.
  unfold merkle_2_roots, at_root in E. cbn [nth] in E.
  apply combine_inj_l in E as [[-> ->]|]; [by left|by right|congruence].
Qed.

Lemma merkle_inj_double n f :
  merkle_inj n f ->
  merkle_inj (n + n) (fun rs => combine (f (take n rs)) (f (take n (drop n rs)))).
Proof.
  intros [Hlen Hinj]. split; [intros; apply combine_length|]. intros rs rs' Hl Hl' H32 H32' E.
  apply combine_inj_l in E as [[E1 E2]|]; [|by right|by rewrite !Hlen].
  assert (Htake : forall l : list bytes, length l = n + n -> length (take n l) = n)
    by (intros l ?; rewrite length_take; lia).
  assert (Hdrop : forall l : list bytes, length l = n + n -> length (take n (drop n l)) = n)
    by (intros l ?; rewrite length_take, length_drop; lia).
  apply Hinj in E1 as [E1|]; auto using Forall_take.
  apply Hinj in E2 as [E2|]; auto using Forall_take, Forall_drop.
  left. rewrite <- (take_drop n rs), <- (take_drop n rs'), E1.
  rewrite !take_ge in E2 by (rewrite length_drop; lia). by rewrite E2.
Qed.

Lemma merkle_inj_16 : merkle_inj 16 merkle_16_roots.
Proof. exact (merkle_inj_double 8 _ (merkle_inj_double 4 _ (merkle_inj_double 2 _ merkle_inj_2))). Qed.

(** One level of [merkle_16]: the child goes left or right of its neighbour. *)
Definition level (left : bool) (x a : bytes) : bytes :=
  if left then combine x a else combine a x.

Lemma level_length t x a : length (level t x a) = 32.
Proof. destruct t; apply combine_length. Qed.

Lemma level_inj t x y a :
  length x = length y -> level t x a = level t y a -> x = y \/ collision.
Proof.
  intros Hxy E. destruct t; simpl in E.
  - apply combine_inj_l in E as [[? _]|]; [by left|by right|done].
  - apply combine_inj_r in E as [[_ ?]|]; [by left|by right|done].
Qed.

Lemma merkle_16_inj b r r' ns m :
  length r = 32 -> length r' = 32 ->
  merkle_16 b r ns = Ok m -> merkle_16 b r' ns = Ok m -> r = r' \/ collision.
Proof.
  assert (Hlvl : forall x, validate_neighbors ns = Ok tt -> merkle_16 b x ns =
    Ok (level (b <? 8) (level (b mod 8 <? 4) (level (b mod 4 <? 2)
         (level (b mod 2 =? 0) x (take 32 (drop 96 ns))) (take 32 (drop 64 ns)))
         (take 32 (drop 32 ns))) (take 32 ns))).
  { intros x Hv. unfold merkle_16. rewrite Hv. simpl. by destruct (b <? 8). }
  intros Hr Hr' E E'. destruct (validate_neighbors ns) as [[]| |] eqn:Hv.
  2,3: unfold merkle_16 in E; rewrite Hv in E; discriminate E.
  rewrite Hlvl in E, E' by done. rewrite <- E' in E. injection E as E.
  do 3 (apply level_inj in E as [E|]; [|by right|by rewrite !level_length]).
  by apply level_inj in E; [|congruence].
Qed.

Lemma sparse_roots_Forall me r nb nh :
  length r = 32 -> length nh = 32 ->
  Forall (fun x => length x = 32) (<[nb := nh]> (<[me := r]> (replicate 16 EMPTY_ROOT))).
Proof.
  intros. apply Forall_insert; [apply Forall_insert; [|done]|done].
  by apply Forall_replicate.
Qed.

Lemma sparse_merkle_16_inj me r r' nb nh :
  me < 16 -> me <> nb -> length r = 32 -> length r' = 32 -> length nh = 32 ->
  sparse_merkle_16 me r nb nh = sparse_merkle_16 me r' nb nh -> r = r' \/ collision.
Proof.
  intros Hme Hne Hr Hr' Hnh E.
  apply merkle_inj_16 in E as [E|];
    [|by right|by rewrite !length_insert|by rewrite !length_insert
     |by apply sparse_roots_Forall|by apply sparse_roots_Forall].
  left. apply (f_equal (fun l => l !! me)) in E.
  do 2 rewrite list_lookup_insert_ne, list_lookup_insert_eq in E
    by (done || by rewrite length_replicate).
  congruence.
Qed.

Lemma including_length p vh c prf r : including p vh c prf = Ok r -> length r = 32.
Proof.
  destruct prf as [|[] prf]; simpl; intros E; inv_outcome; subst; try apply combine_length;
    unfold branch_root, fork_root in E; inv_outcome;
    repeat match goal with H : context [if ?x then _ else _] |- _ => destruct x end;
    inv_outcome; subst; apply combine_length.
Qed.

Lemma branch_root_inj p c s r r' ns x :
  length r = 32 -> length r' = 32 ->
  branch_root p c s r ns = Ok x -> branch_root p c s r' ns = Ok x -> r = r' \/ collision.
Proof.
  unfold branch_root. intros Hr Hr' E E'. inv_outcome.
  assert (a4 = a0) as -> by congruence. assert (a5 = a1) as -> by congruence.
  rewrite <- E' in E. apply combine_inj_l in E as [[_ ->]|]; [|by right|done].
  by eapply merkle_16_inj.
Qed.

Lemma fork_root_inj p c s r r' nb x :
  length r = 32 -> length r' = 32 ->
  fork_root p c s r nb = Ok x -> fork_root p c s r' nb = Ok x -> r = r' \/ collision.
Proof.
  unfold fork_root. intros Hr Hr' E E'. inv_outcome.
  assert (a0 = a) as -> by congruence.
  destruct ((a =? _) || _) eqn:Hg; [discriminate|]. inv_outcome.
  assert (a1 = a0) as -> by congruence. rewrite <- E' in E.
  apply combine_inj_l in E as [[_ E]|]; [|by right|done].
  apply orb_false_iff in Hg as [Hne _]. apply Nat.eqb_neq in Hne.
  apply sparse_merkle_16_inj in E; auto using combine_length.
  unfold nibble in Ha. destruct (64 <=? s); [discriminate|].
  pose proof (nibv_bound p s) as Hb. unfold nibv in Hb. destruct (s mod 2 =? 0); congruence.
Qed.

(** A proof accepted for two value hashes under one root exhibits a collision. *)
Lemma including_inj p vh vh' c prf r :
  length vh = 32 -> length vh' = 32 ->
  including p vh c prf = Ok r -> including p vh' c prf = Ok r -> vh = vh' \/ collision.
Proof.
  intros Hv Hv'. revert c r. induction prf as [|st prf IH]; intros c r E E'.
  - simpl in E, E'. inv_outcome. unify_ok.
    rewrite <- E' in E. apply combine_inj_l in E as [[_ ->]|]; [by left|by right|done].
  - assert (Hsub : forall n x y, including p vh n prf = Ok x -> including p vh' n prf = Ok y ->
              (length x = 32 -> length y = 32 -> x = y \/ collision) -> vh = vh' \/ collision).
    { intros n x y Hx Hy Hxy.
      destruct Hxy as [->|]; [by eapply including_length..|by eapply IH|by right]. }
    destruct st; simpl in E, E'; inv_outcome; unify_ok;
      match goal with Hx : including p vh ?n prf = Ok ?x, Hy : including p vh' ?n prf = Ok ?y |- _ =>
        apply (Hsub n x y Hx Hy) end; intros Hl Hl'.
    + exact (branch_root_inj _ _ _ _ _ _ _ Hl Hl' E E').
    + exact (fork_root_inj _ _ _ _ _ _ _ Hl Hl' E E').
    + exact (fork_root_inj _ _ _ _ _ _ _ Hl Hl' E E').
Qed.

(** ** Tries *)

(** No two of the keys collide as paths. *)
Definition distinct_paths (keys : list bytes) : Prop := NoDup (hash <$> keys).

Global Instance distinct_paths_dec keys : Decision (distinct_paths keys) := NoDup_dec _.

Definition trie_keys (t : Trie) : list bytes := (map_to_list (trie_leaves t)).*1.

Definition agrees (p q : bytes) (k : nat) : Prop := forall i, i < k -> nibv p i = nibv q i.

(** A new path may join the stored ones: wherever it leaves them, either one
    of them alone is left behind or the trie already branches there. *)
Definition insertable (L : list Leaf) (p : bytes) : Prop :=
  forall k, k < 64 ->
  (exists l l', l ∈ L /\ l' ∈ L /\ leaf_path l <> leaf_path l' /\
     agrees p (leaf_path l) k /\ agrees p (leaf_path l') k) ->
  (exists l, l ∈ L /\ agrees p (leaf_path l) (k + 1)) \/
  (exists l l', l ∈ L /\ l' ∈ L /\ agrees p (leaf_path l) k /\ agrees p (leaf_path l') k /\
     nibv (leaf_path l) k <> nibv (leaf_path l') k).

Lemma agrees_forall p q k : Forall (fun i => nibv p i = nibv q i) (seq 0 k) <-> agrees p q k.
Proof. rewrite Forall_forall. setoid_rewrite elem_of_seq. split; intros Ha i Hi; apply Ha; lia. Qed.

Global Instance agrees_dec p q k : Decision (agrees p q k) := dec_iff (agrees_forall p q k).

Lemma insertable_forall L p :
  Forall (fun k =>
    Exists (fun l => Exists (fun l' => leaf_path l <> leaf_path l' /\
      agrees p (leaf_path l) k /\ agrees p (leaf_path l') k) L) L ->
    Exists (fun l => agrees p (leaf_path l) (k + 1)) L \/
    Exists (fun l => Exists (fun l' => agrees p (leaf_path l) k /\ agrees p (leaf_path l') k /\
      nibv (leaf_path l) k <> nibv (leaf_path l') k) L) L) (seq 0 64) <-> insertable L p.
Proof.
  rewrite Forall_forall. setoid_rewrite elem_of_seq. repeat setoid_rewrite Exists_exists.
  unfold insertable. split; intros Hk k Hlt Hex.
  - destruct (Hk k) as [|(l & Hl & l' & Hl' & Hd)]; [lia| |by left|].
    { destruct Hex as (l & l' & Hl & Hl' & Hd). exists l. split; [done|]. by exists l'. }
    right. by exists l, l'.
  - destruct (Hk k) as [|(l & l' & Hl & Hl' & Hd)]; [lia| |by left|].
    { destruct Hex as (l & Hl & l' & Hl' & Hd). by exists l, l'. }
    right. exists l. split; [done|]. by exists l'.
Qed.

Global Instance insertable_dec L p : Decision (insertable L p) := dec_iff (insertable_forall L p).

Lemma insertable_present L p l : l ∈ L -> leaf_path l = p -> insertable L p.
Proof. intros Hl <- k Hk _. left. exists l. split; [done|]. by intros i Hi. Qed.

Lemma insertable_aligned L0 p L c :
  insertable L0 p -> wf_group L c -> c <= 64 ->
  (forall l, l ∈ L <-> l ∈ L0 /\ agrees p (leaf_path l) c) ->
  aligned p L c.
Proof.
  intros Hins. remember (65 - c) as n eqn:Hn. revert L c Hn.
  induction n as [n IH] using lt_wf_ind. intros L c Hn Hwf Hc HM.
  destruct (decide (length L <= 1)); [by apply aligned_small|].
  destruct (wf_group_splits L c Hwf) as [s HS]; [lia|]. pose proof HS as (Hs & Hag & _).
  assert (Hp : forall m, c <= m <= s -> forall l, l ∈ L -> agrees p (leaf_path l) m).
  { induction m as [|m IHm]; intros Hm l Hl; [intros i ?; lia|].
    destruct (decide (m < c)) as [|Hmc].
    { assert (S m = c) as -> by lia. by apply HM. }
    assert (IHm' := IHm ltac:(lia)). clear IHm. intros i Hi.
    destruct (decide (i < m)) as [|]; [by apply IHm'|]. assert (i = m) as -> by lia.
    destruct (Hins m) as [(k & Hk & Hkm)|(k & k' & Hk & Hk' & Hkm & Hkm' & Hne)]; [lia| | |].
    - destruct Hwf as (HND & _). destruct L as [|a [|b L]]; [simpl in *; lia..|].
      exists a, b. split_and!; [apply HM; left|apply HM; right; left| |apply IHm'; left
                               |apply IHm'; right; left].
      apply NoDup_cons in HND as [Hnin _]. intros E. apply Hnin. rewrite E. left.
    - assert (k ∈ L) by (apply HM; split; [done|intros j Hj; apply Hkm; lia]).
      rewrite (Hkm m) by lia. apply Hag; [done|done|lia].
    - exfalso. apply Hne. apply Hag; [apply HM; split; [done|intros j Hj; apply Hkm; lia]
        |apply HM; split; [done|intros j Hj; apply Hkm'; lia]|lia]. }
  apply (aligned_node p L c s); [done| |].
  - intros l i Hl Hi. apply (Hp s ltac:(lia) l Hl). lia.
  - apply (IH (65 - (s + 1))); [lia|done|by eapply wf_group_child|lia|].
    intros l. rewrite elem_of_child. split.
    + intros [Hls Hl]. split; [by apply HM|]. intros i Hi.
      destruct (decide (i = s)) as [->|]; [done|]. apply (Hp s ltac:(lia) l Hl). lia.
    + intros [Hl0 Hl]. split; [symmetry; apply Hl; lia|]. apply HM. split; [done|].
      intros i Hi. apply Hl. lia.
Qed.

Lemma mpf_leaves_perm t : mpf_leaves t ≡ₚ to_leaf <$> map_to_list (trie_leaves t).
Proof. unfold mpf_leaves. by rewrite btree_iter_perm. Qed.

Lemma mpf_leaves_paths t : leaf_path <$> mpf_leaves t ≡ₚ hash <$> trie_keys t.
Proof. rewrite mpf_leaves_perm. unfold trie_keys. by rewrite <- !list_fmap_compose. Qed.

Lemma elem_of_mpf_leaves t l :
  l ∈ mpf_leaves t <-> exists k v, trie_leaves t !! k = Some v /\ l = to_leaf (k, v).
Proof.
  rewrite mpf_leaves_perm, list_elem_of_fmap. split.
  - intros ((k & v) & -> & Hin%elem_of_map_to_list). by exists k, v.
  - intros (k & v & Hin & ->). exists (k, v). by rewrite elem_of_map_to_list.
Qed.

Lemma wf_trie t : distinct_paths (trie_keys t) -> wf_group (mpf_leaves t) 0.
Proof.
  intros HND. split_and!; [by rewrite mpf_leaves_paths| |intros; lia].
  intros l (k & v & _ & ->)%elem_of_mpf_leaves. apply blake2b256_length.
Qed.

Lemma Trie_root_is_root t r : is_root (mpf_leaves t) 0 r -> Trie_root t = Ok r.
Proof. intros HR. by apply is_root_root_for. Qed.

(** The other leaves are those of the trie without the key. *)
Lemma others_mpf_leaves t k :
  distinct_paths (k :: trie_keys (mkTrie (base.delete k (trie_leaves t)))) ->
  others (mpf_leaves t) (hash k) ≡ₚ mpf_leaves (mkTrie (base.delete k (trie_leaves t))).
Proof.
  intros HND. unfold distinct_paths in HND. apply NoDup_cons in HND as [Hk _].
  rewrite !mpf_leaves_perm. simpl.
  set (D := to_leaf <$> map_to_list (base.delete k (trie_leaves t))).
  assert (HD : others D (hash k) = D).
  { apply others_all. intros l ((k' & v') & -> & Hin)%list_elem_of_fmap. simpl. intros E. apply Hk.
    rewrite <- E. apply list_elem_of_fmap_2. unfold trie_keys.
    change k' with (k', v').1. by apply list_elem_of_fmap_2. }
  destruct (trie_leaves t !! k) as [v|] eqn:E.
  - assert (HP : others (to_leaf <$> map_to_list (trie_leaves t)) (hash k)
                 ≡ₚ others (to_leaf (k, v) :: D) (hash k)).
    { unfold D. by rewrite <- fmap_cons, map_to_list_delete. }
    rewrite HP. unfold others at 1. rewrite filter_cons, decide_False by (simpl; tauto).
    fold (others D (hash k)). by rewrite HD.
  - unfold D in HD |- *. rewrite delete_id in HD |- * by done. by rewrite HD.
Qed.

Lemma distinct_insert t k v :
  distinct_paths (k :: trie_keys (mkTrie (base.delete k (trie_leaves t)))) ->
  distinct_paths (trie_keys (mkTrie (<[k := v]> (trie_leaves t)))).
Proof.
  unfold distinct_paths, trie_keys. simpl. rewrite <- insert_delete_eq.
  by rewrite map_to_list_insert by apply lookup_delete_eq.
Qed.

Lemma distinct_present t k v :
  trie_leaves t !! k = Some v -> distinct_paths (trie_keys t) ->
  distinct_paths (k :: trie_keys (mkTrie (base.delete k (trie_leaves t)))).
Proof.
  intros E. unfold distinct_paths, trie_keys. simpl. by rewrite <- (map_to_list_delete _ _ _ E).
Qed.

Lemma distinct_missing t k :
  trie_leaves t !! k = None -> distinct_paths (k :: trie_keys t) ->
  distinct_paths (k :: trie_keys (mkTrie (base.delete k (trie_leaves t)))).
Proof. intros E. by rewrite delete_id; [destruct t|]. Qed.

(** The generated proof relates the roots of the tries with and without the
    key, whatever the value. *)
Lemma trie_proof t k :
  distinct_paths (trie_keys t) ->
  distinct_paths (k :: trie_keys (mkTrie (base.delete k (trie_leaves t)))) ->
  insertable (mpf_leaves t) (hash k) ->
  exists prf, proof_for_path (depth_fuel 0) (mpf_leaves t) (hash k) 0 = Ok prf /\
    (forall v, exists r, Trie_root (mkTrie (<[k := v]> (trie_leaves t))) = Ok r /\
       including (hash k) (hash v) 0 prf = Ok r) /\
    (exists r, Trie_root (mkTrie (base.delete k (trie_leaves t))) = Ok r /\
       excluding (hash k) 0 prf = Ok r).
Proof.
  intros HND HNDk Hins.
  destruct (proof_complete (hash k) (mpf_leaves t) 0) as (prf & Hprf & Hnil & Hin & r & Hr & Hex).
  - apply (insertable_aligned (mpf_leaves t)); [done|by apply wf_trie|lia|].
    intros l. split; [|tauto]. intros Hl. split; [done|intros i ?; lia].
  - by apply wf_trie.
  - lia.
  - apply blake2b256_length.
  - intros; lia.
  - exists prf. split_and!; [by apply Hprf| |].
    + intros v. destruct (Hin (to_leaf (k, v)) eq_refl) as (r' & Hr' & Hinc).
      exists r'. split; [|done]. apply Trie_root_is_root. eapply is_root_perm; [done|].
      rewrite (others_mpf_leaves t k HNDk), !mpf_leaves_perm. simpl.
      rewrite <- fmap_cons, <- (insert_delete_eq _ k v).
      by rewrite map_to_list_insert by apply lookup_delete_eq.
    + exists r. split; [|done]. apply Trie_root_is_root. eapply is_root_perm; [done|].
      by apply others_mpf_leaves.
Qed.

(** ** Keys that leave the trie inside a compressed prefix *)

(** Some node with at least two leaves below it is left by [p] at a nibble on
    which all those leaves agree. *)
Definition diverges_inside (L : list Leaf) (p : bytes) (k : nat) : Prop :=
  k < 64 /\
  (exists l l', l ∈ L /\ l' ∈ L /\ leaf_path l <> leaf_path l' /\
     agrees p (leaf_path l) k /\ agrees p (leaf_path l') k) /\
  (forall l, l ∈ L -> agrees p (leaf_path l) k -> nibv (leaf_path l) k <> nibv p k) /\
  (forall l l', l ∈ L -> l' ∈ L -> agrees p (leaf_path l) k -> agrees p (leaf_path l') k ->
     nibv (leaf_path l) k = nibv (leaf_path l') k).

Lemma diverges_inside_forall L p k :
  (k < 64 /\
   Exists (fun l => Exists (fun l' => leaf_path l <> leaf_path l' /\
     agrees p (leaf_path l) k /\ agrees p (leaf_path l') k) L) L /\
   Forall (fun l => agrees p (leaf_path l) k -> nibv (leaf_path l) k <> nibv p k) L /\
   Forall (fun l => Forall (fun l' => agrees p (leaf_path l) k -> agrees p (leaf_path l') k ->
     nibv (leaf_path l) k = nibv (leaf_path l') k) L) L) <-> diverges_inside L p k.
Proof.
  repeat setoid_rewrite Exists_exists. repeat setoid_rewrite Forall_forall.
  unfold diverges_inside. split.
  - intros (Hk & (l & Hl & l' & Hl' & Hd) & Hf & Hg). split_and!; [done| |auto|auto].
    by exists l, l'.
  - intros (Hk & (l & l' & Hl & Hl' & Hd) & Hf & Hg). split_and!; [done| |auto|auto].
    exists l. split; [done|]. by exists l'.
Qed.

Global Instance diverges_inside_dec L p k : Decision (diverges_inside L p k) :=
  dec_iff (diverges_inside_forall L p k).

Lemma proof_for_path_nil f L p c :
  proof_for_path f L p c = Ok [] -> L <> [] -> exists l, l ∈ L /\ leaf_path l = p.
Proof.
  destruct L as [|l [|l' L]]; [done| |].
  - destruct f; cbn [proof_for_path]; case_bool_decide; intros E _;
      (exists l; split; [left|done]) || (inv_outcome; discriminate).
  - intros E _. exfalso. destruct f as [|f]; cbn [proof_for_path] in E; [discriminate|].
    inv_outcome. destruct (nth a0 a1 []); inv_outcome; discriminate.
Qed.

Lemma proof_for_path_inv f L p c s prf :
  splits L c s -> proof_for_path f L p c = Ok prf ->
  exists f' step steps, f = S f' /\ prf = step :: steps /\
    proof_step_for_branch p c s (nibv p s) (child L s <$> seq 0 16) = Ok step /\
    proof_for_path f' (child L s (nibv p s)) p (s + 1) = Ok steps.
Proof.
  intros HS E. pose proof HS as (Hs & _ & a & a' & Ha & Ha' & Hd).
  pose proof (nibv_bound p s) as Hb.
  destruct L as [|l [|l' L]]; [by apply elem_of_nil in Ha| |].
  { apply list_elem_of_singleton in Ha as ->. by apply list_elem_of_singleton in Ha' as ->. }
  destruct f as [|f]; [discriminate E|]. cbn [proof_for_path] in E.
  rewrite (common_split_splits _ _ _ HS) in E. cbn [mbind outcome_bind] in E.
  rewrite nibble_nibv in E by lia. cbn [mbind outcome_bind] in E.
  rewrite child_groups_spec in E by lia. cbn [mbind outcome_bind] in E.
  apply bind_Ok_inv in E as (step & Hstep & E).
  assert (Hnth : nth (nibv p s) (child (l :: l' :: L) s <$> seq 0 16) []
                 = child (l :: l' :: L) s (nibv p s)).
  { apply nth_lookup_Some. rewrite list_lookup_fmap, lookup_seq_lt by done. done. }
  rewrite Hnth in E. destruct (child (l :: l' :: L) s (nibv p s)) as [|k G].
  - injection E as <-. exists f, step, []. split_and!; [done..|]. by destruct f.
  - apply bind_Ok_inv in E as (steps & Hsteps & E). injection E as <-.
    by exists f, step, steps.
Qed.

Lemma excluding_length p c prf r : excluding p c prf = Ok r -> length r = 32.
Proof.
  destruct prf as [|st prf]; [simpl; intros E; inv_outcome; by subst|].
  assert (Hb : forall n x ns, branch_root p c n x ns = Ok r -> length r = 32).
  { intros n x ns Hx. unfold branch_root in Hx. inv_outcome. subst. apply combine_length. }
  assert (Hf : forall n x nb, fork_root p c n x nb = Ok r -> length r = 32).
  { intros n x nb Hx. unfold fork_root in Hx. inv_outcome.
    destruct ((_ =? _) || _) in Hx; inv_outcome. subst. apply combine_length. }
  destruct st, prf as [|st' prf]; intros E; cbn [excluding] in E; inv_outcome; eauto.
  - destruct (15 <? _) in E; inv_outcome. subst. apply combine_length.
  - subst. apply combine_length.
Qed.

Lemma is_root_node_inv L c s r :
  splits L c s -> is_root L c r ->
  exists q rs, r = combine (nibs q c s) (merkle_16_roots rs) /\
    (forall l i, l ∈ L -> c <= i < s -> nibv q i = nibv (leaf_path l) i) /\
    length rs = 16 /\ forall i, i < 16 -> is_root (child L s i) (s + 1) (at_root rs i).
Proof.
  intros HS HR. pose proof HS as (_ & _ & a & a' & Ha & Ha' & Hne).
  inversion HR as [|q ? ?|? ? s' q rs HS' Hq Hlen Hrs]; subst.
  - by apply elem_of_nil in Ha.
  - apply list_elem_of_singleton in Ha as ->. by apply list_elem_of_singleton in Ha' as ->.
  - assert (s' = s) as -> by (by eapply splits_unique). by exists q, rs.
Qed.

Lemma roots_Forall L s rs :
  length rs = 16 -> (forall i, i < 16 -> is_root (child L s i) (s + 1) (at_root rs i)) ->
  Forall (fun x => length x = 32) rs.
Proof.
  intros Hlen Hrs. rewrite <- (list_of_roots rs Hlen). apply Forall_fmap, Forall_forall.
  intros i Hi%elem_of_seq. eapply is_root_length. apply Hrs. lia.
Qed.

(** What the exclusion verifier recomputes at a node, for any path: the
    node's sixteen roots with the path's own child replaced. *)
Lemma exclusion_step p L c s q rs step steps r :
  splits L c s -> wf_group L c -> length rs = 16 ->
  (forall i, i < 16 -> is_root (child L s i) (s + 1) (at_root rs i)) ->
  (forall l i, l ∈ L -> c <= i < s -> nibv q i = nibv (leaf_path l) i) ->
  proof_step_for_branch p c s (nibv p s) (child L s <$> seq 0 16) = Ok step ->
  (steps = [] -> child L s (nibv p s) = []) ->
  excluding p c (step :: steps) = Ok r ->
  exists r1 rs', excluding p (s + 1) steps = Ok r1 /\
    r = combine (nibs p c s) (merkle_16_roots rs') /\ length rs' = 16 /\
    Forall (fun x => length x = 32) rs' /\ at_root rs' (nibv p s) = r1.
Proof.
  intros HS Hwf Hlen Hrs Hq Hstep Hnil E. pose proof HS as (Hs & _ & a & a' & Ha & Ha' & Hd).
  pose proof (nibv_bound p s) as Hb. pose proof (roots_Forall L s rs Hlen Hrs) as H32.
  destruct (branch_others_cases (nibv p s) L c s HS)
    as [(j & Hbo & Hj & Hjb & Hjne & Hemp)|(Hbo & _)].
  - destruct (sparse_neighbor_step_ok q c s j (child L s j))
      as (st & nb & Hst & Hnb & Hnib & Hroot & _); [done|done|by eapply wf_group_child| | |].
    { by intros l [? _]%elem_of_child. }
    { intros l i [_ Hl]%elem_of_child. by apply Hq. }
    unfold proof_step_for_branch in Hstep. rewrite Hbo, Hst in Hstep. injection Hstep as <-.
    assert (Hsteps : steps <> []).
    { intros ->. specialize (Hnil eq_refl).
      assert (Hall : forall l, l ∈ L -> nibv (leaf_path l) s = j).
      { intros l Hl. destruct (decide (nibv (leaf_path l) s = j)); [done|]. exfalso.
        apply (child_nonempty L s l Hl).
        destruct (decide (nibv (leaf_path l) s = nibv p s)) as [->|]; [done|].
        apply Hemp; [apply nibv_bound|done|done]. }
      by rewrite !Hall in Hd. }
    rewrite (excluding_sparse p c s st nb) in E by done. apply bind_Ok_inv in E as (r1 & Hr1 & E).
    rewrite fork_root_ok in E by (lia || congruence). injection E as <-.
    exists r1, (<[byte_val (nb_nibble nb) := combine (nb_prefix nb) (nb_root nb)]>
                 (<[nibv p s := r1]> (replicate 16 EMPTY_ROOT))).
    split_and!; [done|done|by rewrite !length_insert| |].
    + apply sparse_roots_Forall; [by eapply excluding_length|apply combine_length].
    + rewrite at_root_insert by (rewrite length_insert, length_replicate; lia).
      rewrite decide_False by congruence. rewrite at_root_insert by (rewrite length_replicate; lia).
      by rewrite decide_True.
  - assert (Hcr : child_roots (child L s <$> seq 0 16) (s + 1) = Ok rs).
    { unfold child_roots. apply map_outcome_Forall2. rewrite <- (list_of_roots rs Hlen).
      apply Forall2_fmap_2, Forall_Forall2_diag, Forall_forall.
      intros i Hi%elem_of_seq. apply is_root_root_for; [|done]. apply Hrs. lia. }
    assert (Hst : step = Branch (s - c) (branch_neighbors (nibv p s) rs)).
    { unfold proof_step_for_branch in Hstep.
      destruct (branch_others _ _) as [|[i g] [|x' rest]]; [|by destruct (Hbo (i, g))|];
        rewrite Hcr in Hstep; cbn [mbind outcome_bind] in Hstep;
        rewrite nibble_nibv in Hstep by lia; by injection Hstep. }
    subst step.
    assert (H32' : forall i, i < 16 -> length (at_root rs i) = 32)
      by (intros i Hi; eapply is_root_length; by apply Hrs).
    rewrite excluding_branch in E by (done || by apply branch_neighbors_length).
    apply bind_Ok_inv in E as (r1 & Hr1 & E). rewrite branch_root_ok in E by done.
    injection E as <-. exists r1, (<[nibv p s := r1]> rs).
    split_and!; [done|done|by rewrite length_insert| |].
    + apply Forall_insert; [done|]. by eapply excluding_length.
    + rewrite at_root_insert by lia. by rewrite decide_True.
Qed.

(** No generated exclusion proof verifies for such a key. *)
Lemma proof_misaligned p k L c f prf r :
  diverges_inside L p k -> c <= k -> wf_group L c -> c <= 64 ->
  (forall l, l ∈ L -> leaf_path l <> p /\ agrees p (leaf_path l) c) ->
  proof_for_path f L p c = Ok prf -> is_root L c r -> excluding p c prf = Ok r -> collision.
Proof.
  remember (65 - c) as n eqn:Hn. revert L c f prf r Hn.
  induction n as [n IH] using lt_wf_ind.
  intros L c f prf r Hn (Hk64 & (l & l' & Hl & Hl' & Hll & Hlk & Hlk') & Hleave & Hsame)
    Hck Hwf Hc Hp Hprf HR Hex.
  destruct (wf_group_splits L c Hwf) as [s HS].
  { destruct L as [|x [|y L]]; simpl; [by apply elem_of_nil in Hl| |lia].
    apply list_elem_of_singleton in Hl as ->. by apply list_elem_of_singleton in Hl' as ->. }
  pose proof HS as (Hs & Hag & a & a' & Ha & Ha' & Hd).
  destruct (is_root_node_inv L c s r HS HR) as (q & rs & -> & Hq & Hlen & Hrs).
  destruct (proof_for_path_inv f L p c s prf HS Hprf) as (f' & step & steps & -> & -> & Hstep & Hsteps).
  assert (Hnil : steps = [] -> child L s (nibv p s) = []).
  { intros ->. destruct (child L s (nibv p s)) as [|x G] eqn:EG; [done|]. exfalso.
    destruct (proof_for_path_nil _ _ _ _ Hsteps) as (y & Hy & Hyp); [done|].
    rewrite <- EG in Hy. apply elem_of_child in Hy as [_ Hy]. by destruct (Hp y Hy). }
  destruct (exclusion_step p L c s q rs step steps _ HS Hwf Hlen Hrs Hq Hstep Hnil Hex)
    as (r1 & rs' & Hr1 & Heq & Hlen' & H32' & Hb).
  apply combine_inj_l in Heq as [[Hnibs Hm]|]; [|done|by rewrite !nibs_length].
  assert (Hpq : forall x i, x ∈ L -> i < s -> nibv p i = nibv (leaf_path x) i).
  { intros x i Hx Hi. destruct (decide (i < c)); [by apply (Hp x Hx)|].
    rewrite <- (nibs_inj _ _ _ _ Hnibs i) by lia. apply Hq; [done|lia]. }
  destruct (lt_eq_lt_dec k s) as [[Hks|Hks]|Hks].
  - exfalso. apply (Hleave l Hl Hlk). symmetry. by apply Hpq.
  - exfalso. subst k. apply Hd. apply Hsame; [done|done| |]; intros i Hi; by apply Hpq.
  - apply merkle_inj_16 in Hm as [->|]; [|done|done|done|by eapply roots_Forall|done].
    assert (Hin : forall x, x ∈ L -> agrees p (leaf_path x) k -> x ∈ child L s (nibv p s)).
    { intros x Hx Hxk. apply elem_of_child. split; [symmetry; apply Hxk; lia|done]. }
    apply (IH (65 - (s + 1)) ltac:(lia) (child L s (nibv p s)) (s + 1) f' steps r1);
      [done| |lia|by eapply wf_group_child|lia| |done| |done].
    + split_and!; [done|exists l, l'; auto| |].
      * intros x [_ Hx]%elem_of_child. auto.
      * intros x y [_ Hx]%elem_of_child [_ Hy]%elem_of_child. auto.
    + intros x [Hxs Hx]%elem_of_child. split; [by apply Hp|]. intros i Hi.
      destruct (decide (i = s)) as [->|]; [done|]. apply Hpq; [done|lia].
    + subst r1. apply Hrs. apply nibv_bound.
Qed.

(** ** The trie and its proofs *)

Lemma bool_decide_neq_refl (r : bytes) : bool_decide (r <> r) = false.
Proof. apply bool_decide_eq_false_2. by intros []. Qed.

Lemma present_transitions t k v v' :
  distinct_paths (trie_keys t) -> trie_leaves t !! k = Some v ->
  exists root prf, Trie_root t = Ok root /\ proof_for_present t k = Ok prf /\
    has root k v prf = true /\
    (exists root', update root k prf v v' = Ok root' /\ (Trie_update t k v').2 = Ok root') /\
    (exists root', delete root k v prf = Ok root' /\ (Trie_delete t k).2 = Ok root').
Proof.
  intros HND Hk.
  destruct (trie_proof t k) as (prf & Hprf & Hin & r1 & Hr1 & Hex);
    [done|by eapply distinct_present|eapply insertable_present; [apply elem_of_mpf_leaves; eauto|done]|].
  destruct (Hin v) as (r & Hr & Hinc). rewrite insert_id in Hr by done.
  destruct (Hin v') as (r' & Hr' & Hinc'). exists r, prf. destruct t as [m]. simpl in *.
  unfold proof_for_present, has, update, delete, Trie_update, Trie_delete. simpl.
  rewrite Hk, Hinc. simpl. rewrite bool_decide_neq_refl.
  split_and!; [done|done|by apply bool_decide_eq_true|by exists r'|by exists r1].
Qed.

(** C1: For a stored key, the trie generates a proof that the verifier accepts
    for the stored value under the trie's own root. *)
Theorem present_proof_verifies t k v :
  distinct_paths (trie_keys t) -> trie_leaves t !! k = Some v ->
  exists root prf, Trie_root t = Ok root /\ proof_for_present t k = Ok prf /\
    has root k v prf = true.
Proof.
  intros HND Hk. destruct (present_transitions t k v v HND Hk) as (r & prf & ? & ? & ? & _).
  by exists r, prf.
Qed.

(** Updating through the generated proof gives exactly the root of the
    trie after [Trie::update]. *)
Theorem update_proof_transitions t k v v' :
  distinct_paths (trie_keys t) -> trie_leaves t !! k = Some v ->
  exists root prf root', Trie_root t = Ok root /\ proof_for_present t k = Ok prf /\
    update root k prf v v' = Ok root' /\ (Trie_update t k v').2 = Ok root'.
Proof.
  intros HND Hk.
  destruct (present_transitions t k v v' HND Hk) as (r & prf & ? & ? & _ & (r' & ? & ?) & _).
  by exists r, prf, r'.
Qed.

(** C15: Deleting through the generated proof gives exactly the root of the
    trie after [Trie::delete], collapsed nodes included. *)
Theorem delete_proof_transitions t k v :
  distinct_paths (trie_keys t) -> trie_leaves t !! k = Some v ->
  exists root prf root', Trie_root t = Ok root /\ proof_for_present t k = Ok prf /\
    delete root k v prf = Ok root' /\ (Trie_delete t k).2 = Ok root'.
Proof.
  intros HND Hk.
  destruct (present_transitions t k v v HND Hk) as (r & prf & ? & ? & _ & _ & (r' & ? & ?)).
  by exists r, prf, r'.
Qed.

Lemma insert_transitions t k v :
  distinct_paths (k :: trie_keys t) -> trie_leaves t !! k = None ->
  insertable (mpf_leaves t) (hash k) ->
  exists root prf root', Trie_root t = Ok root /\ proof_for_missing t k = Ok prf /\
    miss root k prf = true /\ insert root k v prf = Ok root' /\
    (Trie_insert t k v).2 = Ok root'.
Proof.
  intros HND Hk Hins.
  destruct (trie_proof t k) as (prf & Hprf & Hin & r & Hr & Hex);
    [by apply NoDup_cons in HND as [_ ?]|by apply distinct_missing|done|].
  rewrite delete_id in Hr by done. destruct (Hin v) as (r' & Hr' & Hinc').
  exists r, prf, r'. unfold proof_for_missing, miss, insert, Trie_insert. rewrite Hk, Hex. simpl.
  rewrite bool_decide_neq_refl. rewrite bool_decide_true by done. by destruct t.
Qed.

(** C14: For a missing key that leaves the stored paths at a branching node (or
    next to a single leaf), the generated exclusion proof verifies and the
    insertion it authorises gives exactly the root after [Trie::insert]. *)
Theorem insert_proof_transitions t k v :
  distinct_paths (k :: trie_keys t) -> trie_leaves t !! k = None ->
  insertable (mpf_leaves t) (hash k) ->
  exists root prf root', Trie_root t = Ok root /\ proof_for_missing t k = Ok prf /\
    miss root k prf = true /\ insert root k v prf = Ok root' /\
    (Trie_insert t k v).2 = Ok root'.
Proof. apply insert_transitions. Qed.

Lemma insert_misaligned t k v n root prf :
  distinct_paths (k :: trie_keys t) -> diverges_inside (mpf_leaves t) (hash k) n ->
  Trie_root t = Ok root -> proof_for_missing t k = Ok prf ->
  (forall root', insert root k v prf <> Ok root') \/ collision.
Proof.
  intros HND Hdiv Hroot Hprf.
  destruct (insert root k v prf) as [root'|e|] eqn:Hins; [right|left; done..].
  unfold proof_for_missing in Hprf.
  destruct (trie_leaves t !! k) eqn:Hk; [discriminate|].
  apply NoDup_cons in HND as [Hkn HND].
  destruct (is_root_exists (mpf_leaves t) 0) as [r Hr]; [by apply wf_trie|lia|].
  rewrite (Trie_root_is_root t r Hr) in Hroot. injection Hroot as ->.
  unfold insert in Hins. apply bind_Ok_inv in Hins as (x & Hx & Hins).
  case_bool_decide as Hne; [discriminate|]. subst x.
  eapply (proof_misaligned (hash k) n (mpf_leaves t) 0);
    [done|lia|by apply wf_trie|lia| |done|done|done].
  intros l Hl. split; [|intros i ?; lia]. intros E. apply Hkn. rewrite <- E.
  rewrite <- mpf_leaves_paths. by apply list_elem_of_fmap_2.
Qed.

(** A path away from the stored ones either may join them or leaves them
    inside a compressed prefix. *)
Lemma insertable_or_diverges L p : insertable L p \/ exists n, diverges_inside L p n.
Proof.
  destruct (decide (insertable L p)) as [|Hn]; [by left|right].
  rewrite <- insertable_forall in Hn. apply not_Forall_Exists, Exists_exists in Hn; [|apply _].
  destruct Hn as (k & Hk & Hn). apply elem_of_seq in Hk. exists k.
  rewrite <- diverges_inside_forall.
  destruct (decide (Exists (fun l => Exists (fun l' => leaf_path l <> leaf_path l' /\
    agrees p (leaf_path l) k /\ agrees p (leaf_path l') k) L) L)) as [He|He]; [|by destruct Hn].
  split_and!; [lia|done| |].
  - apply Forall_forall. intros l Hl Ha Heq. apply Hn. intros _. left. apply Exists_exists.
    exists l. split; [done|]. intros i Hi. destruct (decide (i = k)) as [->|]; [done|apply Ha; lia].
  - apply Forall_forall. intros l Hl. apply Forall_forall. intros l' Hl' Ha Ha'.
    destruct (decide (nibv (leaf_path l) k = nibv (leaf_path l') k)) as [|Hne]; [done|].
    exfalso. apply Hn. intros _. right. apply Exists_exists. exists l. split; [done|].
    apply Exists_exists. by exists l'.
Qed.


(** An accepted inclusion proof binds the value: two values accepted for
    one key, root and proof are equal, or the hash collides. *)
Theorem inclusion_proof_binds root k v v' prf :
  has root k v prf = true -> has root k v' prf = true -> v = v' \/ collision.
Proof.
  unfold has, is_ok_root. intros E E'.
  destruct (including (hash k) (hash v) 0 prf) eqn:Hv; [|discriminate..].
  destruct (including (hash k) (hash v') 0 prf) eqn:Hv'; [|discriminate..].
  apply bool_decide_eq_true in E as ->. apply bool_decide_eq_true in E' as ->.
  destruct (including_inj (hash k) (hash v) (hash v') 0 prf root) as [Heq|];
    [apply blake2b256_length..|done|done| |by right].
  by apply hash_inj_or_collision in Heq.
Qed.

End WithHash.

(** ** Concrete instances *)

Section Witnesses.
#[local] Existing Instance toy.
#[local] Existing Instance toy_laws.

(** The toy paths start with nibbles b and 9 (keys 1 and 13), a and a (keys 7
    and 12), and c (key 0). *)
Definition keys_branching : Trie := mkTrie (list_to_map [([x01], [xaa]); ([x0d], [xbb])]).
Definition keys_prefixed : Trie := mkTrie (list_to_map [([x07], [xaa]); ([x0c], [xbb])]).

Lemma present_proof_verifies_witness :
  exists root prf, Trie_root keys_branching = Ok root /\
    proof_for_present keys_branching [x01] = Ok prf /\ has root [x01] [xaa] prf = true.
Proof.
  apply (present_proof_verifies keys_branching [x01] [xaa]);
    [apply (bool_decide_unpack _); vm_compute; exact I|vm_compute; reflexivity].
Defined.

Lemma update_proof_transitions_witness :
  exists root prf root', Trie_root keys_branching = Ok root /\
    proof_for_present keys_branching [x01] = Ok prf /\
    update root [x01] prf [xaa] [xcc] = Ok root' /\
    (Trie_update keys_branching [x01] [xcc]).2 = Ok root'.
Proof.
  apply (update_proof_transitions keys_branching [x01] [xaa]);
    [apply (bool_decide_unpack _); vm_compute; exact I|vm_compute; reflexivity].
Defined.

Lemma delete_proof_transitions_witness :
  exists root prf root', Trie_root keys_branching = Ok root /\
    proof_for_present keys_branching [x01] = Ok prf /\
    delete root [x01] [xaa] prf = Ok root' /\
    (Trie_delete keys_branching [x01]).2 = Ok root'.
Proof.
  apply (delete_proof_transitions keys_branching [x01] [xaa]);
    [apply (bool_decide_unpack _); vm_compute; exact I|vm_compute; reflexivity].
Defined.

Lemma insert_proof_transitions_witness :
  exists root prf root', Trie_root keys_branching = Ok root /\
    proof_for_missing keys_branching [x00] = Ok prf /\ miss root [x00] prf = true /\
    insert root [x00] [xcc] prf = Ok root' /\
    (Trie_insert keys_branching [x00] [xcc]).2 = Ok root'.
Proof.
  apply (insert_proof_transitions keys_branching [x00] [xcc]);
    [apply (bool_decide_unpack _); vm_compute; exact I|vm_compute; reflexivity
    |apply (bool_decide_unpack _); vm_compute; exact I].
Defined.


Lemma inclusion_proof_binds_witness :
  let root := from_ok (Trie_root keys_branching) in
  let prf := from_ok (proof_for_present keys_branching [x01]) in
  has root [x01] [xaa] prf = true /\ ([xaa] = [xaa] \/ collision).
Proof.
  intros root prf. assert (Hh : has root [x01] [xaa] prf = true) by (vm_compute; reflexivity).
  exact (conj Hh (inclusion_proof_binds root [x01] [xaa] [xaa] prf Hh Hh)).
Defined.

End Witnesses.
