(* ===== verification/LbTypes.v ===== *)
(** * Vocabulary of the liquidity book

    [bloom-offchain/src/execution_engine/liquidity_book/{side, types, time,
    weight, config, market_taker, market_maker}.rs] and the transition types of
    [core.rs]: sides, prices, time bounds, order weights, and the traits an
    order ([MarketTaker], [TakerBehaviour]) and a pool ([MarketMaker],
    [MakerBehavior]) implement, as type classes.

    Rational arithmetic is the library [num_rational]: class [RatioLib] holds
    the operations the code calls, [RatioLaws] what their documentation says. *)

From stdpp Require Import base list.
From Stdlib Require Import ZArith Lia.
From S2P Require Import Prelude.

(** ** Sides *)

Inductive Side := Bid | Ask.

Global Instance side_eq_dec : EqDecision Side.
Proof. solve_decision. Defined.

(** [impl Not for Side]. *)
Definition side_not (s : Side) : Side := match s with Bid => Ask | Ask => Bid end.

Inductive OnSide (T : Type) := OnBid (t : T) | OnAsk (t : T).
Arguments OnBid {T} _.
Arguments OnAsk {T} _.

Definition wrap {T} (s : Side) (t : T) : OnSide T :=
  match s with Bid => OnBid t | Ask => OnAsk t end.

(** [OnSide::any] and [OnSide::unwrap]. *)
Definition unwrap {T} (o : OnSide T) : T := match o with OnBid t | OnAsk t => t end.

Definition marker {T} (o : OnSide T) : Side :=
  match o with OnBid _ => Bid | OnAsk _ => Ask end.

Definition on_side_map {T R} (f : T -> R) (o : OnSide T) : OnSide R :=
  match o with OnBid t => OnBid (f t) | OnAsk t => OnAsk (f t) end.

Lemma unwrap_wrap {T} s (t : T) : unwrap (wrap s t) = t.
Proof. by destruct s. Qed.
Lemma marker_wrap {T} s (t : T) : marker (wrap s t) = s.
Proof. by destruct s. Qed.

(** ** Ratios and prices *)

(** [num_rational::Ratio<u128>] with its accessors; [mkRatio] is [new_raw]. *)
Record Ratio := mkRatio { numer : Z; denom : Z }.

Definition ratio_wf (r : Ratio) : Prop := (0 <= numer r)%Z /\ (0 < denom r)%Z.

(** Order and equality of the fractions, by cross multiplication. *)
Definition ratio_le (a b : Ratio) : Prop := (numer a * denom b <= numer b * denom a)%Z.
Definition ratio_eq (a b : Ratio) : Prop := (numer a * denom b = numer b * denom a)%Z.

Class RatioLib := {
  ratio_new : Z -> Z -> Ratio;          (* [Ratio::new], reduced *)
  ratio_cmp : Ratio -> Ratio -> comparison;
  ratio_recip : Ratio -> Ratio;         (* [pow(-1)] *)
  ratio_add : Ratio -> Ratio -> Ratio;
  ratio_sub : Ratio -> Ratio -> Ratio;
  ratio_mul : Ratio -> Ratio -> Ratio;
  ratio_div_int : Ratio -> Z -> Ratio;
  (* the same library at [Ratio<i128>] *)
  sratio_new : Z -> Z -> Ratio;
  sratio_add : Ratio -> Ratio -> Ratio;
  sratio_sub : Ratio -> Ratio -> Ratio;
  sratio_mul : Ratio -> Ratio -> Ratio;
  sratio_cmp : Ratio -> Ratio -> comparison;
}.

Class RatioLaws `{RatioLib} : Prop := {
  ratio_cmp_spec : forall a b, ratio_wf a -> ratio_wf b ->
    ratio_cmp a b = (numer a * denom b ?= numer b * denom a)%Z;
  ratio_cmp_antisym : forall a b, ratio_cmp b a = CompOpp (ratio_cmp a b);
  ratio_new_eq : forall n d, (0 <= n)%Z -> (0 < d)%Z ->
    ratio_wf (ratio_new n d) /\ ratio_eq (ratio_new n d) (mkRatio n d);
  ratio_recip_eq : forall r, ratio_wf r -> (0 < numer r)%Z ->
    ratio_wf (ratio_recip r) /\ ratio_eq (ratio_recip r) (mkRatio (denom r) (numer r));
  sratio_add_denom : forall a b, (0 < denom (sratio_add a b) <= i128_max)%Z;
}.

Section Prices.
Context `{RL : RatioLib}.

Definition ratio_leb (a b : Ratio) : bool :=
  match ratio_cmp a b with Gt => false | _ => true end.
Definition ratio_ltb (a b : Ratio) : bool :=
  match ratio_cmp a b with Lt => true | _ => false end.
Definition ratio_geb (a b : Ratio) : bool :=
  match ratio_cmp a b with Lt => false | _ => true end.

(** Quote/Base and Output/Input prices; both wrap a ratio. *)
Definition AbsolutePrice := Ratio.
Definition RelativePrice := Ratio.

Definition price_new (n d : Z) : option AbsolutePrice :=
  if (d =? 0)%Z then None else Some (mkRatio n d).

Definition price_zero : AbsolutePrice := mkRatio 0 1.

Definition from_price (side : Side) (price : RelativePrice) : AbsolutePrice :=
  match side with Bid => ratio_recip price | Ask => price end.

Definition overlaps (this : OnSide AbsolutePrice) (that : AbsolutePrice) : bool :=
  match this with
  | OnBid this => ratio_leb that this
  | OnAsk this => ratio_leb this that
  end.

Definition better_than (this : OnSide AbsolutePrice) (that : AbsolutePrice) : bool :=
  match this with
  | OnBid this => ratio_leb that this
  | OnAsk this => ratio_leb this that
  end.

End Prices.

(** ** Time bounds *)

Inductive TimeBounds := Until (t : Z) | After (t : Z) | Within (t0 t1 : Z) | Unbounded.

(** The comparisons are the source's, which is not what its comments say for
    [After] ("X >= T") and [Within] ("T <= X <= T"). *)
Definition contain (b : TimeBounds) (time_slot : Z) : bool :=
  match b with
  | Until t => (time_slot <=? t)%Z
  | After t => (time_slot <=? t)%Z
  | Within t0 t1 => (time_slot <=? t0)%Z && (time_slot <=? t1)%Z
  | Unbounded => true
  end.

Definition lower_bound (b : TimeBounds) : option Z :=
  match b with After t => Some t | Within t0 _ => Some t0 | Until _ | Unbounded => None end.

(** ** Transitions ([core.rs]) *)

Record TerminalTake := mkTerminalTake {
  remaining_input : Z;
  accumulated_output : Z;
  remaining_budget : Z;
  remaining_fee : Z;
}.

Inductive Next (S T : Type) := Succ (s : S) | Term (t : T).
Arguments Succ {S T} _.
Arguments Term {S T} _.

Definition map_succ {S S1 T} (f : S -> S1) (n : Next S T) : Next S1 T :=
  match n with Succ s => Succ (f s) | Term t => Term t end.

Record Trans (Init Cont Term : Type) := mkTrans { target : Init; result : Next Cont Term }.
Arguments mkTrans {Init Cont Term} _ _.
Arguments target {Init Cont Term} _.
Arguments result {Init Cont Term} _.

(** [Semigroup for Trans]: the first target with the last result. *)
Definition trans_combine {I C T} (a b : Trans I C T) : Trans I C T :=
  mkTrans (target a) (result b).

Notation TakeInProgress Taker := (Trans Taker Taker TerminalTake).
(** A make never terminates: its terminal type is [Void]. *)
Notation MakeInProgress Maker := (Trans Maker Maker Empty_set).

(** ** Takers and makers *)

Class MarketTaker (T U : Type) := {
  taker_side : T -> Side;
  taker_input : T -> Z;
  taker_output : T -> Z;
  taker_price : T -> AbsolutePrice;
  operator_fee : T -> Z -> Z;
  taker_fee : T -> Z;
  budget : T -> Z;
  consumable_budget : T -> Z;
  taker_marginal_cost_hint : T -> U;
  min_marginal_output : T -> Z;
  time_bounds : T -> TimeBounds;
}.

Class TakerBehaviour (T : Type) := {
  with_updated_time : T -> Z -> Next T unit;
  with_applied_trade : T -> Z -> Z -> Next T TerminalTake;
  with_budget_corrected : T -> Z -> Z * T;
  with_fee_charged : T -> Z -> T;
  with_output_added : T -> Z -> T;
  try_terminate : T -> Next T TerminalTake;
}.

Record AbsoluteReserves := mkReserves { base_reserve : Z; quote_reserve : Z }.
Record AvailableLiquidity := mkAvailable { available_input : Z; available_output : Z }.

Class MarketMaker (M U : Type) := {
  static_price : M -> AbsolutePrice;
  real_price : M -> OnSide Z -> option AbsolutePrice;
  quality : M -> Z;
  maker_marginal_cost_hint : M -> U;
  liquidity : M -> AbsoluteReserves;
  available_liquidity_on_side : M -> OnSide AbsolutePrice -> option AvailableLiquidity;
  estimated_trade : M -> OnSide Z -> option AvailableLiquidity;
  is_active : M -> bool;
}.

Class MakerBehavior (M : Type) := {
  swap : M -> OnSide Z -> Next M Empty_set;
  (* [target.preserve_preview_metadata(previewed, rebalanced)] *)
  preserve_preview_metadata : M -> M -> M -> M;
}.

(** The methods of a pool that see the taker they trade with. *)
Class MakerForTaker (T M : Type) := {
  effective_price : M -> T -> OnSide Z -> option AbsolutePrice;
  swap_with_taker : M -> T -> OnSide Z -> TakeInProgress T * MakeInProgress M;
}.

(** [Stable::stable_id]. *)
Class Stable (T I : Type) := stable_id : T -> I.

(** What the book relies on when it trades with a taker: a trade takes the
    traded input away and pays the traded output. *)
Class TakerTradeLaws (T U : Type) `{MarketTaker T U, TakerBehaviour T} : Prop := {
  applied_trade_succ : forall t t' removed added,
    (0 <= removed <= taker_input t)%Z -> (0 <= added)%Z -> (taker_output t + added <= u64_max)%Z ->
    with_applied_trade t removed added = Succ t' ->
    taker_input t' = (taker_input t - removed)%Z /\
    taker_output t' = (taker_output t + added)%Z;
  applied_trade_term : forall t tt removed added,
    (0 <= removed <= taker_input t)%Z -> (0 <= added)%Z -> (taker_output t + added <= u64_max)%Z ->
    with_applied_trade t removed added = Term tt ->
    remaining_input tt = (taker_input t - removed)%Z /\
    accumulated_output tt = (taker_output t + added)%Z;
}.

(** ** A concrete ratio library

    Exact arithmetic on unreduced fractions (signed sums that do not fit [i128]
    are 0), for evaluation. *)

Definition exact_ratio : RatioLib := {|
  ratio_new := fun n d => mkRatio (n / Z.gcd n d) (d / Z.gcd n d);
  ratio_cmp := fun a b => (numer a * denom b ?= numer b * denom a)%Z;
  ratio_recip := fun r => mkRatio (denom r) (numer r);
  ratio_add := fun a b => mkRatio (numer a * denom b + numer b * denom a) (denom a * denom b);
  ratio_sub := fun a b => mkRatio (numer a * denom b - numer b * denom a) (denom a * denom b);
  ratio_mul := fun a b => mkRatio (numer a * numer b) (denom a * denom b);
  ratio_div_int := fun a z => mkRatio (numer a) (denom a * z);
  sratio_new := fun n d => mkRatio (n / Z.gcd n d) (d / Z.gcd n d);
  sratio_add := fun a b =>
    if ((0 <? denom a * denom b) && (denom a * denom b <=? i128_max))%Z
    then mkRatio (numer a * denom b + numer b * denom a) (denom a * denom b) else mkRatio 0 1;
  sratio_sub := fun a b => mkRatio (numer a * denom b - numer b * denom a) (denom a * denom b);
  sratio_mul := fun a b => mkRatio (numer a * numer b) (denom a * denom b);
  sratio_cmp := fun a b => (numer a * denom b ?= numer b * denom a)%Z;
|}.

Lemma exact_ratio_laws : @RatioLaws exact_ratio.
Proof.
  split.
  - done.
  - intros a b. apply Z.compare_antisym.
  - intros n d Hn Hd. unfold ratio_wf, ratio_eq, ratio_new. simpl.
    assert (0 < Z.gcd n d)%Z as Hg.
    { pose proof (Z.gcd_nonneg n d). destruct (decide (Z.gcd n d = 0)%Z) as [E|]; [|lia].
      apply Z.gcd_eq_0_r in E. lia. }
    destruct (Z.gcd_divide_l n d) as [a Ha]. destruct (Z.gcd_divide_r n d) as [b Hb].
    remember (Z.gcd n d) as g. rewrite Ha, Hb, !Z.div_mul by lia. nia.
  - intros r [_ Hd] Hn. unfold ratio_wf, ratio_eq, ratio_recip. simpl. lia.
  - intros a b. simpl. destruct (Z.ltb_spec 0 (denom a * denom b)); simpl; [|done].
    destruct (Z.leb_spec (denom a * denom b) i128_max); simpl; done.
Qed.

Section PriceLemmas.
Context `{RLaws : RatioLaws}.

Lemma ratio_leb_le a b : ratio_wf a -> ratio_wf b -> ratio_leb a b = true <-> ratio_le a b.
Proof.
  intros Ha Hb. unfold ratio_leb, ratio_le. rewrite ratio_cmp_spec by done.
  destruct (Z.compare_spec (numer a * denom b) (numer b * denom a)); split; intros; lia || done.
Qed.

Lemma ratio_leb_total a b : ratio_wf a -> ratio_wf b -> ratio_leb a b = false -> ratio_le b a.
Proof.
  intros Ha Hb. unfold ratio_leb, ratio_le. rewrite ratio_cmp_spec by done.
  destruct (Z.compare_spec (numer a * denom b) (numer b * denom a)); [done|done|lia].
Qed.

Lemma ratio_geb_leb a b : ratio_geb a b = ratio_leb b a.
Proof. unfold ratio_geb, ratio_leb. rewrite (ratio_cmp_antisym a b). by destruct (ratio_cmp a b). Qed.

Lemma ratio_leb_refl a : ratio_leb a a = true.
Proof.
  unfold ratio_leb. pose proof (ratio_cmp_antisym a a) as Ha. destruct (ratio_cmp a a); done.
Qed.

Lemma ratio_ltb_leb a b : ratio_ltb a b = negb (ratio_leb b a).
Proof. unfold ratio_ltb, ratio_leb. rewrite (ratio_cmp_antisym a b). by destruct (ratio_cmp a b). Qed.

Lemma ratio_le_trans a b c : ratio_wf b -> ratio_wf a -> ratio_wf c ->
  ratio_le a b -> ratio_le b c -> ratio_le a c.
Proof. unfold ratio_wf, ratio_le. intros Hb Ha Hc H1 H2. nia. Qed.

End PriceLemmas.
