(* ===== verification/Assets.v ===== *)
(** * Assets, tokens and pairs

    [spectrum-cardano-lib/src/lib.rs] (asset names, tokens, asset classes and
    their byte encodings), [value.rs] (asset bundles) and
    [spectrum-offchain-cardano/src/data/pair.rs] (canonical pairs, sides).

    Policy ids are 28-byte hashes ([cml_chain::PolicyId]), kept as bytes. *)

From stdpp Require Import base gmap list.
From Stdlib Require Import ZArith Lia Strings.Byte.
From S2P Require Import Prelude LbTypes.

(** [AssetName(u8, [u8; 32])]: the length of the original name and its bytes
    padded with zeros. *)
Record AssetName := mkAssetName { an_len : Z; padded_bytes : bytes }.

Record Token := mkToken { policy : bytes; asset_name : AssetName }.

Inductive AssetClass := Native | TokenAsset (t : Token).

Global Instance asset_name_eq_dec : EqDecision AssetName.
Proof. solve_decision. Defined.
Global Instance token_eq_dec : EqDecision Token.
Proof. solve_decision. Defined.
Global Instance asset_class_eq_dec : EqDecision AssetClass.
Proof. solve_decision. Defined.
Global Program Instance asset_name_countable : Countable AssetName :=
  inj_countable' (fun n => (an_len n, padded_bytes n)) (fun p => mkAssetName p.1 p.2) _.
Next Obligation. by intros []. Qed.
Global Program Instance token_countable : Countable Token :=
  inj_countable' (fun t => (policy t, asset_name t)) (fun p => mkToken p.1 p.2) _.
Next Obligation. by intros []. Qed.

Definition POLICY_BYTE_COUNT : nat := 28.

Definition asset_name_wf (a : AssetName) : Prop :=
  (0 <= an_len a <= 32)%Z /\ length (padded_bytes a) = 32 /\
  drop (Z.to_nat (an_len a)) (padded_bytes a) = replicate (32 - Z.to_nat (an_len a)) x00.

Definition token_wf (t : Token) : Prop :=
  length (policy t) = POLICY_BYTE_COUNT /\ asset_name_wf (asset_name t).

Definition asset_wf (a : AssetClass) : Prop :=
  match a with Native => True | TokenAsset t => token_wf t end.

(** ** Asset names *)

(** [&self.1[0..self.0]] panics when the recorded length exceeds the array. *)
Definition as_bytes {E} (a : AssetName) : outcome E bytes :=
  let n := Z.to_nat (an_len a) in
  if n <=? length (padded_bytes a) then Ok (take n (padded_bytes a)) else Panic.

(** Copy into a zeroed 32-byte buffer. *)
Definition pad32 (bs : bytes) : bytes := bs ++ replicate (32 - length bs) x00.

(** [TryFrom<Vec<u8>> for AssetName]. *)
Definition asset_name_try_from (value : bytes) : option AssetName :=
  if 32 <? length value then None
  else Some (mkAssetName (Z.of_nat (length value)) (pad32 value)).

(** [AssetName::from_utf8] on the bytes of the string. *)
Definition from_utf8 (tn : bytes) : AssetName :=
  let orig_len := length tn in
  let tn := if 32 <? orig_len then take 32 tn else tn in
  mkAssetName (Z.of_nat (orig_len mod 256)) (pad32 tn).

(** ** Tokens and asset classes as bytes *)

(** [From<Token> for [u8; 60]] and back. *)
Definition token_to_array (t : Token) : bytes := policy t ++ padded_bytes (asset_name t).

Definition token_from_array (bs : bytes) : option Token :=
  an ← asset_name_try_from (drop POLICY_BYTE_COUNT bs);
  Some (mkToken (take POLICY_BYTE_COUNT bs) an).

Definition to_bytes {E} (a : AssetClass) : outcome E bytes :=
  match a with
  | Native => Ok [x00]
  | TokenAsset (mkToken pol an) => n ← as_bytes an; Ok (pol ++ n)
  end.

(** [cml_chain::assets::AssetName::new] rejects names over 32 bytes. *)
Definition from_bytes (bs : bytes) : option AssetClass :=
  if bool_decide (bs = [x00]) then Some Native
  else if POLICY_BYTE_COUNT <=? length bs then
    an ← asset_name_try_from (drop POLICY_BYTE_COUNT bs);
    Some (TokenAsset (mkToken (take POLICY_BYTE_COUNT bs) an))
  else None.

(** ** Ordering and pairs *)

Fixpoint bytes_cmp (a b : bytes) : comparison :=
  match a, b with
  | [], [] => Eq
  | [], _ => Lt
  | _, [] => Gt
  | x :: a, y :: b =>
    match Nat.compare (byte_val x) (byte_val y) with Eq => bytes_cmp a b | c => c end
  end.

Definition lex (c d : comparison) : comparison := match c with Eq => d | _ => c end.

(** The derived [Ord]s: fields in order, variants in order. *)
Definition asset_name_cmp (a b : AssetName) : comparison :=
  lex (an_len a ?= an_len b)%Z (bytes_cmp (padded_bytes a) (padded_bytes b)).
Definition token_cmp (a b : Token) : comparison :=
  lex (bytes_cmp (policy a) (policy b)) (asset_name_cmp (asset_name a) (asset_name b)).
Definition asset_cmp (a b : AssetClass) : comparison :=
  match a, b with
  | Native, Native => Eq
  | Native, TokenAsset _ => Lt
  | TokenAsset _, Native => Gt
  | TokenAsset s, TokenAsset t => token_cmp s t
  end.

(** Sorting the two-element buffer. *)
Definition order_canonical (x y : AssetClass) : AssetClass * AssetClass :=
  match asset_cmp x y with Gt => (y, x) | _ => (x, y) end.

Record PairId := mkPair { pair_base : AssetClass; pair_quote : AssetClass }.

Definition canonical (x y : AssetClass) : PairId :=
  let xs := order_canonical x y in mkPair xs.1 xs.2.

Definition side_of (input output : AssetClass) : Side :=
  let xs := order_canonical input output in
  if bool_decide (xs.1 = input) then Ask else Bid.

(** ** Bundles of assets ([value.rs])

    [cml_chain::Value] is a coin amount and, per policy, a map from names to
    amounts. *)

Record Value := mkValue { coin : Z; multiasset : gmap bytes (gmap bytes Z) }.

Global Instance value_eq_dec : EqDecision Value.
Proof. solve_decision. Defined.

(** [From<AssetName> for cml_chain::assets::AssetName]: the unpadded name. *)
Definition cml_name (a : AssetName) : bytes := take (Z.to_nat (an_len a)) (padded_bytes a).

Definition amount_of (v : Value) (ac : AssetClass) : option Z :=
  match ac with
  | Native => Some (coin v)
  | TokenAsset t => b ← multiasset v !! policy t; b !! cml_name (asset_name t)
  end.

(** [self.coin - amt]: an underflow panics in a checked build. *)
Definition sub_unsafe {E} (v : Value) (ac : AssetClass) (amt : Z) : outcome E Value :=
  match ac with
  | Native => if (amt <=? coin v)%Z then Ok (mkValue (coin v - amt) (multiasset v)) else Panic
  | TokenAsset t =>
    match multiasset v !! policy t with
    | None => Ok v
    | Some bundle =>
      let an := cml_name (asset_name t) in
      let bundle' :=
        match bundle !! an with
        | Some value => if (amt <? value)%Z then <[an := (value - amt)%Z]> bundle else delete an bundle
        | None => bundle
        end in
      Ok (mkValue (coin v)
            (if bool_decide (bundle' = ∅) then delete (policy t) (multiasset v)
             else <[policy t := bundle']> (multiasset v)))
    end
  end.

Definition add_unsafe {E} (v : Value) (ac : AssetClass) (amt : Z) : outcome E Value :=
  match ac with
  | Native => s ← match checked_add (coin v) amt with Some s => Ok s | None => Panic end;
    Ok (mkValue s (multiasset v))
  | TokenAsset t =>
    let an := cml_name (asset_name t) in
    match multiasset v !! policy t with
    | Some bundle =>
      match bundle !! an with
      | Some asset =>
        s ← match checked_add asset amt with Some s => Ok s | None => Panic end;
        Ok (mkValue (coin v) (<[policy t := <[an := s]> bundle]> (multiasset v)))
      | None => Ok (mkValue (coin v) (<[policy t := <[an := amt]> bundle]> (multiasset v)))
      end
    | None => Ok (mkValue (coin v) (<[policy t := {[ an := amt ]}]> (multiasset v)))
    end
  end.

(** ** Properties *)

Lemma pad32_length bs : length bs <= 32 -> length (pad32 bs) = 32.
Proof. intros. unfold pad32. rewrite length_app, length_replicate. lia. Qed.

Lemma asset_name_try_from_wf bs a : asset_name_try_from bs = Some a -> asset_name_wf a.
Proof.
  unfold asset_name_try_from. destruct (32 <? length bs) eqn:E; [done|]. apply Nat.ltb_ge in E.
  intros [= <-]. unfold asset_name_wf. simpl. rewrite Nat2Z.id.
  split_and!; [lia|lia|by apply pad32_length|]. unfold pad32. by rewrite drop_app_length.
Qed.

Lemma asset_name_try_from_bytes {E} bs a :
  asset_name_try_from bs = Some a -> as_bytes (E:=E) a = Ok bs.
Proof.
  unfold asset_name_try_from. destruct (32 <? length bs) eqn:E'; [done|]. apply Nat.ltb_ge in E'.
  intros [= <-]. unfold as_bytes. simpl. rewrite Nat2Z.id, pad32_length by lia.
  replace (length bs <=? 32) with true by (symmetry; apply Nat.leb_le; lia).
  unfold pad32. by rewrite take_app_length.
Qed.

(** A well-formed name is determined by its unpadded bytes. *)
Lemma asset_name_try_from_wf_inv a :
  asset_name_wf a -> asset_name_try_from (cml_name a) = Some a.
Proof.
  destruct a as [n p]. unfold asset_name_wf, cml_name, asset_name_try_from. simpl.
  intros (Hn & Hp & Hz). rewrite length_take, Hp.
  replace (Z.to_nat n `min` 32) with (Z.to_nat n) by lia.
  destruct (Nat.ltb_spec 32 (Z.to_nat n)); [lia|]. rewrite Z2Nat.id by lia.
  f_equal. f_equal. unfold pad32. rewrite length_take, Hp.
  replace (Z.to_nat n `min` 32) with (Z.to_nat n) by lia. rewrite <- Hz. apply take_drop.
Qed.

Lemma as_bytes_wf {E} a : asset_name_wf a -> as_bytes (E:=E) a = Ok (cml_name a).
Proof.
  intros (Hn & Hp & _). unfold as_bytes, cml_name. rewrite Hp.
  by replace (Z.to_nat (an_len a) <=? 32) with true by (symmetry; apply Nat.leb_le; lia).
Qed.

Lemma cml_name_inj a b : asset_name_wf a -> asset_name_wf b -> cml_name a = cml_name b -> a = b.
Proof.
  intros Ha Hb E. apply asset_name_try_from_wf_inv in Ha, Hb. rewrite E in Ha. congruence.
Qed.

Lemma bytes_cmp_opp a b : bytes_cmp b a = CompOpp (bytes_cmp a b).
Proof.
  revert b. induction a as [|x a IH]; intros [|y b]; try done. simpl.
  rewrite (Nat.compare_antisym (byte_val x)). destruct (byte_val x ?= byte_val y); simpl; auto.
Qed.

Lemma bytes_cmp_eq a b : bytes_cmp a b = Eq -> a = b.
Proof.
  revert b. induction a as [|x a IH]; intros [|y b]; try done. simpl.
  destruct (Nat.compare_spec (byte_val x) (byte_val y)) as [E| |]; [|done..].
  intros H. apply byte_val_inj in E as ->. f_equal. auto.
Qed.

Lemma lex_opp c d : CompOpp (lex c d) = lex (CompOpp c) (CompOpp d).
Proof. by destruct c, d. Qed.

Lemma lex_eq c d : lex c d = Eq -> c = Eq /\ d = Eq.
Proof. by destruct c, d. Qed.

Lemma lex_lt c d : lex c d = Lt <-> c = Lt \/ c = Eq /\ d = Lt.
Proof. destruct c; cbn; naive_solver. Qed.

Lemma bytes_cmp_refl a : bytes_cmp a a = Eq.
Proof. induction a as [|x a IH]; cbn; [done|]. by rewrite Nat.compare_refl. Qed.

Lemma bytes_cmp_lt_trans a : forall b c, bytes_cmp a b = Lt -> bytes_cmp b c = Lt -> bytes_cmp a c = Lt.
Proof.
  induction a as [|x a IH]; intros [|y b] [|z c]; cbn; try done.
  destruct (Nat.compare_spec (byte_val x) (byte_val y)) as [Exy|Hxy|]; try done;
    destruct (Nat.compare_spec (byte_val y) (byte_val z)) as [Eyz|Hyz|]; try done;
    destruct (Nat.compare_spec (byte_val x) (byte_val z)) as [Exz|Hxz|]; try done; try lia.
  apply IH.
Qed.

Lemma asset_cmp_opp a b : asset_cmp b a = CompOpp (asset_cmp a b).
Proof.
  destruct a as [|[p [n x]]], b as [|[q [m y]]]; try done. simpl.
  unfold token_cmp, asset_name_cmp. simpl. rewrite !lex_opp.
  by rewrite <- !bytes_cmp_opp, <- Z.compare_antisym.
Qed.

Lemma asset_cmp_eq a b : asset_cmp a b = Eq -> a = b.
Proof.
  destruct a as [|[p [n x]]], b as [|[q [m y]]]; try done. simpl.
  unfold token_cmp, asset_name_cmp. simpl.
  intros [->%bytes_cmp_eq [->%Z.compare_eq ->%bytes_cmp_eq]%lex_eq]%lex_eq. done.
Qed.

(** Amounts of one asset after a change to another. *)
Definition same_asset (a b : AssetClass) : Prop :=
  match a, b with
  | Native, Native => True
  | TokenAsset s, TokenAsset t =>
    policy s = policy t /\ cml_name (asset_name s) = cml_name (asset_name t)
  | _, _ => False
  end.

Lemma same_asset_eq a b : asset_wf a -> asset_wf b -> same_asset a b -> a = b.
Proof.
  destruct a as [|[p n]], b as [|[q m]]; try done. simpl. intros [_ Hn] [_ Hm] [-> E].
  by rewrite (cml_name_inj n m).
Qed.

Lemma add_unsafe_amount {E} v ac amt v' :
  add_unsafe (E:=E) v ac amt = Ok v' ->
  amount_of v' ac = Some (default 0%Z (amount_of v ac) + amt)%Z /\
  forall b, ~ same_asset ac b -> amount_of v' b = amount_of v b.
Proof.
  unfold add_unsafe. intros Hadd. destruct ac as [|[p n]]; simpl in *.
  - unfold checked_add in Hadd. destruct (_ <=? _)%Z; [|done]. injection Hadd as <-.
    split; [done|]. intros [|?]; naive_solver.
  - assert (exists b0, v' = mkValue (coin v) (<[p := <[cml_name n :=
              (default 0 (amount_of v (TokenAsset (mkToken p n))) + amt)%Z]> b0]> (multiasset v)) /\
              b0 = default ∅ (multiasset v !! p)) as (b0 & -> & ->).
    { simpl. eexists. split; [|done]. destruct (multiasset v !! p) as [bd|] eqn:Eb; simpl in *.
      - destruct (bd !! cml_name n) as [a|] eqn:Ea; simpl in *.
        + unfold checked_add in Hadd. destruct (_ <=? _)%Z; [|done]. by injection Hadd as <-.
        + by injection Hadd as <-.
      - by injection Hadd as <-. }
    simpl. rewrite lookup_insert_eq. simpl. rewrite lookup_insert_eq. split; [done|].
    intros [|[q m]] Hne; [done|]. simpl in *.
    destruct (decide (p = q)) as [<-|]; [|by rewrite lookup_insert_ne].
    rewrite lookup_insert_eq. simpl. rewrite lookup_insert_ne by naive_solver.
    by destruct (multiasset v !! p).
Qed.

Lemma sub_unsafe_amount {E} v ac amt v' x :
  sub_unsafe (E:=E) v ac amt = Ok v' -> amount_of v ac = Some x ->
  (ac = Native \/ (amt < x)%Z -> amount_of v' ac = Some (x - amt)%Z) /\
  (ac <> Native -> (x <= amt)%Z -> amount_of v' ac = None) /\
  forall b, ~ same_asset ac b -> amount_of v' b = amount_of v b.
Proof.
  unfold sub_unsafe. intros Hsub Hx. destruct ac as [|[p n]]; simpl in *.
  - destruct (_ <=? _)%Z; [|done]. injection Hsub as <-. injection Hx as <-.
    split_and!; [done|done|]. intros [|?]; naive_solver.
  - destruct (multiasset v !! p) as [bd|] eqn:Eb; [|done]. simpl in Hx. rewrite Hx in Hsub.
    injection Hsub as <-. simpl. set (bd' := if (amt <? x)%Z then _ else _).
    assert (Hbd : forall q, (if bool_decide (bd' = ∅) then delete p (multiasset v)
                  else <[p := bd']> (multiasset v)) !! q ≫= (fun b => b !! cml_name n) =
              if decide (p = q) then bd' !! cml_name n else multiasset v !! q ≫= (.!! cml_name n)).
    { intros q. case_bool_decide as He; destruct (decide (p = q)) as [<-|].
      - rewrite lookup_delete_eq. by rewrite He, lookup_empty.
      - by rewrite lookup_delete_ne.
      - by rewrite lookup_insert_eq.
      - by rewrite lookup_insert_ne. }
    rewrite Hbd, decide_True by done. unfold bd' at 1 2. split_and!.
    + intros [[=]|]. destruct (Z.ltb_spec amt x); [by rewrite lookup_insert_eq|lia].
    + intros _ ?. destruct (Z.ltb_spec amt x); [lia|by rewrite lookup_delete_eq].
    + intros [|[q m]] Hne; [done|]. simpl in *.
      assert (Ho : p = q -> bd' !! cml_name m = bd !! cml_name m).
      { intros ->. assert (cml_name n <> cml_name m) by naive_solver.
        unfold bd'. destruct (_ <? _)%Z; [by rewrite lookup_insert_ne|by rewrite lookup_delete_ne]. }
      case_bool_decide as He; destruct (decide (p = q)) as [<-|].
      * rewrite lookup_delete_eq, Eb. simpl. by rewrite <- Ho, He, lookup_empty.
      * by rewrite lookup_delete_ne.
      * rewrite lookup_insert_eq, Eb. simpl. by apply Ho.
      * by rewrite lookup_insert_ne.
Qed.

(** [side_of] and [PairId::canonical] agree: the pair does not depend on
    the trade's direction, the opposite trade is on the opposite side, and an
    ask is exactly the trade whose input is the pair's base. *)
Theorem pair_side_canonical x y :
  x <> y ->
  canonical x y = canonical y x /\ side_of y x = side_not (side_of x y) /\
  (side_of x y = Ask <-> pair_base (canonical x y) = x).
Proof.
  intros Hne. unfold canonical, side_of, order_canonical. rewrite (asset_cmp_opp x y).
  destruct (asset_cmp x y) eqn:E; [by apply asset_cmp_eq in E|..]; simpl;
    repeat case_bool_decide; try congruence; split_and!; try done; split; congruence.
Qed.

Lemma pair_side_canonical_witness :
  side_of (TokenAsset (mkToken [] (mkAssetName 0 []))) Native = side_not (side_of Native (TokenAsset (mkToken [] (mkAssetName 0 [])))).
Proof. apply (pair_side_canonical Native (TokenAsset (mkToken [] (mkAssetName 0 [])))). done. Defined.

(** The byte encoding of a well-formed asset class decodes to it. *)
Theorem asset_bytes_roundtrip (E : Type) a :
  asset_wf a -> exists bs, to_bytes (E:=E) a = Ok bs /\ from_bytes bs = Some a.
Proof.
  destruct a as [|[p n]]; simpl; [by exists [x00]|]. intros [Hp Hn]. rewrite as_bytes_wf by done.
  exists (p ++ cml_name n). split; [done|]. unfold from_bytes.
  simpl in Hp. rewrite bool_decide_false by (destruct p as [|? [|? ?]]; [done..|]; by intros [=]).
  rewrite length_app, Hp. simpl. unfold POLICY_BYTE_COUNT in *.
  rewrite <- Hp, drop_app_length, take_app_length, asset_name_try_from_wf_inv by done. done.
Qed.

Definition sample_token : AssetClass :=
  TokenAsset (mkToken (replicate 28 x09) (mkAssetName 2 (replicate 32 x00))).

Lemma asset_bytes_roundtrip_witness :
  exists bs, to_bytes (E:=unit) sample_token = Ok bs /\ from_bytes bs = Some sample_token.
Proof.
  apply asset_bytes_roundtrip. simpl. split; [done|]. split_and!; simpl; [lia|lia|done|done].
Defined.

(** The 60-byte array form of a token forgets the length of its name:
    converting back gives the token only when its name has all 32 bytes. *)
Theorem token_array_roundtrip_iff t :
  token_wf t -> token_from_array (token_to_array t) = Some t <-> an_len (asset_name t) = 32%Z.
Proof.
  destruct t as [p [n b]]. unfold token_wf, asset_name_wf. simpl. intros (Hp & Hn & Hb & _).
  unfold token_from_array, token_to_array. simpl.
  rewrite <- Hp, drop_app_length, take_app_length.
  unfold asset_name_try_from, pad32. rewrite Hb. simpl. rewrite app_nil_r.
  split; [intros [= E]; lia|intros ->; done].
Qed.

Lemma token_array_roundtrip_iff_witness :
  ~ token_from_array (token_to_array (mkToken (replicate 28 x09) (mkAssetName 2 (replicate 32 x00)))) =
      Some (mkToken (replicate 28 x09) (mkAssetName 2 (replicate 32 x00))).
Proof.
  intros H. apply token_array_roundtrip_iff in H; [discriminate|].
  split; [done|]. split_and!; simpl; [lia|lia|done|done].
Defined.

(** [AssetName::from_utf8] keeps the length of a string it truncates, so
    reading the bytes of a name built from 33 to 255 bytes panics. *)
Theorem from_utf8_long_panics (E : Type) tn :
  32 < length tn < 256 -> as_bytes (E:=E) (from_utf8 tn) = Panic.
Proof.
  intros [Hl Hu]. unfold from_utf8, as_bytes. destruct (Nat.ltb_spec 32 (length tn)); [|lia].
  simpl. rewrite Nat.mod_small, Nat2Z.id by lia. rewrite pad32_length by (rewrite length_take; lia).
  by destruct (Nat.leb_spec (length tn) 32); [lia|].
Qed.

Lemma from_utf8_long_panics_witness : as_bytes (E:=unit) (from_utf8 (replicate 33 x41)) = Panic.
Proof. apply from_utf8_long_panics. simpl. lia. Defined.

(** Adding an amount of an asset and subtracting it again restores the
    amount of every asset of the bundle. *)
Theorem value_add_sub_restores (E : Type) v ac amt v1 v2 :
  (0 < amt)%Z -> (forall x, amount_of v ac = Some x -> ac = Native \/ (0 < x)%Z) ->
  add_unsafe (E:=E) v ac amt = Ok v1 -> sub_unsafe (E:=E) v1 ac amt = Ok v2 ->
  forall b, asset_wf ac -> asset_wf b -> amount_of v2 b = amount_of v b.
Proof.
  intros Hamt Hpos Hadd Hsub b Hac Hb.
  apply add_unsafe_amount in Hadd as [Hself Hother].
  destruct (sub_unsafe_amount _ _ _ _ _ Hsub Hself) as (Hlt & Hge & Hother').
  destruct (decide (ac = b)) as [<-|Hne].
  - destruct (amount_of v ac) as [x|] eqn:Ex; simpl in *.
    + rewrite Hlt by (destruct (Hpos x); [done|tauto|right; lia]). f_equal. lia.
    + apply Hge; [by intros ->|lia].
  - assert (~ same_asset ac b) by (intros Hs; by apply Hne, same_asset_eq).
    by rewrite Hother', Hother.
Qed.

Definition sample_value (amt : Z) : Value :=
  mkValue 1 {[ replicate 28 x09 := {[ [x00; x00] := amt ]} ]}.

Lemma value_add_sub_restores_witness :
  amount_of (sample_value 7) sample_token = amount_of (sample_value 7) sample_token.
Proof.
  apply (value_add_sub_restores unit (sample_value 7) sample_token 100
    (sample_value 107) (sample_value 7));
    [lia|by intros x [= <-]; right|vm_compute; reflexivity|vm_compute; reflexivity|..];
    (split; [done|]; split_and!; simpl; [lia|lia|done|done]).
Defined.
