(* ===== verification/PlutusData.v ===== *)
(** * Plutus data

    [spectrum-cardano-lib/src/plutus_data.rs]: building and taking apart the
    data of datums and redeemers, and the Plutus form of a Merkle Patricia
    Forestry proof ([mpf.rs], [proof_to_plutus_data]).

    [cml_chain::plutus::PlutusData] is the ledger's data type; the length
    encodings it carries for serialisation do not take part in any of the
    operations and are left out.  [BigInteger::as_int] is a library function,
    so it is a parameter (class [BigIntLib]). *)

From stdpp Require Import base list.
From Stdlib Require Import ZArith Lia Strings.Byte.
From S2P Require Import Prelude Mpf.

Inductive PlutusData :=
| PdConstr (alternative : Z) (fields : list PlutusData)
| PdMap (entries : list (PlutusData * PlutusData))
| PdList (items : list PlutusData)
| PdInteger (z : Z)
| PdBytes (bs : bytes).

Global Instance plutus_data_eq_dec : EqDecision PlutusData.
Proof.
  refine (fix go x y : Decision (x = y) :=
    match x, y with
    | PdConstr a xs, PdConstr b ys => cast_if_and (decide (a = b)) (@list_eq_dec _ go xs ys)
    | PdMap xs, PdMap ys => cast_if (@list_eq_dec _ (@prod_eq_dec _ go _ go) xs ys)
    | PdList xs, PdList ys => cast_if (@list_eq_dec _ go xs ys)
    | PdInteger a, PdInteger b => cast_if (decide (a = b))
    | PdBytes a, PdBytes b => cast_if (decide (a = b))
    | _, _ => right _
    end); clear go; abstract congruence.
Defined.

Class BigIntLib := as_int : Z -> option Z.

(** [as_int] succeeds on the values of a 64-bit integer. *)
Class BigIntLaws `{BigIntLib} : Prop :=
  as_int_i64 : forall z, (i64_min <= z <= i64_max)%Z -> as_int z = Some z.

(** ** [IntoPlutusData] *)

Definition int_into_pd (z : Z) : PlutusData := PdInteger z.
Definition bytes_into_pd (bs : bytes) : PlutusData := PdBytes bs.
Definition vec_into_pd {A} (into_pd : A -> PlutusData) (l : list A) : PlutusData :=
  PdList (into_pd <$> l).

(** [aiken_constr] and [tuple_pd]. *)
Definition aiken_constr (alternative : Z) (fields : list PlutusData) : PlutusData :=
  PdConstr alternative fields.
Definition tuple_pd (fields : list PlutusData) : PlutusData := PdList fields.

(** ** [PlutusDataExtension] *)

Record ConstrPlutusData := mkConstr { alternative : Z; fields : list PlutusData }.

Definition into_constr_pd (d : PlutusData) : option ConstrPlutusData :=
  match d with PdConstr a fs => Some (mkConstr a fs) | _ => None end.
Definition into_bytes (d : PlutusData) : option bytes :=
  match d with PdBytes bs => Some bs | _ => None end.
Definition into_i128 `{BigIntLib} (d : PlutusData) : option Z :=
  match d with PdInteger z => as_int z | _ => None end.
Definition into_vec (d : PlutusData) : option (list PlutusData) :=
  match d with PdList l => Some l | _ => None end.

Definition DUMMY_PD : PlutusData := PdList [].

(** [take_field] swaps the field with the dummy and returns it. *)
Definition take_field (c : ConstrPlutusData) (index : nat)
    : option (PlutusData * ConstrPlutusData) :=
  pd ← fields c !! index;
  Some (pd, mkConstr (alternative c) (<[index := DUMMY_PD]> (fields c))).

(** [iter().map(f).collect::<Option<Vec<_>>>()]. *)
Fixpoint collect_option {A B} (f : A -> option B) (l : list A) : option (list B) :=
  match l with
  | [] => Some []
  | a :: l => b ← f a; bs ← collect_option f l; Some (b :: bs)
  end.

Lemma collect_option_fmap {A B} (f : B -> option A) (g : A -> B) l :
  Forall (fun a => f (g a) = Some a) l -> collect_option f (g <$> l) = Some l.
Proof. induction 1 as [|a l Ha _ IH]; [done|]. csimpl. by rewrite Ha, IH. Qed.

(** [i64::try_from] and [<[u8; N]>::try_from]. *)
Definition try_i64 (z : Z) : option Z :=
  if ((i64_min <=? z) && (z <=? i64_max))%Z then Some z else None.
Definition try_array (n : nat) (bs : bytes) : option bytes :=
  if length bs =? n then Some bs else None.

Lemma try_i64_Some z : (i64_min <= z <= i64_max)%Z -> try_i64 z = Some z.
Proof.
  intros [? ?]. unfold try_i64.
  by rewrite (proj2 (Z.leb_le _ _)), (proj2 (Z.leb_le _ _)).
Qed.

Lemma try_array_Some n bs : length bs = n -> try_array n bs = Some bs.
Proof. intros <-. unfold try_array. by rewrite Nat.eqb_refl. Qed.

(** ** Merkle proofs as Plutus data *)

Definition step_to_plutus_data (step : ProofStep) : PlutusData :=
  match step with
  | Branch skip neighbors =>
    aiken_constr 0 [int_into_pd (Z.of_nat skip); bytes_into_pd neighbors]
  | Fork skip neighbor =>
    aiken_constr 1
      [int_into_pd (Z.of_nat skip);
       aiken_constr 0 [int_into_pd (Z.of_nat (byte_val (nb_nibble neighbor)));
                       bytes_into_pd (nb_prefix neighbor);
                       bytes_into_pd (nb_root neighbor)]]
  | LeafStep skip key value =>
    aiken_constr 2 [int_into_pd (Z.of_nat skip); bytes_into_pd key; bytes_into_pd value]
  end.

Definition proof_to_plutus_data (proof : list ProofStep) : PlutusData :=
  PdList (step_to_plutus_data <$> proof).

Lemma step_to_plutus_data_inj s t : step_to_plutus_data s = step_to_plutus_data t -> s = t.
Proof.
  destruct s as [? ?|? [? ? ?]|? ? ?], t as [? ?|? [? ? ?]|? ? ?]; try done; simpl;
    unfold aiken_constr, int_into_pd, bytes_into_pd; simpl; intros [=]; f_equal; try lia; subst; try done.
  f_equal. apply byte_val_inj. lia.
Qed.

Lemma proof_to_plutus_data_inj p q : proof_to_plutus_data p = proof_to_plutus_data q -> p = q.
Proof.
  unfold proof_to_plutus_data. intros [= E]. revert q E.
  induction p as [|s p IH]; intros [|t q] E; try done. csimpl in E. injection E as E1 E2.
  apply step_to_plutus_data_inj in E1 as ->. f_equal. by apply IH.
Qed.
