(* ===== verification/Intention.v ===== *)
(** * Intentions of an Aleph account and their canonical encoding

    [bloom-offchain-cardano/src/orders/green.rs], lines 27-410: account ids,
    authorisations, the intention, its Aiken CBOR form, its store key, its
    digest and what remains of it after a partial fill.

    The CBOR decoder below is not code of the program: it is the reference
    against which the hand-written encoders are proved unambiguous. *)

From stdpp Require Import base list.
From Stdlib Require Import ZArith Lia Strings.Byte.
From S2P Require Import Prelude Mpf ToyHash LbTypes Assets.

Inductive GreenOrderValidationError :=
| InvalidAccountIdLength (n : nat)
| InvalidSecp256k1KeyLength (n : nat)
| InvalidSecp256k1CoKeyLength (n : nat)
| InvalidCompactSignatureLength (n : nat)
| UnsupportedSigUpdateProof (n : nat)
| InvalidOperatorKeyHashLength (n : nat).

(** [AccountId([u8; 32])]. *)
Definition AccountId := bytes.

Definition account_id_try_from_slice (bs : bytes) : outcome GreenOrderValidationError AccountId :=
  if length bs =? 32 then Ok bs else Err (InvalidAccountIdLength (length bs)).

Inductive GreenAuth :=
| Sig (prefix postfix signature update_proof : bytes)
| Path (proof : bytes).

Global Instance green_auth_eq_dec : EqDecision GreenAuth.
Proof. solve_decision. Defined.

Definition new_sig (prefix postfix signature update_proof : bytes)
    : outcome GreenOrderValidationError GreenAuth :=
  if negb (length signature =? 64) then Err (InvalidCompactSignatureLength (length signature))
  else if negb (length update_proof =? 0) then Err (UnsupportedSigUpdateProof (length update_proof))
  else Ok (Sig prefix postfix signature update_proof).

Inductive AlephAccountAbi := Legacy | Current.

Global Instance abi_eq_dec : EqDecision AlephAccountAbi.
Proof. solve_decision. Defined.

Record AlephIntention := mkIntention {
  it_abi : AlephAccountAbi;
  target_nonce_index : Z;
  target_nonce_value : Z;
  leaving_asset : AssetClass;
  leaving_amount : Z;
  arriving_asset : AssetClass;
  expected_arriving_amount : Z;
  fee_lovelace : Z;
  operator : bytes;
}.

Global Instance intention_eq_dec : EqDecision AlephIntention.
Proof. solve_decision. Defined.

(** The field types: [u16], [u64], [[u8; 28]]. *)
Definition intention_wf (i : AlephIntention) : Prop :=
  is_u16 (target_nonce_index i) /\ is_u64 (target_nonce_value i) /\
  asset_wf (leaving_asset i) /\ is_u64 (leaving_amount i) /\
  asset_wf (arriving_asset i) /\ is_u64 (expected_arriving_amount i) /\
  is_u64 (fee_lovelace i) /\ length (operator i) = 28.

(** ** Aiken CBOR *)

Definition aiken_uint_cbor (value : Z) : bytes :=
  if (value <=? 23)%Z then [z_as_u8 value]
  else if (value <=? 0xff)%Z then [x18; z_as_u8 value]
  else if (value <=? 0xffff)%Z then x19 :: to_be_bytes 2 value
  else if (value <=? 0xffffffff)%Z then x1a :: to_be_bytes 4 value
  else x1b :: to_be_bytes 8 value.

Definition aiken_bytes_cbor (bs : bytes) : bytes :=
  let len := Z.of_nat (length bs) in
  (if (len <=? 23)%Z then [z_as_u8 (Z.lor 0x40 len)]
   else if (len <=? 0xff)%Z then [x58; z_as_u8 len]
   else if (len <=? 0xffff)%Z then x59 :: to_be_bytes 2 len
   else if (len <=? 0xffffffff)%Z then x5a :: to_be_bytes 4 len
   else x5b :: to_be_bytes 8 len) ++ bs.

Definition aiken_constr0_cbor (fields : list bytes) : bytes :=
  [xd8; x79; x9f] ++ concat fields ++ [xff].

Definition aiken_tuple2_cbor (fields : list bytes) : bytes := [x9f] ++ concat fields ++ [xff].

Definition asset_class_aiken_cbor (asset : AssetClass) : bytes :=
  match asset with
  | Native => aiken_tuple2_cbor [aiken_bytes_cbor []; aiken_bytes_cbor []]
  | TokenAsset (mkToken policy an) =>
    aiken_tuple2_cbor [aiken_bytes_cbor policy; aiken_bytes_cbor (cml_name an)]
  end.

Definition aleph_intent_key (index value : Z) : bytes :=
  aiken_tuple2_cbor [aiken_uint_cbor index; aiken_uint_cbor value].

Definition aleph_legacy_intent_key (value : Z) : bytes := aiken_uint_cbor value.

Definition intent_key (i : AlephIntention) : bytes :=
  match it_abi i with
  | Legacy => aleph_legacy_intent_key (target_nonce_value i)
  | Current => aleph_intent_key (target_nonce_index i) (target_nonce_value i)
  end.

Definition aiken_cbor (i : AlephIntention) : bytes :=
  let nonce_cbor :=
    match it_abi i with
    | Legacy => aiken_uint_cbor (target_nonce_value i)
    | Current =>
      aiken_tuple2_cbor [aiken_uint_cbor (target_nonce_index i);
                         aiken_uint_cbor (target_nonce_value i)]
    end in
  aiken_constr0_cbor [
    nonce_cbor;
    asset_class_aiken_cbor (leaving_asset i);
    aiken_uint_cbor (leaving_amount i);
    asset_class_aiken_cbor (arriving_asset i);
    aiken_uint_cbor (expected_arriving_amount i);
    aiken_uint_cbor (fee_lovelace i);
    aiken_bytes_cbor (operator i)].

Definition digest `{Hashing} (i : AlephIntention) : bytes := blake2b256 (aiken_cbor i).

(** ** Partial fills *)

Definition remaining_after_fill (i : AlephIntention) (consumed_leaving added_arriving : Z)
    : option AlephIntention :=
  leaving_remainder ← checked_sub (leaving_amount i) consumed_leaving;
  if (leaving_remainder =? 0)%Z then None
  else
    product ← checked_mul leaving_remainder (fee_lovelace i);
    fee_remainder ← checked_div product (leaving_amount i);
    expected ← checked_sub (expected_arriving_amount i) added_arriving;
    Some (mkIntention (it_abi i) (target_nonce_index i) (target_nonce_value i)
            (leaving_asset i) leaving_remainder (arriving_asset i) expected
            fee_remainder (operator i)).

(** ** Reference decoder *)

Fixpoint from_be_bytes (bs : bytes) : Z :=
  match bs with
  | [] => 0
  | b :: bs => Z.of_nat (byte_val b) * 256 ^ Z.of_nat (length bs) + from_be_bytes bs
  end%Z.

(** Major type, argument and rest of a CBOR data item head. *)
Definition decode_head (bs : bytes) : option (nat * Z * bytes) :=
  match bs with
  | [] => None
  | b :: rest =>
    let major := byte_val b / 32 in
    let info := byte_val b mod 32 in
    let arg n := Some (major, from_be_bytes (take n rest), drop n rest) in
    if info <? 24 then Some (major, Z.of_nat info, rest)
    else match info with 24 => arg 1 | 25 => arg 2 | 26 => arg 4 | 27 => arg 8 | _ => None end
  end.

(** ** The encoders are unambiguous *)

Lemma to_be_bytes_range n z : (0 <= z < 256 ^ Z.of_nat n)%Z -> from_be_bytes (to_be_bytes n z) = z.
Proof.
  assert (Hgen : forall n z, (0 <= z)%Z ->
    from_be_bytes (to_be_bytes n z) = (z mod 256 ^ Z.of_nat n)%Z).
  { clear. intros n z Hz. induction n as [|n IH]; [by rewrite Z.mod_1_r|].
    cbn [to_be_bytes from_be_bytes]. rewrite to_be_bytes_length, IH.
    unfold z_as_u8. rewrite byte_val_as_u8 by (apply Nat2Z.inj_lt; rewrite Z2Nat.id;
      [apply Z.mod_pos_bound|apply Z.mod_pos_bound]; lia).
    rewrite Z2Nat.id by (apply Z.mod_pos_bound; lia).
    rewrite Nat2Z.inj_succ, Z.pow_succ_r, (Z.mul_comm 256) by lia.
    assert (0 < 256 ^ Z.of_nat n)%Z by (apply Z.pow_pos_nonneg; lia).
    rewrite Z.rem_mul_r by lia. lia. }
  intros Hz. rewrite Hgen by lia. by apply Z.mod_small.
Qed.

(** A head with major type [m]: the shape shared by both encoders. *)
Definition cbor_head (m v : Z) : bytes :=
  if (v <=? 23)%Z then [z_as_u8 (m * 32 + v)]
  else if (v <=? 0xff)%Z then z_as_u8 (m * 32 + 24) :: to_be_bytes 1 v
  else if (v <=? 0xffff)%Z then z_as_u8 (m * 32 + 25) :: to_be_bytes 2 v
  else if (v <=? 0xffffffff)%Z then z_as_u8 (m * 32 + 26) :: to_be_bytes 4 v
  else z_as_u8 (m * 32 + 27) :: to_be_bytes 8 v.

Lemma aiken_uint_head v : (0 <= v)%Z -> aiken_uint_cbor v = cbor_head 0 v.
Proof.
  intros Hv. unfold aiken_uint_cbor, cbor_head.
  destruct (Z.leb_spec v 23); [done|]. destruct (Z.leb_spec v 0xff); [|done].
  cbn [to_be_bytes]. by rewrite Z.pow_0_r, Z.div_1_r.
Qed.

Lemma aiken_bytes_head bs : aiken_bytes_cbor bs = cbor_head 2 (Z.of_nat (length bs)) ++ bs.
Proof.
  unfold aiken_bytes_cbor, cbor_head. f_equal.
  destruct (Z.leb_spec (Z.of_nat (length bs)) 23) as [Hl|].
  - assert (length bs < 24) as Hn by lia. clear Hl. generalize dependent (length bs).
    intros n Hn. do 24 (destruct n as [|n]; [reflexivity|]). lia.
  - destruct (Z.leb_spec (Z.of_nat (length bs)) 0xff); [|done].
    cbn [to_be_bytes]. by rewrite Z.pow_0_r, Z.div_1_r.
Qed.

Lemma decode_head_byte (m i : nat) rest :
  m < 8 -> i < 32 ->
  decode_head (z_as_u8 (Z.of_nat m * 32 + Z.of_nat i) :: rest) =
  if i <? 24 then Some (m, Z.of_nat i, rest)
  else match i with
       | 24 => Some (m, from_be_bytes (take 1 rest), drop 1 rest)
       | 25 => Some (m, from_be_bytes (take 2 rest), drop 2 rest)
       | 26 => Some (m, from_be_bytes (take 4 rest), drop 4 rest)
       | 27 => Some (m, from_be_bytes (take 8 rest), drop 8 rest)
       | _ => None
       end.
Proof.
  intros Hm Hi. unfold decode_head.
  assert (byte_val (z_as_u8 (Z.of_nat m * 32 + Z.of_nat i)) = m * 32 + i) as ->.
  { unfold z_as_u8. rewrite Z.mod_small by lia.
    replace (Z.of_nat m * 32 + Z.of_nat i)%Z with (Z.of_nat (m * 32 + i)) by lia.
    rewrite Nat2Z.id. apply byte_val_as_u8. lia. }
  rewrite Nat.div_add_l, (Nat.div_small i), Nat.add_0_r by lia.
  replace ((m * 32 + i) mod 32) with i; [done|].
  rewrite Nat.add_comm, Nat.Div0.mod_add, Nat.mod_small by lia. done.
Qed.

Lemma decode_cbor_head (m : nat) v rest :
  m < 8 -> is_u64 v -> decode_head (cbor_head (Z.of_nat m) v ++ rest) = Some (m, v, rest).
Proof.
  intros Hm [Hv Hmax]. unfold u64_max in Hmax. unfold cbor_head.
  assert (Harg : forall n, (v < 256 ^ Z.of_nat n)%Z ->
    from_be_bytes (take n (to_be_bytes n v ++ rest)) = v /\ drop n (to_be_bytes n v ++ rest) = rest).
  { intros n Hn. pose proof (to_be_bytes_length n v) as Hl.
    rewrite take_app_length', drop_app_length' by done. split; [|done]. by apply to_be_bytes_range. }
  destruct (Z.leb_spec v 23).
  { rewrite <- (Z2Nat.id v) by lia. cbn [app]. rewrite decode_head_byte by lia.
    by destruct (Nat.ltb_spec (Z.to_nat v) 24); [|lia]. }
  change 24%Z with (Z.of_nat 24). change 25%Z with (Z.of_nat 25).
  change 26%Z with (Z.of_nat 26). change 27%Z with (Z.of_nat 27).
  repeat match goal with |- context [Z.leb v ?k] => destruct (Z.leb_spec v k) end;
    rewrite <- app_comm_cons, decode_head_byte by lia;
    cbn [Nat.ltb Nat.leb]; [destruct (Harg 1) as [-> ->]|destruct (Harg 2) as [-> ->]
      |destruct (Harg 4) as [-> ->]|destruct (Harg 8) as [-> ->]]; try done; lia.
Qed.

Lemma aiken_uint_decode v rest : is_u64 v -> decode_head (aiken_uint_cbor v ++ rest) = Some (0, v, rest).
Proof. intros Hv. rewrite aiken_uint_head by apply Hv. by apply (decode_cbor_head 0); [lia|]. Qed.

Lemma aiken_bytes_decode bs rest :
  is_u64 (Z.of_nat (length bs)) ->
  decode_head (aiken_bytes_cbor bs ++ rest) = Some (2, Z.of_nat (length bs), bs ++ rest).
Proof.
  intros Hl. rewrite aiken_bytes_head, <- app_assoc. by apply (decode_cbor_head 2); [lia|].
Qed.

Lemma aiken_uint_inj a b r s :
  is_u64 a -> is_u64 b -> aiken_uint_cbor a ++ r = aiken_uint_cbor b ++ s -> a = b /\ r = s.
Proof.
  intros Ha Hb E. pose proof (aiken_uint_decode a r Ha) as D.
  rewrite E, aiken_uint_decode in D by done. by injection D as -> ->.
Qed.

Lemma aiken_bytes_inj a b r s :
  is_u64 (Z.of_nat (length a)) -> is_u64 (Z.of_nat (length b)) ->
  aiken_bytes_cbor a ++ r = aiken_bytes_cbor b ++ s -> a = b /\ r = s.
Proof.
  intros Ha Hb E. pose proof (aiken_bytes_decode a r Ha) as D.
  rewrite E, aiken_bytes_decode in D by done. injection D as Hl Happ.
  apply Nat2Z.inj in Hl. by apply app_inj_1 in Happ as [-> ->].
Qed.

Lemma small_len (n : nat) : n <= 32 -> is_u64 (Z.of_nat n).
Proof. unfold is_u64, u64_max. lia. Qed.

(** The two byte strings of an encoded asset class. *)
Definition asset_parts (a : AssetClass) : bytes * bytes :=
  match a with Native => ([], []) | TokenAsset t => (policy t, cml_name (asset_name t)) end.

Lemma asset_cbor_parts a :
  asset_class_aiken_cbor a =
  aiken_tuple2_cbor [aiken_bytes_cbor (asset_parts a).1; aiken_bytes_cbor (asset_parts a).2].
Proof. by destruct a as [|[p n]]. Qed.

Lemma asset_parts_small a : asset_wf a ->
  is_u64 (Z.of_nat (length (asset_parts a).1)) /\ is_u64 (Z.of_nat (length (asset_parts a).2)).
Proof.
  destruct a as [|[p n]]; simpl; [intros _; split; apply small_len; simpl; lia|].
  intros [Hp (Hn & Hb & _)]. unfold POLICY_BYTE_COUNT in Hp. simpl in *.
  split; apply small_len; [lia|]. unfold cml_name. rewrite length_take. lia.
Qed.

Lemma asset_parts_inj a b : asset_wf a -> asset_wf b -> asset_parts a = asset_parts b -> a = b.
Proof.
  destruct a as [|[p n]], b as [|[q m]]; simpl; intros Ha Hb E; try done.
  - injection E as <- _. by destruct Hb.
  - injection E as -> _. by destruct Ha.
  - injection E as -> E. destruct Ha as [_ Ha], Hb as [_ Hb]. by rewrite (cml_name_inj n m).
Qed.

Lemma asset_cbor_inj a b r s : asset_wf a -> asset_wf b ->
  asset_class_aiken_cbor a ++ r = asset_class_aiken_cbor b ++ s -> a = b /\ r = s.
Proof.
  intros Ha Hb E. rewrite !asset_cbor_parts in E. unfold aiken_tuple2_cbor in E. simpl in E.
  injection E as E. rewrite <- !app_assoc in E.
  apply asset_parts_small in Ha as Ha'. apply asset_parts_small in Hb as Hb'.
  apply aiken_bytes_inj in E as [E1 E]; [|tauto..]. apply aiken_bytes_inj in E as [E2 E]; [|tauto..].
  injection E as ->. split; [|done]. apply asset_parts_inj; [done..|].
  by rewrite (surjective_pairing (asset_parts a)), (surjective_pairing (asset_parts b)), E1, E2.
Qed.

(** The nonce of an intention: a legacy one has no index. *)
Definition nonce_of (i : AlephIntention) : AlephAccountAbi * Z * Z :=
  (it_abi i, match it_abi i with Legacy => 0%Z | Current => target_nonce_index i end,
   target_nonce_value i).

Lemma uint_not_list v bs s : is_u64 v -> aiken_uint_cbor v ++ bs <> x9f :: s.
Proof. intros Hv E. pose proof (aiken_uint_decode v bs Hv) as D. by rewrite E in D. Qed.

Lemma is_u16_u64 z : is_u16 z -> is_u64 z.
Proof. unfold is_u16, is_u64, u16_max, u64_max. lia. Qed.

Lemma intent_key_app_inj i j r s : intention_wf i -> intention_wf j ->
  intent_key i ++ r = intent_key j ++ s -> nonce_of i = nonce_of j /\ r = s.
Proof.
  intros (Hi & Hiv & _) (Hj & Hjv & _). apply is_u16_u64 in Hi, Hj.
  unfold intent_key, nonce_of, aleph_intent_key, aleph_legacy_intent_key, aiken_tuple2_cbor.
  destruct (it_abi i), (it_abi j); simpl; intros E.
  - by apply aiken_uint_inj in E as [-> ->].
  - by apply uint_not_list in E.
  - by symmetry in E; apply uint_not_list in E.
  - injection E as E. rewrite <- !app_assoc in E.
    apply aiken_uint_inj in E as [-> E]; [|done..]. apply aiken_uint_inj in E as [-> E]; [|done..].
    by injection E as ->.
Qed.

Lemma aiken_cbor_key i :
  aiken_cbor i = [xd8; x79; x9f] ++ intent_key i ++
    asset_class_aiken_cbor (leaving_asset i) ++ aiken_uint_cbor (leaving_amount i) ++
    asset_class_aiken_cbor (arriving_asset i) ++ aiken_uint_cbor (expected_arriving_amount i) ++
    aiken_uint_cbor (fee_lovelace i) ++ aiken_bytes_cbor (operator i) ++ [xff].
Proof.
  unfold aiken_cbor, aiken_constr0_cbor, intent_key, aleph_legacy_intent_key, aleph_intent_key.
  cbn [concat]. rewrite <- !app_assoc. cbn [app]. by destruct (it_abi i).
Qed.

(** Equality of the fields a signature covers. *)
Definition same_terms (i j : AlephIntention) : Prop :=
  nonce_of i = nonce_of j /\ leaving_asset i = leaving_asset j /\
  leaving_amount i = leaving_amount j /\ arriving_asset i = arriving_asset j /\
  expected_arriving_amount i = expected_arriving_amount j /\
  fee_lovelace i = fee_lovelace j /\ operator i = operator j.

Lemma aiken_cbor_inj i j :
  intention_wf i -> intention_wf j -> aiken_cbor i = aiken_cbor j -> same_terms i j.
Proof.
  intros Hi Hj E. rewrite !aiken_cbor_key in E. cbn [app] in E. injection E as E.
  apply intent_key_app_inj in E as [Hn E]; [|done..].
  destruct Hi as (_ & _ & Hil & Hila & Hia & Hie & Hif & Hio).
  destruct Hj as (_ & _ & Hjl & Hjla & Hja & Hje & Hjf & Hjo).
  apply asset_cbor_inj in E as [E1 E]; [|done..]. apply aiken_uint_inj in E as [E2 E]; [|done..].
  apply asset_cbor_inj in E as [E3 E]; [|done..]. apply aiken_uint_inj in E as [E4 E]; [|done..].
  apply aiken_uint_inj in E as [E5 E]; [|done..].
  apply aiken_bytes_inj in E as [E6 _]; [|apply small_len; lia..]. by split_and!.
Qed.

(** C19: Two intentions with one digest state the same terms (nonce, assets,
    amounts, fee, operator), or the hash collides: a signature cannot be moved
    to other terms. *)
Theorem intention_digest_binds `{Hashing} i j :
  intention_wf i -> intention_wf j -> digest i = digest j -> same_terms i j \/ collision.
Proof.
  intros Hi Hj E. destruct (decide (aiken_cbor i = aiken_cbor j)) as [Ec|Hne].
  - left. by apply aiken_cbor_inj.
  - right. by exists (aiken_cbor i), (aiken_cbor j).
Qed.

(** The store key of an intention determines its nonce and nothing else:
    two intentions share a key exactly when their nonces agree. *)
Theorem intent_key_iff_nonce i j :
  intention_wf i -> intention_wf j -> intent_key i = intent_key j <-> nonce_of i = nonce_of j.
Proof.
  intros Hi Hj. split.
  - intros E. by apply (intent_key_app_inj i j [] []); rewrite ?app_nil_r.
  - unfold nonce_of, intent_key. intros [= Ea Ei Ev]. rewrite Ev. rewrite Ea in Ei |- *.
    destruct (it_abi j); [done|by rewrite Ei].
Qed.

Lemma remaining_inv i c a r : remaining_after_fill i c a = Some r ->
  (c < leaving_amount i)%Z /\ (a <= expected_arriving_amount i)%Z /\
  ((leaving_amount i - c) * fee_lovelace i <= u64_max)%Z /\ leaving_amount i <> 0%Z /\
  r = mkIntention (it_abi i) (target_nonce_index i) (target_nonce_value i) (leaving_asset i)
        (leaving_amount i - c) (arriving_asset i) (expected_arriving_amount i - a)
        ((leaving_amount i - c) * fee_lovelace i / leaving_amount i) (operator i).
Proof.
  unfold remaining_after_fill, checked_sub, checked_mul, checked_div.
  destruct (Z.leb_spec c (leaving_amount i)); [|done]. simpl.
  destruct (Z.eqb_spec (leaving_amount i - c) 0); [done|].
  destruct (Z.leb_spec ((leaving_amount i - c) * fee_lovelace i) u64_max); [|done]. simpl.
  destruct (Z.eqb_spec (leaving_amount i) 0); [done|]. simpl.
  destruct (Z.leb_spec a (expected_arriving_amount i)); [|done]. simpl.
  intros [= <-]. split_and!; done || lia.
Qed.

(** What remains after a partial fill is a well-formed intention under the
    same key, with positive leaving amount, the unfilled part of both amounts
    and a proportional fee rounded down; a fill at the limit price or better
    leaves a limit price that is not worse. *)
Theorem remaining_after_fill_terms i c a r :
  intention_wf i -> (0 <= c)%Z -> (0 <= a)%Z -> remaining_after_fill i c a = Some r ->
  intention_wf r /\ intent_key r = intent_key i /\ (0 < leaving_amount r)%Z /\
  leaving_amount r = (leaving_amount i - c)%Z /\
  expected_arriving_amount r = (expected_arriving_amount i - a)%Z /\
  (fee_lovelace r * leaving_amount i <= fee_lovelace i * leaving_amount r
     < (fee_lovelace r + 1) * leaving_amount i)%Z /\
  ((expected_arriving_amount i * c <= a * leaving_amount i)%Z ->
   (expected_arriving_amount r * leaving_amount i
      <= expected_arriving_amount i * leaving_amount r)%Z).
Proof.
  intros (Hi & Hv & Hla & Hl & Haa & He & Hf & Ho) Hc Ha (Hlt & Hle & Hmul & Hnz & ->)%remaining_inv.
  unfold is_u64 in *. unfold intention_wf, is_u64. simpl.
  set (L := leaving_amount i) in *. set (F := fee_lovelace i) in *.
  pose proof (Z.div_mod ((L - c) * F) L Hnz) as Hdm.
  pose proof (Z.mod_pos_bound ((L - c) * F) L ltac:(lia)) as Hmod.
  assert (0 <= (L - c) * F / L)%Z by (apply Z.div_pos; nia).
  assert ((L - c) * F / L <= F)%Z by (apply Z.div_le_upper_bound; nia).
  split_and!; try done; try lia; try nia.
Qed.

(** A partial fill has no remaining intention exactly when it consumes
    the leaving amount or more, delivers more than was expected, or the
    proportional fee overflows [u64]. *)
Theorem remaining_after_fill_none i c a :
  intention_wf i -> (0 <= c)%Z ->
  remaining_after_fill i c a = None <->
  (leaving_amount i <= c \/ expected_arriving_amount i < a \/
   u64_max < (leaving_amount i - c) * fee_lovelace i)%Z.
Proof.
  intros (_ & _ & _ & [Hl _] & _) Hc. destruct (remaining_after_fill i c a) as [r|] eqn:E.
  - apply remaining_inv in E as (? & ? & ? & ? & _). split; [done|lia].
  - split; [intros _|done]. revert E.
    unfold remaining_after_fill, checked_sub, checked_mul, checked_div.
    destruct (Z.leb_spec c (leaving_amount i)); [|lia]. simpl.
    destruct (Z.eqb_spec (leaving_amount i - c) 0); [lia|].
    destruct (Z.leb_spec ((leaving_amount i - c) * fee_lovelace i) u64_max); [|lia]. simpl.
    destruct (Z.eqb_spec (leaving_amount i) 0); [lia|]. simpl.
    destruct (Z.leb_spec a (expected_arriving_amount i)); [done|lia].
Qed.

(** ** Concrete instances *)

Definition sample_intention (nonce amount : Z) : AlephIntention :=
  mkIntention Current 3 nonce Native amount sample_token 500 30 (replicate 28 x07).

Lemma sample_intention_wf nonce amount :
  is_u64 nonce -> is_u64 amount -> intention_wf (sample_intention nonce amount).
Proof.
  intros. unfold intention_wf, is_u16, is_u64, u16_max, u64_max in *. simpl.
  split_and!; try done; try lia.
Qed.

Ltac sample_wf := apply sample_intention_wf; unfold is_u64, u64_max; lia.

Lemma intention_digest_binds_witness :
  same_terms (sample_intention 1 2) (sample_intention 1 2) \/ @collision toy.
Proof. apply (@intention_digest_binds toy); [sample_wf|sample_wf|reflexivity]. Defined.

Lemma intent_key_iff_nonce_witness :
  intent_key (sample_intention 300 2) = intent_key (sample_intention 300 9).
Proof. apply intent_key_iff_nonce; [sample_wf|sample_wf|reflexivity]. Defined.

Lemma remaining_after_fill_terms_witness :
  exists r, remaining_after_fill (sample_intention 1 1000) 400 200 = Some r /\
    intention_wf r /\ leaving_amount r = 600%Z.
Proof.
  eexists. split; [reflexivity|].
  destruct (remaining_after_fill_terms (sample_intention 1 1000) 400 200 _
    ltac:(sample_wf) ltac:(lia) ltac:(lia) eq_refl) as (Hwf & _ & _ & Hl & _). by split.
Defined.

Lemma remaining_after_fill_none_witness :
  remaining_after_fill (sample_intention 1 1000) 400 501 = None.
Proof. apply remaining_after_fill_none; [sample_wf|lia|simpl; lia]. Defined.
