(* ===== verification/GreenOrder.v ===== *)
(** * Aleph account state and green orders

    [bloom-offchain-cardano/src/orders/green.rs]: the account datum and its
    nonces, its Plutus form, the order and its identifier, the order as a taker
    of the liquidity book, and the change of the account's value when an order
    is filled.

    [cml_chain::Value::checked_add]/[checked_sub] are library functions: class
    [ValueLib], with their documented behaviour in [ValueLaws]. *)

From stdpp Require Import base gmap list.
From Stdlib Require Import ZArith Lia Strings.Byte.
From S2P Require Import Prelude Mpf ToyHash LbTypes Assets PlutusData Intention.

(** ** Account state *)

Record AlephAccountState := mkAccountState {
  abi : AlephAccountAbi;
  magic : bytes;
  allowlist : list bytes;
  nonce : list Z;
  main_key : bytes;
  co_key : option bytes;
  cold_key_hash : bytes;
  store_root : bytes;
}.

Definition set_nonce (s : AlephAccountState) (n : list Z) : AlephAccountState :=
  mkAccountState (abi s) (magic s) (allowlist s) n (main_key s) (co_key s) (cold_key_hash s)
    (store_root s).
Definition set_store_root (s : AlephAccountState) (r : bytes) : AlephAccountState :=
  mkAccountState (abi s) (magic s) (allowlist s) (nonce s) (main_key s) (co_key s)
    (cold_key_hash s) r.

Definition with_sig_full_fill_nonce (s : AlephAccountState) (index value : Z)
    : option AlephAccountState :=
  if bool_decide (abi s = Legacy) then
    if negb (index =? 0)%Z then None
    else
      n ← nonce s !! 0;
      if negb (n =? u64_as_i64 value)%Z then None
      else
        n' ← checked_add_i64 n 1;
        Some (set_nonce s (<[0 := n']> (nonce s)))
  else
    n ← nonce s !! Z.to_nat index;
    if (u64_as_i64 value <? n)%Z then None
    else Some (set_nonce s (<[Z.to_nat index := u64_as_i64 value]> (nonce s))).

(** ** Plutus form of the account state *)

Definition account_into_pd {E} (s : AlephAccountState) : outcome E PlutusData :=
  if bool_decide (abi s = Legacy) then
    n ← match head (nonce s) with Some n => Ok n | None => Panic end;
    Ok (aiken_constr 0 [bytes_into_pd (magic s); int_into_pd n; bytes_into_pd (main_key s);
                        bytes_into_pd (store_root s)])
  else
    let co := match co_key s with None => PdList [] | Some k => bytes_into_pd k end in
    Ok (aiken_constr 0
      [bytes_into_pd (magic s); vec_into_pd bytes_into_pd (allowlist s);
       vec_into_pd int_into_pd (nonce s); tuple_pd [bytes_into_pd (main_key s); co];
       bytes_into_pd (cold_key_hash s); bytes_into_pd (store_root s)]).

(** The co-key: an empty list for none, else 33 bytes. *)
Definition co_key_from_pd (pd : PlutusData) : option (option bytes) :=
  match pd with
  | PdList [] => Some None
  | pd => bs ← into_bytes pd; if length bs =? 33 then Some (Some bs) else None
  end.

Definition account_try_from_pd `{BigIntLib} (data : PlutusData) : option AlephAccountState :=
  cpd ← into_constr_pd data;
  if negb (alternative cpd =? 0)%Z then None
  else if length (fields cpd) =? 4 then
    '(pd, cpd) ← take_field cpd 0; magic ← into_bytes pd;
    '(pd, cpd) ← take_field cpd 1; n ← into_i128 pd; n ← try_i64 n;
    '(pd, cpd) ← take_field cpd 2; main_key ← into_bytes pd;
    if negb (length main_key =? 33) then None
    else
      '(pd, cpd) ← take_field cpd 3; root ← into_bytes pd; root ← try_array 32 root;
      Some (mkAccountState Legacy magic [] [n] main_key None (replicate 28 x00) root)
  else if negb (length (fields cpd) =? 6) then None
  else
    '(pd, cpd) ← take_field cpd 0; magic ← into_bytes pd;
    '(pd, cpd) ← take_field cpd 1; l ← into_vec pd;
    allowlist ← collect_option (fun pd => bs ← into_bytes pd; try_array 28 bs) l;
    '(pd, cpd) ← take_field cpd 2; l ← into_vec pd;
    nonce ← collect_option (fun pd => n ← into_i128 pd; try_i64 n) l;
    '(pd, cpd) ← take_field cpd 3; hot_cred ← into_vec pd;
    main ← hot_cred !! 0; main_key ← into_bytes main;
    if negb (length main_key =? 33) then None
    else
      co_key_pd ← hot_cred !! 1;
      if 2 <? length hot_cred then None
      else
        co_key ← co_key_from_pd co_key_pd;
        '(pd, cpd) ← take_field cpd 4; cold ← into_bytes pd; cold ← try_array 28 cold;
        '(pd, cpd) ← take_field cpd 5; root ← into_bytes pd; root ← try_array 32 root;
        Some (mkAccountState Current magic allowlist nonce main_key co_key cold root).

(** The states the parser can produce: fixed sizes, 64-bit nonces, and the
    defaults of the fields a legacy datum does not carry. *)
Definition account_state_wf (s : AlephAccountState) : Prop :=
  length (main_key s) = 33 /\ length (store_root s) = 32 /\
  Forall (fun n => i64_min <= n <= i64_max)%Z (nonce s) /\
  match abi s with
  | Legacy => allowlist s = [] /\ length (nonce s) = 1 /\ co_key s = None /\
              cold_key_hash s = replicate 28 x00
  | Current => Forall (fun a => length a = 28) (allowlist s) /\
               (forall k, co_key s = Some k -> length k = 33) /\ length (cold_key_hash s) = 28
  end.

(** ** Orders *)

Record GreenIntention := mkGreenIntention {
  input_asset : AssetClass;
  output_asset : AssetClass;
  gi_leaving_amount : Z;
  gi_expected_arriving_amount : Z;
  gi_fee_lovelace : Z;
  target_nonce_slot : Z;
  gi_target_nonce_value : Z;
  operator_key_hash : bytes;
}.

Definition try_operator_key_hash (bs : bytes) : outcome GreenOrderValidationError bytes :=
  if length bs =? 28 then Ok bs else Err (InvalidOperatorKeyHashLength (length bs)).

Record GreenOrderId := mkGreenOrderId {
  oid_account_id : AccountId;
  oid_nonce_slot : Z;
  oid_nonce_value : Z;
  original_intent_digest : bytes;
}.

Global Instance green_order_id_eq_dec : EqDecision GreenOrderId.
Proof. solve_decision. Defined.

(** The bytes of "green-order". *)
Definition GREEN_ORDER_NAME : bytes := [x67; x72; x65; x65; x6e; x2d; x6f; x72; x64; x65; x72].

Definition stable_token_preimage (i : GreenOrderId) : bytes :=
  oid_account_id i ++ to_be_bytes 2 (oid_nonce_slot i) ++ to_be_bytes 8 (oid_nonce_value i) ++
  original_intent_digest i.

Definition stable_token `{Hashing} (i : GreenOrderId) : Token :=
  mkToken (blake2b224 (stable_token_preimage i)) (from_utf8 GREEN_ORDER_NAME).

Record GreenOrder := mkGreenOrder {
  go_id : GreenOrderId;
  go_account_id : AccountId;
  intention : GreenIntention;
  accumulated : Z;
  current_remainder : Z;
  auth : GreenAuth;
}.

Definition aleph_intention (o : GreenOrder) : AlephIntention :=
  let i := intention o in
  mkIntention Current (target_nonce_slot i) (gi_target_nonce_value i) (input_asset i)
    (gi_leaving_amount i) (output_asset i) (gi_expected_arriving_amount i)
    (gi_fee_lovelace i) (operator_key_hash i).

(** [Ord for GreenOrder]: by identifier, its fields in order. *)
Definition order_id_cmp (a b : GreenOrderId) : comparison :=
  lex (bytes_cmp (oid_account_id a) (oid_account_id b))
    (lex (oid_nonce_slot a ?= oid_nonce_slot b)%Z
      (lex (oid_nonce_value a ?= oid_nonce_value b)%Z
        (bytes_cmp (original_intent_digest a) (original_intent_digest b)))).
Definition green_order_cmp (a b : GreenOrder) : comparison := order_id_cmp (go_id a) (go_id b).

Definition pair_id (o : GreenOrder) : PairId :=
  canonical (input_asset (intention o)) (output_asset (intention o)).

(** [ExUnits { mem, steps }]. *)
Record ExUnits := mkExUnits { mem : Z; steps : Z }.

Definition green_side (o : GreenOrder) : Side :=
  side_of (input_asset (intention o)) (output_asset (intention o)).

(** [Ratio::new] panics on a zero denominator: an order with a zero leaving
    amount has no price. *)
Definition green_price `{RatioLib} (o : GreenOrder) : AbsolutePrice :=
  from_price (green_side o)
    (ratio_new (gi_expected_arriving_amount (intention o)) (gi_leaving_amount (intention o))).

Definition green_operator_fee (o : GreenOrder) (input_consumed : Z) : Z :=
  default 0%Z (checked_div (saturating_mul (gi_fee_lovelace (intention o)) input_consumed)
                 (gi_leaving_amount (intention o))).

Definition set_progress (o : GreenOrder) (acc rem : Z) : GreenOrder :=
  mkGreenOrder (go_id o) (go_account_id o) (intention o) acc rem (auth o).

Definition green_try_terminate (o : GreenOrder) : Next GreenOrder TerminalTake :=
  if (current_remainder o =? 0)%Z then
    Term (mkTerminalTake 0 (accumulated o) 0 (gi_fee_lovelace (intention o)))
  else Succ o.

Definition green_applied_trade (o : GreenOrder) (removed_input added_output : Z)
    : Next GreenOrder TerminalTake :=
  green_try_terminate
    (set_progress o (saturating_add (accumulated o) added_output)
                    (saturating_sub (current_remainder o) removed_input)).

Global Instance green_market_taker `{RatioLib} : MarketTaker GreenOrder ExUnits := {|
  taker_side := green_side;
  taker_input := current_remainder;
  taker_output := accumulated;
  taker_price := green_price;
  operator_fee := green_operator_fee;
  taker_fee := fun o => gi_fee_lovelace (intention o);
  budget := fun _ => 0%Z;
  consumable_budget := fun o => gi_fee_lovelace (intention o);
  taker_marginal_cost_hint := fun _ => mkExUnits 0 0;
  min_marginal_output := fun _ => 1%Z;
  time_bounds := fun _ => Unbounded;
|}.

Global Instance green_taker_behaviour : TakerBehaviour GreenOrder := {|
  with_updated_time := fun o _ => Succ o;
  with_applied_trade := green_applied_trade;
  with_budget_corrected := fun o _ => (0%Z, o);
  with_fee_charged := fun o _ => o;
  with_output_added := fun o added =>
    set_progress o (saturating_add (accumulated o) added) (current_remainder o);
  try_terminate := green_try_terminate;
|}.

Global Instance green_stable `{Hashing} : Stable GreenOrder Token :=
  fun o => stable_token (go_id o).

(** ** The account's value after a fill *)

Inductive GreenExecutionError := NonAdaLeavingAsset | InsufficientAdaOutputForFee.

Class ValueLib := {
  value_checked_add : Value -> Value -> option Value;
  value_checked_sub : Value -> Value -> option Value;
}.

(** Amounts are added and subtracted asset by asset. *)
Definition amount (v : Value) (a : AssetClass) : Z := default 0%Z (amount_of v a).

Class ValueLaws `{ValueLib} : Prop := {
  value_add_amount : forall v w u a, value_checked_add v w = Some u ->
    amount u a = (amount v a + amount w a)%Z;
  value_sub_amount : forall v w u a, value_checked_sub v w = Some u ->
    amount u a = (amount v a - amount w a)%Z;
}.

Definition into_value (a : AssetClass) (amt : Z) : Value :=
  match a with
  | Native => mkValue amt ∅
  | TokenAsset t => mkValue 0 {[ policy t := {[ cml_name (asset_name t) := amt ]} ]}
  end.

Section Execution.
Context `{VL : ValueLib}.

(** [sub_asset]/[add_asset] unwrap the checked operation. *)
Definition sub_asset {E} (v : Value) (a : AssetClass) (amt : Z) : outcome E Value :=
  match value_checked_sub v (into_value a amt) with Some v => Ok v | None => Panic end.
Definition add_asset {E} (v : Value) (a : AssetClass) (amt : Z) : outcome E Value :=
  match value_checked_add v (into_value a amt) with Some v => Ok v | None => Panic end.

Definition apply_full_fill_to_account_output (output : Value) (order : GreenOrder)
    (removed_input added_output consumed_fee : Z) : outcome GreenExecutionError Value :=
  if bool_decide (input_asset (intention order) <> Native) then Err NonAdaLeavingAsset
  else
    leaving ← match checked_add removed_input consumed_fee with Some s => Ok s | None => Panic end;
    output ← sub_asset output Native leaving;
    if bool_decide (output_asset (intention order) = Native) then
      net_output ← ok_or (checked_sub added_output consumed_fee) InsufficientAdaOutputForFee;
      add_asset output Native net_output
    else add_asset output (output_asset (intention order)) added_output.

End Execution.

(** ** Account state: properties *)

Section AccountState.
Context `{BL : BigIntLaws}.

Lemma take_field_Some alt fs i pd :
  fs !! i = Some pd ->
  take_field (mkConstr alt fs) i = Some (pd, mkConstr alt (<[i := DUMMY_PD]> fs)).
Proof. intros Hi. unfold take_field. simpl. by rewrite Hi. Qed.

Lemma legacy_try_from_pd m n k r :
  (i64_min <= n <= i64_max)%Z -> length k = 33 -> length r = 32 ->
  account_try_from_pd (PdConstr 0 [PdBytes m; PdInteger n; PdBytes k; PdBytes r]) =
  Some (mkAccountState Legacy m [] [n] k None (replicate 28 x00) r).
Proof.
  intros Hn Hk Hr. unfold account_try_from_pd. cbn. unfold into_i128. rewrite as_int_i64 by done.
  cbn. rewrite try_i64_Some by done. cbn. rewrite Hk. cbn. by rewrite try_array_Some.
Qed.

Lemma nonce_collect ns :
  Forall (fun n => i64_min <= n <= i64_max)%Z ns ->
  collect_option (fun pd => n ← into_i128 pd; try_i64 n) (int_into_pd <$> ns) = Some ns.
Proof.
  intros Hn. apply collect_option_fmap. eapply Forall_impl; [exact Hn|]. intros n Hb. cbn.
  rewrite as_int_i64 by done. by apply try_i64_Some.
Qed.

Lemma allowlist_collect l :
  Forall (fun a => length a = 28) l ->
  collect_option (fun pd => bs ← into_bytes pd; try_array 28 bs) (bytes_into_pd <$> l) = Some l.
Proof.
  intros Hl. apply collect_option_fmap. eapply Forall_impl; [exact Hl|]. intros a Ha. cbn.
  by apply try_array_Some.
Qed.

Lemma co_key_roundtrip co :
  (forall k, co = Some k -> length k = 33) ->
  co_key_from_pd (match co with None => PdList [] | Some k => bytes_into_pd k end) = Some co.
Proof. intros Hk. destruct co as [k|]; [|done]. cbn. by rewrite (Hk k eq_refl). Qed.

Lemma current_try_from_pd m al ns k co_pd co cold r :
  length k = 33 -> length r = 32 -> length cold = 28 ->
  Forall (fun n => i64_min <= n <= i64_max)%Z ns -> Forall (fun a => length a = 28) al ->
  co_key_from_pd co_pd = Some co ->
  account_try_from_pd (PdConstr 0 [PdBytes m; PdList (bytes_into_pd <$> al);
    PdList (int_into_pd <$> ns); PdList [PdBytes k; co_pd]; PdBytes cold; PdBytes r]) =
  Some (mkAccountState Current m al ns k co cold r).
Proof.
  intros Hk Hr Hc Hn Ha Hco. unfold account_try_from_pd.
  cbn -[collect_option co_key_from_pd fmap try_array].
  rewrite allowlist_collect by done. cbn -[collect_option co_key_from_pd fmap try_array].
  rewrite nonce_collect by done. cbn -[co_key_from_pd try_array].
  rewrite Hk. cbn -[co_key_from_pd try_array]. rewrite Hco. cbn -[try_array].
  rewrite (try_array_Some 28) by done. cbn -[try_array]. rewrite (try_array_Some 32) by done. done.
Qed.

(** Writing and parsing a state. *)
Lemma account_state_reads (E : Type) s :
  account_state_wf s ->
  exists d, account_into_pd (E:=E) s = Ok d /\ account_try_from_pd d = Some s.
Proof.
  destruct s as [ab m al ns k co cold r]. unfold account_state_wf, account_into_pd. simpl.
  intros (Hk & Hr & Hn & Habi). destruct ab; simpl.
  - destruct Habi as (-> & Hlen & -> & ->). destruct ns as [|n [|]]; try done.
    eexists. split; [reflexivity|]. rewrite Forall_singleton in Hn.
    exact (legacy_try_from_pd m n k r Hn Hk Hr).
  - destruct Habi as (Ha & Hco & Hc). eexists. split; [done|].
    apply current_try_from_pd; [done..|]. by apply co_key_roundtrip.
Qed.

Lemma collect_option_forall {A B} (f : A -> option B) (P : B -> Prop) l l' :
  (forall a b, f a = Some b -> P b) -> collect_option f l = Some l' -> Forall P l'.
Proof.
  intros Hf. revert l'. induction l as [|a l IH]; intros l'; cbn; [by intros [= <-]|].
  destruct (f a) as [b|] eqn:Eb; [|done]. cbn. destruct (collect_option f l) as [bs|]; [|done]. cbn.
  intros [= <-]. constructor; [by eapply Hf|by apply IH].
Qed.

Lemma try_array_length n bs b : try_array n bs = Some b -> length b = n.
Proof. unfold try_array. destruct (Nat.eqb_spec (length bs) n); [|done]. by intros [= <-]. Qed.

Lemma try_i64_range z n : try_i64 z = Some n -> (i64_min <= n <= i64_max)%Z.
Proof. unfold try_i64. destruct (_ && _) eqn:E; [|done]. intros [= <-]. lia. Qed.

(** One step of a parser that goes on. *)
Ltac parse_step :=
  match goal with
  | |- mbind _ ?o = Some _ -> _ =>
    let E := fresh "E" in destruct o eqn:E; [|done]; cbn [mbind option_bind]
  | |- (let '(_, _) := ?p in _) = Some _ -> _ => destruct p
  | |- (if negb ?b then None else _) = Some _ -> _ => let E := fresh "E" in destruct b eqn:E; [|done]; cbn [negb]
  | |- (if ?b then None else _) = Some _ -> _ => let E := fresh "E" in destruct b eqn:E; [done|]
  end.

(** What the parser accepts is well-formed. *)
Lemma account_parsed_wf d s : account_try_from_pd d = Some s -> account_state_wf s.
Proof.
  unfold account_try_from_pd. parse_step. parse_step.
  destruct (length (fields c) =? 4).
  - repeat parse_step. intros [= <-].
    split_and!; cbn; [by apply Nat.eqb_eq|by eapply try_array_length| |done..]. apply Forall_singleton. by eapply try_i64_range.
  - repeat parse_step. intros [= <-]. unfold account_state_wf. cbn.
    split_and!; [by apply Nat.eqb_eq|by eapply try_array_length|..|by eapply try_array_length].
    + eapply collect_option_forall; [|eassumption]. intros pd n. cbn. destruct (into_i128 pd); [|done]. apply try_i64_range.
    + eapply collect_option_forall; [|eassumption]. intros pd bs. cbn. destruct (into_bytes pd); [|done]. apply try_array_length.
    + intros k ->. match goal with H : co_key_from_pd ?x = _ |- _ => revert H; unfold co_key_from_pd; destruct x as [| |[|]| |] end;
        cbn; try done. match goal with |- context [length ?b =? 33] => destruct (Nat.eqb_spec (length b) 33) end;
        [by intros [= <-]|done].
Qed.

(** C20: Every well-formed account state can be written as a datum, and
    parsing that datum gives the state back, for both ABIs. *)
Theorem account_state_roundtrip (E : Type) s :
  account_state_wf s ->
  exists d, account_into_pd (E:=E) s = Ok d /\ account_try_from_pd d = Some s.
Proof. apply account_state_reads. Qed.

End AccountState.

(** Applying a signed order's nonce changes only the targeted nonce and
    never decreases it: a legacy account steps it by one from exactly the
    target, a current account moves it up to the target. *)
Theorem nonce_only_advances s index value s' :
  with_sig_full_fill_nonce s index value = Some s' ->
  exists i n n', nonce s !! i = Some n /\ s' = set_nonce s (<[i := n']> (nonce s)) /\
    (n <= n')%Z /\
    match abi s with
    | Legacy => i = 0 /\ n = u64_as_i64 value /\ n' = (n + 1)%Z /\ (n' <= i64_max)%Z
    | Current => i = Z.to_nat index /\ n' = u64_as_i64 value
    end.
Proof.
  unfold with_sig_full_fill_nonce. case_bool_decide as Habi.
  - rewrite Habi. destruct (Z.eqb_spec index 0); [|done]. simpl.
    destruct (nonce s !! 0) as [n|] eqn:Hn; [|done]. simpl.
    destruct (Z.eqb_spec n (u64_as_i64 value)); [|done]. simpl.
    unfold checked_add_i64. destruct (_ && _) eqn:Hb; [|done].
    apply andb_prop in Hb as [_ ?%Z.leb_le]. simpl. intros [= <-].
    exists 0, n, (n + 1)%Z. split_and!; done || lia.
  - destruct (nonce s !! Z.to_nat index) as [n|] eqn:Hn; [|done]. simpl.
    destruct (Z.ltb_spec (u64_as_i64 value) n); [done|]. intros [= <-].
    exists (Z.to_nat index), n, (u64_as_i64 value). split_and!; [done|done|lia|].
    by destruct (abi s).
Qed.

Definition sample_account : AlephAccountState :=
  mkAccountState Current [x01] [replicate 28 x02] [5; 7]%Z (replicate 33 x03) None
    (replicate 28 x04) (replicate 32 x05).

Definition as_int_any : BigIntLib := Some.
Lemma as_int_any_laws : @BigIntLaws as_int_any.
Proof. by intros z _. Qed.

Lemma account_state_roundtrip_witness :
  exists d, account_into_pd (E:=unit) sample_account = Ok d /\
    @account_try_from_pd as_int_any d = Some sample_account.
Proof.
  apply (@account_state_roundtrip as_int_any as_int_any_laws).
  unfold account_state_wf. simpl. split_and!; try done;
    repeat constructor; unfold i64_min, i64_max; lia.
Defined.

Lemma nonce_only_advances_witness :
  exists i n n', nonce sample_account !! i = Some n /\ (n <= n')%Z.
Proof.
  destruct (nonce_only_advances sample_account 1 9 (set_nonce sample_account [5; 9]%Z) eq_refl)
    as (i & n & n' & Hi & _ & Hle & _). by exists i, n, n'.
Defined.

(** ** Orders: properties *)

Definition order_id_wf (i : GreenOrderId) : Prop :=
  length (oid_account_id i) = 32 /\ is_u16 (oid_nonce_slot i) /\ is_u64 (oid_nonce_value i) /\
  length (original_intent_digest i) = 32.

(** Two different messages with one 224-bit digest. *)
Definition collision224 `{Hashing} : Prop :=
  exists x y : bytes, x <> y /\ blake2b224 x = blake2b224 y.

Lemma to_be_bytes_inj n a b :
  (0 <= a < 256 ^ Z.of_nat n)%Z -> (0 <= b < 256 ^ Z.of_nat n)%Z ->
  to_be_bytes n a = to_be_bytes n b -> a = b.
Proof.
  intros Ha Hb E. rewrite <- (to_be_bytes_range n a Ha), <- (to_be_bytes_range n b Hb). by rewrite E.
Qed.

Lemma stable_token_preimage_inj i j : order_id_wf i -> order_id_wf j ->
  stable_token_preimage i = stable_token_preimage j -> i = j.
Proof.
  destruct i as [a s v d], j as [a' s' v' d']. unfold order_id_wf, stable_token_preimage. simpl.
  unfold is_u16, is_u64, u16_max, u64_max.
  intros (Ha & Hs & Hv & Hd) (Ha' & Hs' & Hv' & Hd') E.
  apply app_inj_1 in E as [-> E]; [|by rewrite Ha, Ha'].
  apply (app_inj_1 (to_be_bytes 2 s) (to_be_bytes 2 s')) in E as [Es E];
    [|by rewrite !to_be_bytes_length].
  apply (app_inj_1 (to_be_bytes 8 v) (to_be_bytes 8 v')) in E as [Ev ->];
    [|by rewrite !to_be_bytes_length].
  apply to_be_bytes_inj in Es as ->; [|lia..]. by apply to_be_bytes_inj in Ev as ->; [|lia..].
Qed.

(** The token that identifies an order in the book determines the order's
    identifier (account, nonce, digest), or the 224-bit hash collides. *)
Theorem stable_token_binds `{Hashing} i j :
  order_id_wf i -> order_id_wf j -> stable_token i = stable_token j -> i = j \/ collision224.
Proof.
  intros Hi Hj [= E].
  destruct (decide (stable_token_preimage i = stable_token_preimage j)) as [Ep|Hne].
  - left. by apply stable_token_preimage_inj.
  - right. by exists (stable_token_preimage i), (stable_token_preimage j).
Qed.

(** A sequence of trades [(removed, added)], stopping when the order ends. *)
Fixpoint apply_trades (o : GreenOrder) (trades : list (Z * Z)) : Next GreenOrder TerminalTake :=
  match trades with
  | [] => Succ o
  | (r, a) :: trades =>
    match with_applied_trade o r a with
    | Succ o' => apply_trades o' trades
    | Term t => Term t
    end
  end.

Definition sum_removed (l : list (Z * Z)) : Z := foldr (fun t acc => t.1 + acc)%Z 0%Z l.
Definition sum_added (l : list (Z * Z)) : Z := foldr (fun t acc => t.2 + acc)%Z 0%Z l.

Lemma green_trade_laws `{RatioLib} : TakerTradeLaws GreenOrder ExUnits.
Proof.
  split; intros t x removed added Hr Ha Hmax; simpl in *;
    unfold green_applied_trade, green_try_terminate, saturating_sub, saturating_add; simpl;
    destruct (Z.eqb_spec (Z.max (current_remainder t - removed) 0) 0); intros [= <-]; simpl; lia.
Qed.

Lemma sum_nonneg l : Forall (fun t => 0 < t.1 /\ 0 <= t.2)%Z l ->
  (0 <= sum_removed l /\ 0 <= sum_added l)%Z.
Proof. induction 1 as [|[r a] l [? ?] _ [IH1 IH2]]; simpl in *; lia. Qed.

(** A sequence of trades moves exactly the traded amounts: while the
    order lives, its remainder and output account for every trade; it ends
    exactly when its whole input is consumed, paying out every traded unit. *)
Theorem green_trades_conserve o trades :
  (0 < current_remainder o)%Z -> (0 <= accumulated o)%Z ->
  Forall (fun t => 0 < t.1 /\ 0 <= t.2)%Z trades ->
  (sum_removed trades <= current_remainder o)%Z ->
  (accumulated o + sum_added trades <= u64_max)%Z ->
  match apply_trades o trades with
  | Succ o' => (sum_removed trades < current_remainder o)%Z /\ go_id o' = go_id o /\
      intention o' = intention o /\
      current_remainder o' = (current_remainder o - sum_removed trades)%Z /\
      accumulated o' = (accumulated o + sum_added trades)%Z
  | Term t => sum_removed trades = current_remainder o /\ remaining_input t = 0%Z /\
      accumulated_output t = (accumulated o + sum_added trades)%Z
  end.
Proof.
  revert o. induction trades as [|[r a] trades IH]; intros o Hrem Hacc Hnn Hsum Hmax;
    [simpl in *; split_and!; done || lia|].
  apply Forall_cons in Hnn as [[Hr Ha] Hnn]. pose proof (sum_nonneg _ Hnn) as [Hs1 Hs2].
  cbn [sum_removed sum_added foldr fst snd drop apply_trades] in *.
  fold (sum_removed trades) (sum_added trades) in *. simpl with_applied_trade.
  unfold green_applied_trade, green_try_terminate, saturating_sub, saturating_add.
  cbn [set_progress current_remainder accumulated].
  rewrite (Z.max_l (current_remainder o - r)), (Z.min_l (accumulated o + a)) by lia.
  destruct (Z.eqb_spec (current_remainder o - r) 0) as [E|Hne].
  - assert (trades = []) as ->.
    { destruct trades as [|[r' a'] trades]; [done|].
      apply Forall_cons in Hnn as [[Hr' _] Hnn]. pose proof (sum_nonneg _ Hnn). simpl in *. lia. }
    simpl. lia.
  - set (o' := set_progress o _ _).
    specialize (IH o' ltac:(simpl; lia) ltac:(simpl; lia) Hnn ltac:(simpl; lia) ltac:(simpl; lia)).
    destruct (apply_trades o' trades); simpl in *; destruct_and!; split_and!; done || lia.
Qed.

Lemma operator_fee_split o c :
  (0 < gi_leaving_amount (intention o))%Z -> (0 <= gi_fee_lovelace (intention o))%Z -> (0 <= c)%Z ->
  (green_operator_fee o c * gi_leaving_amount (intention o) <= gi_fee_lovelace (intention o) * c)%Z.
Proof.
  intros HL HF Hc. unfold green_operator_fee, checked_div, saturating_mul.
  destruct (Z.eqb_spec (gi_leaving_amount (intention o)) 0); [lia|]. simpl.
  pose proof (Z.mul_div_le (Z.min (gi_fee_lovelace (intention o) * c) u64_max)
    (gi_leaving_amount (intention o)) ltac:(lia)). lia.
Qed.

(** C21: However an order is split into fills, the operator fees of the fills
    together never exceed the declared fee. *)
Theorem operator_fees_bounded o chunks :
  (0 < gi_leaving_amount (intention o))%Z -> (0 <= gi_fee_lovelace (intention o))%Z ->
  Forall (fun c => 0 <= c)%Z chunks ->
  (foldr Z.add 0 chunks <= gi_leaving_amount (intention o))%Z ->
  (foldr (fun c acc => green_operator_fee o c + acc) 0 chunks <= gi_fee_lovelace (intention o))%Z.
Proof.
  intros HL HF Hc Hsum.
  assert (foldr (fun c acc => green_operator_fee o c + acc) 0 chunks *
    gi_leaving_amount (intention o) <= gi_fee_lovelace (intention o) * foldr Z.add 0 chunks)%Z as Hb.
  { clear Hsum. induction Hc as [|c chunks Hc _ IH]; simpl; [lia|].
    pose proof (operator_fee_split o c HL HF Hc). lia. }
  nia.
Qed.

Lemma into_value_amount a b amt :
  asset_wf a -> asset_wf b -> amount (into_value a amt) b = if decide (a = b) then amt else 0%Z.
Proof.
  intros Ha Hb. unfold amount. destruct a as [|[p n]], b as [|[q m]]; try done.
  simpl. destruct (decide (p = q)) as [<-|Hp].
  - rewrite lookup_singleton_eq. simpl. destruct (decide (cml_name n = cml_name m)) as [E|Hn].
    + rewrite E, lookup_singleton_eq. simpl. destruct Ha as [_ Ha], Hb as [_ Hb].
      apply cml_name_inj in E as ->; [|done..]. by rewrite decide_True.
    + rewrite lookup_singleton_ne by done. by rewrite decide_False by congruence.
  - rewrite lookup_singleton_ne by done. simpl. by rewrite decide_False by congruence.
Qed.

(** What a fill changes, asset by asset; the fee is taken a second time from an
    output in ADA. *)
Lemma full_fill_amounts `{ValueLaws} v order removed added fee v' b :
  asset_wf (output_asset (intention order)) -> asset_wf b ->
  apply_full_fill_to_account_output v order removed added fee = Ok v' ->
  amount v' b = (amount v b - (if decide (Native = b) then removed + fee else 0) +
    (if decide (output_asset (intention order) = b)
     then added - (if decide (output_asset (intention order) = Native) then fee else 0) else 0))%Z.
Proof.
  unfold apply_full_fill_to_account_output. intros Hwf Hb. case_bool_decide; [done|].
  unfold checked_add. destruct (_ <=? _)%Z; [|done]. cbn [mbind outcome_bind].
  unfold sub_asset. destruct (value_checked_sub v _) as [v1|] eqn:E1; [|done]. cbn [mbind outcome_bind].
  apply (value_sub_amount _ _ _ b) in E1. rewrite into_value_amount in E1 by done.
  unfold add_asset. case_bool_decide as Ho.
  - unfold checked_sub. destruct (_ <=? _)%Z; [|done]. cbn [ok_or mbind outcome_bind].
    destruct (value_checked_add v1 _) as [v2|] eqn:E2; [|done]. intros [= <-].
    rewrite (value_add_amount _ _ _ b E2), E1, into_value_amount, !Ho by done.
    rewrite (decide_True _ _ (eq_refl Native)). done.
  - destruct (value_checked_add v1 _) as [v2|] eqn:E2; [|done]. intros [= <-].
    rewrite (value_add_amount _ _ _ b E2), E1, into_value_amount by done.
    rewrite (decide_False (P := output_asset (intention order) = Native)), Z.sub_0_r by done. done.
Qed.

(** A successful fill of an ADA-leaving order for another asset takes the
    consumed input and fee from the account's ADA, adds exactly the traded
    output, and leaves every other asset as it was. *)
Theorem full_fill_accounting `{ValueLaws} v order removed added fee v' :
  asset_wf (output_asset (intention order)) -> output_asset (intention order) <> Native ->
  apply_full_fill_to_account_output v order removed added fee = Ok v' ->
  input_asset (intention order) = Native /\
  amount v' Native = (amount v Native - (removed + fee))%Z /\
  amount v' (output_asset (intention order)) =
    (amount v (output_asset (intention order)) + added)%Z /\
  forall b, asset_wf b -> b <> Native -> b <> output_asset (intention order) ->
    amount v' b = amount v b.
Proof.
  intros Hwf Hout Hok.
  assert (input_asset (intention order) = Native) as Hin.
  { revert Hok. unfold apply_full_fill_to_account_output. case_bool_decide as E; [done|]. done. }
  pose proof (fun b Hb => full_fill_amounts v order removed added fee v' b Hwf Hb Hok) as Hall.
  rewrite (decide_False (P := output_asset (intention order) = Native)) in Hall by done.
  split_and!; [done|rewrite Hall by done..|].
  - rewrite decide_True, decide_False by done. lia.
  - rewrite decide_False, decide_True by congruence. lia.
  - intros b Hb Hn Ho. rewrite Hall, !decide_False by congruence. lia.
Qed.

(** ** Concrete instances *)

Definition sample_order (leaving fee acc rem : Z) : GreenOrder :=
  mkGreenOrder (mkGreenOrderId (replicate 32 x01) 3 1 (replicate 32 x02)) (replicate 32 x01)
    (mkGreenIntention Native sample_token leaving 500 fee 3 1 (replicate 28 x07)) acc rem
    (Sig [] [] (replicate 64 x00) []).

(** Bundles with one token policy and name, added and subtracted directly. *)
Definition pointwise_value : ValueLib := {|
  value_checked_add := fun v w =>
    Some (mkValue (coin v + coin w)
      (union_with (fun a b => Some (union_with (fun x y => Some (x + y)%Z) a b))
         (multiasset v) (multiasset w)));
  value_checked_sub := fun v w =>
    Some (mkValue (coin v - coin w)
      (union_with (fun a b => Some (union_with (fun x y => Some (x + y)%Z) a b))
         (multiasset v) ((fun b : gmap bytes Z => Z.opp <$> b) <$> multiasset w)));
|}.

Lemma pointwise_union (m n : gmap bytes (gmap bytes Z)) p k :
  default 0%Z (union_with (fun a b => Some (union_with (fun x y => Some (x + y)%Z) a b)) m n !! p
    ≫= (.!! k)) =
  (default 0 (m !! p ≫= (.!! k)) + default 0 (n !! p ≫= (.!! k)))%Z.
Proof.
  rewrite lookup_union_with. destruct (m !! p) as [a|], (n !! p) as [b|]; simpl; try lia.
  rewrite lookup_union_with. destruct (a !! k), (b !! k); simpl; lia.
Qed.

Lemma pointwise_value_laws : @ValueLaws pointwise_value.
Proof.
  split; intros v w u a [= <-]; unfold amount; destruct a as [|[p n]]; simpl; try done.
  - apply pointwise_union.
  - rewrite pointwise_union, lookup_fmap. rewrite <- Z.add_opp_r. f_equal.
    destruct (multiasset w !! p) as [b|]; [|done]. simpl. rewrite lookup_fmap.
    by destruct (b !! cml_name n).
Qed.

Lemma stable_token_binds_witness :
  go_id (sample_order 1 1 0 1) = go_id (sample_order 1 1 0 1) \/ @collision224 toy.
Proof.
  apply (@stable_token_binds toy); [..|reflexivity];
    (split_and!; simpl; try done; unfold is_u16, is_u64, u16_max, u64_max; lia).
Defined.

Lemma green_trades_conserve_witness :
  match apply_trades (sample_order 100 10 0 100) [(30, 7); (70, 9)]%Z with
  | Succ _ => False
  | Term t => remaining_input t = 0%Z /\ accumulated_output t = 16%Z
  end.
Proof.
  pose proof (green_trades_conserve (sample_order 100 10 0 100) [(30, 7); (70, 9)]%Z) as Hc.
  simpl in *. unfold sum_removed, sum_added, u64_max in Hc. simpl in Hc.
  apply Hc; try lia. repeat constructor; simpl; lia.
Defined.

Lemma operator_fees_bounded_witness :
  (foldr (fun c acc => green_operator_fee (sample_order 100 10 0 100) c + acc) 0 [33; 33; 34] <= 10)%Z.
Proof.
  apply (operator_fees_bounded (sample_order 100 10 0 100)); simpl; try lia.
  repeat constructor; lia.
Defined.

Lemma full_fill_accounting_witness :
  exists v', @apply_full_fill_to_account_output pointwise_value (mkValue 1000 ∅)
      (sample_order 100 10 0 100) 100 40 10 = Ok v' /\
    amount v' Native = 890%Z /\ amount v' sample_token = 40%Z.
Proof.
  eexists. split; [reflexivity|].
  edestruct (@full_fill_accounting pointwise_value pointwise_value_laws (mkValue 1000 ∅)
    (sample_order 100 10 0 100) 100 40 10) as (_ & Hn & Ho & _);
    [by split|done|reflexivity|]. by split.
Defined.
