(* ===== verification/AccountStore.v ===== *)
(** * The store of pending intents of one account

    [green-order-cardano-agent/src/account_store.rs].  A store keeps the
    remaining intents of an account under their keys together with the Merkle
    root that the account's datum carries on chain; every change goes through
    a proof that is checked against the old root.

    The CBOR serialiser of Plutus data ([to_cbor_bytes]) is a library function:
    class [CborLib]. *)

From stdpp Require Import base gmap list sorting.
From Stdlib Require Import ZArith Lia Strings.Byte.
From S2P Require Import Prelude Mpf ToyHash MpfProofs LbTypes Assets PlutusData Intention GreenOrder.

#[global] Arguments Trie_root : simpl never.
#[global] Arguments proof_for_present : simpl never.
#[global] Arguments proof_for_missing : simpl never.
#[global] Arguments has : simpl never.

Inductive GreenStorePlanningError :=
| MissingAccount
| MissingStore
| RootMismatch (expected actual : bytes)
| ExistingPendingIntent
| MissingPendingIntent
| DigestMismatch
| Unsupported.

Inductive StoredIntentStatus := Pending | Completed.

Global Instance status_eq_dec : EqDecision StoredIntentStatus.
Proof. solve_decision. Defined.

Record StoredIntentLeaf := mkStoredLeaf {
  canonical_order_id : GreenOrderId;
  leaf_intent : AlephIntention;
  leaf_digest : bytes;
  leaf_status : StoredIntentStatus;
}.

Global Instance stored_leaf_eq_dec : EqDecision StoredIntentLeaf.
Proof. solve_decision. Defined.

Record StoredIntentLeafSnapshot := mkLeafSnapshot {
  snap_key : bytes;
  snap_leaf : StoredIntentLeaf;
}.

Record AccountStore := mkStore {
  root : bytes;
  leaves : gmap bytes StoredIntentLeaf;
}.

Global Instance store_eq_dec : EqDecision AccountStore.
Proof. solve_decision. Defined.

Record MpfDelta := mkMpfDelta { old_root : bytes; new_root : bytes; delta_proof : bytes }.
Record MpfCompletion := mkMpfCompletion { completion_root : bytes; completion_proof : bytes }.

Record PlannedStoreDelta := mkPlannedDelta {
  planned_old_root : bytes;
  planned_new_root : bytes;
  planned_proof : bytes;
  predicted_snapshot_id : Z;
}.
Record PlannedStoreCompletion := mkPlannedCompletion {
  planned_root : bytes;
  planned_completion_proof : bytes;
  completion_snapshot_id : Z;
}.

Class CborLib := pd_to_cbor : PlutusData -> bytes.

Section Store.
Context `{Hh : Hashing} `{CL : CborLib}.

Definition ALEPH_MPF_EMPTY_ROOT : bytes := EMPTY_ROOT.

Definition proof_to_cbor (proof : list ProofStep) : bytes := pd_to_cbor (proof_to_plutus_data proof).

(** [From<MpfError> for GreenStorePlanningError]: every verifier error becomes
    [Unsupported]. *)
Definition mpf_err {A} (m : outcome MpfError A) : outcome GreenStorePlanningError A :=
  map_err (fun _ => Unsupported) m.

Definition store_empty : AccountStore := mkStore ALEPH_MPF_EMPTY_ROOT ∅.

Definition from_observed_root (r : bytes) : option AccountStore :=
  if bool_decide (r = ALEPH_MPF_EMPTY_ROOT) then Some store_empty else None.

Definition trie_from_leaves (ls : gmap bytes StoredIntentLeaf) : Trie :=
  from_leaves (leaf_digest <$> ls).

(** Collecting into a [BTreeMap]: a later entry replaces an earlier one. *)
Definition collect_leaves (l : list StoredIntentLeafSnapshot) : gmap bytes StoredIntentLeaf :=
  foldl (fun m s => <[snap_key s := snap_leaf s]> m) ∅ l.

Definition from_snapshot (r : bytes) (l : list StoredIntentLeafSnapshot)
    : outcome GreenStorePlanningError AccountStore :=
  let ls := collect_leaves l in
  calculated_root ← mpf_err (Trie_root (trie_from_leaves ls));
  if bool_decide (calculated_root <> r) then Err (RootMismatch calculated_root r)
  else Ok (mkStore r ls).

Definition snapshot_leaves (s : AccountStore) : list StoredIntentLeafSnapshot :=
  (fun kv => mkLeafSnapshot kv.1 kv.2) <$> btree_iter (leaves s).

(** The [&mut self] operations: the store they leave and their result. *)

Definition insert_remaining (s : AccountStore) (key : bytes) (oid : GreenOrderId)
    (intent : AlephIntention) : AccountStore * outcome GreenStorePlanningError MpfDelta :=
  match leaves s !! key with
  | Some _ => (s, Err ExistingPendingIntent)
  | None =>
    let d := digest intent in
    match (proof ← mpf_err (proof_for_missing (trie_from_leaves (leaves s)) key);
           nr ← mpf_err (insert (root s) key d proof);
           Ok (nr, proof)) with
    | Ok (nr, proof) =>
      (mkStore nr (<[key := mkStoredLeaf oid intent d Pending]> (leaves s)),
       Ok (mkMpfDelta (root s) nr (proof_to_cbor proof)))
    | Err e => (s, Err e)
    | Panic => (s, Panic)
    end
  end.

(** The guards shared by [update_remaining] and [mark_completed]. *)
Definition pending_with_digest (s : AccountStore) (key old_digest : bytes)
    : outcome GreenStorePlanningError StoredIntentLeaf :=
  leaf ← ok_or (leaves s !! key) MissingPendingIntent;
  if bool_decide (leaf_status leaf <> Pending) then Err MissingPendingIntent
  else if bool_decide (leaf_digest leaf <> old_digest) then Err DigestMismatch
  else Ok leaf.

Definition update_remaining (s : AccountStore) (key old_digest : bytes)
    (new_intent : AlephIntention) : AccountStore * outcome GreenStorePlanningError MpfDelta :=
  match (proof ← mpf_err (proof_for_present (trie_from_leaves (leaves s)) key);
         leaf ← pending_with_digest s key old_digest;
         let new_digest := digest new_intent in
         nr ← mpf_err (update (root s) key proof old_digest new_digest);
         Ok (mkStore nr (<[key := mkStoredLeaf (canonical_order_id leaf) new_intent new_digest
                                    (leaf_status leaf)]> (leaves s)),
             mkMpfDelta (root s) nr (proof_to_cbor proof))) with
  | Ok (s', d) => (s', Ok d)
  | Err e => (s, Err e)
  | Panic => (s, Panic)
  end.

Definition mark_completed (s : AccountStore) (key old_digest : bytes)
    : AccountStore * outcome GreenStorePlanningError MpfCompletion :=
  match (let trie := trie_from_leaves (leaves s) in
         proof ← mpf_err (proof_for_present trie key);
         leaf ← pending_with_digest s key old_digest;
         if negb (has (root s) key old_digest proof) then
           expected ← mpf_err (Trie_root trie);
           Err (RootMismatch expected (root s))
         else
           Ok (mkStore (root s) (<[key := mkStoredLeaf (canonical_order_id leaf) (leaf_intent leaf)
                                           (leaf_digest leaf) Completed]> (leaves s)),
               mkMpfCompletion (root s) (proof_to_cbor proof))) with
  | Ok (s', c) => (s', Ok c)
  | Err e => (s, Err e)
  | Panic => (s, Panic)
  end.

Definition pending_leaf (s : AccountStore) (key : bytes) : option StoredIntentLeaf :=
  leaf ← leaves s !! key;
  if bool_decide (leaf_status leaf = Pending) then Some leaf else None.

Definition pending_leaves (s : AccountStore) : list (bytes * StoredIntentLeaf) :=
  filter (fun kv => leaf_status kv.2 = Pending) (btree_iter (leaves s)).

Definition path_proof (s : AccountStore) (key : bytes) : outcome GreenStorePlanningError bytes :=
  leaf ← ok_or (leaves s !! key) MissingPendingIntent;
  if bool_decide (leaf_status leaf <> Pending) then Err MissingPendingIntent
  else
    let trie := trie_from_leaves (leaves s) in
    proof ← mpf_err (proof_for_present trie key);
    if negb (has (root s) key (leaf_digest leaf) proof) then
      expected ← mpf_err (Trie_root trie);
      Err (RootMismatch expected (root s))
    else Ok (proof_to_cbor proof).

Definition planned_delta (d : MpfDelta) (snapshot_id : Z) : PlannedStoreDelta :=
  mkPlannedDelta (old_root d) (new_root d) (delta_proof d) snapshot_id.
Definition planned_completion (c : MpfCompletion) (snapshot_id : Z) : PlannedStoreCompletion :=
  mkPlannedCompletion (completion_root c) (completion_proof c) snapshot_id.

(** ** Invariant: the root is the Merkle root of the leaves, and each leaf
    carries the digest of its intent. *)
Definition store_inv (s : AccountStore) : Prop :=
  Trie_root (trie_from_leaves (leaves s)) = Ok (root s) /\
  map_Forall (fun _ l => leaf_digest l = digest (leaf_intent l)) (leaves s).

Global Instance store_inv_dec s : Decision (store_inv s).
Proof. unfold store_inv. apply _. Defined.

End Store.

(** ** Properties *)

Section StoreProofs.
Context `{HL : HashingLaws} `{CL : CborLib}.

Lemma trie_from_leaves_lookup ls k :
  trie_leaves (trie_from_leaves ls) !! k = leaf_digest <$> ls !! k.
Proof. unfold trie_from_leaves. simpl. apply lookup_fmap. Qed.

Lemma trie_from_leaves_insert ls k l :
  trie_from_leaves (<[k := l]> ls) = mkTrie (<[k := leaf_digest l]> (trie_leaves (trie_from_leaves ls))).
Proof. unfold trie_from_leaves, from_leaves. simpl. by rewrite fmap_insert. Qed.

(** Distinct keys have distinct paths, unless the hash collides. *)
Lemma distinct_paths_or_collision l : NoDup l -> distinct_paths l \/ collision.
Proof.
  induction 1 as [|k l Hk Hnd [IH|]]; [left; constructor| |by right].
  destruct (decide (hash k ∈ hash <$> l)) as [Hin|Hn].
  - right. apply list_elem_of_fmap in Hin as (k' & E & Hk'). exists k, k'. split; [|done].
    by intros ->.
  - left. by apply NoDup_cons.
Qed.

Lemma trie_keys_distinct t : distinct_paths (trie_keys t) \/ collision.
Proof. apply distinct_paths_or_collision, NoDup_fst_map_to_list. Qed.

Lemma trie_keys_distinct_missing t k :
  trie_leaves t !! k = None -> distinct_paths (k :: trie_keys t) \/ collision.
Proof.
  intros Hk. apply distinct_paths_or_collision, NoDup_cons.
  split; [|apply NoDup_fst_map_to_list]. intros (kv & -> & Hin)%list_elem_of_fmap.
  destruct kv as [k v]. apply elem_of_map_to_list in Hin. simpl in Hk. congruence.
Qed.

Lemma store_empty_inv : store_inv store_empty.
Proof. split; [done|]. apply map_Forall_empty. Qed.

Lemma from_observed_root_inv r s : from_observed_root r = Some s -> store_inv s /\ root s = r.
Proof.
  unfold from_observed_root. case_bool_decide as E; [|done]. intros [= <-].
  split; [apply store_empty_inv|done].
Qed.

Lemma insert_remaining_inv s k oid i s' d :
  store_inv s -> insert_remaining s k oid i = (s', Ok d) ->
  collision \/
  (store_inv s' /\ leaves s !! k = None /\ old_root d = root s /\ new_root d = root s' /\
   leaves s' = <[k := mkStoredLeaf oid i (digest i) Pending]> (leaves s) /\
   exists prf, delta_proof d = proof_to_cbor prf /\ miss (root s) k prf = true /\
     insert (root s) k (digest i) prf = Ok (root s')).
Proof.
  intros [Hroot Hdig] Hins. unfold insert_remaining in Hins.
  destruct (leaves s !! k) eqn:Hk; [done|].
  set (t := trie_from_leaves (leaves s)) in *.
  assert (Hkt : trie_leaves t !! k = None) by (unfold t; by rewrite trie_from_leaves_lookup, Hk).
  destruct (proof_for_missing t k) as [prf| |] eqn:Hprf; [|done..]. cbn in Hins.
  destruct (insert (root s) k (digest i) prf) as [nr| |] eqn:Hnr; [|done..]. cbn in Hins.
  injection Hins as <- <-.
  destruct (trie_keys_distinct_missing t k Hkt) as [HND|]; [|by left].
  destruct (insertable_or_diverges (mpf_leaves t) (hash k)) as [Hok|[n Hdiv]].
  - right. destruct (insert_transitions t k (digest i) HND Hkt Hok)
      as (r & prf' & r' & Hr & Hp & Hm & Hi & Ht). rewrite Hprf in Hp. injection Hp as <-.
    rewrite Hroot in Hr. injection Hr as <-. rewrite Hnr in Hi. injection Hi as <-.
    split_and!; try done; [|by exists prf]. split; simpl.
    + rewrite trie_from_leaves_insert. simpl. unfold Trie_insert in Ht. by rewrite Hkt in Ht.
    + by apply map_Forall_insert_2.
  - destruct (insert_misaligned t k (digest i) n (root s) prf HND Hdiv Hroot Hprf) as [Hno|];
      [by destruct (Hno nr)|by left].
Qed.

Lemma pending_with_digest_Ok s k d l :
  pending_with_digest s k d = Ok l <->
  leaves s !! k = Some l /\ leaf_status l = Pending /\ leaf_digest l = d.
Proof.
  unfold pending_with_digest. destruct (leaves s !! k) as [l0|]; simpl; [|naive_solver].
  repeat case_bool_decide; naive_solver.
Qed.

Lemma present_in_store s k l :
  store_inv s -> leaves s !! k = Some l ->
  collision \/
  exists prf, proof_for_present (trie_from_leaves (leaves s)) k = Ok prf /\
    has (root s) k (leaf_digest l) prf = true /\
    forall d, exists r', update (root s) k prf (leaf_digest l) d = Ok r' /\
      Trie_root (mkTrie (<[k := d]> (trie_leaves (trie_from_leaves (leaves s))))) = Ok r'.
Proof.
  intros [Hroot _] Hl. set (t := trie_from_leaves (leaves s)) in *.
  assert (Hkt : trie_leaves t !! k = Some (leaf_digest l))
    by (unfold t; by rewrite trie_from_leaves_lookup, Hl).
  destruct (trie_keys_distinct t) as [HND|]; [right|by left].
  destruct (present_transitions t k (leaf_digest l) (leaf_digest l) HND Hkt)
    as (r & prf & Hr & Hprf & Hhas & _).
  rewrite Hroot in Hr. injection Hr as <-. exists prf. split_and!; [done|done|].
  intros d. destruct (present_transitions t k (leaf_digest l) d HND Hkt)
    as (r & prf' & Hr & Hprf' & _ & (r' & Hu & Hu') & _).
  rewrite Hprf in Hprf'. injection Hprf' as <-. rewrite Hroot in Hr. injection Hr as <-.
  exists r'. split; [done|]. unfold Trie_update in Hu'. by rewrite Hkt in Hu'.
Qed.

Lemma update_remaining_inv s k od i s' d :
  store_inv s -> update_remaining s k od i = (s', Ok d) ->
  collision \/
  (store_inv s' /\ old_root d = root s /\ new_root d = root s' /\
   exists l, leaves s !! k = Some l /\ leaf_status l = Pending /\ leaf_digest l = od /\
     leaves s' = <[k := mkStoredLeaf (canonical_order_id l) i (digest i) Pending]> (leaves s)).
Proof.
  intros Hinv Hupd. unfold update_remaining in Hupd.
  destruct (proof_for_present _ k) as [prf| |] eqn:Hprf; [|done..]. cbn in Hupd.
  destruct (pending_with_digest s k od) as [l| |] eqn:Hl; [|done..]. cbn in Hupd.
  destruct (update _ _ _ _ _) as [nr| |] eqn:Hnr; [|done..]. cbn in Hupd.
  injection Hupd as <- <-. apply pending_with_digest_Ok in Hl as (Hl & Hst & <-).
  destruct (present_in_store s k l Hinv Hl) as [|(prf' & Hp & Hhas & Hall)]; [by left|right].
  rewrite Hprf in Hp. injection Hp as <-. destruct (Hall (digest i)) as (r' & Hr' & Ht).
  rewrite Hnr in Hr'. injection Hr' as <-. destruct Hinv as [_ Hdig].
  split_and!; [split|done|done|]; simpl.
  - by rewrite trie_from_leaves_insert.
  - by apply map_Forall_insert_2.
  - exists l. by rewrite Hst.
Qed.

(** A store whose leaves change but not their digests keeps its trie. *)
Lemma same_digest_trie ls k l l' :
  ls !! k = Some l -> leaf_digest l' = leaf_digest l ->
  trie_from_leaves (<[k := l']> ls) = trie_from_leaves ls.
Proof.
  intros Hl Hd. rewrite trie_from_leaves_insert. unfold trie_from_leaves, from_leaves. simpl.
  f_equal. rewrite Hd. apply insert_id. by rewrite lookup_fmap, Hl.
Qed.

Lemma mark_completed_inv s k od s' c :
  store_inv s -> mark_completed s k od = (s', Ok c) ->
  store_inv s' /\ root s' = root s /\ completion_root c = root s /\
  exists l, leaves s !! k = Some l /\ leaf_status l = Pending /\ leaf_digest l = od /\
    pending_leaf s' k = None /\
    leaves s' = <[k := mkStoredLeaf (canonical_order_id l) (leaf_intent l) (leaf_digest l)
                         Completed]> (leaves s).
Proof.
  intros [Hroot Hdig] Hm. unfold mark_completed in Hm.
  destruct (proof_for_present _ k) as [prf| |] eqn:Hprf; [|done..]. cbn in Hm.
  destruct (pending_with_digest s k od) as [l| |] eqn:Hl; [|done..]. cbn in Hm.
  destruct (has _ _ _ _); cbn [negb] in Hm;
    [|by destruct (mpf_err (Trie_root _))]. injection Hm as <- <-.
  apply pending_with_digest_Ok in Hl as (Hl & Hst & <-).
  split_and!; [split|done|done|]; simpl.
  - by rewrite (same_digest_trie _ _ l).
  - apply map_Forall_insert_2; [|done]. simpl. by apply (Hdig k).
  - exists l. split_and!; try done. unfold pending_leaf. simpl. by rewrite lookup_insert_eq.
Qed.

(** A failed operation leaves the store as it was. *)
Lemma insert_remaining_fail s k oid i s' r :
  insert_remaining s k oid i = (s', r) -> (forall d, r <> Ok d) -> s' = s.
Proof.
  unfold insert_remaining. destruct (leaves s !! k); [by intros [= <- <-]|].
  destruct (_ ≫= _) as [[nr prf]| |]; intros [= <- <-]; naive_solver.
Qed.

Lemma update_remaining_fail s k od i s' r :
  update_remaining s k od i = (s', r) -> (forall d, r <> Ok d) -> s' = s.
Proof.
  unfold update_remaining. destruct (_ ≫= _) as [[s1 d]| |]; intros [= <- <-]; naive_solver.
Qed.

Lemma mark_completed_fail s k od s' r :
  mark_completed s k od = (s', r) -> (forall d, r <> Ok d) -> s' = s.
Proof.
  unfold mark_completed. destruct (mpf_err _ ≫= _) as [[s1 d]| |]; intros [= <- <-]; naive_solver.
Qed.

Lemma collect_leaves_fold (l : list StoredIntentLeafSnapshot) (m : gmap bytes StoredIntentLeaf) :
  NoDup (snap_key <$> l) ->
  forall k, foldl (fun m s => <[snap_key s := snap_leaf s]> m) m l !! k =
    match list_find (fun s => snap_key s = k) l with
    | Some (_, s) => Some (snap_leaf s)
    | None => m !! k
    end.
Proof.
  revert m. induction l as [|x l IH]; intros m Hnd k; [done|]. csimpl in *.
  apply NoDup_cons in Hnd as [Hx Hnd]. rewrite IH by done.
  destruct (decide (snap_key x = k)) as [<-|Hne].
  - destruct (list_find _ l) as [[j y]|] eqn:E; simpl; [|by rewrite lookup_insert_eq].
    apply list_find_Some in E as (Hy & Hk & _). exfalso. apply Hx. rewrite <- Hk.
    apply list_elem_of_fmap_2. by eapply list_elem_of_lookup_2.
  - destruct (list_find _ l) as [[j y]|]; simpl; [done|]. by rewrite lookup_insert_ne.
Qed.

Lemma collect_snapshot_leaves s : collect_leaves (snapshot_leaves s) = leaves s.
Proof.
  apply map_eq. intros k. unfold collect_leaves, snapshot_leaves.
  assert (Hkeys : snap_key <$> ((fun kv => mkLeafSnapshot kv.1 kv.2) <$> btree_iter (leaves s)) =
    (btree_iter (leaves s)).*1) by (rewrite <- list_fmap_compose; done).
  rewrite collect_leaves_fold; [|rewrite Hkeys, btree_iter_perm; apply NoDup_fst_map_to_list].
  destruct (list_find _ _) as [[j y]|] eqn:E.
  - apply list_find_Some in E as (Hy & <- & _). apply list_elem_of_lookup_2 in Hy.
    apply list_elem_of_fmap in Hy as ([k v] & -> & Hkv). simpl.
    rewrite btree_iter_perm in Hkv. symmetry. by apply elem_of_map_to_list in Hkv.
  - rewrite lookup_empty. destruct (leaves s !! k) as [l|] eqn:Hl; [|done].
    apply list_find_None in E. rewrite Forall_forall in E. exfalso.
    apply (E (mkLeafSnapshot k l)); [|done]. apply list_elem_of_fmap.
    exists (k, l). split; [done|]. rewrite btree_iter_perm. by apply elem_of_map_to_list.
Qed.

Lemma from_snapshot_snapshot s :
  store_inv s -> from_snapshot (root s) (snapshot_leaves s) = Ok s.
Proof.
  intros [Hroot _]. unfold from_snapshot. rewrite collect_snapshot_leaves, Hroot. simpl.
  rewrite bool_decide_eq_false_2 by (by intros []). by destruct s.
Qed.

(** The stores the agent builds: from an empty one by successful operations. *)
Inductive store_reachable : AccountStore -> Prop :=
| reach_empty : store_reachable store_empty
| reach_insert s k oid i s' d : store_reachable s ->
    insert_remaining s k oid i = (s', Ok d) -> store_reachable s'
| reach_update s k od i s' d : store_reachable s ->
    update_remaining s k od i = (s', Ok d) -> store_reachable s'
| reach_complete s k od s' c : store_reachable s ->
    mark_completed s k od = (s', Ok c) -> store_reachable s'.


(** A successful insertion turns the old root into the new one through a
    proof that excludes the key before and authorises exactly the digest of
    the inserted intent, and changes no other leaf. *)
Theorem insert_remaining_authenticated s k oid i s' d :
  store_inv s -> insert_remaining s k oid i = (s', Ok d) ->
  collision \/
  (old_root d = root s /\ new_root d = root s' /\ pending_leaf s' k = Some (mkStoredLeaf oid i (digest i) Pending) /\
   (forall k', k' <> k -> leaves s' !! k' = leaves s !! k') /\
   exists prf, delta_proof d = proof_to_cbor prf /\ miss (root s) k prf = true /\
     insert (root s) k (digest i) prf = Ok (new_root d)).
Proof.
  intros Hinv Hop.
  destruct (insert_remaining_inv _ _ _ _ _ _ Hinv Hop) as [|(_ & Hk & Ho & Hn & Hl & prf & ?)];
    [by left|right]. unfold pending_leaf. rewrite Hl, lookup_insert_eq. simpl.
  split_and!; try done.
  - intros k' Hne. by rewrite lookup_insert_ne.
  - exists prf. by rewrite Hn.
Qed.

(** Every pending intent of a store can be spent by proof: its path proof
    is produced and the verifier accepts it for the intent's digest under the
    store's root, or the hash collides. *)
Theorem pending_path_proof_verifies s k l :
  store_inv s -> pending_leaf s k = Some l ->
  collision \/
  exists prf, path_proof s k = Ok (proof_to_cbor prf) /\
    has (root s) k (digest (leaf_intent l)) prf = true.
Proof.
  intros Hinv Hp. unfold pending_leaf in Hp.
  destruct (leaves s !! k) as [l0|] eqn:Hl; [|done]. simpl in Hp.
  case_bool_decide as Hst; [|done]. injection Hp as <-.
  destruct (present_in_store s k l0 Hinv Hl) as [|(prf & Hprf & Hhas & _)]; [by left|right].
  exists prf. rewrite <- (proj2 Hinv k l0 Hl). split; [|done].
  unfold path_proof. rewrite Hl. simpl. rewrite bool_decide_eq_false_2 by (by intros []).
  rewrite Hprf. cbn. by rewrite Hhas.
Qed.

(** A store's snapshot loads back to the same store. *)
Theorem store_snapshot_roundtrip s :
  store_inv s -> from_snapshot (root s) (snapshot_leaves s) = Ok s.
Proof. apply from_snapshot_snapshot. Qed.

(** A completed intent cannot be filled again: after completion neither
    an update, nor a second completion, nor a new insertion under its key
    succeeds, and each leaves the store unchanged. *)
Theorem completed_intent_is_final s k od s' c :
  store_inv s -> mark_completed s k od = (s', Ok c) ->
  collision \/
  forall od' i oid,
    update_remaining s' k od' i = (s', Err MissingPendingIntent) /\
    mark_completed s' k od' = (s', Err MissingPendingIntent) /\
    insert_remaining s' k oid i = (s', Err ExistingPendingIntent).
Proof.
  intros Hinv Hop. apply mark_completed_inv in Hop as (Hinv' & _ & _ & l & _ & _ & _ & _ & Hl); [|done].
  assert (Hk : leaves s' !! k = Some (mkStoredLeaf (canonical_order_id l) (leaf_intent l)
    (leaf_digest l) Completed)) by (by rewrite Hl, lookup_insert_eq).
  destruct (present_in_store s' k _ Hinv' Hk) as [|(prf & Hprf & _)]; [by left|right].
  assert (Hpend : forall od', pending_with_digest s' k od' = Err MissingPendingIntent).
  { intros od'. unfold pending_with_digest. by rewrite Hk. }
  intros od' i oid. unfold update_remaining, mark_completed, insert_remaining.
  rewrite Hprf, Hk. cbn. by rewrite Hpend.
Qed.

End StoreProofs.

(** ** Concrete instances *)

Section StoreWitnesses.
#[local] Existing Instance toy.
#[local] Existing Instance toy_laws.
#[local] Instance no_cbor : CborLib := fun _ => [].

Definition sample_oid : GreenOrderId := mkGreenOrderId (replicate 32 x01) 3 1 (replicate 32 x02).
Definition sample_store : AccountStore :=
  (insert_remaining store_empty [x01] sample_oid (sample_intention 1 1000)).1.
Definition sample_store2 : AccountStore :=
  (insert_remaining sample_store [x0d] sample_oid (sample_intention 2 1000)).1.

Definition sample_delta (s : AccountStore) (k : bytes) : MpfDelta :=
  match (insert_remaining s k sample_oid (sample_intention 2 1000)).2 with
  | Ok d => d
  | _ => mkMpfDelta [] [] []
  end.

Lemma sample_store_reachable : store_reachable sample_store.
Proof.
  apply (reach_insert store_empty [x01] sample_oid (sample_intention 1 1000) _
    (mkMpfDelta EMPTY_ROOT (root sample_store) [])); [constructor|]. vm_compute. reflexivity.
Qed.


Lemma sample_store_inv : store_inv sample_store.
Proof. apply (bool_decide_unpack _). vm_compute. exact I. Qed.

Lemma insert_remaining_authenticated_witness :
  collision \/ exists prf, miss (root sample_store) [x0d] prf = true.
Proof.
  destruct (insert_remaining_authenticated sample_store [x0d] sample_oid (sample_intention 2 1000)
    sample_store2 (sample_delta sample_store [x0d]) sample_store_inv)
    as [|(_ & _ & _ & _ & prf & _ & Hm & _)];
    [vm_compute; reflexivity|by left|right; by exists prf].
Defined.

Lemma pending_path_proof_verifies_witness :
  collision \/
  exists prf, path_proof sample_store [x01] = Ok (proof_to_cbor prf) /\
    has (root sample_store) [x01] (digest (sample_intention 1 1000)) prf = true.
Proof.
  apply (pending_path_proof_verifies sample_store [x01]
    (mkStoredLeaf sample_oid (sample_intention 1 1000) (digest (sample_intention 1 1000)) Pending)
    sample_store_inv).
  vm_compute. reflexivity.
Defined.

Lemma store_snapshot_roundtrip_witness :
  from_snapshot (root sample_store) (snapshot_leaves sample_store) = Ok sample_store.
Proof. apply (store_snapshot_roundtrip sample_store sample_store_inv). Defined.

Lemma completed_intent_is_final_witness :
  collision \/
  exists s', forall od i oid,
    update_remaining s' [x01] od i = (s', Err MissingPendingIntent) /\
    mark_completed s' [x01] od = (s', Err MissingPendingIntent) /\
    insert_remaining s' [x01] oid i = (s', Err ExistingPendingIntent).
Proof.
  set (m := mark_completed sample_store [x01] (digest (sample_intention 1 1000))).
  destruct (completed_intent_is_final sample_store [x01] (digest (sample_intention 1 1000)) m.1
    (mkMpfCompletion (root sample_store) []) sample_store_inv) as [|Hf];
    [vm_compute; reflexivity|by left|right; by exists m.1].
Defined.

End StoreWitnesses.
