(* ===== verification/AccountIndex.v ===== *)
(** * The index of Aleph accounts

    [green-order-cardano-agent/src/account_index.rs] and [account_events.rs]:
    which output currently carries which account, the store of each account,
    the snapshots planned for transactions in flight, what is needed to undo a
    transaction, and the file the stores are persisted to.

    The JSON codec of the file is [serde_json]: class [SerdeLib] (with the type
    of file contents), whose law is that decoding an encoded value gives it
    back.  A failed write is only
    logged by the code; the model keeps the file's content in [disk]. *)

From stdpp Require Import base gmap list sorting.
From Stdlib Require Import ZArith Lia Strings.Byte.
From S2P Require Import Prelude Mpf ToyHash MpfProofs LbTypes Assets PlutusData Intention GreenOrder.
From S2P Require Import AccountStore.

#[local] Notation delete := base.delete.
#[local] Notation insert := base.insert.

(** [OutputRef(TransactionHash, u64)]. *)
Notation OutputRef := (bytes * Z)%type.

(** What the code reads of a [cml_chain] address and transaction output: the
    payment and staking credentials (none in a Byron address) and the remaining
    bytes of the address, the value, the inline datum and the reference script. *)
Inductive Credential := PubKeyCred (h : bytes) | ScriptCred (h : bytes).

Record Address := mkAddress {
  payment_cred : option Credential;
  staking_cred : option Credential;
  address_rest : bytes;
}.

Record TransactionOutput := mkTxOut {
  out_address : Address;
  out_value : Value;
  out_datum : option PlutusData;
  out_script_ref : option bytes;
}.

Global Instance credential_eq_dec : EqDecision Credential.
Proof. solve_decision. Defined.
Global Instance address_eq_dec : EqDecision Address.
Proof. solve_decision. Defined.
Global Instance output_eq_dec : EqDecision TransactionOutput.
Proof. solve_decision. Defined.

Definition out_script_hash (o : TransactionOutput) : option bytes :=
  match payment_cred (out_address o) with Some (ScriptCred h) => Some h | _ => None end.

Record FinalizedTxOut := mkFinalized { fin_output : TransactionOutput; reference : OutputRef }.

Record AlephAccountUtxo := mkAccountUtxo {
  acc_output_ref : OutputRef;
  acc_output : TransactionOutput;
  acc_state : AlephAccountState;
}.

(** [test_address] and [AlephAccountUtxo::try_parse]; [script_hash] is the
    deployed account validator. *)
Definition test_address (script_hash : bytes) (o : TransactionOutput) : bool :=
  match out_script_hash o with Some h => bool_decide (h = script_hash) | None => false end.

Definition try_parse `{BigIntLib} (script_hash : bytes) (r : OutputRef) (o : TransactionOutput)
    : option AlephAccountUtxo :=
  if negb (test_address script_hash o) then None
  else
    datum ← out_datum o;
    state ← account_try_from_pd datum;
    Some (mkAccountUtxo r o state).

Definition finalized_output (a : AlephAccountUtxo) : FinalizedTxOut :=
  mkFinalized (acc_output a) (acc_output_ref a).

Record IndexedAccount := mkIndexed { utxo : FinalizedTxOut; store : AccountStore }.

(** ** The persisted form *)

Record PersistedAccountStore := mkPersisted {
  ps_account_id : AccountId;
  ps_output_ref : OutputRef;
  ps_root : bytes;
  ps_leaves : list StoredIntentLeafSnapshot;
}.

Record PersistedPendingStore := mkPersistedPending {
  pp_snapshot_id : Z;
  pp_account_id : AccountId;
  pp_old_ref : OutputRef;
  pp_root : bytes;
  pp_leaves : list StoredIntentLeafSnapshot;
}.

Record PersistedAccountStores := mkPersistedStores {
  pf_stores : list PersistedAccountStore;
  pf_pending : list PersistedPendingStore;
  pf_next_snapshot_id : Z;
}.

Class SerdeLib := {
  file : Type;
  to_json : PersistedAccountStores -> file;
  from_json : file -> option PersistedAccountStores;
}.
Class SerdeLaws `{SerdeLib} : Prop := from_to_json : forall p, from_json (to_json p) = Some p.

Record AccountStatus := mkStatus {
  st_current : bool;
  st_persisted : bool;
  st_pending : bool;
  st_unbound : bool;
  st_predicted : bool;
}.

Inductive AccountBindingError :=
| AlreadyBound
| OutputAlreadyBound
| OutputNotObserved
| NonEmptyUnplannedRoot.

Section Index.
Context `{Hh : Hashing} `{CL : CborLib} `{SL : SerdeLib}.

Record AccountIndex := mkIndex {
  by_account_id : gmap AccountId IndexedAccount;
  by_output_ref : gmap OutputRef AccountId;
  predicted_by_output_ref : gmap OutputRef (AccountId * TransactionOutput);
  unbound_by_output_ref : gmap OutputRef AlephAccountUtxo;
  persisted_by_output_ref : gmap OutputRef (AccountId * AccountStore);
  pending_by_account_id : gset AccountId;
  rollback_by_spent_ref : gmap OutputRef (AccountId * IndexedAccount);
  pending_store_by_snapshot_id : gmap Z (AccountId * OutputRef * AccountStore);
  pending_snapshot_by_output_ref : gmap OutputRef Z;
  next_snapshot_id : Z;
  persistent : bool;
  disk : option file;
}.

Definition index_default : AccountIndex := mkIndex ∅ ∅ ∅ ∅ ∅ ∅ ∅ ∅ ∅ 0 false None.

Definition set_by_account_id (x : gmap AccountId IndexedAccount) (i : AccountIndex) : AccountIndex :=
  mkIndex x (by_output_ref i) (predicted_by_output_ref i) (unbound_by_output_ref i) (persisted_by_output_ref i) (pending_by_account_id i) (rollback_by_spent_ref i) (pending_store_by_snapshot_id i) (pending_snapshot_by_output_ref i) (next_snapshot_id i) (persistent i) (disk i).
Definition set_by_output_ref (x : gmap OutputRef AccountId) (i : AccountIndex) : AccountIndex :=
  mkIndex (by_account_id i) x (predicted_by_output_ref i) (unbound_by_output_ref i) (persisted_by_output_ref i) (pending_by_account_id i) (rollback_by_spent_ref i) (pending_store_by_snapshot_id i) (pending_snapshot_by_output_ref i) (next_snapshot_id i) (persistent i) (disk i).
Definition set_predicted_by_output_ref (x : gmap OutputRef (AccountId * TransactionOutput)) (i : AccountIndex) : AccountIndex :=
  mkIndex (by_account_id i) (by_output_ref i) x (unbound_by_output_ref i) (persisted_by_output_ref i) (pending_by_account_id i) (rollback_by_spent_ref i) (pending_store_by_snapshot_id i) (pending_snapshot_by_output_ref i) (next_snapshot_id i) (persistent i) (disk i).
Definition set_unbound_by_output_ref (x : gmap OutputRef AlephAccountUtxo) (i : AccountIndex) : AccountIndex :=
  mkIndex (by_account_id i) (by_output_ref i) (predicted_by_output_ref i) x (persisted_by_output_ref i) (pending_by_account_id i) (rollback_by_spent_ref i) (pending_store_by_snapshot_id i) (pending_snapshot_by_output_ref i) (next_snapshot_id i) (persistent i) (disk i).
Definition set_persisted_by_output_ref (x : gmap OutputRef (AccountId * AccountStore)) (i : AccountIndex) : AccountIndex :=
  mkIndex (by_account_id i) (by_output_ref i) (predicted_by_output_ref i) (unbound_by_output_ref i) x (pending_by_account_id i) (rollback_by_spent_ref i) (pending_store_by_snapshot_id i) (pending_snapshot_by_output_ref i) (next_snapshot_id i) (persistent i) (disk i).
Definition set_pending_by_account_id (x : gset AccountId) (i : AccountIndex) : AccountIndex :=
  mkIndex (by_account_id i) (by_output_ref i) (predicted_by_output_ref i) (unbound_by_output_ref i) (persisted_by_output_ref i) x (rollback_by_spent_ref i) (pending_store_by_snapshot_id i) (pending_snapshot_by_output_ref i) (next_snapshot_id i) (persistent i) (disk i).
Definition set_rollback_by_spent_ref (x : gmap OutputRef (AccountId * IndexedAccount)) (i : AccountIndex) : AccountIndex :=
  mkIndex (by_account_id i) (by_output_ref i) (predicted_by_output_ref i) (unbound_by_output_ref i) (persisted_by_output_ref i) (pending_by_account_id i) x (pending_store_by_snapshot_id i) (pending_snapshot_by_output_ref i) (next_snapshot_id i) (persistent i) (disk i).
Definition set_pending_store_by_snapshot_id (x : gmap Z (AccountId * OutputRef * AccountStore)) (i : AccountIndex) : AccountIndex :=
  mkIndex (by_account_id i) (by_output_ref i) (predicted_by_output_ref i) (unbound_by_output_ref i) (persisted_by_output_ref i) (pending_by_account_id i) (rollback_by_spent_ref i) x (pending_snapshot_by_output_ref i) (next_snapshot_id i) (persistent i) (disk i).
Definition set_pending_snapshot_by_output_ref (x : gmap OutputRef Z) (i : AccountIndex) : AccountIndex :=
  mkIndex (by_account_id i) (by_output_ref i) (predicted_by_output_ref i) (unbound_by_output_ref i) (persisted_by_output_ref i) (pending_by_account_id i) (rollback_by_spent_ref i) (pending_store_by_snapshot_id i) x (next_snapshot_id i) (persistent i) (disk i).
Definition set_next_snapshot_id (x : Z) (i : AccountIndex) : AccountIndex :=
  mkIndex (by_account_id i) (by_output_ref i) (predicted_by_output_ref i) (unbound_by_output_ref i) (persisted_by_output_ref i) (pending_by_account_id i) (rollback_by_spent_ref i) (pending_store_by_snapshot_id i) (pending_snapshot_by_output_ref i) x (persistent i) (disk i).
Definition set_disk (x : option file) (i : AccountIndex) : AccountIndex :=
  mkIndex (by_account_id i) (by_output_ref i) (predicted_by_output_ref i) (unbound_by_output_ref i) (persisted_by_output_ref i) (pending_by_account_id i) (rollback_by_spent_ref i) (pending_store_by_snapshot_id i) (pending_snapshot_by_output_ref i) (next_snapshot_id i) (persistent i) x.

Definition from_parts (account_id : AccountId) (r : OutputRef) (s : AccountStore)
    : PersistedAccountStore := mkPersisted account_id r (root s) (snapshot_leaves s).
Definition from_indexed (account_id : AccountId) (x : IndexedAccount) : PersistedAccountStore :=
  from_parts account_id (reference (utxo x)) (store x).
Definition from_pending (sid : Z) (account_id : AccountId) (old_ref : OutputRef) (s : AccountStore)
    : PersistedPendingStore := mkPersistedPending sid account_id old_ref (root s) (snapshot_leaves s).

Definition into_store (p : PersistedAccountStore)
    : outcome GreenStorePlanningError (OutputRef * (AccountId * AccountStore)) :=
  s ← from_snapshot (ps_root p) (ps_leaves p);
  Ok (ps_output_ref p, (ps_account_id p, s)).
Definition into_pending (p : PersistedPendingStore)
    : outcome GreenStorePlanningError (Z * (AccountId * OutputRef * AccountStore)) :=
  s ← from_snapshot (pp_root p) (pp_leaves p);
  Ok (pp_snapshot_id p, (pp_account_id p, pp_old_ref p, s)).

(** What [persist_account_stores] writes. *)
Definition persisted_form (i : AccountIndex) : PersistedAccountStores :=
  mkPersistedStores
    (((fun kv => from_indexed kv.1 kv.2) <$> map_to_list (by_account_id i)) ++
     ((fun kv => from_parts kv.2.1 kv.1 kv.2.2) <$> map_to_list (persisted_by_output_ref i)))
    ((fun kv => from_pending kv.1 kv.2.1.1 kv.2.1.2 kv.2.2) <$>
       map_to_list (pending_store_by_snapshot_id i))
    (next_snapshot_id i).

Definition persist_account_stores (i : AccountIndex) : AccountIndex :=
  set_disk (if persistent i then Some (to_json (persisted_form i)) else disk i) i.

(** Collecting pairs into a [HashMap]: a later pair replaces an earlier one. *)
Definition collect_map {K V} `{Countable K} (l : list (K * V)) : gmap K V :=
  foldl (fun m kv => <[kv.1 := kv.2]> m) ∅ l.

(** [load_persisted_stores]: any failure is an error the caller only logs. *)
Definition load_persisted_stores (f : option file)
    : option (list (OutputRef * (AccountId * AccountStore)) *
              list (Z * (AccountId * OutputRef * AccountStore)) * Z) :=
  match f with
  | None => Some ([], [], 0%Z)
  | Some raw =>
    p ← from_json raw;
    match map_outcome into_store (pf_stores p), map_outcome into_pending (pf_pending p) with
    | Ok stores, Ok pending => Some (stores, pending, pf_next_snapshot_id p)
    | _, _ => None
    end
  end.

Definition with_persistence_path (f : option file) : AccountIndex :=
  let index := mkIndex ∅ ∅ ∅ ∅ ∅ ∅ ∅ ∅ ∅ 0 true f in
  match load_persisted_stores f with
  | Some (stores, pending, next) =>
    let pending := collect_map pending in
    let above := foldr (fun kv acc => Z.max (saturating_add kv.1 1) acc) 0%Z (map_to_list pending) in
    set_persisted_by_output_ref (collect_map stores)
      (set_pending_store_by_snapshot_id pending (set_next_snapshot_id (Z.max next above) index))
  | None => index
  end.

(** ** Queries *)

Definition current (i : AccountIndex) (a : AccountId) : option FinalizedTxOut :=
  utxo <$> by_account_id i !! a.

(** The iteration order of the snapshots is the map's. *)
Definition current_or_pending_base (i : AccountIndex) (a : AccountId) : option FinalizedTxOut :=
  match current i a with
  | Some o => Some o
  | None =>
    if bool_decide (a ∉ pending_by_account_id i) then None
    else
      head (omap (fun kv : Z * (AccountId * OutputRef * AccountStore) =>
        if bool_decide (kv.2.1.1 = a)
        then (fun ax => utxo ax.2) <$> rollback_by_spent_ref i !! kv.2.1.2
        else None) (map_to_list (pending_store_by_snapshot_id i)))
  end.

Definition current_store_root (i : AccountIndex) (a : AccountId) : option bytes :=
  (fun x => root (store x)) <$> by_account_id i !! a.

Definition account_status (i : AccountIndex) (a : AccountId) (r : OutputRef) : AccountStatus :=
  mkStatus
    (match by_account_id i !! a with Some x => bool_decide (reference (utxo x) = r) | None => false end)
    (match persisted_by_output_ref i !! r with Some (p, _) => bool_decide (p = a) | None => false end)
    (bool_decide (a ∈ pending_by_account_id i))
    (bool_decide (is_Some (unbound_by_output_ref i !! r)))
    (match predicted_by_output_ref i !! r with Some (p, _) => bool_decide (p = a) | None => false end).

Definition pending_snapshot (i : AccountIndex) (sid : Z) : option AccountStore :=
  snd <$> pending_store_by_snapshot_id i !! sid.

(** The order a pending leaf of an account stands for. *)
Definition continuation_order (a : AccountId) (leaf : StoredIntentLeaf) (proof : bytes) : GreenOrder :=
  let it := leaf_intent leaf in
  mkGreenOrder (canonical_order_id leaf) a
    (mkGreenIntention (leaving_asset it) (arriving_asset it) (leaving_amount it)
       (expected_arriving_amount it) (fee_lovelace it) (target_nonce_index it)
       (target_nonce_value it) (operator it))
    0 (leaving_amount it) (Path proof).

Definition account_continuations (a : AccountId) (x : IndexedAccount)
    : list (GreenOrder * FinalizedTxOut) :=
  omap (fun kv : bytes * StoredIntentLeaf =>
    match path_proof (store x) kv.1 with
    | Ok proof => Some (continuation_order a kv.2 proof, utxo x)
    | _ => None
    end) (pending_leaves (store x)).

Definition pending_continuations (i : AccountIndex) : list (GreenOrder * FinalizedTxOut) :=
  concat ((fun kv => account_continuations kv.1 kv.2) <$> map_to_list (by_account_id i)).

(** ** Binding *)

Definition remove_bound_output (r : OutputRef) (i : AccountIndex) : AccountIndex * option AccountId :=
  (set_by_output_ref (delete r (by_output_ref i)) i, by_output_ref i !! r).

Definition bind_indexed (a : AccountId) (x : IndexedAccount) (i : AccountIndex) : AccountIndex :=
  let r := reference (utxo x) in
  let refs :=
    match by_account_id i !! a with
    | Some previous => delete (reference (utxo previous)) (by_output_ref i)
    | None => by_output_ref i
    end in
  persist_account_stores
    (set_unbound_by_output_ref (delete r (unbound_by_output_ref i))
      (set_pending_by_account_id (pending_by_account_id i ∖ {[a]})
        (set_by_account_id (<[a := x]> (by_account_id i))
          (set_by_output_ref (<[r := a]> refs) i)))).

Definition indexed_of (acc : AlephAccountUtxo) (s : AccountStore) : IndexedAccount :=
  mkIndexed (finalized_output acc) s.

Definition bind_observed (a : AccountId) (acc : AlephAccountUtxo) (i : AccountIndex) : AccountIndex :=
  match from_observed_root (store_root (acc_state acc)) with
  | None => set_unbound_by_output_ref (<[acc_output_ref acc := acc]> (unbound_by_output_ref i)) i
  | Some s => bind_indexed a (indexed_of acc s) i
  end.

Definition bind_external_account_id (a : AccountId) (r : OutputRef) (i : AccountIndex)
    : AccountIndex * option FinalizedTxOut :=
  match unbound_by_output_ref i !! r with
  | None => (i, None)
  | Some acc =>
    let i' := bind_observed a acc
                (set_unbound_by_output_ref (delete r (unbound_by_output_ref i)) i) in
    (i', current i' a)
  end.

Definition bind_external_account_id_once (a : AccountId) (r : OutputRef) (i : AccountIndex)
    : AccountIndex * outcome AccountBindingError FinalizedTxOut :=
  if bool_decide (is_Some (by_account_id i !! a)) || bool_decide (a ∈ pending_by_account_id i) ||
     existsb (fun kv => bool_decide (kv.2.1 = a)) (map_to_list (persisted_by_output_ref i))
  then (i, Err AlreadyBound)
  else if bool_decide (is_Some (by_output_ref i !! r)) ||
          bool_decide (is_Some (persisted_by_output_ref i !! r))
  then (i, Err OutputAlreadyBound)
  else
    match unbound_by_output_ref i !! r with
    | None => (i, Err OutputNotObserved)
    | Some acc =>
      match from_observed_root (store_root (acc_state acc)) with
      | None => (i, Err NonEmptyUnplannedRoot)
      | Some s =>
        let i' := bind_indexed a (indexed_of acc s)
                    (set_unbound_by_output_ref (delete r (unbound_by_output_ref i)) i) in
        (i', ok_or (current i' a) OutputNotObserved)
      end
    end.

(** ** Planning *)

Definition store_for_planning (i : AccountIndex) (a : AccountId) (old_ref : OutputRef)
    : option AccountStore :=
  match by_account_id i !! a with
  | Some x => if bool_decide (reference (utxo x) <> old_ref) then None else Some (store x)
  | None =>
    if bool_decide (a ∉ pending_by_account_id i) || bool_decide (rollback_by_spent_ref i !! old_ref = None)
    then None
    else if negb (existsb (fun kv => bool_decide (kv.2.1 = (a, old_ref)))
                   (map_to_list (pending_store_by_snapshot_id i)))
    then None
    else (fun ax => store ax.2) <$> rollback_by_spent_ref i !! old_ref
  end.

(** Dropping the snapshots whose entry satisfies [P], with their predicted
    outputs. *)
Definition drop_snapshots (removed : gset Z) (i : AccountIndex) : AccountIndex :=
  set_pending_snapshot_by_output_ref
    (filter (fun kv => kv.2 ∉ removed) (pending_snapshot_by_output_ref i))
    (set_pending_store_by_snapshot_id
       (filter (fun kv => kv.1 ∉ removed) (pending_store_by_snapshot_id i)) i).

Definition remove_pending_snapshots_for (a : AccountId) (old_ref : OutputRef) (i : AccountIndex)
    : AccountIndex :=
  drop_snapshots
    (dom (filter (fun kv => kv.2.1 = (a, old_ref)) (pending_store_by_snapshot_id i))) i.

Definition reserve_predicted_store_snapshot (a : AccountId) (old_ref : OutputRef) (s : AccountStore)
    (i : AccountIndex) : AccountIndex * Z :=
  let sid := next_snapshot_id i in
  let i := set_next_snapshot_id (sid + 1) i in
  let i := (remove_bound_output old_ref i).1 in
  let i :=
    match by_account_id i !! a with
    | Some x => set_rollback_by_spent_ref (<[old_ref := (a, x)]> (rollback_by_spent_ref i))
                  (set_by_account_id (delete a (by_account_id i)) i)
    | None => i
    end in
  let i := set_pending_by_account_id ({[a]} ∪ pending_by_account_id i) i in
  let i := set_pending_store_by_snapshot_id
             (<[sid := (a, old_ref, s)]> (pending_store_by_snapshot_id i)) i in
  (persist_account_stores i, sid).

(** The tail shared by the three planners. *)
Definition commit_plan {D P} (planned : D -> Z -> P) (a : AccountId) (old_ref : OutputRef)
    (predicted : AccountStore * outcome GreenStorePlanningError D) (i : AccountIndex)
    : AccountIndex * outcome GreenStorePlanningError P :=
  match predicted.2 with
  | Ok d =>
    let '(i', sid) := reserve_predicted_store_snapshot a old_ref predicted.1
                        (remove_pending_snapshots_for a old_ref i) in
    (i', Ok (planned d sid))
  | Err e => (i, Err e)
  | Panic => (i, Panic)
  end.

Definition plan_sig_insert (a : AccountId) (old_ref : OutputRef) (oid : GreenOrderId) (key : bytes)
    (updated_intent : AlephIntention) (i : AccountIndex)
    : AccountIndex * outcome GreenStorePlanningError PlannedStoreDelta :=
  match store_for_planning i a old_ref with
  | None => (i, Err MissingAccount)
  | Some base => commit_plan planned_delta a old_ref (insert_remaining base key oid updated_intent) i
  end.

Definition plan_path_update (a : AccountId) (old_ref : OutputRef) (key old_digest : bytes)
    (updated_intent : AlephIntention) (i : AccountIndex)
    : AccountIndex * outcome GreenStorePlanningError PlannedStoreDelta :=
  match store_for_planning i a old_ref with
  | None => (i, Err MissingAccount)
  | Some base => commit_plan planned_delta a old_ref (update_remaining base key old_digest updated_intent) i
  end.

Definition plan_path_completion (a : AccountId) (old_ref : OutputRef) (key old_digest : bytes)
    (i : AccountIndex) : AccountIndex * outcome GreenStorePlanningError PlannedStoreCompletion :=
  match store_for_planning i a old_ref with
  | None => (i, Err MissingAccount)
  | Some base => commit_plan planned_completion a old_ref (mark_completed base key old_digest) i
  end.

Definition attach_predicted_output_ref (sid : Z) (r : OutputRef) (i : AccountIndex)
    : AccountIndex * outcome GreenStorePlanningError unit :=
  if bool_decide (pending_store_by_snapshot_id i !! sid = None) then (i, Err MissingStore)
  else
    (persist_account_stores
       (set_pending_snapshot_by_output_ref (<[r := sid]> (pending_snapshot_by_output_ref i)) i), Ok tt).

Definition mark_pending_update (a : AccountId) (old_ref new_ref : OutputRef)
    (new_output : TransactionOutput) (i : AccountIndex) : AccountIndex :=
  let i := (remove_bound_output old_ref i).1 in
  let i := set_by_account_id (delete a (by_account_id i)) i in
  let i := set_pending_by_account_id ({[a]} ∪ pending_by_account_id i) i in
  set_predicted_by_output_ref (<[new_ref := (a, new_output)]> (predicted_by_output_ref i)) i.

(** ** Observations *)

Definition observe_consumed (r : OutputRef) (i : AccountIndex) : AccountIndex :=
  let '(i, bound) := remove_bound_output r i in
  let i :=
    match bound with
    | None => i
    | Some a =>
      let i :=
        match by_account_id i !! a with
        | Some x => set_rollback_by_spent_ref (<[r := (a, x)]> (rollback_by_spent_ref i))
                      (set_by_account_id (delete a (by_account_id i)) i)
        | None => i
        end in
      set_pending_by_account_id ({[a]} ∪ pending_by_account_id i) i
    end in
  persist_account_stores
    (set_unbound_by_output_ref (delete r (unbound_by_output_ref i))
      (set_predicted_by_output_ref (delete r (predicted_by_output_ref i)) i)).

Definition observe_rollback_consumed (r : OutputRef) (i : AccountIndex) : AccountIndex :=
  let i :=
    match rollback_by_spent_ref i !! r with
    | Some (a, x) => bind_indexed a x (set_rollback_by_spent_ref (delete r (rollback_by_spent_ref i)) i)
    | None => i
    end in
  let stores := filter (fun kv => kv.2.1.2 <> r) (pending_store_by_snapshot_id i) in
  persist_account_stores
    (set_pending_snapshot_by_output_ref
       (filter (fun kv => is_Some (stores !! kv.2)) (pending_snapshot_by_output_ref i))
       (set_pending_store_by_snapshot_id stores i)).

Definition observe_removed_output (r : OutputRef) (i : AccountIndex) : AccountIndex :=
  let bound := by_output_ref i !! r in
  let i := set_by_output_ref (delete r (by_output_ref i)) i in
  let i :=
    match bound with
    | None => i
    | Some a => set_pending_by_account_id ({[a]} ∪ pending_by_account_id i)
                  (set_by_account_id (delete a (by_account_id i)) i)
    end in
  persist_account_stores
    (set_unbound_by_output_ref (delete r (unbound_by_output_ref i))
      (set_predicted_by_output_ref (delete r (predicted_by_output_ref i)) i)).

Definition bind_confirmed_predicted_store (predicted_ref : OutputRef) (acc : AlephAccountUtxo)
    (i : AccountIndex) : AccountIndex * outcome GreenStorePlanningError unit :=
  match pending_snapshot_by_output_ref i !! predicted_ref with
  | None => (i, Err MissingStore)
  | Some sid =>
    match pending_store_by_snapshot_id i !! sid with
    | None => (i, Err MissingStore)
    | Some (a, _, s) =>
      if bool_decide (store_root (acc_state acc) <> root s)
      then (i, Err (RootMismatch (root s) (store_root (acc_state acc))))
      else
        (persist_account_stores
           (bind_indexed a (indexed_of acc s)
             (set_pending_snapshot_by_output_ref
                (delete predicted_ref (pending_snapshot_by_output_ref i))
                (set_pending_store_by_snapshot_id
                   (delete sid (pending_store_by_snapshot_id i)) i))), Ok tt)
    end
  end.

(** The planned snapshots that fit a produced account: planned for a consumed
    output and with its root. *)
Definition matching_snapshots (consumed : gset OutputRef) (acc : AlephAccountUtxo) (i : AccountIndex)
    : gmap Z (AccountId * OutputRef * AccountStore) :=
  filter (fun kv => kv.2.1.2 ∈ consumed /\ root kv.2.2 = store_root (acc_state acc))
    (pending_store_by_snapshot_id i).

Definition bind_confirmed_store_for_consumed_refs (consumed : gset OutputRef) (acc : AlephAccountUtxo)
    (i : AccountIndex) : AccountIndex * outcome GreenStorePlanningError unit :=
  let matching := matching_snapshots consumed acc i in
  match map_to_list matching with
  | [] => (i, Err MissingStore)
  | (_, (a, _, s)) :: _ =>
    if existsb (fun kv : Z * (AccountId * OutputRef * AccountStore) =>
         bool_decide (kv.2.1.1 <> a) || bool_decide (kv.2.2 <> s)) (map_to_list matching)
    then (i, Err MissingStore)
    else
      (persist_account_stores
         (bind_indexed a (indexed_of acc s) (drop_snapshots (dom matching) i)), Ok tt)
  end.

(** [consumed_account_ids] has exactly one element. *)
Definition bind_empty_successor_for_consumed_account (consumed : gset AccountId)
    (acc : AlephAccountUtxo) (i : AccountIndex) : AccountIndex * bool :=
  match elements consumed with
  | [a] =>
    match from_observed_root (store_root (acc_state acc)) with
    | None => (i, false)
    | Some s =>
      if bool_decide (a ∉ pending_by_account_id i) then (i, false)
      else (bind_indexed a (indexed_of acc s) i, true)
    end
  | _ => (i, false)
  end.

Definition observe_created_or_updated (acc : AlephAccountUtxo) (i : AccountIndex) : AccountIndex :=
  let r := acc_output_ref acc in
  match predicted_by_output_ref i !! r with
  | Some (a, _) =>
    let i := set_predicted_by_output_ref (delete r (predicted_by_output_ref i)) i in
    match bind_confirmed_predicted_store r acc i with
    | (i', Ok _) => i'
    | (i', _) => bind_observed a acc i'
    end
  | None =>
    if bool_decide (is_Some (pending_snapshot_by_output_ref i !! r))
    then (bind_confirmed_predicted_store r acc i).1
    else
      match persisted_by_output_ref i !! r with
      | Some (a, s) =>
        if bool_decide (root s = store_root (acc_state acc)) then
          bind_indexed a (indexed_of acc s)
            (set_persisted_by_output_ref (delete r (persisted_by_output_ref i)) i)
        else set_unbound_by_output_ref (<[r := acc]> (unbound_by_output_ref i)) i
      | None => set_unbound_by_output_ref (<[r := acc]> (unbound_by_output_ref i)) i
      end
  end.

Definition observe_produced (consumed : gset OutputRef) (consumed_ids : gset AccountId)
    (acc : AlephAccountUtxo) (i : AccountIndex) : AccountIndex :=
  match bind_confirmed_store_for_consumed_refs consumed acc i with
  | (i', Ok _) => i'
  | (i', _) =>
    match bind_empty_successor_for_consumed_account consumed_ids acc i' with
    | (i'', true) => i''
    | (i'', false) => observe_created_or_updated acc i''
    end
  end.

Definition observe_transaction (consumed : list OutputRef) (produced : list AlephAccountUtxo)
    (i : AccountIndex) : AccountIndex :=
  let consumed_refs : gset OutputRef := list_to_set consumed in
  let consumed_ids : gset AccountId :=
    list_to_set (omap (fun r => by_output_ref i !! r) (elements consumed_refs)) in
  let i := foldl (fun i r => observe_consumed r i) i (elements consumed_refs) in
  foldl (fun i acc => observe_produced consumed_refs consumed_ids acc i) i produced.

(** ** Chain events ([account_events.rs]) *)

Inductive AccountEvent := Consumed (r : OutputRef) | Produced (acc : AlephAccountUtxo).

Record TxView := mkTx { tx_hash : bytes; tx_inputs : list OutputRef; tx_outputs : list (Z * TransactionOutput) }.

Definition scan_account_events `{BigIntLib} (script_hash : bytes) (tx : TxView) : list AccountEvent :=
  (Consumed <$> tx_inputs tx) ++
  omap (fun io => Produced <$> try_parse script_hash (tx_hash tx, io.1) io.2) (tx_outputs tx).

Definition consumed_of (evs : list AccountEvent) : list OutputRef :=
  omap (fun e => match e with Consumed r => Some r | Produced _ => None end) evs.
Definition produced_of (evs : list AccountEvent) : list AlephAccountUtxo :=
  omap (fun e => match e with Consumed _ => None | Produced a => Some a end) evs.

Definition apply_account_events (evs : list AccountEvent) (i : AccountIndex) : AccountIndex :=
  observe_transaction (consumed_of evs) (produced_of evs) i.

Definition revert_account_events (evs : list AccountEvent) (i : AccountIndex) : AccountIndex :=
  foldl (fun i e =>
    match e with
    | Produced acc => observe_removed_output (acc_output_ref acc) i
    | Consumed r => observe_rollback_consumed r i
    end) i evs.

End Index.
