(* ===== verification/AccountIndexProofs.v ===== *)
(** * Correctness of the account index

    The invariant of [AccountIndex] (the two directions of the current binding
    agree, every indexed account carries the store its datum commits to, what
    is kept for undoing is keyed by the output it restores, snapshot ids are
    fresh), its preservation by every operation, the confirmation of a planned
    store, the undoing of a transaction and the recovery after a restart. *)

From stdpp Require Import base gmap list sorting.
From Stdlib Require Import ZArith Lia Strings.Byte.
From S2P Require Import Prelude Mpf ToyHash MpfProofs LbTypes Assets PlutusData Intention GreenOrder.
From S2P Require Import AccountStore AccountIndex.

#[local] Notation delete := base.delete.

Section IndexProofs.
Context `{HL : HashingLaws} `{CL : CborLib} `{SLaws : SerdeLaws} `{BI : BigIntLib}.

(** The datum of an output, parsed. *)
Definition datum_state (o : TransactionOutput) : option AlephAccountState :=
  out_datum o ≫= account_try_from_pd.

Definition account_ok (acc : AlephAccountUtxo) : Prop :=
  datum_state (acc_output acc) = Some (acc_state acc).

(** The store is the one the account's datum commits to. *)
Definition indexed_ok (x : IndexedAccount) : Prop :=
  store_inv (store x) /\
  exists st, datum_state (fin_output (utxo x)) = Some st /\ store_root st = root (store x).

Record index_inv (i : AccountIndex) : Prop := {
  inv_refs : forall r a, by_output_ref i !! r = Some a <->
    exists x, by_account_id i !! a = Some x /\ reference (utxo x) = r;
  inv_current : forall a x, by_account_id i !! a = Some x -> indexed_ok x;
  inv_rollback : forall r a x, rollback_by_spent_ref i !! r = Some (a, x) ->
    reference (utxo x) = r /\ indexed_ok x;
  inv_snapshots : forall sid e, pending_store_by_snapshot_id i !! sid = Some e ->
    (sid < next_snapshot_id i)%Z /\ store_inv e.2;
  inv_persisted : forall r a s, persisted_by_output_ref i !! r = Some (a, s) -> store_inv s;
  inv_unbound : forall r acc, unbound_by_output_ref i !! r = Some acc ->
    acc_output_ref acc = r /\ by_output_ref i !! r = None /\ account_ok acc;
  inv_exclusive : forall a x, by_account_id i !! a = Some x -> a ∉ pending_by_account_id i;
}.

Lemma index_default_inv : index_inv index_default.
Proof.
  split; simpl; try (intros; by rewrite lookup_empty in *).
  intros r a. rewrite lookup_empty. split; [done|]. intros (x & Hx & _). by rewrite lookup_empty in Hx.
Qed.

(** Two outputs cannot carry one account, nor one output two accounts. *)
Lemma ref_unique i a r r' : index_inv i ->
  by_output_ref i !! r = Some a -> by_output_ref i !! r' = Some a -> r = r'.
Proof.
  intros Hi (x & Hx & <-)%(inv_refs _ Hi) (x' & Hx' & <-)%(inv_refs _ Hi). congruence.
Qed.

Lemma account_ref i a x : index_inv i ->
  by_account_id i !! a = Some x -> by_output_ref i !! reference (utxo x) = Some a.
Proof. intros Hi Hx. apply (inv_refs _ Hi). eauto. Qed.

(** The references left after the previous binding of an account is dropped. *)
Definition refs_without (i : AccountIndex) (a : AccountId) : gmap OutputRef AccountId :=
  match by_account_id i !! a with
  | Some previous => delete (reference (utxo previous)) (by_output_ref i)
  | None => by_output_ref i
  end.

Lemma refs_without_lookup i a r b : index_inv i ->
  refs_without i a !! r = Some b <-> by_output_ref i !! r = Some b /\ b <> a.
Proof.
  intros Hi. unfold refs_without. destruct (by_account_id i !! a) as [x|] eqn:Ha.
  - pose proof (account_ref _ _ _ Hi Ha) as Hx. rewrite lookup_delete_Some. split.
    + intros [Hne Hb]. split; [done|]. intros ->. by apply Hne, (ref_unique i a).
    + intros [Hb Hne]. split; [|done]. intros <-. congruence.
  - split; [|by intros [? _]]. intros Hb. split; [done|]. intros ->.
    apply (inv_refs _ Hi) in Hb as (x & Hx & _). congruence.
Qed.

Lemma bind_indexed_inv a x i :
  index_inv i -> indexed_ok x ->
  (forall b, by_output_ref i !! reference (utxo x) = Some b -> b = a) ->
  index_inv (bind_indexed a x i).
Proof.
  intros Hi Hx Hfresh. split; simpl.
  - fold (refs_without i a). intros r b. rewrite lookup_insert_Some. split.
    + intros [[<- <-]|[Hne (Hb & Hba)%refs_without_lookup]]; [|..|done].
      * exists x. by rewrite lookup_insert_eq.
      * apply (inv_refs _ Hi) in Hb as (y & Hy & <-). exists y. by rewrite lookup_insert_ne.
    + intros (y & Hy & <-). apply lookup_insert_Some in Hy as [[<- <-]|[Hne Hy]]; [by left|].
      right. pose proof (account_ref _ _ _ Hi Hy) as Hr. split.
      * intros E. rewrite E in Hfresh. apply Hne. symmetry. by apply Hfresh.
      * apply refs_without_lookup; [done|]. split; [done|congruence].
  - intros b y Hy. apply lookup_insert_Some in Hy as [[<- <-]|[_ Hy]]; [done|].
    by eapply inv_current.
  - apply Hi.
  - apply Hi.
  - apply Hi.
  - intros r acc [Hne Hacc]%lookup_delete_Some. destruct (inv_unbound _ Hi _ _ Hacc) as (? & Hr & ?).
    split_and!; [done| |done]. fold (refs_without i a). rewrite lookup_insert_ne by done.
    destruct (refs_without i a !! r) as [b|] eqn:Hb; [|done].
    apply refs_without_lookup in Hb as [Hb _]; [|done]. congruence.
  - intros b y Hy. apply lookup_insert_Some in Hy as [[<- <-]|[Hne Hy]]; [set_solver|].
    apply (inv_exclusive _ Hi) in Hy. set_solver.
Qed.

Lemma indexed_of_ok acc s :
  account_ok acc -> store_inv s -> root s = store_root (acc_state acc) -> indexed_ok (indexed_of acc s).
Proof. intros Ha Hs Hr. split; [done|]. exists (acc_state acc). split; [apply Ha|done]. Qed.

(** A produced account whose reference is not bound yet. *)
Definition fresh (i : AccountIndex) (acc : AlephAccountUtxo) : Prop :=
  account_ok acc /\ by_output_ref i !! acc_output_ref acc = None.

Lemma fresh_bound i acc a s : fresh i acc ->
  forall b, by_output_ref i !! reference (utxo (indexed_of acc s)) = Some b -> b = a.
Proof. intros [_ Hf] b Hb. simpl in Hb. congruence. Qed.

Lemma persist_inv i : index_inv (persist_account_stores i) <-> index_inv i.
Proof. split; intros Hi; split; apply Hi. Qed.

Lemma set_predicted_inv m i : index_inv (set_predicted_by_output_ref m i) <-> index_inv i.
Proof. split; intros Hi; split; apply Hi. Qed.

Lemma set_snapshot_refs_inv m i : index_inv (set_pending_snapshot_by_output_ref m i) <-> index_inv i.
Proof. split; intros Hi; split; apply Hi. Qed.

Lemma set_snapshots_inv m i :
  m ⊆ pending_store_by_snapshot_id i -> index_inv i -> index_inv (set_pending_store_by_snapshot_id m i).
Proof.
  intros Hsub Hi. split; try apply Hi. simpl. intros sid e He.
  apply (inv_snapshots _ Hi). by eapply lookup_weaken.
Qed.

Lemma unbound_delete_inv r i :
  index_inv i -> index_inv (set_unbound_by_output_ref (delete r (unbound_by_output_ref i)) i).
Proof. intros Hi. split; try apply Hi. simpl. intros r' acc [_ Hr]%lookup_delete_Some. by apply Hi. Qed.

Lemma unbound_insert_inv acc i : index_inv i -> fresh i acc ->
  index_inv (set_unbound_by_output_ref (<[acc_output_ref acc := acc]> (unbound_by_output_ref i)) i).
Proof.
  intros Hi [Hok Hf]. split; try apply Hi. simpl. intros r acc' [[<- <-]|[_ Hr]]%lookup_insert_Some; [done|].
  by apply Hi.
Qed.

Lemma bind_observed_inv a acc i : index_inv i -> fresh i acc -> index_inv (bind_observed a acc i).
Proof.
  intros Hi Hf. unfold bind_observed. destruct (from_observed_root _) as [s|] eqn:Hs.
  - apply from_observed_root_inv in Hs as [Hs Hr].
    apply bind_indexed_inv; [done| |by apply fresh_bound]. apply indexed_of_ok; [apply Hf|done|done].
  - by apply unbound_insert_inv.
Qed.

Lemma drop_snapshots_inv rm i : index_inv i -> index_inv (drop_snapshots rm i).
Proof.
  intros Hi. unfold drop_snapshots. apply set_snapshot_refs_inv, set_snapshots_inv; [|done].
  apply map_filter_subseteq.
Qed.

(** Releasing an account: its binding goes, it becomes pending. *)
Lemma release_inv r a x i rb :
  index_inv i -> by_output_ref i !! r = Some a -> by_account_id i !! a = Some x ->
  (forall r' b y, rb !! r' = Some (b, y) -> reference (utxo y) = r' /\ indexed_ok y) ->
  index_inv (set_pending_by_account_id ({[a]} ∪ pending_by_account_id i)
    (set_rollback_by_spent_ref rb (set_by_account_id (delete a (by_account_id i))
      (set_by_output_ref (delete r (by_output_ref i)) i)))).
Proof.
  intros Hi Hr Ha Hrb. split; simpl; try apply Hi.
  - intros r' b. rewrite lookup_delete_Some. split.
    + intros [Hne (y & Hy & Hry)%(inv_refs _ Hi)]. exists y. split; [|done].
      rewrite lookup_delete_ne; [done|]. intros ->. apply Hne.
      apply (ref_unique i b); [done|done|]. rewrite <- Hry. by apply account_ref.
    + intros (y & [Hne Hy]%lookup_delete_Some & <-). pose proof (account_ref _ _ _ Hi Hy).
      split; [congruence|done].
  - intros b y [_ Hy]%lookup_delete_Some. by eapply inv_current.
  - done.
  - intros r' acc Hacc. destruct (inv_unbound _ Hi _ _ Hacc) as (? & Hb & ?).
    split_and!; [done| |done]. destruct (decide (r = r')) as [->|]; [by rewrite lookup_delete_eq|].
    by rewrite lookup_delete_ne.
  - intros b y [Hne Hy]%lookup_delete_Some. apply (inv_exclusive _ Hi) in Hy. set_solver.
Qed.

Lemma set_rollback_id i : set_rollback_by_spent_ref (rollback_by_spent_ref i) i = i.
Proof. by destruct i. Qed.

Lemma rollback_insert_ok i r a x : index_inv i ->
  by_account_id i !! a = Some x -> reference (utxo x) = r ->
  forall r' b y, <[r := (a, x)]> (rollback_by_spent_ref i) !! r' = Some (b, y) ->
    reference (utxo y) = r' /\ indexed_ok y.
Proof.
  intros Hi Ha Hr r' b y [[<- [= <- <-]]|[_ Hy]]%lookup_insert_Some.
  - split; [done|]. by eapply inv_current.
  - by eapply inv_rollback.
Qed.

Lemma unbound_set_refs_delete r i : index_inv i -> by_output_ref i !! r = None ->
  set_by_output_ref (delete r (by_output_ref i)) i = i.
Proof. intros _ Hr. rewrite delete_id by done. by destruct i. Qed.

Lemma forget_output_inv r i : index_inv i ->
  index_inv (persist_account_stores (set_unbound_by_output_ref (delete r (unbound_by_output_ref i))
    (set_predicted_by_output_ref (delete r (predicted_by_output_ref i)) i))).
Proof.
  intros Hi. apply persist_inv.
  exact (unbound_delete_inv r _ (proj2 (set_predicted_inv (delete r (predicted_by_output_ref i)) i) Hi)).
Qed.

Lemma observe_consumed_inv r i : index_inv i -> index_inv (observe_consumed r i).
Proof.
  intros Hi. unfold observe_consumed. cbn [remove_bound_output].
  apply forget_output_inv.
  destruct (by_output_ref i !! r) as [a|] eqn:Hr.
  - destruct (proj1 (inv_refs _ Hi r a) Hr) as (x & Hx & Hxr). simpl. rewrite Hx.
    exact (release_inv r a x i _ Hi Hr Hx (rollback_insert_ok i r a x Hi Hx Hxr)).
  - by rewrite unbound_set_refs_delete.
Qed.

Lemma observe_removed_output_inv r i : index_inv i -> index_inv (observe_removed_output r i).
Proof.
  intros Hi. unfold observe_removed_output.
  apply forget_output_inv.
  destruct (by_output_ref i !! r) as [a|] eqn:Hr.
  - destruct (proj1 (inv_refs _ Hi r a) Hr) as (x & Hx & Hxr).
    pose proof (release_inv r a x i (rollback_by_spent_ref i) Hi Hr Hx (inv_rollback _ Hi)) as Hrel.
    by destruct i.
  - by rewrite unbound_set_refs_delete.
Qed.

Lemma observe_rollback_consumed_inv r i :
  index_inv i -> by_output_ref i !! r = None -> index_inv (observe_rollback_consumed r i).
Proof.
  intros Hi Hr. unfold observe_rollback_consumed. apply persist_inv, set_snapshot_refs_inv.
  apply set_snapshots_inv; [apply map_filter_subseteq|].
  destruct (rollback_by_spent_ref i !! r) as [[a x]|] eqn:Hx; [|done].
  destruct (inv_rollback _ Hi _ _ _ Hx) as [Href Hok]. apply bind_indexed_inv; [|done|].
  - split; try apply Hi. simpl. intros r' b y [_ Hy]%lookup_delete_Some. by eapply inv_rollback.
  - simpl. rewrite Href. intros b Hb. congruence.
Qed.

Lemma bind_confirmed_predicted_store_inv r acc i :
  index_inv i -> fresh i acc -> index_inv (bind_confirmed_predicted_store r acc i).1.
Proof.
  intros Hi Hf. unfold bind_confirmed_predicted_store.
  destruct (pending_snapshot_by_output_ref i !! r) as [sid|]; [|done].
  destruct (pending_store_by_snapshot_id i !! sid) as [[[a old] s]|] eqn:Hs; [|done].
  case_bool_decide as Hne; [done|]. simpl. apply persist_inv.
  destruct (inv_snapshots _ Hi _ _ Hs) as [_ Hinv].
  apply bind_indexed_inv; [| |by apply fresh_bound].
  - apply set_snapshot_refs_inv, set_snapshots_inv; [apply delete_subseteq|done].
  - apply indexed_of_ok; [apply Hf|done|congruence].
Qed.

Lemma bind_confirmed_store_inv consumed acc i :
  index_inv i -> fresh i acc -> index_inv (bind_confirmed_store_for_consumed_refs consumed acc i).1.
Proof.
  intros Hi Hf. unfold bind_confirmed_store_for_consumed_refs.
  destruct (map_to_list (matching_snapshots consumed acc i)) as [|[sid [[a old] s]] l] eqn:Hl; [done|].
  assert (Hin : (sid, (a, old, s)) ∈ map_to_list (matching_snapshots consumed acc i))
    by (rewrite Hl; left).
  apply elem_of_map_to_list, map_lookup_filter_Some in Hin as [Hs [_ Hroot]]. simpl in Hroot.
  destruct (existsb _ _); [done|]. simpl. apply persist_inv.
  apply bind_indexed_inv; [by apply drop_snapshots_inv| |by apply fresh_bound].
  apply indexed_of_ok; [apply Hf| |done]. by apply (inv_snapshots _ Hi _ _ Hs).
Qed.

Lemma bind_empty_successor_inv ids acc i :
  index_inv i -> fresh i acc -> index_inv (bind_empty_successor_for_consumed_account ids acc i).1.
Proof.
  intros Hi Hf. unfold bind_empty_successor_for_consumed_account.
  destruct (elements ids) as [|a [|]]; try done. destruct (from_observed_root _) as [s|] eqn:Hs; [|done].
  case_bool_decide; [done|]. simpl. apply from_observed_root_inv in Hs as [Hs Hr].
  apply bind_indexed_inv; [done| |by apply fresh_bound]. apply indexed_of_ok; [apply Hf|done|done].
Qed.

Lemma bind_confirmed_predicted_fail r acc i e :
  (bind_confirmed_predicted_store r acc i).2 = Err e -> (bind_confirmed_predicted_store r acc i).1 = i.
Proof.
  unfold bind_confirmed_predicted_store.
  destruct (pending_snapshot_by_output_ref i !! r) as [sid|]; [|done].
  destruct (pending_store_by_snapshot_id i !! sid) as [[[a old] s]|]; [|done].
  by case_bool_decide.
Qed.

Lemma bind_confirmed_predicted_no_panic r acc i :
  (bind_confirmed_predicted_store r acc i).2 <> Panic.
Proof.
  unfold bind_confirmed_predicted_store.
  destruct (pending_snapshot_by_output_ref i !! r) as [sid|]; [|done].
  destruct (pending_store_by_snapshot_id i !! sid) as [[[a old] s]|]; [|done].
  by case_bool_decide.
Qed.

Lemma observe_created_inv acc i :
  index_inv i -> fresh i acc -> index_inv (observe_created_or_updated acc i).
Proof.
  intros Hi Hf. unfold observe_created_or_updated.
  destruct (predicted_by_output_ref i !! acc_output_ref acc) as [[a o]|] eqn:Hp.
  - set (j := set_predicted_by_output_ref _ i).
    assert (Hj : index_inv j) by (by apply set_predicted_inv).
    pose proof (bind_confirmed_predicted_store_inv (acc_output_ref acc) acc j Hj Hf) as Hb.
    pose proof (bind_confirmed_predicted_fail (acc_output_ref acc) acc j) as Hfail.
    pose proof (bind_confirmed_predicted_no_panic (acc_output_ref acc) acc j) as Hnp.
    destruct (bind_confirmed_predicted_store _ acc j) as [j' [u|e|]]; simpl in *; [done| |done].
    rewrite (Hfail e eq_refl). by apply bind_observed_inv.
  - case_bool_decide; [by apply bind_confirmed_predicted_store_inv|].
    destruct (persisted_by_output_ref i !! acc_output_ref acc) as [[a s]|] eqn:Hs;
      [case_bool_decide as Hr|]; [|by apply unbound_insert_inv..].
    apply bind_indexed_inv; [|apply indexed_of_ok; [apply Hf|by eapply inv_persisted|done]|
      by apply (fresh_bound i)].
    split; try apply Hi. simpl. intros r b s' [_ Hb]%lookup_delete_Some. by eapply inv_persisted.
Qed.

(** ** Transactions *)

(** No operation on a produced account binds any other output. *)
Lemma bind_indexed_refs a x i r :
  r <> reference (utxo x) -> by_output_ref i !! r = None ->
  by_output_ref (bind_indexed a x i) !! r = None.
Proof.
  intros Hne Hr. simpl. rewrite lookup_insert_ne by done.
  destruct (by_account_id i !! a); [|done]. apply lookup_delete_None. by right.
Qed.

Lemma bind_observed_refs a acc i r :
  r <> acc_output_ref acc -> by_output_ref i !! r = None ->
  by_output_ref (bind_observed a acc i) !! r = None.
Proof.
  intros Hne Hr. unfold bind_observed. destruct (from_observed_root _); [|done].
  by apply bind_indexed_refs.
Qed.

Lemma bind_predicted_refs r0 acc i r :
  r <> acc_output_ref acc -> by_output_ref i !! r = None ->
  by_output_ref (bind_confirmed_predicted_store r0 acc i).1 !! r = None.
Proof.
  intros Hne Hr. unfold bind_confirmed_predicted_store.
  destruct (pending_snapshot_by_output_ref i !! r0) as [sid|]; [|done].
  destruct (pending_store_by_snapshot_id i !! sid) as [[[a old] s]|]; [|done].
  case_bool_decide; [done|]. exact (bind_indexed_refs a (indexed_of acc s) _ r Hne Hr).
Qed.

Lemma observe_created_refs acc i r :
  r <> acc_output_ref acc -> by_output_ref i !! r = None ->
  by_output_ref (observe_created_or_updated acc i) !! r = None.
Proof.
  intros Hne Hr. unfold observe_created_or_updated.
  destruct (predicted_by_output_ref i !! acc_output_ref acc) as [[a o]|].
  - set (j := set_predicted_by_output_ref _ i).
    pose proof (bind_predicted_refs (acc_output_ref acc) acc j r Hne Hr) as Hb.
    destruct (bind_confirmed_predicted_store _ acc j) as [j' [u|e|]]; simpl in *; [done|..];
      by apply bind_observed_refs.
  - case_bool_decide; [by apply bind_predicted_refs|].
    destruct (persisted_by_output_ref i !! acc_output_ref acc) as [[a s]|]; [case_bool_decide|]; try done.
    exact (bind_indexed_refs a (indexed_of acc s) _ r Hne Hr).
Qed.

Lemma bind_confirmed_fail consumed acc i :
  (bind_confirmed_store_for_consumed_refs consumed acc i).2 <> Ok tt ->
  (bind_confirmed_store_for_consumed_refs consumed acc i).1 = i.
Proof.
  unfold bind_confirmed_store_for_consumed_refs.
  destruct (map_to_list _) as [|[sid [[a old] s]] l]; [done|]. by destruct (existsb _ _).
Qed.

Lemma bind_empty_fail ids acc i :
  (bind_empty_successor_for_consumed_account ids acc i).2 = false ->
  (bind_empty_successor_for_consumed_account ids acc i).1 = i.
Proof.
  unfold bind_empty_successor_for_consumed_account.
  destruct (elements ids) as [|a [|]]; try done. destruct (from_observed_root _); [|done].
  by case_bool_decide.
Qed.

Lemma observe_produced_inv consumed ids acc i :
  index_inv i -> fresh i acc ->
  index_inv (observe_produced consumed ids acc i) /\
  forall r, r <> acc_output_ref acc -> by_output_ref i !! r = None ->
    by_output_ref (observe_produced consumed ids acc i) !! r = None.
Proof.
  intros Hi Hf. unfold observe_produced.
  pose proof (bind_confirmed_store_inv consumed acc i Hi Hf) as H1.
  pose proof (bind_confirmed_fail consumed acc i) as H1f.
  assert (H1r : forall r, r <> acc_output_ref acc -> by_output_ref i !! r = None ->
    by_output_ref (bind_confirmed_store_for_consumed_refs consumed acc i).1 !! r = None).
  { intros r Hne Hr. unfold bind_confirmed_store_for_consumed_refs.
    destruct (map_to_list _) as [|[sid [[a old] s]] l]; [done|]. destruct (existsb _ _); [done|].
    exact (bind_indexed_refs a (indexed_of acc s) _ r Hne Hr). }
  destruct (bind_confirmed_store_for_consumed_refs consumed acc i) as [i1 [[]|e|]]; simpl in *; [done|..];
    rewrite (H1f ltac:(done));
    pose proof (bind_empty_successor_inv ids acc i Hi Hf) as H2;
    pose proof (bind_empty_fail ids acc i) as H2f;
    assert (H2r : forall r, r <> acc_output_ref acc -> by_output_ref i !! r = None ->
      by_output_ref (bind_empty_successor_for_consumed_account ids acc i).1 !! r = None)
    by (intros r Hne Hr; unfold bind_empty_successor_for_consumed_account;
        destruct (elements ids) as [|a [|]]; try done; destruct (from_observed_root _) as [s|]; [|done];
        case_bool_decide; [done|]; exact (bind_indexed_refs a (indexed_of acc s) _ r Hne Hr));
    destruct (bind_empty_successor_for_consumed_account ids acc i) as [i2 [|]]; simpl in *; try done;
    rewrite (H2f eq_refl);
    (split; [by apply observe_created_inv|by intros; apply observe_created_refs]).
Qed.

Lemma observe_consumed_refs r i r' :
  by_output_ref i !! r' = None -> by_output_ref (observe_consumed r i) !! r' = None.
Proof.
  intros Hr. unfold observe_consumed. simpl.
  destruct (by_output_ref i !! r) as [a|]; simpl;
    [destruct (by_account_id i !! a); simpl|]; apply lookup_delete_None; by right.
Qed.

Lemma consume_all_inv rs i : index_inv i ->
  index_inv (foldl (fun i r => observe_consumed r i) i rs) /\
  forall r, by_output_ref i !! r = None ->
    by_output_ref (foldl (fun i r => observe_consumed r i) i rs) !! r = None.
Proof.
  revert i. induction rs as [|r0 rs IH]; intros i Hi; [done|]. simpl.
  destruct (IH (observe_consumed r0 i)) as [IH1 IH2]; [by apply observe_consumed_inv|].
  split; [done|]. intros r Hr. by apply IH2, observe_consumed_refs.
Qed.

Lemma produce_all_inv consumed ids accs i :
  index_inv i -> NoDup (acc_output_ref <$> accs) -> Forall (fresh i) accs ->
  index_inv (foldl (fun i acc => observe_produced consumed ids acc i) i accs).
Proof.
  revert i. induction accs as [|acc accs IH]; intros i Hi Hnd Hf; [done|]. csimpl in *.
  apply NoDup_cons in Hnd as [Hn Hnd]. apply Forall_cons in Hf as [Hfa Hf].
  destruct (observe_produced_inv consumed ids acc i Hi Hfa) as [Hi' Hr'].
  apply IH; [done|done|]. rewrite Forall_forall in Hf |- *. intros acc' Hacc'.
  destruct (Hf acc' Hacc') as [Hok Hn']. split; [done|]. apply Hr'; [|done].
  intros E. apply Hn. rewrite <- E. by apply list_elem_of_fmap_2.
Qed.

Lemma observe_transaction_inv consumed accs i :
  index_inv i -> NoDup (acc_output_ref <$> accs) -> Forall (fresh i) accs ->
  index_inv (observe_transaction consumed accs i).
Proof.
  intros Hi Hnd Hf. unfold observe_transaction.
  destruct (consume_all_inv (elements (list_to_set consumed : gset OutputRef)) i Hi) as [Hi' Hr'].
  apply produce_all_inv; [done|done|]. eapply Forall_impl; [exact Hf|]. intros acc [Hok Hn].
  split; [done|]. by apply Hr'.
Qed.

Lemma rollback_refs r i r' : r' <> r -> index_inv i -> by_output_ref i !! r' = None ->
  by_output_ref (observe_rollback_consumed r i) !! r' = None.
Proof.
  intros Hne Hi Hr. unfold observe_rollback_consumed. simpl.
  destruct (rollback_by_spent_ref i !! r) as [[a x]|] eqn:Hx; [|done].
  destruct (inv_rollback _ Hi _ _ _ Hx) as [Href _].
  apply bind_indexed_refs; [by rewrite Href|done].
Qed.

Lemma removed_refs r i r' : by_output_ref i !! r' = None ->
  by_output_ref (observe_removed_output r i) !! r' = None.
Proof.
  intros Hr. unfold observe_removed_output. simpl.
  destruct (by_output_ref i !! r); simpl; apply lookup_delete_None; by right.
Qed.

Lemma revert_inv evs i :
  index_inv i -> NoDup (consumed_of evs) ->
  Forall (fun r => by_output_ref i !! r = None) (consumed_of evs) ->
  index_inv (revert_account_events evs i).
Proof.
  revert i. induction evs as [|[r|acc] evs IH]; intros i Hi Hnd Hf; [done|..]; csimpl in *.
  - apply NoDup_cons in Hnd as [Hn Hnd]. apply Forall_cons in Hf as [Hr Hf].
    apply IH; [by apply observe_rollback_consumed_inv|done|].
    rewrite Forall_forall in Hf |- *. intros r' Hr'. apply rollback_refs; [|done|by apply Hf].
    by intros ->.
  - apply IH; [by apply observe_removed_output_inv|done|].
    eapply Forall_impl; [exact Hf|]. intros r' Hr'. by apply removed_refs.
Qed.

(** ** Planning *)

Lemma store_for_planning_ok i a r s : index_inv i -> store_for_planning i a r = Some s ->
  store_inv s /\ (forall x, by_account_id i !! a = Some x -> reference (utxo x) = r /\ store x = s).
Proof.
  intros Hi. unfold store_for_planning. destruct (by_account_id i !! a) as [x|] eqn:Hx.
  - case_bool_decide as Hr; [done|]. intros [= <-].
    destruct (inv_current _ Hi _ _ Hx) as [Hs _]. split; [done|]. intros ? [= <-].
    by split.
  - destruct (_ || _); [done|]. destruct (negb _); [done|].
    destruct (rollback_by_spent_ref i !! r) as [[b x]|] eqn:Hb; [|done]. intros [= <-].
    destruct (inv_rollback _ Hi _ _ _ Hb) as [_ [Hs _]]. by split.
Qed.

(** The output a plan spends is not bound to another account. *)
Definition spendable (i : AccountIndex) (a : AccountId) (old_ref : OutputRef) : Prop :=
  (forall b, by_output_ref i !! old_ref = Some b -> b = a) /\
  (forall x, by_account_id i !! a = Some x -> reference (utxo x) = old_ref).

Lemma add_snapshot_inv a r s i : index_inv i -> store_inv s ->
  index_inv (set_pending_store_by_snapshot_id
    (<[next_snapshot_id i := (a, r, s)]> (pending_store_by_snapshot_id i))
    (set_next_snapshot_id (next_snapshot_id i + 1) i)).
Proof.
  intros Hi Hs. split; try apply Hi. simpl.
  intros sid e [[<- <-]|[_ He]]%lookup_insert_Some; [split; [lia|done]|].
  destruct (inv_snapshots _ Hi _ _ He). split; [lia|done].
Qed.

Lemma reserve_inv a r s i : index_inv i -> store_inv s -> spendable i a r ->
  index_inv (reserve_predicted_store_snapshot a r s i).1.
Proof.
  intros Hi Hs [Hr Hx]. apply (add_snapshot_inv a r s) in Hi as Hj; [|done].
  unfold reserve_predicted_store_snapshot. cbn [fst]. apply persist_inv. simpl.
  destruct (by_account_id i !! a) as [x|] eqn:Ha.
  - pose proof (Hx x eq_refl) as Href. pose proof (account_ref _ _ _ Hi Ha) as Hb. rewrite Href in Hb.
    exact (release_inv r a x _ _ Hj Hb Ha (rollback_insert_ok i r a x Hi Ha Href)).
  - assert (Hnone : by_output_ref i !! r = None).
    { destruct (by_output_ref i !! r) as [b|] eqn:Hb; [|done]. pose proof (Hr b eq_refl) as ->.
      apply (inv_refs _ Hi) in Hb as (x & Hxa & _). congruence. }
    rewrite delete_id by done. split; try apply Hj. simpl. intros b x Hbx.
    pose proof (inv_exclusive _ Hi _ _ Hbx). assert (a <> b) by congruence. set_solver.
Qed.

Lemma remove_pending_fields a r i :
  by_account_id (remove_pending_snapshots_for a r i) = by_account_id i /\
  by_output_ref (remove_pending_snapshots_for a r i) = by_output_ref i.
Proof. done. Qed.

Lemma commit_plan_inv {D P} (planned : D -> Z -> P) a r pred i :
  index_inv i -> spendable i a r -> (forall d, pred.2 = Ok d -> store_inv pred.1) ->
  index_inv (commit_plan planned a r pred i).1.
Proof.
  intros Hi Hsp Hpred. unfold commit_plan. destruct pred.2 as [d|e|] eqn:Hd; [|done..].
  destruct (reserve_predicted_store_snapshot _ _ _ _) as [i' sid] eqn:Hres. simpl.
  change i' with (i', sid).1. rewrite <- Hres.
  apply reserve_inv; [by apply drop_snapshots_inv|by eapply Hpred|exact Hsp].
Qed.

(** ** Reachable indexes *)

Definition refs_distinct (accs : list AlephAccountUtxo) : Prop := NoDup (acc_output_ref <$> accs).

(** One step of the agent.  The side conditions are facts about the chain: a
    transaction's outputs are new and well formed, an undone transaction's
    inputs are not bound, a plan or a local update spends the account's own
    output. *)
Inductive index_step (script_hash : bytes) (i : AccountIndex) : AccountIndex -> Prop :=
| step_apply tx evs : scan_account_events script_hash tx = evs ->
    refs_distinct (produced_of evs) ->
    Forall (fun acc => by_output_ref i !! acc_output_ref acc = None) (produced_of evs) ->
    index_step script_hash i (apply_account_events evs i)
| step_revert tx evs : scan_account_events script_hash tx = evs -> NoDup (consumed_of evs) ->
    Forall (fun r => by_output_ref i !! r = None) (consumed_of evs) ->
    index_step script_hash i (revert_account_events evs i)
| step_plan_insert a r oid k it : spendable i a r ->
    index_step script_hash i (plan_sig_insert a r oid k it i).1
| step_plan_update a r k d it : spendable i a r ->
    index_step script_hash i (plan_path_update a r k d it i).1
| step_plan_complete a r k d : spendable i a r ->
    index_step script_hash i (plan_path_completion a r k d i).1
| step_attach sid r : index_step script_hash i (attach_predicted_output_ref sid r i).1
| step_mark a old new out : spendable i a old ->
    index_step script_hash i (mark_pending_update a old new out i)
| step_bind a r : index_step script_hash i (bind_external_account_id a r i).1
| step_bind_once a r : index_step script_hash i (bind_external_account_id_once a r i).1.

Lemma try_parse_ok h r o acc : try_parse h r o = Some acc ->
  account_ok acc /\ acc_output_ref acc = r /\ acc_output acc = o.
Proof.
  unfold try_parse, account_ok, datum_state. destruct (negb _); [done|].
  destruct (out_datum o) as [d|] eqn:Hd; [|done]. simpl.
  destruct (account_try_from_pd d) as [st|] eqn:Hst; [|done]. intros [= <-]. simpl.
  rewrite Hd. simpl. by rewrite Hst.
Qed.

Lemma scanned_ok h tx acc : acc ∈ produced_of (scan_account_events h tx) -> account_ok acc.
Proof.
  unfold produced_of, scan_account_events. rewrite omap_app, elem_of_app.
  intros [Hin|Hin].
  - apply list_elem_of_omap in Hin as (e & He & Hacc).
    by apply list_elem_of_fmap in He as (r & -> & _).
  - apply list_elem_of_omap in Hin as (e & He & Hacc).
    apply list_elem_of_omap in He as ([ix o] & _ & He). simpl in He.
    destruct (try_parse h (tx_hash tx, ix) o) as [acc'|] eqn:Hp; [|done].
    injection He as <-. injection Hacc as <-. by apply try_parse_ok in Hp as [? _].
Qed.

Lemma mark_pending_inv a old new out i : index_inv i -> spendable i a old ->
  index_inv (mark_pending_update a old new out i).
Proof.
  intros Hi [Hr Hx]. unfold mark_pending_update. apply set_predicted_inv. simpl.
  destruct (by_account_id i !! a) as [x|] eqn:Ha.
  - pose proof (account_ref _ _ _ Hi Ha) as Hb. rewrite (Hx x eq_refl) in Hb.
    pose proof (release_inv old a x i (rollback_by_spent_ref i) Hi Hb Ha (inv_rollback _ Hi)) as Hrel.
    by destruct i.
  - assert (Hnone : by_output_ref i !! old = None).
    { destruct (by_output_ref i !! old) as [b|] eqn:Hb; [|done]. pose proof (Hr b eq_refl) as ->.
      apply (inv_refs _ Hi) in Hb as (x & Hxa & _). congruence. }
    rewrite !delete_id by done. split; try apply Hi. simpl. intros b x Hbx.
    pose proof (inv_exclusive _ Hi _ _ Hbx). assert (a <> b) by congruence. set_solver.
Qed.

Lemma unbound_fresh i r acc : index_inv i -> unbound_by_output_ref i !! r = Some acc ->
  fresh (set_unbound_by_output_ref (delete r (unbound_by_output_ref i)) i) acc.
Proof. intros Hi Hacc. destruct (inv_unbound _ Hi _ _ Hacc) as (<- & Hn & Hok). by split. Qed.

Lemma bind_external_inv a r i : index_inv i -> index_inv (bind_external_account_id a r i).1.
Proof.
  intros Hi. unfold bind_external_account_id.
  destruct (unbound_by_output_ref i !! r) as [acc|] eqn:Hacc; [|done]. simpl.
  apply bind_observed_inv; [by apply unbound_delete_inv|by apply unbound_fresh].
Qed.

Lemma bind_external_once_inv a r i : index_inv i -> index_inv (bind_external_account_id_once a r i).1.
Proof.
  intros Hi. unfold bind_external_account_id_once.
  destruct (_ || _ || _); [done|]. destruct (_ || _); [done|].
  destruct (unbound_by_output_ref i !! r) as [acc|] eqn:Hacc; [|done].
  destruct (from_observed_root _) as [s|] eqn:Hs; [|done]. simpl.
  apply from_observed_root_inv in Hs as [Hs Hr].
  pose proof (unbound_fresh _ _ _ Hi Hacc) as Hf.
  apply bind_indexed_inv; [by apply unbound_delete_inv| |exact (fresh_bound _ acc a s Hf)].
  apply indexed_of_ok; [apply Hf|done|done].
Qed.

Lemma plan_inv {D P} (planned : D -> Z -> P) a r i
    (op : AccountStore -> AccountStore * outcome GreenStorePlanningError D) :
  index_inv i -> spendable i a r ->
  (forall s d, store_inv s -> (op s).2 = Ok d -> store_inv (op s).1 \/ collision) ->
  index_inv (match store_for_planning i a r with
             | None => (i, Err MissingAccount)
             | Some base => commit_plan planned a r (op base) i
             end).1 \/ collision.
Proof.
  intros Hi Hsp Hop. destruct (store_for_planning i a r) as [s|] eqn:Hs; [|by left].
  apply store_for_planning_ok in Hs as [Hs _]; [|done].
  destruct ((op s).2) as [d|e|] eqn:Hd.
  - destruct (Hop s d Hs Hd) as [Hs'|]; [left|by right]. by apply commit_plan_inv.
  - left. unfold commit_plan. by rewrite Hd.
  - left. unfold commit_plan. by rewrite Hd.
Qed.

Lemma index_step_inv h i j : index_inv i -> index_step h i j -> index_inv j \/ collision.
Proof.
  intros Hi Hstep.
  destruct Hstep as [tx evs <- Hnd Hf|tx evs <- Hnd Hf|a r oid k it Hsp|a r k d it Hsp|a r k d Hsp
    |sid r|a old new out Hsp|a r|a r].
  - left. apply observe_transaction_inv; [done|done|]. rewrite Forall_forall in Hf |- *.
    intros acc Hacc. split; [by eapply scanned_ok|by apply Hf].
  - left. by apply revert_inv.
  - unfold plan_sig_insert. apply (plan_inv planned_delta a r i (fun s => insert_remaining s k oid it)); [done|done|].
    intros s d Hs Hd. destruct (insert_remaining s k oid it) as [s' o] eqn:E. simpl in *. subst o.
    destruct (insert_remaining_inv _ _ _ _ _ _ Hs E) as [|[? _]]; auto.
  - unfold plan_path_update. apply (plan_inv planned_delta a r i (fun s => update_remaining s k d it)); [done|done|].
    intros s d' Hs Hd. destruct (update_remaining s k d it) as [s' o] eqn:E. simpl in *. subst o.
    destruct (update_remaining_inv _ _ _ _ _ _ Hs E) as [|[? _]]; auto.
  - unfold plan_path_completion. apply (plan_inv planned_completion a r i (fun s => mark_completed s k d)); [done|done|].
    intros s d' Hs Hd. destruct (mark_completed s k d) as [s' o] eqn:E. simpl in *. subst o.
    left. by apply mark_completed_inv in E as [? _].
  - left. unfold attach_predicted_output_ref. case_bool_decide; [done|]. simpl.
    by apply persist_inv, set_snapshot_refs_inv.
  - left. by apply mark_pending_inv.
  - left. by apply bind_external_inv.
  - left. by apply bind_external_once_inv.
Qed.

Inductive index_reachable (h : bytes) : AccountIndex -> Prop :=
| index_start : index_reachable h index_default
| index_next i j : index_reachable h i -> index_step h i j -> index_reachable h j.


(** ** What a plan leaves behind *)

Lemma observe_consumed_fields r i :
  pending_store_by_snapshot_id (observe_consumed r i) = pending_store_by_snapshot_id i /\
  by_output_ref (observe_consumed r i) !! r = None.
Proof.
  unfold observe_consumed. simpl. destruct (by_output_ref i !! r) as [a|]; simpl;
    [destruct (by_account_id i !! a); simpl|]; (split; [done|apply lookup_delete_eq]).
Qed.

Lemma reserve_fields a r s i :
  pending_store_by_snapshot_id (reserve_predicted_store_snapshot a r s i).1 =
    <[next_snapshot_id i := (a, r, s)]> (pending_store_by_snapshot_id i) /\
  by_account_id (reserve_predicted_store_snapshot a r s i).1 !! a = None.
Proof.
  unfold reserve_predicted_store_snapshot. simpl.
  destruct (by_account_id i !! a) as [x|] eqn:Ha; simpl; [|done]. split; [done|apply lookup_delete_eq].
Qed.

Lemma remove_pending_lookup a r i sid e :
  pending_store_by_snapshot_id (remove_pending_snapshots_for a r i) !! sid = Some e <->
  pending_store_by_snapshot_id i !! sid = Some e /\ e.1 <> (a, r).
Proof.
  simpl. rewrite map_lookup_filter_Some. simpl. split.
  - intros [He Hn]. split; [done|]. intros E. apply Hn, elem_of_dom.
    exists e. by apply map_lookup_filter_Some.
  - intros [He Hne]. split; [done|]. intros [e' [He' Hp]%map_lookup_filter_Some]%elem_of_dom.
    simpl in Hp. congruence.
Qed.

(** Every snapshot planned for [r] belongs to [a]. *)
Definition planned_only_for (i : AccountIndex) (a : AccountId) (r : OutputRef) : Prop :=
  forall sid e, pending_store_by_snapshot_id i !! sid = Some e -> e.1.2 = r -> e.1.1 = a.

Lemma plan_matching a r s i acc :
  planned_only_for i a r -> store_root (acc_state acc) = root s ->
  let i1 := remove_pending_snapshots_for a r i in
  let j := (reserve_predicted_store_snapshot a r s i1).1 in
  matching_snapshots {[r]} acc (observe_consumed r j) = {[next_snapshot_id i := (a, r, s)]}.
Proof.
  intros Honly Hroot i1 j. apply map_eq. intros sid. apply option_eq. intros e.
  unfold matching_snapshots. rewrite (proj1 (observe_consumed_fields r j)).
  unfold j. rewrite (proj1 (reserve_fields a r s i1)).
  rewrite map_lookup_filter_Some, lookup_singleton_Some, lookup_insert_Some. simpl. split.
  - intros [[[<- <-]|[Hne He]] [Hin _]]; [done|]. exfalso. apply elem_of_singleton in Hin.
    apply remove_pending_lookup in He as [He Hn]. pose proof (Honly _ _ He Hin).
    apply Hn. by destruct e as [[? ?] ?]; simpl in *; subst.
  - intros [<- <-]. split; [by left|]. simpl. split; [set_solver|done].
Qed.

Lemma bind_matching_singleton consumed acc i sid a r s :
  matching_snapshots consumed acc i = {[sid := (a, r, s)]} ->
  bind_confirmed_store_for_consumed_refs consumed acc i =
  (persist_account_stores (bind_indexed a (indexed_of acc s) (drop_snapshots {[sid]} i)), Ok tt).
Proof.
  intros Hm. unfold bind_confirmed_store_for_consumed_refs. rewrite Hm, map_to_list_singleton. simpl.
  rewrite bool_decide_eq_false_2 by (by intros []). rewrite bool_decide_eq_false_2 by (by intros []).
  simpl. by rewrite dom_singleton_L.
Qed.

(** A committed plan followed by the transaction it planned. *)
Lemma plan_then_confirm {D P} (planned : D -> Z -> P) a r (pred : AccountStore * outcome _ D) d i j p acc :
  pred.2 = Ok d -> commit_plan planned a r pred i = (j, Ok p) ->
  planned_only_for i a r -> store_root (acc_state acc) = root pred.1 ->
  let j' := observe_transaction [r] [acc] j in
  by_account_id j' !! a = Some (indexed_of acc pred.1) /\
  by_output_ref j' !! acc_output_ref acc = Some a /\ a ∉ pending_by_account_id j'.
Proof.
  intros Hd Hplan Honly Hroot. unfold commit_plan in Hplan. rewrite Hd in Hplan.
  destruct (reserve_predicted_store_snapshot _ _ _ _) as [j0 sid] eqn:Hres. injection Hplan as <- _.
  pose proof (plan_matching a r pred.1 i acc Honly Hroot) as Hm. cbn zeta in Hm.
  rewrite Hres in Hm. cbn [fst] in Hm. apply bind_matching_singleton in Hm.
  unfold observe_transaction.
  replace (list_to_set [r] : gset OutputRef) with ({[r]} : gset OutputRef) by set_solver.
  rewrite elements_singleton. cbn [foldl]. unfold observe_produced. rewrite Hm. simpl. rewrite !lookup_insert_eq.
  split_and!; [done|done|set_solver].
Qed.


(** References that stay unbound through a transaction. *)
Lemma consume_all_unbinds rs i r : index_inv i -> r ∈ rs ->
  by_output_ref (foldl (fun i r => observe_consumed r i) i rs) !! r = None.
Proof.
  revert i. induction rs as [|r0 rs IH]; intros i Hi Hrs; [by apply elem_of_nil in Hrs|].
  simpl. apply elem_of_cons in Hrs as [<-|Hrs]; [|by apply IH; [apply observe_consumed_inv|]].
  destruct (consume_all_inv rs (observe_consumed r i)) as [_ Hk]; [by apply observe_consumed_inv|].
  apply Hk, observe_consumed_fields.
Qed.

Lemma produce_all_refs consumed ids accs i r :
  index_inv i -> NoDup (acc_output_ref <$> accs) -> Forall (fresh i) accs ->
  r ∉ acc_output_ref <$> accs -> by_output_ref i !! r = None ->
  by_output_ref (foldl (fun i acc => observe_produced consumed ids acc i) i accs) !! r = None.
Proof.
  revert i. induction accs as [|acc accs IH]; intros i Hi Hnd Hf Hn Hr; [done|]. csimpl in *.
  apply NoDup_cons in Hnd as [Hna Hnd]. apply Forall_cons in Hf as [Hfa Hf].
  apply not_elem_of_cons in Hn as [Hne Hn].
  destruct (observe_produced_inv consumed ids acc i Hi Hfa) as [Hi2 Hr2].
  apply IH; [done|done| |done|by apply Hr2].
  rewrite Forall_forall in Hf |- *. intros acc' Hacc'. destruct (Hf _ Hacc') as [Hok Hno].
  split; [done|]. apply Hr2; [|done]. intros E. apply Hna. rewrite <- E. by apply list_elem_of_fmap_2.
Qed.

(** An observed transaction leaves no account current at an output it
    consumed (unless it also produced that output). *)
Theorem consumed_output_not_current consumed accs i a x :
  index_inv i -> NoDup (acc_output_ref <$> accs) -> Forall (fresh i) accs ->
  by_account_id (observe_transaction consumed accs i) !! a = Some x ->
  reference (utxo x) ∈ consumed -> reference (utxo x) ∈ acc_output_ref <$> accs.
Proof.
  intros Hi Hnd Hf Hx Hin.
  destruct (decide (reference (utxo x) ∈ acc_output_ref <$> accs)) as [|Hn]; [done|exfalso].
  pose proof (account_ref _ _ _ (observe_transaction_inv consumed accs i Hi Hnd Hf) Hx) as Hr.
  enough (by_output_ref (observe_transaction consumed accs i) !! reference (utxo x) = None) by congruence.
  unfold observe_transaction. destruct (consume_all_inv (elements (list_to_set consumed : gset OutputRef)) i Hi) as [Hi1 Hf1].
  apply produce_all_refs; [done|done| |done|].
  - eapply Forall_impl; [exact Hf|]. intros acc [Hok Hno]. split; [done|by apply Hf1].
  - apply consume_all_unbinds; [done|]. set_solver.
Qed.

(** ** Undoing a transaction *)

(** The index knows nothing about an output yet. *)
Definition unknown (i : AccountIndex) (acc : AlephAccountUtxo) : Prop :=
  predicted_by_output_ref i !! acc_output_ref acc = None /\
  pending_snapshot_by_output_ref i !! acc_output_ref acc = None /\
  persisted_by_output_ref i !! acc_output_ref acc = None.

Lemma consumed_bound_fields r a x i :
  by_output_ref i !! r = Some a -> by_account_id i !! a = Some x ->
  by_output_ref (observe_consumed r i) = delete r (by_output_ref i) /\
  by_account_id (observe_consumed r i) = delete a (by_account_id i) /\
  rollback_by_spent_ref (observe_consumed r i) !! r = Some (a, x) /\
  predicted_by_output_ref (observe_consumed r i) = delete r (predicted_by_output_ref i) /\
  pending_snapshot_by_output_ref (observe_consumed r i) = pending_snapshot_by_output_ref i /\
  persisted_by_output_ref (observe_consumed r i) = persisted_by_output_ref i.
Proof.
  intros Hr Ha. unfold observe_consumed. simpl. rewrite Hr. simpl. rewrite Ha. simpl.
  by rewrite lookup_insert_eq.
Qed.

(** A produced successor is bound to the account of the consumed output, or
    kept unbound. *)
Definition bound_or_same (a : AccountId) (acc : AlephAccountUtxo) (i j : AccountIndex) : Prop :=
  rollback_by_spent_ref j = rollback_by_spent_ref i /\
  ((exists y, by_account_id j = <[a := y]> (by_account_id i) /\ reference (utxo y) = acc_output_ref acc /\
     by_output_ref j = <[acc_output_ref acc := a]> (by_output_ref i)) \/
   (by_account_id j = by_account_id i /\ by_output_ref j = by_output_ref i)).

Lemma bind_new_bound a acc s i j :
  by_account_id i !! a = None ->
  by_account_id j = by_account_id i -> by_output_ref j = by_output_ref i ->
  rollback_by_spent_ref j = rollback_by_spent_ref i ->
  bound_or_same a acc i (bind_indexed a (indexed_of acc s) j).
Proof.
  intros Ha Hb Hr Hrb. split; [done|]. left. exists (indexed_of acc s). simpl. rewrite Hb, Hr, Ha. done.
Qed.

Lemma bound_persist a acc i j :
  bound_or_same a acc i j -> bound_or_same a acc i (persist_account_stores j).
Proof. done. Qed.

Lemma produced_bound_or_same r a acc i :
  by_account_id i !! a = None -> planned_only_for i a r -> unknown i acc ->
  bound_or_same a acc i (observe_produced {[r]} {[a]} acc i).
Proof.
  intros Ha Honly (Hp & Hs & Hpe). unfold observe_produced, bind_confirmed_store_for_consumed_refs.
  assert (Hrest : bound_or_same a acc i
    match bind_empty_successor_for_consumed_account {[a]} acc i with
    | (i'', true) => i''
    | (i'', false) => observe_created_or_updated acc i''
    end).
  { assert (Hcreated : bound_or_same a acc i (observe_created_or_updated acc i)).
    { unfold observe_created_or_updated. rewrite Hp, Hs, Hpe. split; [done|]. by right. }
    unfold bind_empty_successor_for_consumed_account. rewrite elements_singleton.
    destruct (from_observed_root _) as [s|]; [|done]. case_bool_decide; [done|].
    by apply bind_new_bound. }
  destruct (map_to_list (matching_snapshots {[r]} acc i)) as [|[sid [[b old] s]] l] eqn:Hl; [done|].
  destruct (existsb _ _); [done|].
  assert (Hin : (sid, (b, old, s)) ∈ map_to_list (matching_snapshots {[r]} acc i)) by (rewrite Hl; left).
  apply elem_of_map_to_list, map_lookup_filter_Some in Hin as [He [Hold _]]. simpl in Hold.
  apply elem_of_singleton in Hold. pose proof (Honly _ _ He Hold) as Hb. simpl in Hb. subst b.
  by apply bound_persist, bind_new_bound.
Qed.

Lemma rollback_restores r a x acc i j :
  by_output_ref i !! r = None -> by_output_ref i !! acc_output_ref acc = None ->
  by_account_id i !! a = None -> acc_output_ref acc <> r -> reference (utxo x) = r ->
  rollback_by_spent_ref i !! r = Some (a, x) -> bound_or_same a acc i j ->
  by_account_id (observe_rollback_consumed r j) = <[a := x]> (by_account_id i) /\
  by_output_ref (observe_rollback_consumed r j) = <[r := a]> (by_output_ref i).
Proof.
  intros Hr Hr' Ha Hne Href Hrb [Hj Hcase]. unfold observe_rollback_consumed. rewrite Hj, Hrb.
  simpl. rewrite Href. destruct Hcase as [(y & -> & Hy & ->)|[-> ->]].
  - rewrite lookup_insert_eq, Hy. simpl. rewrite insert_insert_eq. split; [done|].
    by rewrite delete_insert_id.
  - by rewrite Ha.
Qed.


(** ** Restart *)

Lemma map_outcome_fmap {E A B C} (f : B -> outcome E C) (h : A -> B) (g : A -> C) l :
  (forall a, a ∈ l -> f (h a) = Ok (g a)) -> map_outcome f (h <$> l) = Ok (g <$> l).
Proof.
  intros Hf. apply map_outcome_Forall2, Forall2_fmap_2, Forall_Forall2_diag, Forall_forall. done.
Qed.

Lemma map_outcome_app {E A B} (f : A -> outcome E B) l1 l2 b1 b2 :
  map_outcome f l1 = Ok b1 -> map_outcome f l2 = Ok b2 -> map_outcome f (l1 ++ l2) = Ok (b1 ++ b2).
Proof.
  revert b1. induction l1 as [|a l1 IH]; intros b1 H1 H2; simpl in *; [by injection H1 as <-|].
  destruct (f a) as [b| |]; [|done..]. cbn in *. destruct (map_outcome f l1) as [bs| |]; [|done..].
  cbn in *. injection H1 as <-. by rewrite (IH bs).
Qed.

Lemma collect_map_lookup {K V} `{Countable K} (l : list (K * V)) k v :
  (k, v) ∈ l -> (forall v', (k, v') ∈ l -> v' = v) -> collect_map l !! k = Some v.
Proof.
  unfold collect_map. induction l as [|[k' v'] l IH] using rev_ind; intros Hin Huniq.
  - by apply elem_of_nil in Hin.
  - rewrite foldl_snoc. simpl. destruct (decide (k' = k)) as [->|Hne].
    + rewrite lookup_insert_eq. f_equal. apply Huniq. apply elem_of_app. right. by left.
    + rewrite lookup_insert_ne by done. apply IH.
      * apply elem_of_app in Hin as [|Hin]; [done|]. apply list_elem_of_singleton in Hin. congruence.
      * intros v0 Hv0. apply Huniq, elem_of_app. by left.
Qed.

(** The file an index writes loads back to its stores. *)
Lemma load_persisted_form i : index_inv i ->
  load_persisted_stores (Some (to_json (persisted_form i))) =
  Some (((fun kv : AccountId * IndexedAccount => (reference (utxo kv.2), (kv.1, store kv.2))) <$>
           map_to_list (by_account_id i)) ++
        ((fun kv : OutputRef * (AccountId * AccountStore) => (kv.1, kv.2)) <$>
           map_to_list (persisted_by_output_ref i)),
        (fun kv => kv) <$> map_to_list (pending_store_by_snapshot_id i),
        next_snapshot_id i).
Proof.
  intros Hi. unfold load_persisted_stores. rewrite from_to_json. simpl.
  erewrite map_outcome_app; [| |].
  2: { apply (map_outcome_fmap into_store _
         (fun kv : AccountId * IndexedAccount => (reference (utxo kv.2), (kv.1, store kv.2)))).
       intros [a x] Hx%elem_of_map_to_list. unfold into_store, from_indexed, from_parts. simpl.
       rewrite from_snapshot_snapshot; [done|]. by apply (inv_current _ Hi a x). }
  2: { apply (map_outcome_fmap into_store _
         (fun kv : OutputRef * (AccountId * AccountStore) => (kv.1, kv.2))).
       intros [r [a s]] Hs%elem_of_map_to_list. unfold into_store, from_parts. simpl.
       rewrite from_snapshot_snapshot; [done|]. by apply (inv_persisted _ Hi r a). }
  erewrite map_outcome_fmap; [done|].
  intros [sid [[a r] s]] Hs%elem_of_map_to_list. unfold into_pending, from_pending. simpl.
  rewrite from_snapshot_snapshot; [done|]. by apply (inv_snapshots _ Hi _ _ Hs).
Qed.

(** C24: After a restart from the file an index wrote, observing an account's
    output again makes the account current there with the store it had. *)
Theorem restart_recovers_account i a x acc :
  index_inv i -> by_account_id i !! a = Some x ->
  persisted_by_output_ref i !! reference (utxo x) = None ->
  acc_output_ref acc = reference (utxo x) -> store_root (acc_state acc) = root (store x) ->
  let restarted := with_persistence_path (disk (persist_account_stores (set_disk None i))) in
  persistent i = true ->
  by_account_id (observe_created_or_updated acc restarted) !! a =
    Some (indexed_of acc (store x)).
Proof.
  intros Hi Hx Hnp Href Hroot restarted Hpers. unfold restarted, persist_account_stores. simpl. rewrite Hpers.
  unfold with_persistence_path. change (persisted_form (set_disk None i)) with (persisted_form i).
  rewrite load_persisted_form by done. unfold observe_created_or_updated. simpl.
  rewrite Href, collect_map_lookup with (v := (a, store x)).
  - rewrite lookup_empty, bool_decide_eq_false_2 by (rewrite lookup_empty; by intros [? [=]]).
    rewrite bool_decide_eq_true_2 by done. simpl. by rewrite lookup_insert_eq.
  - apply elem_of_app. left. apply list_elem_of_fmap. exists (a, x). split; [done|].
    by apply elem_of_map_to_list.
  - intros v' [Hv|Hv]%elem_of_app; apply list_elem_of_fmap in Hv as ([k y] & E & Hy);
      apply elem_of_map_to_list in Hy; simpl in E; injection E as Er ->.
    + pose proof (account_ref _ _ _ Hi Hy) as H1. rewrite <- Er in H1.
      rewrite (account_ref _ _ _ Hi Hx) in H1. injection H1 as <-. congruence.
    + congruence.
Qed.


End IndexProofs.
