(* ===== verification/LbCore.v ===== *)
(** * Matchmaking attempts and recipes

    [liquidity_book/core.rs], the settlement functions of
    [liquidity_book/mod.rs] ([execute_with_taker], [settle_price],
    [linear_output_unsafe]) and [default_swap_with_taker] of
    [market_maker.rs]: single trades, the batch ([MatchmakingAttempt]) they
    are collected in, its finalisation into a recipe and the linking of the
    recipe to ledger outputs.  The theorems are in [LbCoreProofs.v].

    Panicking code is an [outcome] with an empty error type.  Additions and
    subtractions on [u64] and [i64] that the source does not check wrap. *)

From stdpp Require Import base gmap list sorting.
From Stdlib Require Import ZArith Lia.
From S2P Require Import Prelude LbTypes.

Notation panics := (outcome Empty_set).

(** ** Terminal takes *)

Definition tt_with_budget_corrected (t : TerminalTake) (delta : Z) : Z * TerminalTake :=
  let budget_remainder := u64_as_i64 (remaining_budget t) in
  let corrected_remainder := wrap_i64 (budget_remainder + delta) in
  let updated_budget_remainder := Z.max corrected_remainder 0 in
  let real_delta := wrap_i64 (updated_budget_remainder - budget_remainder) in
  (real_delta,
   mkTerminalTake (remaining_input t) (accumulated_output t)
     (i64_as_u64 updated_budget_remainder) (remaining_fee t)).

Definition tt_with_output_added (t : TerminalTake) (added_output : Z) : TerminalTake :=
  mkTerminalTake (remaining_input t) (wrap_u64 (accumulated_output t + added_output))
    (remaining_budget t) (remaining_fee t).

Definition tt_with_fee_charged (t : TerminalTake) (fee : Z) : TerminalTake :=
  mkTerminalTake (remaining_input t) (accumulated_output t)
    (remaining_budget t) (wrap_u64 (remaining_fee t - fee)).

(** What a finalised make gives back to the batch. *)
Record Excess := mkExcess { ex_base : Z; ex_quote : Z }.

(** [price * denom / numer] and [price * numer / denom] in 256 bits; [as_u64]
    panics when the result does not fit, the division when it divides by 0. *)
Definition linear_output_unsafe (input : Z) (price : OnSide AbsolutePrice) : panics Z :=
  let '(n, d) := match price with
                 | OnBid p => (input * denom p, numer p)%Z
                 | OnAsk p => (input * numer p, denom p)%Z
                 end in
  if (d =? 0)%Z then Panic
  else if (n / d <=? u64_max)%Z then Ok (n / d)%Z else Panic.

Definition linear_output_relative (input : Z) (price : RelativePrice) : option Z :=
  q ← checked_div (input * numer price) (denom price);
  if (q <=? u64_max)%Z then Some q else None.

Section Settle.
Context `{RL : RatioLib} {T U : Type} `{TK : MarketTaker T U} `{TB : TakerBehaviour T}.

Definition MAX_BIAS_PERCENT : Z := 3.

Definition clamp (value low high : Ratio) : Ratio :=
  if ratio_geb value low && ratio_leb value high then value
  else if ratio_ltb value low then low else high.

Definition to_signed (r : Ratio) : Ratio :=
  sratio_new (u128_as_i128 (numer r)) (u128_as_i128 (denom r)).
Definition to_unsigned (r : Ratio) : Ratio :=
  ratio_new (i128_as_u128 (numer r)) (i128_as_u128 (denom r)).

(** [checked_div] on [i128] truncates towards zero. *)
Definition bias_percent (fee_ask fee_bid : Z) : Z :=
  if (fee_ask <? fee_bid)%Z then
    if (fee_bid =? 0)%Z then 0%Z else Z.quot (- fee_ask * 100) fee_bid
  else
    if (fee_ask =? 0)%Z then 0%Z else Z.quot (fee_bid * 100) fee_ask.

Definition settle_price (ask bid : T) (index_price : option AbsolutePrice) : AbsolutePrice :=
  let price_ask_rat := taker_price ask in
  let price_bid_rat := taker_price bid in
  let d := ratio_sub price_bid_rat price_ask_rat in
  let pivotal_price :=
    match index_price with
    | Some index_price => clamp index_price price_ask_rat price_bid_rat
    | None => ratio_add price_ask_rat (ratio_div_int d 2)
    end in
  let bias := bias_percent (taker_fee ask) (taker_fee bid) in
  let max_deviation := ratio_mul pivotal_price (ratio_new MAX_BIAS_PERCENT 100) in
  let deviation := sratio_mul (to_signed max_deviation) (sratio_new bias 100) in
  let corrected_price := to_unsigned (sratio_add (to_signed pivotal_price) deviation) in
  clamp corrected_price price_ask_rat price_bid_rat.

Definition execute_with_taker (target_taker counter_taker : T)
    (matchmaker : T -> T -> AbsolutePrice) : panics (TakeInProgress T * TakeInProgress T) :=
  let '(ask, bid) := match taker_side target_taker with
                     | Ask => (target_taker, counter_taker)
                     | Bid => (counter_taker, target_taker)
                     end in
  let price := matchmaker ask bid in
  let quote_input := taker_input bid in
  demand_base ← linear_output_unsafe quote_input (OnBid price);
  let supply_base := taker_input ask in
  '(quote, base) ←
    (if (demand_base <? supply_base)%Z then Ok (quote_input, demand_base)
     else if (supply_base <? demand_base)%Z then
       quote_executed ← linear_output_unsafe supply_base (OnAsk price);
       Ok (quote_executed, supply_base)
     else Ok (quote_input, demand_base));
  let next_ask := with_applied_trade ask base quote in
  let next_bid := with_applied_trade bid quote base in
  Ok (mkTrans ask next_ask, mkTrans bid next_bid).

End Settle.

(** ** Takes in progress *)

Section Takes.
Context {T U : Type} `{TK : MarketTaker T U} `{TB : TakerBehaviour T}.

Definition rest_input (r : Next T TerminalTake) : Z :=
  match r with Succ next => taker_input next | Term term => remaining_input term end.
Definition rest_output (r : Next T TerminalTake) : Z :=
  match r with Succ next => taker_output next | Term term => accumulated_output term end.

Definition removed_input (t : TakeInProgress T) : panics Z :=
  match checked_sub (taker_input (target t)) (rest_input (result t)) with
  | Some z => Ok z | None => Panic
  end.

Definition added_output (t : TakeInProgress T) : panics Z :=
  match checked_sub (rest_output (result t)) (taker_output (target t)) with
  | Some z => Ok z | None => Panic
  end.

Definition take_finalized (t : TakeInProgress T) (excess : Z) : panics (TakeInProgress T) :=
  removed ← removed_input t;
  let fee := operator_fee (target t) removed in
  let bdg := u64_as_i64 (consumable_budget (target t)) in
  let next :=
    match result t with
    | Succ next =>
      try_terminate
        (with_budget_corrected (with_fee_charged (with_output_added next excess) fee)
           (wrap_i64 (- bdg))).2
    | Term term =>
      Term (tt_with_budget_corrected
              (tt_with_fee_charged (tt_with_output_added term excess) fee)
              (wrap_i64 (- bdg))).2
    end in
  Ok (mkTrans (target t) next).

End Takes.

(** ** Linked takes

    [Take<T, B>] has the ledger output next to its target; its budget is
    corrected when the transaction's real cost is known. *)

Section LinkedTakes.
Context {T U B : Type} `{TK : MarketTaker T U} `{TB : TakerBehaviour T}.

Notation Take := (Trans (T * B) T TerminalTake).

Definition linked_added_output (t : Take) : panics Z :=
  match checked_sub (rest_output (result t)) (taker_output (target t).1) with
  | Some z => Ok z | None => Panic
  end.
Definition linked_removed_input (t : Take) : panics Z :=
  match checked_sub (taker_input (target t).1) (rest_input (result t)) with
  | Some z => Ok z | None => Panic
  end.
Definition consumed_fee (t : Take) : panics Z :=
  let rest := match result t with Succ next => taker_fee next | Term term => remaining_fee term end in
  match checked_sub (taker_fee (target t).1) rest with Some z => Ok z | None => Panic end.
Definition rest_budget (r : Next T TerminalTake) : Z :=
  match r with Succ next => budget next | Term term => remaining_budget term end.
Definition consumed_budget (t : Take) : panics Z :=
  match checked_sub (budget (target t).1) (rest_budget (result t)) with
  | Some z => Ok z | None => Panic
  end.

(** Both corrections return the change of the consumed budget that took
    effect. *)
Definition correct_consumed_budget (t : Take) (delta : Z) : Z * Take :=
  match result t with
  | Succ next =>
    let '(delta_budget, updated) := with_budget_corrected next (wrap_i64 (- delta)) in
    (wrap_i64 (- delta_budget), mkTrans (target t) (Succ updated))
  | Term term =>
    let '(delta_budget, updated) := tt_with_budget_corrected term (wrap_i64 (- delta)) in
    (wrap_i64 (- delta_budget), mkTrans (target t) (Term updated))
  end.

Definition scale_consumed_budget (t : Take) (scale : Ratio) : panics (Z * Take) :=
  old_val ← consumed_budget t;
  if (denom scale =? 0)%Z then Panic
  else
    let new_val := (wrap_u64 (old_val * numer scale) / denom scale)%Z in
    let delta_consumed_budget := wrap_i64 (u64_as_i64 new_val - u64_as_i64 old_val) in
    Ok (correct_consumed_budget t delta_consumed_budget).

End LinkedTakes.

(** ** Makes in progress *)

Section Makes.
Context {M U : Type} `{MK : MarketMaker M U} `{MB : MakerBehavior M}.

(** The result of a make: it cannot terminate. *)
Definition make_result (t : MakeInProgress M) : M :=
  match result t with Succ m => m | Term v => match v with end end.

Definition make_trade_side (t : MakeInProgress M) : option Side :=
  let s := liquidity (make_result t) in
  let i := liquidity (target t) in
  if (base_reserve s <? base_reserve i)%Z && (quote_reserve i <? quote_reserve s)%Z then Some Bid
  else if (base_reserve i <? base_reserve s)%Z && (quote_reserve s <? quote_reserve i)%Z then Some Ask
  else None.

Definition make_is_zero (t : MakeInProgress M) : bool :=
  match make_trade_side t with None => true | Some _ => false end.

Definition make_gain (t : MakeInProgress M) : option (OnSide Z) :=
  let s := liquidity (make_result t) in
  let i := liquidity (target t) in
  match checked_sub (base_reserve s) (base_reserve i) with
  | Some v => Some (OnAsk v)
  | None => OnBid <$> checked_sub (quote_reserve s) (quote_reserve i)
  end.

Definition make_loss (t : MakeInProgress M) : option (OnSide Z) :=
  let s := liquidity (make_result t) in
  let i := liquidity (target t) in
  match checked_sub (base_reserve i) (base_reserve s) with
  | Some v => Some (OnBid v)
  | None => OnAsk <$> checked_sub (quote_reserve i) (quote_reserve s)
  end.

Definition swap_succ (m : M) (input : OnSide Z) : M :=
  match swap m input with Succ m' => m' | Term v => match v with end end.

Definition make_finalized (t : MakeInProgress M) : option (MakeInProgress M * Excess) :=
  let next := make_result t in
  let target_reserves := liquidity (target t) in
  let next_reserves := liquidity next in
  match checked_sub (base_reserve next_reserves) (base_reserve target_reserves) with
  | Some d_base =>
    let rebalanced :=
      preserve_preview_metadata (target t) next (swap_succ (target t) (OnAsk d_base)) in
    excess_quote ← checked_sub (quote_reserve next_reserves) (quote_reserve (liquidity rebalanced));
    Some (mkTrans (target t) (Succ rebalanced), mkExcess 0 excess_quote)
  | None =>
    trade_input ← checked_sub (quote_reserve next_reserves) (quote_reserve target_reserves);
    let rebalanced :=
      preserve_preview_metadata (target t) next (swap_succ (target t) (OnBid trade_input)) in
    excess_base ← checked_sub (base_reserve next_reserves) (base_reserve (liquidity rebalanced));
    Some (mkTrans (target t) (Succ rebalanced), mkExcess excess_base 0)
  end.

(** [default_swap_with_taker] ([market_maker.rs]). *)
Definition default_swap_with_taker {T} `{TakerBehaviour T} (target_taker : T) (maker : M)
    (input : OnSide Z) : TakeInProgress T * MakeInProgress M :=
  let make := mkTrans maker (swap maker input) in
  let trade_output := default 0%Z (unwrap <$> make_loss make) in
  let next_taker := with_applied_trade target_taker (unwrap input) trade_output in
  (mkTrans target_taker next_taker, make).

End Makes.

(** ** Matchmaking attempts *)

(** [U: Monoid + AddAssign + PartialOrd]. *)
Class Units (U : Type) := {
  units_empty : U;
  units_add : U -> U -> U;
  units_ltb : U -> U -> bool;
}.

Section Attempt.
Context {T M U TI MI : Type}.
Context `{UN : Units U} `{TK : MarketTaker T U} `{TB : TakerBehaviour T} `{MK : MarketMaker M U}
        `{MB : MakerBehavior M}.
Context `{Countable TI} `{Countable MI} `{TS : Stable T TI} `{MS : Stable M MI}.
Context `{TH : !HashOrder TI} `{MH : !HashOrder MI}.

Record MatchmakingAttempt := mkAttempt {
  takes : gmap TI (TakeInProgress T);
  makes : gmap MI (MakeInProgress M);
  ordering : list TI;
  execution_units_consumed : U;
  num_aggregated_makes : nat;
}.

Record FinalRecipe := mkFinalRecipe {
  f_takes : gmap TI (TakeInProgress T);
  f_makes : gmap MI (MakeInProgress M);
  f_ordering : list TI;
}.

Definition attempt_empty : MatchmakingAttempt := mkAttempt ∅ ∅ [] units_empty 0.

Definition is_complete (a : MatchmakingAttempt) : bool :=
  (1 <? size (takes a)) || (size (takes a) =? 1) && (0 <? size (makes a)).

Definition needs_rebalancing (a : MatchmakingAttempt) : bool := 0 <? num_aggregated_makes a.

Definition num_takes (a : MatchmakingAttempt) : nat := size (takes a).

Definition next_offered_chunk (a : MatchmakingAttempt) (taker : T) : OnSide Z :=
  let initial_state := default taker (target <$> takes a !! (stable_id taker : TI)) in
  let initial_chunk := taker_input initial_state in
  let chunk := if (0 <? initial_chunk)%Z then Z.min initial_chunk (taker_input taker)
               else taker_input taker in
  wrap (taker_side taker) chunk.

Definition add_take (a : MatchmakingAttempt) (take : TakeInProgress T) : MatchmakingAttempt :=
  let sid : TI := stable_id (target take) in
  match takes a !! sid with
  | None =>
    mkAttempt (<[sid := take]> (takes a)) (makes a) (ordering a ++ [sid])
      (units_add (execution_units_consumed a) (taker_marginal_cost_hint (target take)))
      (num_aggregated_makes a)
  | Some existing_transition =>
    mkAttempt (<[sid := trans_combine existing_transition take]> (takes a)) (makes a) (ordering a)
      (execution_units_consumed a) (num_aggregated_makes a)
  end.

Definition add_make (a : MatchmakingAttempt) (make : MakeInProgress M) : MatchmakingAttempt :=
  let sid : MI := stable_id (target make) in
  match makes a !! sid with
  | None =>
    mkAttempt (takes a) (<[sid := make]> (makes a)) (ordering a)
      (units_add (execution_units_consumed a) (maker_marginal_cost_hint (target make)))
      (num_aggregated_makes a)
  | Some accumulated_trans =>
    mkAttempt (takes a) (<[sid := trans_combine accumulated_trans make]> (makes a)) (ordering a)
      (execution_units_consumed a) (S (num_aggregated_makes a))
  end.

(** The loop over the makes: the first one that cannot be finalised ends it. *)
Fixpoint finalize_makes (l : list (MI * MakeInProgress M)) (acc : list (MI * MakeInProgress M))
    (excess_base excess_quote : Z) : option (list (MI * MakeInProgress M) * Z * Z) :=
  match l with
  | [] => Some (acc, excess_base, excess_quote)
  | (id, make) :: l =>
    '(final_make, e) ← make_finalized make;
    finalize_makes l (acc ++ [(id, final_make)])
      (wrap_u64 (excess_base + ex_base e)) (wrap_u64 (excess_quote + ex_quote e))
  end.

(** The loop over the takes: the first take of a side is paid its excess. *)
Fixpoint finalize_takes (l : list (TI * TakeInProgress T)) (acc : list (TI * TakeInProgress T))
    (excess_base excess_quote : Z) : panics (list (TI * TakeInProgress T) * Z * Z) :=
  match l with
  | [] => Ok (acc, excess_base, excess_quote)
  | (id, take) :: l =>
    match taker_side (target take) with
    | Bid =>
      t ← take_finalized take excess_base;
      finalize_takes l (acc ++ [(id, t)]) 0 excess_quote
    | Ask =>
      t ← take_finalized take excess_quote;
      finalize_takes l (acc ++ [(id, t)]) excess_base 0
    end
  end.

Definition attempt_finalized (a : MatchmakingAttempt) : panics (option FinalRecipe) :=
  match finalize_makes (hash_iter (makes a)) [] 0 0 with
  | None => Ok None
  | Some (balanced_makes, excess_base, excess_quote) =>
    '(balanced_takes, excess_base, excess_quote) ←
      finalize_takes (hash_iter (takes a)) [] excess_base excess_quote;
    Ok (if (excess_base =? 0)%Z && (excess_quote =? 0)%Z then
          Some (mkFinalRecipe (list_to_map balanced_takes) (list_to_map balanced_makes) (ordering a))
        else None)
  end.

(** ** Recipes *)

Fixpoint unsatisfied_of (l : list (TI * TakeInProgress T)) : panics (list T) :=
  match l with
  | [] => Ok []
  | (_, apply) :: l =>
    match added_output apply, unsatisfied_of l with
    | Ok added, Ok rest =>
      Ok (if (added <? min_marginal_output (target apply))%Z then target apply :: rest else rest)
    | _, _ => Panic
    end
  end.

Definition unsatisfied_fragments (r : FinalRecipe) : panics (list T) :=
  unsatisfied_of (hash_iter (f_takes r)).

Definition BASE_TAKE_TO_MAKE_RATIO : Ratio := mkRatio 1 2.

(** [Ratio<usize>]: the product of the two ratios compared with one half; the
    sum of the budgets is a wrapping [u64] sum.  The multiplication and the
    comparison are exact unless [usize] overflows. *)
Definition check_recipe_complexity (r : FinalRecipe) (base_step_budget : Z) : bool :=
  let num_takes := Z.of_nat (size (f_takes r)) in
  let num_makes := Z.of_nat (size (f_makes r)) in
  if (0 <? num_makes)%Z then
    let base_budget := Z.max base_step_budget 1 in
    let total_budget :=
      fold_left (fun acc '(_, take) => wrap_u64 (acc + consumable_budget (target take)))
        (hash_iter (f_takes r)) 0%Z in
    (numer BASE_TAKE_TO_MAKE_RATIO * (num_makes * base_budget)
       <=? denom BASE_TAKE_TO_MAKE_RATIO * (num_takes * total_budget))%Z
  else true.

Inductive Instruction := TakeI (t : TakeInProgress T) | MakeI (m : MakeInProgress M).

Inductive RecipeFailure := Dissatisfied (ts : list T) | DowngradeNeeded.

(** [ordering.enumerate().map(|(i, id)| (id, i)).collect::<HashMap<_, _>>()]. *)
Definition positions (l : list TI) : gmap TI nat := list_to_map (reverse (imap (fun i x => (x, i)) l)).

(** The keys [sort_by_cached_key] computes, each removed from the map. *)
Fixpoint cached_keys (ord : gmap TI nat) (l : list (TI * TakeInProgress T))
    : panics (list (nat * TakeInProgress T)) :=
  match l with
  | [] => Ok []
  | (_, x) :: l =>
    match ord !! (stable_id (target x) : TI) with
    | Some i => rest ← cached_keys (base.delete (stable_id (target x) : TI) ord) l; Ok ((i, x) :: rest)
    | None => Panic
    end
  end.

Definition key_nat_le (a b : nat * TakeInProgress T) : Prop := a.1 <= b.1.
Global Instance key_nat_le_dec : RelDecision key_nat_le.
Proof. intros a b. unfold key_nat_le. apply _. Defined.

Definition recipe_try_from (a : MatchmakingAttempt) (base_step_budget : Z)
    : outcome (option RecipeFailure) (list Instruction) :=
  if is_complete a then
    match attempt_finalized a with
    | Ok (Some final_recipe) =>
      match unsatisfied_fragments final_recipe with
      | Ok [] =>
        let complexity_ok := check_recipe_complexity final_recipe base_step_budget in
        match cached_keys (positions (f_ordering final_recipe)) (hash_iter (f_takes final_recipe)) with
        | Ok keyed =>
          let takes := snd <$> merge_sort key_nat_le keyed in
          let makes := snd <$> hash_iter (f_makes final_recipe) in
          let has_zero_makes := existsb make_is_zero makes in
          if negb has_zero_makes then
            if complexity_ok then Ok ((TakeI <$> takes) ++ (MakeI <$> makes))
            else Err (Some DowngradeNeeded)
          else Err None
        | _ => Panic
        end
      | Ok unsatisfied => Err (Some (Dissatisfied unsatisfied))
      | _ => Panic
      end
    | Ok None => Err None
    | _ => Panic
    end
  else Err None.

End Attempt.

Arguments MatchmakingAttempt T M U TI MI {_ _ _ _}.
Arguments FinalRecipe T M TI MI {_ _ _ _}.
Arguments Instruction T M : clear implicits.
Arguments RecipeFailure T : clear implicits.

(** ** Linking a recipe to its bearers *)

Section Link.
Context {T M I V B : Type} `{Countable V} `{TS : Stable T I} `{MS : Stable M I}.

(** An instruction with the ledger output of its target, or the target that
    has none. *)
Inductive Execution :=
| TakeE (target : T * B) (r : Next T TerminalTake)
| MakeE (target : M * B) (r : Next M Empty_set).
Inductive Orphan := OrphanT (t : T) | OrphanM (m : M).

Definition link_step (link : I -> option (V * B)) (i : Instruction T M) : (V * Execution) + Orphan :=
  match i with
  | TakeI t =>
    match link (stable_id (target t)) with
    | Some (ver, bearer) => inl (ver, TakeE (target t, bearer) (result t))
    | None => inr (OrphanT (target t))
    end
  | MakeI m =>
    match link (stable_id (target m)) with
    | Some (ver, bearer) => inl (ver, MakeE (target m, bearer) (result m))
    | None => inr (OrphanM (target m))
    end
  end.

Fixpoint link_loop (link : I -> option (V * B)) (l : list (Instruction T M))
    (consumed : list V) (translated : list Execution) (orphans : list Orphan)
    : list V * list Execution * list Orphan :=
  match l with
  | [] => (consumed, translated, orphans)
  | i :: l =>
    match link_step link i with
    | inl (ver, e) => link_loop link l (consumed ++ [ver]) (translated ++ [e]) orphans
    | inr o => link_loop link l consumed translated (orphans ++ [o])
    end
  end.

Definition recipe_link (instructions : list (Instruction T M)) (link : I -> option (V * B))
    : (list Execution * gset V) + list Orphan :=
  match link_loop link instructions [] [] [] with
  | (consumed, translated, []) => inl (translated, list_to_set consumed)
  | (_, _, orphans) => inr orphans
  end.

End Link.

Arguments Execution T M B : clear implicits.
Arguments Orphan T M : clear implicits.
