(* ===== verification/LbCoreProofs.v ===== *)
(** * Trades settle fairly and recipes conserve value

    Theorems about [LbCore.v]: the price two orders settle at, the amounts
    they exchange, and the balance of a batch from its first trade to the
    finished recipe. *)

From stdpp Require Import base gmap list sorting.
From Stdlib Require Import ZArith Lia.
From S2P Require Import Prelude LbTypes LbCore.

(** ** Order-to-order settlement *)

Lemma linear_output_unsafe_Ok input (price : OnSide AbsolutePrice) n d :
  (match price with
   | OnBid p => (input * denom p, numer p) | OnAsk p => (input * numer p, denom p)
   end)%Z = (n, d) ->
  (0 < d)%Z -> (n / d <= u64_max)%Z -> linear_output_unsafe input price = Ok (n / d)%Z.
Proof.
  unfold linear_output_unsafe. intros E Hd Hm. destruct price; injection E as -> ->.
  all: destruct (Z.eqb_spec d 0); [lia|]; destruct (Z.leb_spec (n / d) u64_max); [done|lia].
Qed.

Section Settlement.
Context `{RLaws : RatioLaws} {T U : Type} `{TK : MarketTaker T U} `{TB : TakerBehaviour T}
        `{TL : !TakerTradeLaws T U}.

Lemma clamp_between v low high : ratio_leb low high = true ->
  ratio_leb low (clamp v low high) = true /\ ratio_leb (clamp v low high) high = true.
Proof.
  intros Hlh. unfold clamp. rewrite ratio_geb_leb, ratio_ltb_leb.
  destruct (ratio_leb low v) eqn:E1; destruct (ratio_leb v high) eqn:E2; simpl;
    rewrite ?ratio_leb_refl, ?E1, ?E2; done.
Qed.

Lemma clamp_cases v low high (P : Ratio -> Prop) : P v -> P low -> P high -> P (clamp v low high).
Proof. unfold clamp. repeat case_match; done. Qed.

(** The amounts a match at price [p] moves, from what each side offers. *)
Lemma match_amounts p supply offer demand :
  (0 < numer p)%Z -> (0 < denom p)%Z -> (0 <= supply)%Z -> (0 <= offer)%Z ->
  demand = (offer * denom p / numer p)%Z ->
  let base := Z.min supply demand in
  let quote := if (supply <? demand)%Z then (supply * numer p / denom p)%Z else offer in
  (0 <= base /\ 0 <= quote <= offer /\
   base * numer p < (quote + 1) * denom p /\ quote * denom p < (base + 1) * numer p)%Z.
Proof.
  intros Hn Hd Hs Ho ->. simpl.
  pose proof (Z.div_mod (offer * denom p) (numer p) ltac:(lia)) as E1.
  pose proof (Z.mod_pos_bound (offer * denom p) (numer p) Hn) as B1.
  set (D := (offer * denom p / numer p)%Z) in *.
  assert (0 <= D)%Z by (apply Z.div_pos; nia).
  destruct (Z.ltb_spec supply D).
  - pose proof (Z.div_mod (supply * numer p) (denom p) ltac:(lia)) as E2.
    pose proof (Z.mod_pos_bound (supply * numer p) (denom p) Hd) as B2.
    set (Q := (supply * numer p / denom p)%Z) in *.
    assert (0 <= Q)%Z by (apply Z.div_pos; nia). rewrite Z.min_l by lia. nia.
  - rewrite Z.min_r by lia. nia.
Qed.

(** A price between two limits keeps both, up to one unit of the asset paid. *)
Lemma limit_transfer pa p q b : ratio_le pa p -> (0 < denom p)%Z -> (0 < denom pa)%Z -> (0 <= b)%Z ->
  (b * numer p < (q + 1) * denom p)%Z -> (b * numer pa < (q + 1) * denom pa)%Z.
Proof.
  unfold ratio_le. intros Hle Hd Hda Hb H1.
  assert (b * numer pa * denom p <= b * numer p * denom pa)%Z by nia.
  assert (b * numer p * denom pa < (q + 1) * denom p * denom pa)%Z by nia. nia.
Qed.

Lemma limit_transfer_bid pb p q b : ratio_le p pb -> (0 < denom p)%Z -> (0 < denom pb)%Z ->
  (0 <= b)%Z -> (q * denom p < (b + 1) * numer p)%Z -> (q * denom pb < (b + 1) * numer pb)%Z.
Proof.
  unfold ratio_le. intros Hle Hd Hdb Hb H1.
  assert (q * denom p * denom pb < (b + 1) * numer p * denom pb)%Z by nia.
  assert ((b + 1) * numer p * denom pb <= (b + 1) * numer pb * denom p)%Z by nia. nia.
Qed.

Lemma settle_price_between ask bid index :
  ratio_leb (taker_price ask) (taker_price bid) = true ->
  ratio_leb (taker_price ask) (settle_price ask bid index) = true /\
  ratio_leb (settle_price ask bid index) (taker_price bid) = true.
Proof. intros H1. unfold settle_price. by apply clamp_between. Qed.

Lemma settle_price_wf ask bid index :
  ratio_wf (taker_price ask) -> ratio_wf (taker_price bid) -> ratio_wf (settle_price ask bid index).
Proof.
  intros Ha Hb. unfold settle_price. apply clamp_cases; [|done|done].
  unfold to_unsigned, i128_as_u128.
  match goal with |- context [sratio_add ?a ?b] => pose proof (sratio_add_denom a b) as Hd end.
  apply ratio_new_eq; [apply Z.mod_pos_bound; lia|].
  unfold i128_max in Hd. rewrite (Z.mod_small (denom _)) by lia. lia.
Qed.

Lemma demand_at_better_price pa p offer :
  ratio_le pa p -> ratio_wf p -> ratio_wf pa -> (0 < numer pa)%Z -> (0 <= offer)%Z ->
  (0 < numer p)%Z /\ (offer * denom p / numer p <= offer * denom pa / numer pa)%Z.
Proof.
  unfold ratio_le, ratio_wf. intros Hle [_ Hd] [_ Hda] Hna Ho.
  assert (0 < numer p)%Z as Hn by nia. split; [done|].
  apply Z.div_le_lower_bound; [done|].
  pose proof (Z.mul_div_le (offer * denom p) (numer p) Hn) as Hq.
  set (D := (offer * denom p / numer p)%Z) in *.
  assert (numer p * (D * numer pa) <= numer p * (offer * denom pa))%Z by nia. nia.
Qed.

(** A match at price [p] succeeds and exchanges the amounts above. *)
Lemma execute_amounts x y ask bid (f : T -> T -> AbsolutePrice) :
  (x, y) = (ask, bid) \/ (x, y) = (bid, ask) ->
  taker_side ask = Ask -> taker_side bid = Bid ->
  (0 < numer (f ask bid))%Z -> (0 < denom (f ask bid))%Z ->
  (0 <= taker_input ask)%Z -> (0 <= taker_input bid <= u64_max)%Z ->
  (taker_input bid * denom (f ask bid) / numer (f ask bid) <= u64_max)%Z ->
  exists base quote,
    execute_with_taker x y f =
      Ok (mkTrans ask (with_applied_trade ask base quote),
          mkTrans bid (with_applied_trade bid quote base)) /\
    (0 <= base <= taker_input ask /\ 0 <= quote <= taker_input bid /\
     (base = taker_input ask \/ quote = taker_input bid) /\
     base * numer (f ask bid) < (quote + 1) * denom (f ask bid) /\
     quote * denom (f ask bid) < (base + 1) * numer (f ask bid))%Z.
Proof.
  intros Hxy Ha Hb Hn Hd Hs Ho Hfit.
  pose proof (match_amounts (f ask bid) (taker_input ask) (taker_input bid) _ Hn Hd Hs
                (proj1 Ho) eq_refl) as Hm. cbv zeta in Hm.
  set (D := (taker_input bid * denom (f ask bid) / numer (f ask bid))%Z) in *.
  assert (execute_with_taker x y f = execute_with_taker ask bid f) as ->.
  { unfold execute_with_taker. destruct Hxy as [[= -> ->]|[= -> ->]]; by rewrite ?Ha, ?Hb. }
  unfold execute_with_taker. rewrite Ha. cbv beta iota zeta.
  rewrite (linear_output_unsafe_Ok _ (OnBid _) _ _ eq_refl Hn Hfit). fold D. simpl.
  destruct (Z.ltb_spec D (taker_input ask)), (Z.ltb_spec (taker_input ask) D); try lia.
  - rewrite Z.min_r in Hm by lia. eexists D, _. split; [reflexivity|]. lia.
  - rewrite Z.min_l in Hm by lia.
    rewrite (linear_output_unsafe_Ok _ (OnAsk _) _ _ eq_refl Hd) by lia. simpl.
    eexists (taker_input ask), _. split; [reflexivity|]. lia.
  - rewrite Z.min_r in Hm by lia. eexists D, _. split; [reflexivity|]. lia.
Qed.

Lemma applied_trade_amounts t removed added :
  (0 <= removed <= taker_input t)%Z -> (0 <= added)%Z -> (taker_output t + added <= u64_max)%Z ->
  rest_input (with_applied_trade t removed added) = (taker_input t - removed)%Z /\
  rest_output (with_applied_trade t removed added) = (taker_output t + added)%Z.
Proof.
  intros Hr Ha Hm. destruct (with_applied_trade t removed added) as [t'|tt] eqn:E; simpl.
  - by eapply applied_trade_succ.
  - by eapply applied_trade_term.
Qed.

(** C16: Two crossing orders always match.  Whichever of them is the target,
    the match moves one base and one quote amount between them, exhausts one
    of the two, and gives each side its limit price up to one unit of
    rounding: the settled price lies between the two limits. *)
Theorem order_match_fair x y ask bid spot :
  (x, y) = (ask, bid) \/ (x, y) = (bid, ask) ->
  taker_side ask = Ask -> taker_side bid = Bid ->
  ratio_wf (taker_price ask) -> ratio_wf (taker_price bid) -> (0 < numer (taker_price ask))%Z ->
  overlaps (OnBid (taker_price bid)) (taker_price ask) = true ->
  is_u64 (taker_input ask) -> is_u64 (taker_input bid) ->
  (0 <= taker_output ask /\ taker_output ask + taker_input bid <= u64_max)%Z ->
  (0 <= taker_output bid /\ taker_output bid + taker_input ask <= u64_max)%Z ->
  (taker_input bid * denom (taker_price ask) / numer (taker_price ask) <= u64_max)%Z ->
  exists base quote take_ask take_bid,
    execute_with_taker x y (fun a b => settle_price a b (Some spot)) = Ok (take_ask, take_bid) /\
    target take_ask = ask /\ target take_bid = bid /\
    removed_input take_ask = Ok base /\ added_output take_bid = Ok base /\
    removed_input take_bid = Ok quote /\ added_output take_ask = Ok quote /\
    (base = taker_input ask \/ quote = taker_input bid) /\
    (base * numer (taker_price ask) < (quote + 1) * denom (taker_price ask))%Z /\
    (quote * denom (taker_price bid) < (base + 1) * numer (taker_price bid))%Z.
Proof.
  intros Hxy Ha Hb Wa Wb Na Hov Ia Ib Oa Ob Hfit. simpl in Hov.
  set (p := settle_price ask bid (Some spot)).
  assert (ratio_wf p) as Wp by by apply settle_price_wf.
  destruct (settle_price_between ask bid (Some spot) Hov) as [L1 L2]. fold p in L1, L2.
  apply ratio_leb_le in L1; [|done..]. apply ratio_leb_le in L2; [|done..].
  destruct (demand_at_better_price _ p (taker_input bid) L1 Wp Wa Na (proj1 Ib)) as [Np Dp].
  destruct (execute_amounts x y ask bid (fun a b => settle_price a b (Some spot)))
    as (base & quote & Hex & Bb & Bq & Hone & P1 & P2); try done; try apply Ia; fold p; try lia.
  { apply Wp. }
  fold p in P1, P2.
  destruct (applied_trade_amounts ask base quote) as [A1 A2]; [lia..|].
  destruct (applied_trade_amounts bid quote base) as [B1 B2]; [lia..|].
  eexists base, quote, _, _. split; [exact Hex|].
  unfold removed_input, added_output. simpl. rewrite A1, A2, B1, B2, !checked_sub_Some by lia.
  repeat split; try (f_equal; lia).
  - eapply limit_transfer; [exact L1|apply Wp|apply Wa|lia|done].
  - eapply limit_transfer_bid; [exact L2|apply Wp|apply Wb|lia|done].
Qed.

End Settlement.

(** ** Budget corrections *)

(** What a correction relies on: it reports the change of the budget. *)
Class BudgetLaws (T U : Type) `{MarketTaker T U, TakerBehaviour T} : Prop :=
  budget_corrected_reports : forall t d d' t', with_budget_corrected t d = (d', t') ->
    budget t' = (budget t + d')%Z /\ (0 <= budget t' <= i64_max)%Z.

Lemma wrap_i64_small z : (i64_min <= z <= i64_max)%Z -> wrap_i64 z = z.
Proof.
  unfold i64_min, i64_max, wrap_i64. intros Hz. rewrite Z.mod_small by lia. lia.
Qed.

Lemma tt_budget_corrected t d d' t' :
  (0 <= remaining_budget t <= i64_max)%Z -> (i64_min <= remaining_budget t + d <= i64_max)%Z ->
  tt_with_budget_corrected t d = (d', t') ->
  remaining_budget t' = Z.max (remaining_budget t + d) 0 /\
  d' = (remaining_budget t' - remaining_budget t)%Z.
Proof.
  unfold tt_with_budget_corrected, u64_as_i64, i64_as_u64. intros Hb Hd.
  destruct (Z.leb_spec (remaining_budget t) i64_max); [|lia].
  rewrite (wrap_i64_small (remaining_budget t + d)) by done. intros [= <- <-]. cbn.
  unfold i64_min, i64_max in *. rewrite Z.mod_small by lia. split; [done|].
  apply wrap_i64_small. unfold i64_min, i64_max. lia.
Qed.

(** Correcting a take's consumed budget reports exactly the change it
    made: the consumed budget afterwards is the one before plus the reported
    difference, and the remaining budget is never negative. *)
Theorem budget_correction_accounted {T U B : Type} `{BudgetLaws T U}
    (t : Trans (T * B) T TerminalTake) delta d t' consumed :
  (- i64_max <= delta <= i64_max)%Z ->
  (0 <= budget (target t).1 <= i64_max)%Z -> (0 <= rest_budget (result t))%Z ->
  (rest_budget (result t) - delta <= i64_max)%Z ->
  consumed_budget t = Ok consumed -> correct_consumed_budget t delta = (d, t') ->
  target t' = target t /\ (0 <= rest_budget (result t'))%Z /\
  budget (target t').1 = (rest_budget (result t') + (consumed + d))%Z.
Proof.
  intros Hd Hb Hr Hmax. unfold consumed_budget.
  destruct (checked_sub _ _) as [c|] eqn:Ec; [|done]. apply checked_sub_inv in Ec as [Hle ->].
  intros [= <-]. unfold correct_consumed_budget.
  rewrite (wrap_i64_small (- delta)) by (unfold i64_min, i64_max in *; lia).
  destruct (result t) as [s|tt]; cbn [rest_budget] in *.
  - destruct (with_budget_corrected s (- delta)) as [d' s'] eqn:E. intros [= <- <-]. cbn.
    destruct (budget_corrected_reports _ _ _ _ E) as [E1 E2].
    rewrite wrap_i64_small by (unfold i64_min, i64_max in *; lia). split; [done|]. lia.
  - destruct (tt_with_budget_corrected tt (- delta)) as [d' s'] eqn:E. intros [= <- <-]. cbn.
    apply tt_budget_corrected in E as [E1 ->]; [|unfold i64_min, i64_max in *; lia..].
    rewrite wrap_i64_small by (unfold i64_min, i64_max in *; lia). split; [done|]. lia.
Qed.

(** ** Batches balance

    What a transition adds to its owner's base and quote, counted negatively
    when it takes something away. *)

Section Flows.
Context {T M U : Type} `{TK : MarketTaker T U} `{TB : TakerBehaviour T} `{MK : MarketMaker M U}
        `{MB : MakerBehavior M}.

Definition take_base (t : TakeInProgress T) : Z :=
  match taker_side (target t) with
  | Ask => rest_input (result t) - taker_input (target t)
  | Bid => rest_output (result t) - taker_output (target t)
  end.
Definition take_quote (t : TakeInProgress T) : Z :=
  match taker_side (target t) with
  | Ask => rest_output (result t) - taker_output (target t)
  | Bid => rest_input (result t) - taker_input (target t)
  end.
Definition make_base (m : MakeInProgress M) : Z :=
  base_reserve (liquidity (make_result m)) - base_reserve (liquidity (target m)).
Definition make_quote (m : MakeInProgress M) : Z :=
  quote_reserve (liquidity (make_result m)) - quote_reserve (liquidity (target m)).

(** What finalisation relies on: paying the excess adds to the output, and
    charging fees or terminating moves neither input nor output. *)
Class TakerFinalLaws : Prop := {
  output_added_law : forall t added, (0 <= added)%Z -> (taker_output t + added <= u64_max)%Z ->
    taker_input (with_output_added t added) = taker_input t /\
    taker_output (with_output_added t added) = (taker_output t + added)%Z;
  fee_charged_law : forall t fee,
    taker_input (with_fee_charged t fee) = taker_input t /\
    taker_output (with_fee_charged t fee) = taker_output t;
  budget_corrected_law : forall t d,
    taker_input (with_budget_corrected t d).2 = taker_input t /\
    taker_output (with_budget_corrected t d).2 = taker_output t;
  terminate_law : forall t,
    rest_input (try_terminate t) = taker_input t /\ rest_output (try_terminate t) = taker_output t;
}.

(** A traded taker stays on its side under its identity. *)
Class TakerStableLaws {TI} `{Stable T TI} : Prop :=
  applied_trade_stable : forall t t' removed added, with_applied_trade t removed added = Succ t' ->
    taker_side t' = taker_side t /\ (stable_id t' : TI) = stable_id t.

(** What a batch relies on when it trades with a pool, for the inputs
    [swap_ok] admits: the input is added to the reserves of its asset and the
    output taken from the other's. *)
Class MakerTradeLaws {MI} `{Stable M MI} (swap_ok : M -> OnSide Z -> Prop) : Prop := {
  swap_nonneg : forall m i, swap_ok m i ->
    (0 <= base_reserve (liquidity m) /\ 0 <= quote_reserve (liquidity m))%Z;
  swap_ask : forall m x, swap_ok m (OnAsk x) ->
    base_reserve (liquidity (swap_succ m (OnAsk x))) = (base_reserve (liquidity m) + x)%Z /\
    (0 <= quote_reserve (liquidity (swap_succ m (OnAsk x))) <= quote_reserve (liquidity m))%Z;
  swap_bid : forall m x, swap_ok m (OnBid x) ->
    quote_reserve (liquidity (swap_succ m (OnBid x))) = (quote_reserve (liquidity m) + x)%Z /\
    (0 <= base_reserve (liquidity (swap_succ m (OnBid x))) <= base_reserve (liquidity m))%Z;
  swap_stable : forall m i, swap_ok m i -> (stable_id (swap_succ m i) : MI) = stable_id m;
  preserve_law : forall t n r, liquidity (preserve_preview_metadata t n r) = liquidity r;
}.

End Flows.

Arguments TakerFinalLaws T U {_ _}.
Arguments TakerStableLaws T U {_ _} TI {_}.
Arguments MakerTradeLaws M U {_ _} MI {_} swap_ok.

Section Balance.
Context {T M U TI MI : Type}.
Context `{UN : Units U} `{TK : MarketTaker T U} `{TB : TakerBehaviour T} `{MK : MarketMaker M U}
        `{MB : MakerBehavior M}.
Context `{CT : Countable TI} `{CM : Countable MI} `{TS : Stable T TI} `{MS : Stable M MI}.
Context `{TH : !HashOrder TI} `{MH : !HashOrder MI} `{!HashOrderLaws TI} `{!HashOrderLaws MI}.
Context (swap_ok : M -> OnSide Z -> Prop).
Context `{TL : !TakerTradeLaws T U} `{TF : !TakerFinalLaws T U} `{TSL : !TakerStableLaws T U TI}
        `{ML : !MakerTradeLaws M U MI swap_ok}.

Local Notation Attempt := (MatchmakingAttempt T M U TI MI).
Implicit Types (a : Attempt) (r : FinalRecipe T M TI MI).

(** The taker (or pool) is new to the batch or in the state the batch left it. *)
Definition taker_current (a : Attempt) (t : T) : Prop :=
  match takes a !! (stable_id t : TI) with None => True | Some tr => result tr = Succ t end.
Definition maker_current (a : Attempt) (m : M) : Prop :=
  match makes a !! (stable_id m : MI) with None => True | Some tr => result tr = Succ m end.

Definition can_receive (t : T) (x : Z) : Prop := (0 <= x /\ taker_output t + x <= u64_max)%Z.

(** The batches the matchmaking loop builds: order-to-order matches and
    trades of a taker with a pool. *)
Inductive Built : Attempt -> Prop :=
| built_empty : Built attempt_empty
| built_match a x y ask bid f ta tb :
    Built a -> (x, y) = (ask, bid) \/ (x, y) = (bid, ask) ->
    taker_current a ask -> taker_current a bid ->
    taker_side ask = Ask -> taker_side bid = Bid -> (stable_id ask : TI) <> stable_id bid ->
    (0 < numer (f ask bid))%Z -> (0 < denom (f ask bid))%Z ->
    (0 <= taker_input ask)%Z -> (0 <= taker_input bid <= u64_max)%Z ->
    (taker_input bid * denom (f ask bid) / numer (f ask bid) <= u64_max)%Z ->
    can_receive ask (taker_input bid) -> can_receive bid (taker_input ask) ->
    execute_with_taker x y f = Ok (ta, tb) ->
    Built (add_take (add_take a ta) tb)
| built_swap a t m chunk take make :
    Built a -> taker_current a t -> maker_current a m ->
    (0 < chunk <= taker_input t)%Z -> swap_ok m (wrap (taker_side t) chunk) ->
    (match taker_side t with
     | Ask => can_receive t (quote_reserve (liquidity m))
     | Bid => can_receive t (base_reserve (liquidity m)) end) ->
    default_swap_with_taker t m (wrap (taker_side t) chunk) = (take, make) ->
    Built (add_take (add_make a make) take).

(** Each take shrinks its input and grows its output under one identity and
    side; each make keeps its identity. *)
Definition take_wf (id : TI) (t : TakeInProgress T) : Prop :=
  stable_id (target t) = id /\ (0 <= rest_input (result t) <= taker_input (target t))%Z /\
  (taker_output (target t) <= rest_output (result t))%Z /\
  (forall s, result t = Succ s -> taker_side s = taker_side (target t) /\ stable_id s = id).
Definition make_wf (id : MI) (m : MakeInProgress M) : Prop :=
  stable_id (target m) = id /\ stable_id (make_result m) = id /\
  (0 <= base_reserve (liquidity (make_result m)) /\ 0 <= quote_reserve (liquidity (make_result m)))%Z.

Record balanced (a : Attempt) : Prop := {
  bal_base : (msum take_base (takes a) + msum make_base (makes a) = 0)%Z;
  bal_quote : (msum take_quote (takes a) + msum make_quote (makes a) = 0)%Z;
  bal_takes : map_Forall take_wf (takes a);
  bal_makes : map_Forall make_wf (makes a);
  bal_nodup : NoDup (ordering a);
  bal_dom : forall id, id ∈ ordering a <-> is_Some (takes a !! id);
}.

(** Adding a take of a current taker adds its flows. *)
Lemma add_take_flow a t (f : TakeInProgress T -> Z) :
  (forall tr, takes a !! (stable_id (target t) : TI) = Some tr ->
     f (trans_combine tr t) = f tr + f t)%Z ->
  msum f (takes (add_take a t)) = (msum f (takes a) + f t)%Z /\ makes (add_take a t) = makes a.
Proof.
  intros Hf. unfold add_take. destruct (takes a !! _) as [tr|] eqn:E; simpl; split; try done.
  - rewrite (msum_insert_old _ _ _ _ _ E), Hf by done. lia.
  - rewrite msum_insert_new by done. lia.
Qed.

Lemma add_make_flow a m (f : MakeInProgress M -> Z) :
  (forall tr, makes a !! (stable_id (target m) : MI) = Some tr ->
     f (trans_combine tr m) = f tr + f m)%Z ->
  msum f (makes (add_make a m)) = (msum f (makes a) + f m)%Z /\ takes (add_make a m) = takes a /\
  ordering (add_make a m) = ordering a.
Proof.
  intros Hf. unfold add_make. destruct (makes a !! _) as [tr|] eqn:E; simpl; split; try done.
  - rewrite (msum_insert_old _ _ _ _ _ E), Hf by done. lia.
  - rewrite msum_insert_new by done. lia.
Qed.

Lemma combine_take_flows a t tr :
  map_Forall take_wf (takes a) -> taker_current a (target t) ->
  takes a !! (stable_id (target t) : TI) = Some tr ->
  take_base (trans_combine tr t) = (take_base tr + take_base t)%Z /\
  take_quote (trans_combine tr t) = (take_quote tr + take_quote t)%Z.
Proof.
  intros Hw Hc E. unfold taker_current in Hc. rewrite E in Hc.
  destruct (Hw _ _ E) as (_ & _ & _ & Hs). destruct (Hs _ Hc) as [Hside _].
  unfold take_base, take_quote. simpl. rewrite Hside, Hc.
  destruct (taker_side (target tr)); simpl; lia.
Qed.

Lemma combine_make_flows a m tr : maker_current a (target m) ->
  makes a !! (stable_id (target m) : MI) = Some tr ->
  make_base (trans_combine tr m) = (make_base tr + make_base m)%Z /\
  make_quote (trans_combine tr m) = (make_quote tr + make_quote m)%Z.
Proof.
  intros Hc E. unfold maker_current in Hc. rewrite E in Hc.
  unfold make_base, make_quote, make_result in *. simpl. rewrite Hc. lia.
Qed.

(** The bookkeeping of [add_take], whatever the flows are. *)
Lemma add_take_wf a t :
  map_Forall take_wf (takes a) -> NoDup (ordering a) ->
  (forall id, id ∈ ordering a <-> is_Some (takes a !! id)) ->
  taker_current a (target t) -> take_wf (stable_id (target t)) t ->
  let a' := add_take a t in
  map_Forall take_wf (takes a') /\ NoDup (ordering a') /\
  (forall id, id ∈ ordering a' <-> is_Some (takes a' !! id)).
Proof.
  intros Hw Hn Hd Hc Ht. unfold add_take, taker_current in *.
  destruct (takes a !! _) as [tr|] eqn:E; simpl.
  - destruct (Hw _ _ E) as (W1 & W2 & W3 & W4). destruct Ht as (_ & T2 & T3 & T4).
    destruct (W4 _ Hc) as [Hside Hid]. rewrite Hc in W2, W3. simpl in W2, W3.
    split; [|split; [done|intros id; rewrite lookup_insert_is_Some; split]].
    + apply map_Forall_insert_2; [|done]. unfold take_wf. simpl.
      split; [done|]. split; [lia|]. split; [lia|]. intros s Hs.
      destruct (T4 _ Hs) as [S1 S2]. split; congruence.
    + intros Hin. destruct (decide (stable_id (target t) = id)); [by left|]. right.
      split; [done|]. by apply Hd.
    + intros [<-|[_ Hin]]; apply Hd; [by eexists|done].
  - split; [|split; [|intros id; split]].
    + by apply map_Forall_insert_2.
    + apply NoDup_app. split; [done|]. split; [|apply NoDup_singleton].
      intros x Hx ->%list_elem_of_singleton. apply Hd in Hx as [? Hx]. congruence.
    + rewrite lookup_insert_is_Some, elem_of_app, list_elem_of_singleton.
      intros [Hin| ->]; [|by left]. destruct (decide (stable_id (target t) = id)); [by left|]. right.
      split; [done|]. by apply Hd.
    + rewrite lookup_insert_is_Some, elem_of_app, list_elem_of_singleton.
      intros [<-|[_ Hin]]; [by right|]. left. by apply Hd.
Qed.

(** Adding a take of a current taker keeps everything but the balance, which
    moves by the take's flows. *)
Lemma add_take_balance a t db dq :
  map_Forall take_wf (takes a) -> map_Forall make_wf (makes a) -> NoDup (ordering a) ->
  (forall id, id ∈ ordering a <-> is_Some (takes a !! id)) ->
  (msum take_base (takes a) + msum make_base (makes a) = - db)%Z ->
  (msum take_quote (takes a) + msum make_quote (makes a) = - dq)%Z ->
  taker_current a (target t) -> take_wf (stable_id (target t)) t ->
  take_base t = db -> take_quote t = dq -> balanced (add_take a t).
Proof.
  intros Hw Hm Hn Hd Eb Eq Hc Ht <- <-.
  destruct (add_take_flow a t take_base) as [F1 F2].
  { intros tr E. by eapply combine_take_flows. }
  destruct (add_take_flow a t take_quote) as [F3 _].
  { intros tr E. by eapply combine_take_flows. }
  destruct (add_take_wf a t) as (W1 & W2 & W3); try done.
  split; rewrite ?F1, ?F2, ?F3; [lia|lia|done..].
Qed.

Lemma traded_take_wf t removed added :
  (0 <= removed <= taker_input t)%Z -> can_receive t added ->
  take_wf (stable_id t) (mkTrans t (with_applied_trade t removed added)).
Proof.
  intros Hr [Ha Hm]. destruct (applied_trade_amounts t removed added) as [E1 E2]; [done..|].
  unfold take_wf. simpl. rewrite E1, E2. split; [done|]. split; [lia|]. split; [lia|].
  intros s Hs. by apply applied_trade_stable in Hs.
Qed.

Lemma balanced_match a ask bid base quote :
  balanced a -> taker_current a ask -> taker_current a bid ->
  taker_side ask = Ask -> taker_side bid = Bid -> (stable_id ask : TI) <> stable_id bid ->
  (0 <= base <= taker_input ask)%Z -> (0 <= quote <= taker_input bid)%Z ->
  can_receive ask quote -> can_receive bid base ->
  balanced (add_take (add_take a (mkTrans ask (with_applied_trade ask base quote)))
                     (mkTrans bid (with_applied_trade bid quote base))).
Proof.
  intros Hbal Ca Cb Sa Sb Hne Hb Hq Ra Rb.
  destruct (applied_trade_amounts ask base quote) as [A1 A2]; [done|apply Ra..|].
  destruct (applied_trade_amounts bid quote base) as [B1 B2]; [done|apply Rb..|].
  set (ta := mkTrans ask _). set (tb := mkTrans bid _).
  assert (take_base ta = - base /\ take_quote ta = quote)%Z as [FA1 FA2].
  { unfold take_base, take_quote, ta. simpl. rewrite Sa, A1, A2. lia. }
  assert (take_base tb = base /\ take_quote tb = - quote)%Z as [FB1 FB2].
  { unfold take_base, take_quote, tb. simpl. rewrite Sb, B1, B2. lia. }
  destruct (add_take_flow a ta take_base) as [F1 F2].
  { intros tr E. by eapply combine_take_flows; [apply Hbal| |]. }
  destruct (add_take_flow a ta take_quote) as [F3 _].
  { intros tr E. by eapply combine_take_flows; [apply Hbal| |]. }
  destruct (add_take_wf a ta (bal_takes _ Hbal) (bal_nodup _ Hbal) (bal_dom _ Hbal) Ca
              (traded_take_wf _ _ _ Hb Ra)) as (W1 & W2 & W3).
  apply (add_take_balance _ _ base (- quote)); try done.
  - rewrite F2. apply Hbal.
  - rewrite F1, F2. pose proof (bal_base _ Hbal). lia.
  - rewrite F3, F2. pose proof (bal_quote _ Hbal). lia.
  - unfold taker_current, add_take in *. simpl in *.
    destruct (takes a !! (stable_id ask : TI)) eqn:E; simpl; by rewrite lookup_insert_ne.
  - by apply traded_take_wf.
Qed.

(** A trade with a pool: what the pool gains the taker pays and vice versa. *)
Lemma default_swap_flows t m chunk take make :
  (0 < chunk <= taker_input t)%Z -> swap_ok m (wrap (taker_side t) chunk) ->
  (match taker_side t with
   | Ask => can_receive t (quote_reserve (liquidity m))
   | Bid => can_receive t (base_reserve (liquidity m)) end) ->
  default_swap_with_taker t m (wrap (taker_side t) chunk) = (take, make) ->
  target take = t /\ target make = m /\ take_wf (stable_id t) take /\ make_wf (stable_id m) make /\
  (take_base take = - make_base make /\ take_quote take = - make_quote make)%Z.
Proof.
  intros Hc Hok Hrecv. unfold default_swap_with_taker. rewrite unwrap_wrap. intros [= <- <-].
  set (make := mkTrans m (swap m _)).
  assert (make_result make = swap_succ m (wrap (taker_side t) chunk)) as Er by done.
  pose proof (swap_nonneg _ _ Hok) as [N1 N2].
  set (out := default 0%Z (unwrap <$> make_loss make)).
  assert (can_receive t out /\ make_wf (stable_id m) make /\
          match taker_side t with
          | Ask => make_base make = chunk /\ make_quote make = - out
          | Bid => make_quote make = chunk /\ make_base make = - out end)%Z as (Hr & Hw & Hf).
  { unfold make_wf. rewrite Er, (swap_stable _ _ Hok).
    unfold out, make_loss, make_base, make_quote, can_receive in *. rewrite Er.
    destruct (taker_side t); simpl in *.
    - destruct (swap_bid _ _ Hok) as [-> ?]. rewrite checked_sub_Some by lia. simpl.
      repeat split; done || lia.
    - destruct (swap_ask _ _ Hok) as [-> ?].
      rewrite (checked_sub_lt (base_reserve _)), checked_sub_Some by lia. simpl.
      repeat split; done || lia. }
  destruct (applied_trade_amounts t chunk out) as [A1 A2]; [lia|apply Hr..|].
  split; [done|]. split; [done|]. split; [by apply traded_take_wf; [lia|]|]. split; [done|].
  unfold take_base, take_quote. simpl. rewrite A1, A2. destruct (taker_side t); lia.
Qed.

Lemma add_make_wf a m :
  map_Forall make_wf (makes a) -> make_wf (stable_id (target m)) m ->
  map_Forall make_wf (makes (add_make a m)).
Proof.
  intros Hw (_ & M2 & M3). unfold add_make. destruct (makes a !! _) as [tr|] eqn:E; simpl;
    apply map_Forall_insert_2; try done.
  destruct (Hw _ _ E) as (W1 & W2 & W3). done.
Qed.

Lemma balanced_swap a t m chunk take make :
  balanced a -> taker_current a t -> maker_current a m ->
  (0 < chunk <= taker_input t)%Z -> swap_ok m (wrap (taker_side t) chunk) ->
  (match taker_side t with
   | Ask => can_receive t (quote_reserve (liquidity m))
   | Bid => can_receive t (base_reserve (liquidity m)) end) ->
  default_swap_with_taker t m (wrap (taker_side t) chunk) = (take, make) ->
  balanced (add_take (add_make a make) take).
Proof.
  intros Hbal Ct Cm Hc Hok Hr Hd.
  destruct (default_swap_flows t m chunk take make Hc Hok Hr Hd) as (Et & Em & Wt & Wm & Fb & Fq).
  subst t m.
  destruct (add_make_flow a make make_base) as (F1 & F2 & F3).
  { intros tr E. by eapply combine_make_flows. }
  destruct (add_make_flow a make make_quote) as (F4 & _ & _).
  { intros tr E. by eapply combine_make_flows. }
  apply (add_take_balance _ _ (take_base take) (take_quote take)); try done; rewrite ?F1, ?F2, ?F3, ?F4.
  - apply Hbal.
  - apply add_make_wf; [apply Hbal|done].
  - apply Hbal.
  - apply (bal_dom _ Hbal).
  - pose proof (bal_base _ Hbal). lia.
  - pose proof (bal_quote _ Hbal). lia.
  - unfold taker_current. by rewrite F2.
Qed.

Lemma built_balanced a : Built a -> balanced a.
Proof.
  induction 1.
  - split; simpl; rewrite ?msum_empty; [done|done|apply map_Forall_empty..|constructor|].
    intros id. rewrite lookup_empty. split; [by intros ?%elem_of_nil|by intros []].
  - match goal with H : execute_with_taker _ _ _ = Ok _ |- _ => rename H into Hex end.
    destruct (execute_amounts x y ask bid f) as (base & quote & E & Hb & Hq & _); try done.
    rewrite E in Hex. injection Hex as <- <-.
    apply balanced_match; try done; unfold can_receive in *; lia.
  - by eapply balanced_swap.
Qed.

(** *** Finalisation *)

Definition rebalance_ok (m : MakeInProgress M) : Prop :=
  let next := liquidity (make_result m) in
  let init := liquidity (target m) in
  match checked_sub (base_reserve next) (base_reserve init) with
  | Some d => swap_ok (target m) (OnAsk d)
  | None => swap_ok (target m) (OnBid (quote_reserve next - quote_reserve init)%Z)
  end.

Definition next_base (m : MakeInProgress M) : Z := base_reserve (liquidity (make_result m)).
Definition next_quote (m : MakeInProgress M) : Z := quote_reserve (liquidity (make_result m)).

Lemma make_finalized_spec id m m' e :
  make_wf id m -> rebalance_ok m -> make_finalized m = Some (m', e) ->
  target m' = target m /\
  (0 <= ex_base e <= next_base m /\ 0 <= ex_quote e <= next_quote m /\
   make_base m' + ex_base e = make_base m /\ make_quote m' + ex_quote e = make_quote m)%Z.
Proof.
  intros (_ & _ & Hn) Hok. unfold make_finalized, rebalance_ok, next_base, next_quote in *.
  destruct (checked_sub (base_reserve _) _) as [d|] eqn:Ed.
  - apply checked_sub_inv in Ed as [Hd ->]. destruct (swap_ask _ _ Hok) as [E1 E2].
    rewrite preserve_law. intros [eq [He [= <- <-]]]%bind_Some.
    apply checked_sub_inv in He as [Hq ->]. split; [done|].
    unfold make_base, make_quote. cbn [make_result result target]. rewrite preserve_law. cbn. lia.
  - apply checked_sub_None in Ed. destruct (swap_bid _ _ Hok) as [E1 E2].
    intros [ti [[Hti ->]%checked_sub_inv H2]]%bind_Some.
    rewrite preserve_law in H2. apply bind_Some in H2 as [eb [He [= <- <-]]].
    apply checked_sub_inv in He as [Hq ->]. split; [done|].
    unfold make_base, make_quote. cbn [make_result result target]. rewrite preserve_law. cbn. lia.
Qed.

Local Notation Sum f l := (zsum ((fun p => f p.2) <$> l)).

Lemma finalize_makes_spec l : forall acc eb eq acc' eb' eq',
  Forall (fun p => make_wf p.1 p.2 /\ rebalance_ok p.2) l ->
  (0 <= eb /\ eb + Sum next_base l <= u64_max)%Z ->
  (0 <= eq /\ eq + Sum next_quote l <= u64_max)%Z ->
  finalize_makes l acc eb eq = Some (acc', eb', eq') ->
  exists l', acc' = acc ++ l' /\ l'.*1 = l.*1 /\
    (0 <= eb' <= eb + Sum next_base l /\ 0 <= eq' <= eq + Sum next_quote l /\
     Sum make_base l' + eb' = Sum make_base l + eb /\
     Sum make_quote l' + eq' = Sum make_quote l + eq)%Z.
Proof.
  induction l as [|[id m] l IH]; intros acc eb eq acc' eb' eq' Hl Hb Hq; cbn [finalize_makes].
  - intros [= <- <- <-]. exists []. rewrite app_nil_r. cbn in *. repeat split; done || lia.
  - apply Forall_cons in Hl as [[Hw Hr] Hl]. cbn in Hw, Hr. rewrite zsum_cons in Hb, Hq.
    assert (0 <= Sum next_base l /\ 0 <= Sum next_quote l)%Z as [P1 P2].
    { clear -Hl. induction Hl as [|[i x] l [(_ & _ & Hx) _] _ [IH1 IH2]]; [done|].
      rewrite !zsum_cons. unfold next_base, next_quote in *. cbn in Hx. lia. }
    destruct (make_finalized m) as [[m' e]|] eqn:Em; [|done]. cbn [mbind option_bind].
    destruct (make_finalized_spec _ _ _ _ Hw Hr Em) as (_ & E1 & E2 & E3 & E4).
    unfold wrap_u64, u64_max in *. rewrite !Z.mod_small by lia.
    intros Hf. apply IH in Hf as (l' & -> & H1 & H2 & H3 & H4 & H5); [|done|lia..].
    exists ((id, m') :: l'). rewrite <- app_assoc. rewrite !zsum_cons, !fmap_cons, H1.
    repeat split; done || lia.
Qed.

Lemma take_finalized_spec id t excess :
  take_wf id t -> (0 <= excess)%Z -> (0 <= rest_output (result t))%Z ->
  (rest_output (result t) + excess <= u64_max)%Z ->
  exists t', take_finalized t excess = Ok t' /\ target t' = target t /\
    rest_input (result t') = rest_input (result t) /\
    rest_output (result t') = (rest_output (result t) + excess)%Z.
Proof.
  intros (_ & Hi & _) He Ho Hm. unfold take_finalized, removed_input.
  rewrite checked_sub_Some by lia. cbn. eexists. split; [reflexivity|]. split; [done|]. cbn.
  destruct (result t) as [s|tt]; cbn in *.
  - destruct (output_added_law s excess) as [O1 O2]; [done..|].
    match goal with |- context [try_terminate ?x] => destruct (terminate_law x) as [-> ->] end.
    match goal with |- context [with_budget_corrected ?x ?d] =>
      destruct (budget_corrected_law x d) as [-> ->] end.
    match goal with |- context [with_fee_charged ?x ?d] =>
      destruct (fee_charged_law x d) as [-> ->] end. done.
  - split; [done|]. unfold wrap_u64, u64_max in *. by rewrite Z.mod_small by lia.
Qed.

(** The finalised take of [t]: same owner and input, no less output. *)
Definition take_grown (t t' : TakeInProgress T) : Prop :=
  target t' = target t /\ rest_input (result t') = rest_input (result t) /\
  (rest_output (result t) <= rest_output (result t'))%Z.

Lemma take_finalized_flows id t eb eq :
  take_wf id t -> (0 <= eb)%Z -> (0 <= eq)%Z -> (0 <= rest_output (result t))%Z ->
  (rest_output (result t) + eb <= u64_max)%Z -> (rest_output (result t) + eq <= u64_max)%Z ->
  exists t', take_finalized t (match taker_side (target t) with Bid => eb | Ask => eq end) = Ok t' /\
    take_grown t t' /\
    match taker_side (target t) with
    | Bid => take_base t' = (take_base t + eb)%Z /\ take_quote t' = take_quote t
    | Ask => take_base t' = take_base t /\ take_quote t' = (take_quote t + eq)%Z
    end.
Proof.
  intros Hw Hb Hq Ho Mb Mq.
  destruct (take_finalized_spec id t (match taker_side (target t) with Bid => eb | Ask => eq end))
    as (t' & E & Et & Ei & Eo); [done|by destruct (taker_side _)|done|by destruct (taker_side _)|].
  exists t'. split; [done|]. unfold take_grown, take_base, take_quote. rewrite Et, Ei, Eo.
  destruct (taker_side (target t)); repeat split; done || lia.
Qed.

Lemma finalize_takes_spec l : forall acc eb eq,
  Forall (fun p => take_wf p.1 p.2 /\ 0 <= rest_output (result p.2) /\
                   rest_output (result p.2) + eb <= u64_max /\
                   rest_output (result p.2) + eq <= u64_max)%Z l ->
  (0 <= eb)%Z -> (0 <= eq)%Z ->
  exists l' eb' eq', finalize_takes l acc eb eq = Ok (acc ++ l', eb', eq') /\ l'.*1 = l.*1 /\
    Forall2 (fun p p' => p'.1 = p.1 /\ take_grown p.2 p'.2) l l' /\
    (Sum take_base l' + eb' = Sum take_base l + eb /\
     Sum take_quote l' + eq' = Sum take_quote l + eq)%Z.
Proof.
  induction l as [|[id t] l IH]; intros acc eb eq Hl Hb Hq.
  - exists [], eb, eq. rewrite app_nil_r. cbn. repeat split; done || lia || constructor.
  - apply Forall_cons in Hl as [(Hw & Ho & Mb & Mq) Hl]. cbn in Hw, Ho, Mb, Mq.
    destruct (take_finalized_flows id t eb eq) as (t' & E & Hg & Hf); [done..|].
    cbn [finalize_takes]. destruct (taker_side (target t)); rewrite E; cbn [mbind outcome_bind].
    + destruct (IH (acc ++ [(id, t')]) 0%Z eq) as (l' & eb' & eq' & E' & K & F & S1 & S2);
        [|done..|].
      { eapply Forall_impl; [exact Hl|]. cbn. intros x (? & ? & ? & ?). split; [done|lia]. }
      exists ((id, t') :: l'), eb', eq'. rewrite E', <- app_assoc.
      split; [done|]. split; [by rewrite !fmap_cons, K|]. split; [by constructor|].
      rewrite !zsum_cons. lia.
    + destruct (IH (acc ++ [(id, t')]) eb 0%Z) as (l' & eb' & eq' & E' & K & F & S1 & S2);
        [|done..|].
      { eapply Forall_impl; [exact Hl|]. cbn. intros x (? & ? & ? & ?). split; [done|lia]. }
      exists ((id, t') :: l'), eb', eq'. rewrite E', <- app_assoc.
      split; [done|]. split; [by rewrite !fmap_cons, K|]. split; [by constructor|].
      rewrite !zsum_cons. lia.
Qed.

(** The amounts of the batch fit 64 bits: the pools' reserves together, and on
    top of them what each taker has received. *)
Record fits (a : Attempt) : Prop := {
  fits_base : (msum next_base (makes a) <= u64_max)%Z;
  fits_quote : (msum next_quote (makes a) <= u64_max)%Z;
  fits_takes : map_Forall (fun _ t => 0 <= rest_output (result t) /\
    rest_output (result t) + msum next_base (makes a) <= u64_max /\
    rest_output (result t) + msum next_quote (makes a) <= u64_max)%Z (takes a);
  fits_makes : map_Forall (fun _ m => rebalance_ok m) (makes a);
}.

Lemma finalize_batch a : balanced a -> fits a ->
  match finalize_makes (hash_iter (makes a)) [] 0 0 with
  | None => True
  | Some (lm, eb, eq) => exists lt eb' eq',
      finalize_takes (hash_iter (takes a)) [] eb eq = Ok (lt, eb', eq') /\
      lm.*1 = (hash_iter (makes a)).*1 /\ lt.*1 = (hash_iter (takes a)).*1 /\
      Forall2 (fun p p' => p'.1 = p.1 /\ take_grown p.2 p'.2) (hash_iter (takes a)) lt /\
      (Sum take_base lt + Sum make_base lm + eb' = 0 /\
       Sum take_quote lt + Sum make_quote lm + eq' = 0)%Z
  end.
Proof.
  intros Hb Hf. destruct (finalize_makes _ _ _ _) as [[[lm eb] eq]|] eqn:Em; [|done].
  apply finalize_makes_spec in Em as (lm' & -> & K & Beb & Beq & S1 & S2);
    rewrite ?msum_hash_iter in *.
  2: { apply Forall_forall. intros [id m] Hin%hash_iter_lookup.
       split; [by apply (bal_makes _ Hb)|by apply (fits_makes _ Hf id)]. }
  2,3: split; [done|]; apply Hf.
  destruct (finalize_takes_spec (hash_iter (takes a)) [] eb eq)
    as (lt & eb' & eq' & E & Kt & G & S3 & S4); [|lia..|].
  { apply Forall_forall. intros [id t] Hin%hash_iter_lookup. cbn.
    destruct (fits_takes _ Hf _ _ Hin) as (? & ? & ?). split; [by apply (bal_takes _ Hb)|].
    unfold next_base, next_quote in *. lia. }
  exists lt, eb', eq'. rewrite E. rewrite !msum_hash_iter in *.
  pose proof (bal_base _ Hb). pose proof (bal_quote _ Hb).
  split; [done|]. split; [done|]. split; [done|]. split; [done|]. rewrite app_nil_l. lia.
Qed.

Lemma finalized_recipe a : balanced a -> fits a ->
  exists o, attempt_finalized a = Ok o /\
    forall r, o = Some r ->
      (msum take_base (f_takes r) + msum make_base (f_makes r) = 0)%Z /\
      (msum take_quote (f_takes r) + msum make_quote (f_makes r) = 0)%Z /\
      f_ordering r = ordering a /\
      (forall id t', f_takes r !! id = Some t' ->
         exists t, takes a !! id = Some t /\ take_grown t t') /\
      (forall id, is_Some (takes a !! id) -> is_Some (f_takes r !! id)).
Proof.
  intros Hb Hf. pose proof (finalize_batch a Hb Hf) as Hfb. unfold attempt_finalized.
  destruct (finalize_makes _ _ _ _) as [[[lm eb] eq]|]; [|by eexists].
  destruct Hfb as (lt & eb' & eq' & E & Km & Kt & G & S1 & S2). rewrite E. cbn [mbind outcome_bind].
  eexists. split; [reflexivity|]. intros r.
  destruct (Z.eqb_spec eb' 0), (Z.eqb_spec eq' 0); try done. intros [= <-]. cbn.
  assert (NoDup lm.*1) as Nm by (rewrite Km; apply hash_iter_nodup).
  assert (NoDup lt.*1) as Nt by (rewrite Kt; apply hash_iter_nodup).
  rewrite !msum_list_to_map by done. split; [lia|]. split; [lia|]. split; [done|]. split.
  - intros id t' Hin%elem_of_list_to_map_2.
    apply list_elem_of_lookup in Hin as [i Hi].
    destruct (Forall2_lookup_r _ _ _ _ _ G Hi) as ([id0 t] & Hi' & [E1 Hg]). cbn in E1, Hg. subst id0.
    exists t. split; [|done]. apply hash_iter_lookup. by eapply list_elem_of_lookup_2.
  - intros id [t Ht%hash_iter_lookup]. assert (id ∈ lt.*1) as Hin.
    { rewrite Kt. apply list_elem_of_fmap. by exists (id, t). }
    apply list_elem_of_fmap in Hin as ([id0 t'] & -> & Hin). exists t'. cbn.
    by apply elem_of_list_to_map_1.
Qed.

(** *** Order of the instructions *)

Lemma positions_lookup (l : list TI) i id : NoDup l -> l !! i = Some id ->
  positions l !! id = Some i.
Proof.
  intros Hn Hi. unfold positions. apply elem_of_list_to_map_1.
  - rewrite fmap_reverse, fmap_imap. rewrite reverse_Permutation.
    replace (imap _ l) with l; [done|]. clear. induction l using rev_ind; [done|].
    rewrite imap_app. cbn. by rewrite <- IHl.
  - rewrite elem_of_reverse. apply elem_of_lookup_imap. by exists i, id.
Qed.

Lemma cached_keys_spec (l : list (TI * TakeInProgress T)) : forall ord,
  NoDup ((fun p => stable_id (target p.2) : TI) <$> l) ->
  Forall (fun p => is_Some (ord !! (stable_id (target p.2) : TI))) l ->
  exists keyed, cached_keys ord l = Ok keyed /\ keyed.*2 = l.*2 /\
    Forall (fun p => ord !! (stable_id (target p.2) : TI) = Some p.1) keyed.
Proof.
  induction l as [|[id t] l IH]; intros ord Hn Hs; [by eexists|].
  rewrite fmap_cons in Hn. apply NoDup_cons in Hn as [Hni Hn].
  apply Forall_cons in Hs as [[i Hi] Hs]. cbn [cached_keys snd] in *. rewrite Hi.
  destruct (IH (base.delete (stable_id (target t) : TI) ord)) as (keyed & E & K & F); [done| |].
  - apply Forall_forall. intros p Hp. rewrite Forall_forall in Hs.
    rewrite lookup_delete_ne; [by apply Hs|]. intros Heq. apply Hni.
    apply list_elem_of_fmap. by exists p.
  - rewrite E. cbn [mbind outcome_bind]. eexists. split; [done|]. split; [by rewrite !fmap_cons, K|].
    constructor; [done|]. eapply Forall_impl; [exact F|]. cbn. intros p Hp.
    by apply lookup_delete_Some in Hp as [_ ?].
Qed.

Definition fst_le (x y : nat * TI) : Prop := x.1 <= y.1.

Lemma imap_sorted (l : list TI) : forall k, StronglySorted fst_le (imap (fun i x => (k + i, x)) l).
Proof.
  induction l as [|x l IH]; intros k; [constructor|]. rewrite imap_cons. constructor.
  - specialize (IH (S k)). erewrite imap_ext; [exact IH|]. intros. cbn. f_equal. lia.
  - apply Forall_forall. intros p (i & y & -> & _)%elem_of_lookup_imap_1. unfold fst_le. cbn. lia.
Qed.

(** Takes sorted by their position come out in the order of the batch. *)
Lemma sorted_by_position (ord : list TI) (l : list (nat * TakeInProgress T)) :
  NoDup ord -> StronglySorted key_nat_le l ->
  Forall (fun p => positions ord !! (stable_id (target p.2) : TI) = Some p.1) l ->
  ((fun p => stable_id (target p.2)) <$> l) ≡ₚ ord ->
  ((fun p => stable_id (target p.2)) <$> l) = ord.
Proof.
  intros Hn Hs Hp Hperm.
  set (F := fun id : TI => (default 0 (positions ord !! id), id)).
  set (ids := (fun p => stable_id (target p.2)) <$> l) in *.
  assert (F <$> ids = F <$> ord) as E.
  { apply (StronglySorted_unique_strong fst_le); [| | |by rewrite Hperm].
    - intros x1 x2 (i1 & -> & H1)%list_elem_of_fmap (i2 & -> & H2)%list_elem_of_fmap L1 L2.
      rewrite Hperm in H1. unfold fst_le, F in *. cbn in *.
      apply list_elem_of_lookup in H1 as [j1 J1]. apply list_elem_of_lookup in H2 as [j2 J2].
      rewrite (positions_lookup _ _ _ Hn J1), (positions_lookup _ _ _ Hn J2) in *. cbn in *.
      assert (j1 = j2) as -> by lia. congruence.
    - unfold ids. clear -Hs Hp. induction Hs as [|p l Hs IH Hf]; [constructor|].
      apply Forall_cons in Hp as [Hp Hps]. constructor; [by apply IH|].
      apply Forall_forall. intros x (id & -> & (q & -> & Hq)%list_elem_of_fmap)%list_elem_of_fmap.
      rewrite Forall_forall in Hf, Hps. specialize (Hf q Hq). specialize (Hps q Hq).
      unfold fst_le, F. cbn. by rewrite Hp, Hps.
    - replace (F <$> ord) with (imap (fun i x => (0 + i, x)) ord); [apply imap_sorted|].
      apply list_eq. intros i. rewrite list_lookup_imap, list_lookup_fmap.
      destruct (ord !! i) as [id|] eqn:Ei; [|done]. cbn. unfold F.
      by rewrite (positions_lookup _ _ _ Hn Ei). }
  apply (f_equal (fmap snd)) in E. rewrite <- !list_fmap_compose in E.
  unfold compose, F in E. cbn in E. by rewrite !list_fmap_id in E.
Qed.

(** *** Recipes *)

Definition satisfied (t : TakeInProgress T) : Prop :=
  exists added, added_output t = Ok added /\ (min_marginal_output (target t) <= added)%Z.

Lemma unsatisfied_of_spec (l : list (TI * TakeInProgress T)) :
  Forall (fun p => taker_output (target p.2) <= rest_output (result p.2))%Z l ->
  exists ts, unsatisfied_of l = Ok ts /\ (ts = [] -> Forall (fun p => satisfied p.2) l).
Proof.
  induction 1 as [|[id t] l Ht _ (ts & E & IH)]; [by eexists|]. cbn [unsatisfied_of snd] in *.
  assert (exists added, added_output t = Ok added) as [added Ea].
  { unfold added_output. rewrite checked_sub_Some by done. by eexists. }
  rewrite Ea, E. eexists. split; [done|].
  destruct (Z.ltb_spec added (min_marginal_output (target t))); [done|].
  intros ->. constructor; [|by apply IH]. by exists added.
Qed.

Definition instr_base (i : Instruction T M) : Z :=
  match i with TakeI t => take_base t | MakeI m => make_base m end.
Definition instr_quote (i : Instruction T M) : Z :=
  match i with TakeI t => take_quote t | MakeI m => make_quote m end.
Definition instr_ok (i : Instruction T M) : Prop :=
  match i with TakeI t => satisfied t | MakeI m => make_is_zero m = false end.
Definition instr_taker (i : Instruction T M) : option TI :=
  match i with TakeI t => Some (stable_id (target t)) | MakeI _ => None end.

(** The flows of the instructions are the sums over the two lists. *)
Lemma instr_flows (lt : list (TakeInProgress T)) (lm : list (MakeInProgress M)) :
  zsum (instr_base <$> (TakeI <$> lt) ++ (MakeI <$> lm)) =
    (zsum (take_base <$> lt) + zsum (make_base <$> lm))%Z /\
  zsum (instr_quote <$> (TakeI <$> lt) ++ (MakeI <$> lm)) =
    (zsum (take_quote <$> lt) + zsum (make_quote <$> lm))%Z /\
  omap instr_taker ((TakeI <$> lt) ++ (MakeI <$> lm)) = (fun t => stable_id (target t)) <$> lt.
Proof.
  rewrite !fmap_app, !zsum_app, <- !list_fmap_compose, omap_app. split; [done|]. split; [done|].
  assert (omap instr_taker (MakeI <$> lm) = []) as -> by by induction lm.
  rewrite app_nil_r. induction lt as [|t lt IH]; [done|]. cbn. by f_equal.
Qed.

#[local] Instance key_nat_le_trans : Transitive (@key_nat_le T).
Proof. intros x y z. unfold key_nat_le. lia. Qed.
#[local] Instance key_nat_le_total : Total (@key_nat_le T).
Proof. intros x y. unfold key_nat_le. lia. Qed.

(** The takes of a finished recipe sorted for execution. *)
Lemma sorted_takes a r : NoDup (ordering a) ->
  (forall id, id ∈ ordering a <-> is_Some (f_takes r !! id)) ->
  (forall id t, f_takes r !! id = Some t -> stable_id (target t) = id) ->
  exists keyed, cached_keys (positions (ordering a)) (hash_iter (f_takes r)) = Ok keyed /\
    let lt := snd <$> merge_sort key_nat_le keyed in
    lt ≡ₚ (hash_iter (f_takes r)).*2 /\ ((fun t => stable_id (target t)) <$> lt) = ordering a.
Proof.
  intros Hn Hd Hid.
  assert (((fun p => stable_id (target p.2) : TI) <$> hash_iter (f_takes r)) =
          (hash_iter (f_takes r)).*1) as Eids.
  { apply list_fmap_ext. intros i [id t] Hi. cbn. apply Hid. apply hash_iter_lookup.
    by eapply list_elem_of_lookup_2. }
  destruct (cached_keys_spec (hash_iter (f_takes r)) (positions (ordering a)))
    as (keyed & E & K & F).
  { rewrite Eids. apply hash_iter_nodup. }
  { apply Forall_forall. intros [id t] Hin%hash_iter_lookup. cbn. rewrite (Hid _ _ Hin).
    assert (id ∈ ordering a) as Ho by (apply Hd; by eexists).
    apply list_elem_of_lookup in Ho as [i Hi]. rewrite (positions_lookup _ _ _ Hn Hi). by eexists. }
  exists keyed. split; [done|]. cbn zeta.
  pose proof (merge_sort_Permutation key_nat_le keyed) as Pm.
  split; [by rewrite Pm, K|]. rewrite <- list_fmap_compose.
  apply sorted_by_position; [done| |by rewrite Pm|].
  - apply (StronglySorted_merge_sort key_nat_le).
  - rewrite Pm. change (((fun t => stable_id (target t)) ∘ snd <$> keyed) ≡ₚ ordering a).
    rewrite (list_fmap_compose snd), K, <- list_fmap_compose.
    unfold compose. rewrite Eids.
    apply NoDup_Permutation; [apply hash_iter_nodup|done|]. intros id. rewrite Hd.
    rewrite list_elem_of_fmap. split.
    + intros ([id0 t] & -> & Hin%hash_iter_lookup). by eexists.
    + intros [t Ht%hash_iter_lookup]. by exists (id, t).
Qed.

(** The recipe of a batch, if there is one. *)
Lemma recipe_conserves a step_budget : Built a -> fits a ->
  match recipe_try_from a step_budget with
  | Ok instrs =>
    zsum (instr_base <$> instrs) = 0%Z /\ zsum (instr_quote <$> instrs) = 0%Z /\
    omap instr_taker instrs = ordering a /\ Forall instr_ok instrs
  | Err _ => True
  | Panic => False
  end.
Proof.
  intros Hb%built_balanced Hf. unfold recipe_try_from. destruct (is_complete a); [|done].
  destruct (finalized_recipe a Hb Hf) as (o & -> & Ho). destruct o as [r|]; [|done].
  destruct (Ho r eq_refl) as (Sb & Sq & Eo & Hg & Hd). rewrite Eo.
  assert (forall id t, f_takes r !! id = Some t -> stable_id (target t) = id /\
            (taker_output (target t) <= rest_output (result t))%Z) as Hr.
  { intros id t' (t & Ht & -> & _ & Hle)%Hg.
    destruct (bal_takes _ Hb _ _ Ht) as (Eid & _ & Hout & _). split; [done|lia]. }
  destruct (unsatisfied_of_spec (hash_iter (f_takes r))) as (ts & Eu & Hsat).
  { apply Forall_forall. intros [id t] Hin%hash_iter_lookup. by apply (Hr id). }
  unfold unsatisfied_fragments. rewrite Eu. destruct ts as [|]; [|done].
  destruct (sorted_takes a r) as (keyed & -> & Pl & El); [apply Hb| |by intros; apply Hr|].
  { intros id. rewrite (bal_dom _ Hb id). split; [apply Hd|].
    intros [t' (t & Ht & _)%Hg]. by eexists. }
  cbv zeta in Pl, El.
  set (lt := snd <$> merge_sort key_nat_le keyed) in *. clearbody lt.
  destruct (existsb make_is_zero _) eqn:Ez; [done|]. cbn [negb].
  destruct (check_recipe_complexity _ _); [|done].
  destruct (instr_flows lt (hash_iter (f_makes r)).*2) as (-> & -> & ->).
  assert (forall f, zsum (f <$> lt) = msum f (f_takes r)) as Et.
  { intros f. rewrite Pl, <- list_fmap_compose. apply msum_hash_iter. }
  rewrite !Et, <- !list_fmap_compose. unfold compose. rewrite !msum_hash_iter.
  split; [done|]. split; [done|]. split; [done|].
  apply Forall_app. split; apply Forall_fmap.
  - rewrite Pl. apply Forall_fmap. by apply Hsat.
  - apply Forall_forall. intros m Hm. cbn. apply not_true_is_false. intros Hz.
    enough (existsb make_is_zero (hash_iter (f_makes r)).*2 = true) by congruence.
    apply existsb_exists. exists m.2. rewrite <- list_elem_of_In.
    split; [|done]. apply list_elem_of_fmap. by exists m.
Qed.

(** C2: A recipe conserves value.  For every batch the matchmaker builds,
    forming the recipe never panics; in an accepted recipe all the base the
    takers and pools receive is base other takers and pools pay, and the same
    for quote; the takes come in the order their owners entered the batch,
    every taker receives at least its minimal output, and every pool trades. *)
Theorem accepted_recipe_conserves a step_budget : Built a -> fits a ->
  match recipe_try_from a step_budget with
  | Ok instrs =>
    zsum (instr_base <$> instrs) = 0%Z /\ zsum (instr_quote <$> instrs) = 0%Z /\
    omap instr_taker instrs = ordering a /\ Forall instr_ok instrs
  | Err _ => True
  | Panic => False
  end.
Proof. apply recipe_conserves. Qed.

End Balance.
