(* ===== verification/RoyaltyPool.v ===== *)
(** * The royalty constant-product pool

    [spectrum-offchain-cardano/src/pool_math/cfmm_math.rs],
    [data/cfmm_pool/royalty_pool.rs] (the trading part) and the wrapper
    [bloom-offchain-cardano/src/pools/royalty_v1.rs] the agent trades with.

    Arithmetic on [u64] and [u128] wraps, as in the release profile; a
    division by zero panics.  [Ratio<u64>] and [BigNumber] are libraries,
    classes [FeeLib] and [BigNumberLib]. *)

From stdpp Require Import base gmap list.
From Stdlib Require Import ZArith Lia Strings.Byte.
From S2P Require Import Prelude LbTypes Assets GreenOrder LbCore LbCoreProofs.

(** ** Libraries *)

(** [num_rational::Ratio<u64>]. *)
Class FeeLib := {
  fee_sub : Ratio -> Ratio -> Ratio;
  fee_checked_sub : Ratio -> Ratio -> option Ratio;
}.

(** Subtracting a smaller ratio is exact and gives a ratio. *)
Class FeeLaws `{FeeLib} : Prop :=
  fee_sub_eq : forall a b, ratio_wf a -> ratio_wf b -> ratio_le b a ->
    ratio_wf (fee_sub a b) /\
    (numer (fee_sub a b) * (denom a * denom b) =
       (numer a * denom b - numer b * denom a) * denom (fee_sub a b))%Z.

(** [f64] and the decimal arithmetic of [bignumber::BigNumber]. *)
Class BigNumberLib := {
  f64 : Type;
  bignum : Type;
  as_f64 : Z -> f64;
  f64_half : f64;
  ratio_to_f64 : Ratio -> option f64;
  bn_from : f64 -> bignum;
  bn_from_int : Z -> bignum;
  bn_add : bignum -> bignum -> bignum;
  bn_sub : bignum -> bignum -> bignum;
  bn_mul : bignum -> bignum -> bignum;
  bn_div : bignum -> bignum -> bignum;
  bn_pow : bignum -> bignum -> bignum;
  bn_to_u64 : bignum -> option Z;   (* [u64::try_from(b.value.to_int().value()).ok()] *)
}.

(** ** Constant-product arithmetic *)

Definition UNTOUCHABLE_LOVELACE_AMOUNT : Z := 3000000.

Definition is_native (a : AssetClass) : bool := bool_decide (a = Native).

(** [reserves_out * amount * fee / (reserves_in * fee_den + amount * fee)]. *)
Definition cfmm_quote (reserves_in reserves_out amount : Z) (fee : Ratio) : panics Z :=
  let divisor := wrap_u128 (wrap_u128 (reserves_in * denom fee) + wrap_u128 (amount * numer fee)) in
  if (divisor =? 0)%Z then Panic
  else Ok (wrap_u128 (wrap_u128 (reserves_out * amount) * numer fee) / divisor)%Z.

Definition classic_cfmm_output_amount (asset_x asset_y : AssetClass) (reserves_x reserves_y : Z)
    (base_asset : AssetClass) (base_amount : Z) (pool_fee_x pool_fee_y : Ratio) : panics Z :=
  quote_amount ←
    (if bool_decide (base_asset = asset_x)
     then cfmm_quote reserves_x reserves_y base_amount pool_fee_x
     else cfmm_quote reserves_y reserves_x base_amount pool_fee_y);
  let '(output_asset, liquidity) :=
    if bool_decide (base_asset = asset_x) then (asset_y, reserves_y) else (asset_x, reserves_x) in
  Ok (if is_native output_asset then
        let amount_left := wrap_u64 (liquidity - wrap_u64 quote_amount) in
        if (amount_left <? UNTOUCHABLE_LOVELACE_AMOUNT)%Z
        then wrap_u64 (liquidity - UNTOUCHABLE_LOVELACE_AMOUNT)
        else wrap_u64 quote_amount
      else wrap_u64 quote_amount).

Definition classic_cfmm_reward_lp (reserves_x reserves_y liquidity in_x_amount in_y_amount : Z)
    : option (Z * Z * Z) :=
  min_by_x ← checked_div (in_x_amount * liquidity) reserves_x;
  min_by_y ← checked_div (in_y_amount * liquidity) reserves_y;
  '(change_by_x, change_by_y) ←
    (if (min_by_x =? min_by_y)%Z then Some (0, 0)%Z
     else if (min_by_x <? min_by_y)%Z then
       c ← checked_div (wrap_u128 ((min_by_y - min_by_x) * reserves_y)) liquidity;
       Some (0%Z, wrap_u64 c)
     else
       c ← checked_div (wrap_u128 ((min_by_x - min_by_y) * reserves_x)) liquidity;
       Some (wrap_u64 c, 0%Z));
  let unlocked_lq := wrap_u64 (Z.min min_by_x min_by_y) in
  Some (unlocked_lq, change_by_x, change_by_y).

Definition classic_cfmm_shares_amount (reserves_x reserves_y liquidity burned_lq : Z)
    : option (Z * Z) :=
  x_amount ← checked_div (burned_lq * reserves_x) liquidity;
  y_amount ← checked_div (burned_lq * reserves_y) liquidity;
  Some (wrap_u64 x_amount, wrap_u64 y_amount).

(** ** The pool *)

Inductive RoyaltyPoolVer := V1 | V1LedgerFixed | V2.

Record PoolValidation := mkPoolValidation { min_n2t_lovelace : Z; min_t2t_lovelace : Z }.

Record RoyaltyPool := mkRoyaltyPool {
  rp_id : Token;
  reserves_x : Z;
  reserves_y : Z;
  rp_liquidity : Z;
  asset_x : AssetClass;
  asset_y : AssetClass;
  asset_lq : AssetClass;
  lp_fee : Ratio;
  treasury_fee : Ratio;
  treasury_x : Z;
  treasury_y : Z;
  first_royalty_fee : Ratio;
  second_royalty_fee : Ratio;
  first_royalty_x : Z;
  first_royalty_y : Z;
  second_royalty_x : Z;
  second_royalty_y : Z;
  lq_lower_bound : Z;
  admin_address : bytes;
  treasury_address : bytes;
  first_royalty_pub_key : bytes;
  second_royalty_pub_key : bytes;
  ver : RoyaltyPoolVer;
  marginal_cost : ExUnits;
  bounds : PoolValidation;
  rp_nonce : Z;
  stake_part_script_hash : option bytes;
}.

(** The four amounts the pool keeps per asset; [swap] borrows them mutably. *)
Record Balances := mkBalances {
  b_reserves : Z; b_treasury : Z; b_first : Z; b_second : Z;
}.
Definition balances_x (p : RoyaltyPool) : Balances :=
  mkBalances (reserves_x p) (treasury_x p) (first_royalty_x p) (second_royalty_x p).
Definition balances_y (p : RoyaltyPool) : Balances :=
  mkBalances (reserves_y p) (treasury_y p) (first_royalty_y p) (second_royalty_y p).

Definition set_balances (p : RoyaltyPool) (x y : Balances) : RoyaltyPool :=
  mkRoyaltyPool (rp_id p) (b_reserves x) (b_reserves y) (rp_liquidity p) (asset_x p) (asset_y p)
    (asset_lq p) (lp_fee p) (treasury_fee p) (b_treasury x) (b_treasury y)
    (first_royalty_fee p) (second_royalty_fee p) (b_first x) (b_first y) (b_second x) (b_second y)
    (lq_lower_bound p) (admin_address p) (treasury_address p) (first_royalty_pub_key p)
    (second_royalty_pub_key p) (ver p) (marginal_cost p) (bounds p) (rp_nonce p)
    (stake_part_script_hash p).

(** [reserves - treasury - first_royalty - second_royalty]. *)
Definition tradable (b : Balances) : Z :=
  wrap_u64 (wrap_u64 (wrap_u64 (b_reserves b - b_treasury b) - b_first b) - b_second b).

Section Pool.
Context `{FL : FeeLib}.

(** [lp_fee - treasury_fee - first_royalty_fee - second_royalty_fee]. *)
Definition net_fee (p : RoyaltyPool) : Ratio :=
  fee_sub (fee_sub (fee_sub (lp_fee p) (treasury_fee p)) (first_royalty_fee p)) (second_royalty_fee p).

Definition royalty_output_amount (p : RoyaltyPool) (base_asset : AssetClass) (base_amount : Z)
    : panics Z :=
  classic_cfmm_output_amount (asset_x p) (asset_y p) (tradable (balances_x p))
    (tradable (balances_y p)) base_asset base_amount (net_fee p) (net_fee p).

Definition royalty_reward_lp (p : RoyaltyPool) (in_x_amount in_y_amount : Z) : option (Z * Z * Z) :=
  classic_cfmm_reward_lp (tradable (balances_x p)) (tradable (balances_y p)) (rp_liquidity p)
    in_x_amount in_y_amount.

Definition royalty_shares_amount (p : RoyaltyPool) (burned_lq : Z) : option (Z * Z) :=
  classic_cfmm_shares_amount (tradable (balances_x p)) (tradable (balances_y p)) (rp_liquidity p)
    burned_lq.

(** The canonical order of the pool's assets. *)
Definition base_of (p : RoyaltyPool) : AssetClass := (order_canonical (asset_x p) (asset_y p)).1.
Definition quote_of (p : RoyaltyPool) : AssetClass := (order_canonical (asset_x p) (asset_y p)).2.

(** The output of the given input, dispatched on its side. *)
Definition output_on_side (p : RoyaltyPool) (input : OnSide Z) : panics Z :=
  match input with
  | OnBid input => royalty_output_amount p (quote_of p) input
  | OnAsk input => royalty_output_amount p (base_of p) input
  end.

(** [(input * fee.numer()) / fee.denom()] on [u64]. *)
Definition fee_share (input : Z) (fee : Ratio) : panics Z :=
  if (denom fee =? 0)%Z then Panic else Ok (wrap_u64 (input * numer fee) / denom fee)%Z.

(** The asset that comes in and the asset that goes out. *)
Definition balances_in (p : RoyaltyPool) (b : Balances) (input : Z) : panics Balances :=
  t ← fee_share input (treasury_fee p);
  f ← fee_share input (first_royalty_fee p);
  s ← fee_share input (second_royalty_fee p);
  Ok (mkBalances (wrap_u64 (b_reserves b + input)) (wrap_u64 (b_treasury b + t))
        (wrap_u64 (b_first b + f)) (wrap_u64 (b_second b + s))).
Definition balances_out (b : Balances) (output : Z) : Balances :=
  mkBalances (wrap_u64 (b_reserves b - output)) (b_treasury b) (b_first b) (b_second b).

Definition royalty_swap (p : RoyaltyPool) (input : OnSide Z) : panics RoyaltyPool :=
  output ← output_on_side p input;
  let x_is_base := bool_decide (asset_x p = base_of p) in
  let '(base, quote) := if x_is_base then (balances_x p, balances_y p)
                        else (balances_y p, balances_x p) in
  '(base, quote) ←
    match input with
    | OnBid input => quote ← balances_in p quote input; Ok (balances_out base output, quote)
    | OnAsk input => base ← balances_in p base input; Ok (base, balances_out quote output)
    end;
  Ok (if x_is_base then set_balances p base quote else set_balances p quote base).

Definition royalty_static_price (p : RoyaltyPool) : AbsolutePrice :=
  let available_x_reserves := tradable (balances_x p) in
  let available_y_reserves := tradable (balances_y p) in
  if (available_x_reserves =? available_y_reserves)%Z then mkRatio 1 1
  else if bool_decide (asset_x p = base_of p)
       then mkRatio available_y_reserves available_x_reserves
       else mkRatio available_x_reserves available_y_reserves.

Definition royalty_real_price (p : RoyaltyPool) (input : OnSide Z) : panics (option AbsolutePrice) :=
  output ← output_on_side p input;
  Ok match input with
     | OnBid input => price_new input output
     | OnAsk input => price_new output input
     end.

Definition royalty_is_active (p : RoyaltyPool) : bool :=
  let lq_bound := (lq_lower_bound p <=? wrap_u64 (reserves_x p * 2))%Z in
  let native_bound :=
    if is_native (asset_x p) then (min_n2t_lovelace (bounds p) <=? reserves_x p)%Z
    else if is_native (asset_y p) then (min_n2t_lovelace (bounds p) <=? reserves_y p)%Z
    else true in
  lq_bound && native_bound.

Definition royalty_liquidity (p : RoyaltyPool) : AbsoluteReserves :=
  if bool_decide (base_of p = asset_x p)
  then mkReserves (reserves_x p) (reserves_y p) else mkReserves (reserves_y p) (reserves_x p).

Definition royalty_estimated_trade (p : RoyaltyPool) (input : OnSide Z)
    : panics (option AvailableLiquidity) :=
  output ← output_on_side p input;
  Ok (Some (mkAvailable (unwrap input) output)).

(** The second half of [available_liquidity_on_side]: the input that moves the
    pool's average price to the given one, in the library's decimals. *)
Definition liquidity_at_price `{BigNumberLib} (quote_int : Z) (r_base r_quote fee avg_price : bignum)
    : option AvailableLiquidity :=
  let sqrt_degree := bn_from f64_half in
  let lq_balance := bn_pow (bn_mul r_base r_quote) sqrt_degree in
  let p1 := bn_pow (bn_div (bn_mul (bn_div avg_price fee) lq_balance) r_quote) (bn_from_int 2) in
  let p1_sqrt := bn_pow p1 sqrt_degree in
  let x1 := bn_div lq_balance p1_sqrt in
  let y1 := bn_mul lq_balance p1_sqrt in
  input_amount_val ← bn_to_u64 (bn_div (bn_sub x1 r_base) fee);
  output_amount_val ← bn_to_u64 (bn_sub r_quote y1);
  remain_quote ← checked_sub quote_int output_amount_val;
  capped_output_amount ←
    (match checked_sub UNTOUCHABLE_LOVELACE_AMOUNT remain_quote with
     | Some _ => checked_sub quote_int UNTOUCHABLE_LOVELACE_AMOUNT
     | None => Some output_amount_val
     end);
  Some (mkAvailable input_amount_val capped_output_amount).

Definition royalty_available_liquidity_on_side `{BigNumberLib} (p : RoyaltyPool)
    (worst_price : OnSide AbsolutePrice) : option AvailableLiquidity :=
  let x_int := tradable (balances_x p) in
  let x := bn_from (as_f64 x_int) in
  let y_int := tradable (balances_y p) in
  let y := bn_from (as_f64 y_int) in
  f1 ← fee_checked_sub (lp_fee p) (treasury_fee p);
  f2 ← fee_checked_sub f1 (first_royalty_fee p);
  raw_fee ← fee_checked_sub f2 (second_royalty_fee p);
  fee_f ← ratio_to_f64 raw_fee;
  let fee := bn_from fee_f in
  let price := LbTypes.unwrap worst_price in
  let bid_price := bn_div (bn_from (as_f64 (denom price))) (bn_from (as_f64 (numer price))) in
  let ask_price := bn_div (bn_from (as_f64 (numer price))) (bn_from (as_f64 (denom price))) in
  let base_is_x := bool_decide (base_of p = asset_x p) in
  match worst_price with
  | OnBid _ => if base_is_x then liquidity_at_price x_int y x fee bid_price
               else liquidity_at_price y_int x y fee bid_price
  | OnAsk _ => if base_is_x then liquidity_at_price y_int x y fee ask_price
               else liquidity_at_price x_int y x fee ask_price
  end.

(** The traits have no room for a panic: where the code would panic, the pool
    keeps its state and quotes nothing; [royalty_swap_succeeds] shows when that
    does not happen. *)
Global Instance royalty_maker_behavior : MakerBehavior RoyaltyPool := {|
  swap := fun p input => Succ (match royalty_swap p input with Ok p' => p' | _ => p end);
  preserve_preview_metadata := fun _ _ rebalanced => rebalanced;
|}.

Global Instance royalty_market_maker `{BigNumberLib} : MarketMaker RoyaltyPool ExUnits := {|
  static_price := royalty_static_price;
  real_price := fun p i => match royalty_real_price p i with Ok o => o | _ => None end;
  quality := rp_liquidity;
  maker_marginal_cost_hint := marginal_cost;
  liquidity := royalty_liquidity;
  available_liquidity_on_side := royalty_available_liquidity_on_side;
  estimated_trade := fun p i => match royalty_estimated_trade p i with Ok o => o | _ => None end;
  is_active := royalty_is_active;
|}.

End Pool.

Global Instance royalty_stable : Stable RoyaltyPool Token := rp_id.

(** ** Royalty V1 only ([royalty_v1.rs]) *)

Record RoyaltyV1PoolOnly := mkV1Only { inner : RoyaltyPool }.

Definition try_from_royalty_pool (pool : RoyaltyPool) : option RoyaltyV1PoolOnly :=
  match ver pool with V1 | V1LedgerFixed => Some (mkV1Only pool) | V2 => None end.

Global Instance v1_maker_behavior `{FeeLib} : MakerBehavior RoyaltyV1PoolOnly := {|
  swap := fun p input => map_succ mkV1Only (swap (inner p) input);
  preserve_preview_metadata := fun p previewed rebalanced =>
    mkV1Only (preserve_preview_metadata (inner p) (inner previewed) (inner rebalanced));
|}.

Global Instance v1_market_maker `{FeeLib} `{BigNumberLib} : MarketMaker RoyaltyV1PoolOnly ExUnits := {|
  static_price := fun p => static_price (inner p);
  real_price := fun p => real_price (inner p);
  quality := fun p => quality (inner p);
  maker_marginal_cost_hint := fun p => maker_marginal_cost_hint (inner p);
  liquidity := fun p => liquidity (inner p);
  available_liquidity_on_side := fun p => available_liquidity_on_side (inner p);
  estimated_trade := fun p => estimated_trade (inner p);
  is_active := fun p => is_active (inner p);
|}.

Global Instance v1_stable : Stable RoyaltyV1PoolOnly Token := fun p => stable_id (inner p).

Definition v1_pair_id (p : RoyaltyV1PoolOnly) : PairId :=
  canonical (asset_x (inner p)) (asset_y (inner p)).
