(* ===== verification/RoyaltyPoolProofs.v ===== *)
(** * The royalty pool never loses value in a swap

    Theorems about [RoyaltyPool.v]: the amounts a swap moves, the product of
    the tradable reserves, the lovelace floor, and the laws the liquidity book
    relies on. *)

From stdpp Require Import base gmap list.
From Stdlib Require Import ZArith Lia.
From S2P Require Import Prelude LbTypes Assets GreenOrder LbCore LbCoreProofs RoyaltyPool.

(** ** Constant-product output *)

Section Cfmm.
Open Scope Z_scope.

Lemma cfmm_quote_spec rin rout amount fee :
  0 < rin -> 0 <= rout -> 0 <= amount -> 0 <= numer fee -> 0 < denom fee ->
  rin * denom fee + amount * numer fee <= u128_max ->
  rout * amount * numer fee <= u128_max -> rout * amount <= u128_max ->
  exists q, cfmm_quote rin rout amount fee = Ok q /\ 0 <= q <= rout /\
    q * (rin * denom fee + amount * numer fee) <= rout * amount * numer fee.
Proof.
  intros Hi Ho Ha Hn Hd H1 H2 H3. unfold cfmm_quote.
  rewrite (wrap_u128_small (rin * denom fee)), (wrap_u128_small (amount * numer fee)) by nia.
  rewrite (wrap_u128_small (rin * denom fee + amount * numer fee)) by nia.
  rewrite (wrap_u128_small (rout * amount)) by nia.
  rewrite (wrap_u128_small (rout * amount * numer fee)) by nia.
  set (D := rin * denom fee + amount * numer fee) in *.
  assert (0 < D) by (unfold D; nia). destruct (Z.eqb_spec D 0); [lia|].
  eexists. split; [done|].
  pose proof (Z.mul_div_le (rout * amount * numer fee) D ltac:(done)).
  split; [|lia]. split; [apply Z.div_pos; nia|].
  apply Z.div_le_upper_bound; [done|]. unfold D. nia.
Qed.

(** The cap keeps [UNTOUCHABLE_LOVELACE_AMOUNT] in a pool that has it. *)
Definition capped (native : bool) (liquidity quote_amount : Z) : Z :=
  if native then
    let amount_left := wrap_u64 (liquidity - wrap_u64 quote_amount) in
    if amount_left <? UNTOUCHABLE_LOVELACE_AMOUNT
    then wrap_u64 (liquidity - UNTOUCHABLE_LOVELACE_AMOUNT) else wrap_u64 quote_amount
  else wrap_u64 quote_amount.

Lemma capped_spec native rout q :
  is_u64 rout -> 0 <= q <= rout -> (native = true -> UNTOUCHABLE_LOVELACE_AMOUNT <= rout) ->
  0 <= capped native rout q <= q /\
  (native = true -> UNTOUCHABLE_LOVELACE_AMOUNT <= rout - capped native rout q).
Proof.
  unfold capped, UNTOUCHABLE_LOVELACE_AMOUNT, is_u64. intros Hr Hq Hn.
  rewrite (wrap_u64_small q) by (unfold is_u64; lia).
  destruct native; [|split; [lia|done]]. specialize (Hn eq_refl).
  rewrite (wrap_u64_small (rout - q)), (wrap_u64_small (rout - 3000000)) by (unfold is_u64; lia).
  destruct (Z.ltb_spec (rout - q) 3000000); lia.
Qed.

(** Taking one fee out of what is left of an input [x]. *)
Lemma fee_step x g fl na da nb db n' d' :
  0 < da -> 0 < db -> 0 < d' -> x * na <= g * da -> fl * db <= x * nb ->
  n' * (da * db) = (na * db - nb * da) * d' -> x * n' <= (g - fl) * d'.
Proof.
  intros Ha Hb Hd Hg Hf Hn.
  pose proof (Z.mul_le_mono_nonneg_r _ _ db ltac:(lia) Hg).
  pose proof (Z.mul_le_mono_nonneg_r _ _ da ltac:(lia) Hf).
  assert (x * (na * db - nb * da) <= (g - fl) * (da * db)) as H1 by lia.
  pose proof (Z.mul_le_mono_nonneg_r _ _ d' ltac:(lia) H1) as H2.
  apply (Z.mul_le_mono_pos_r _ _ (da * db)); [nia|].
  replace (x * n' * (da * db)) with (x * (n' * (da * db))) by ring. rewrite Hn. lia.
Qed.

(** A swap that keeps at least the net fee's share of the input does not lower
    the product of the reserves. *)
Lemma product_step tin tout x y o n d :
  0 < d -> 0 <= tin -> 0 <= tout - o -> x * n <= y * d ->
  o * (tin * d + x * n) <= tout * x * n -> tin * tout <= (tin + y) * (tout - o).
Proof.
  intros Hd Hi Ho Hy Hq.
  assert ((tin * d + x * n) * (tout - o) <= (tin * d + y * d) * (tout - o)) as H1
    by (apply Z.mul_le_mono_nonneg_r; lia).
  apply (Z.mul_le_mono_pos_r _ _ d Hd). lia.
Qed.

End Cfmm.

(** ** Well-formed pools *)

Section PoolLaws.
Context `{FLaws : FeeLaws}.
Open Scope Z_scope.

Definition balances_wf (b : Balances) : Prop :=
  0 <= b_treasury b /\ 0 <= b_first b /\ 0 <= b_second b /\ b_reserves b <= u64_max /\
  b_treasury b + b_first b + b_second b < b_reserves b.

(** Reserves exceed treasury and royalties on both sides, and the fees are
    fractions whose sum the pool's fee multiplier covers. *)
Record pool_wf (p : RoyaltyPool) : Prop := {
  wf_assets : asset_x p <> asset_y p;
  wf_x : balances_wf (balances_x p);
  wf_y : balances_wf (balances_y p);
  wf_lp : ratio_wf (lp_fee p) /\ numer (lp_fee p) <= denom (lp_fee p);
  wf_treasury : ratio_wf (treasury_fee p) /\ ratio_le (treasury_fee p) (lp_fee p);
  wf_first : ratio_wf (first_royalty_fee p) /\
    ratio_le (first_royalty_fee p) (fee_sub (lp_fee p) (treasury_fee p));
  wf_second : ratio_wf (second_royalty_fee p) /\
    ratio_le (second_royalty_fee p)
      (fee_sub (fee_sub (lp_fee p) (treasury_fee p)) (first_royalty_fee p));
}.

Definition base_balances (p : RoyaltyPool) : Balances :=
  if bool_decide (asset_x p = base_of p) then balances_x p else balances_y p.
Definition quote_balances (p : RoyaltyPool) : Balances :=
  if bool_decide (asset_x p = base_of p) then balances_y p else balances_x p.
(** The balances of the asset paid in and of the asset paid out. *)
Definition side_in (p : RoyaltyPool) (i : OnSide Z) : Balances :=
  match i with OnBid _ => quote_balances p | OnAsk _ => base_balances p end.
Definition side_out (p : RoyaltyPool) (i : OnSide Z) : Balances :=
  match i with OnBid _ => base_balances p | OnAsk _ => quote_balances p end.
Definition asset_out (p : RoyaltyPool) (i : OnSide Z) : AssetClass :=
  match i with OnBid _ => base_of p | OnAsk _ => quote_of p end.

(** The input's arithmetic stays within the machine integers. *)
Record swap_fits (p : RoyaltyPool) (i : OnSide Z) : Prop := {
  fit_input : 0 <= unwrap i /\ b_reserves (side_in p i) + unwrap i <= u64_max;
  fit_divisor : tradable (side_in p i) * denom (net_fee p) + unwrap i * numer (net_fee p) <= u128_max;
  fit_product : tradable (side_out p i) * unwrap i * numer (net_fee p) <= u128_max;
  fit_treasury : unwrap i * numer (treasury_fee p) <= u64_max;
  fit_first : unwrap i * numer (first_royalty_fee p) <= u64_max;
  fit_second : unwrap i * numer (second_royalty_fee p) <= u64_max;
  fit_native : asset_out p i = Native -> UNTOUCHABLE_LOVELACE_AMOUNT <= tradable (side_out p i);
}.

Lemma tradable_wf b : balances_wf b ->
  tradable b = b_reserves b - b_treasury b - b_first b - b_second b /\ 0 < tradable b <= u64_max.
Proof.
  unfold balances_wf, tradable. intros (? & ? & ? & ? & ?).
  rewrite (wrap_u64_small (b_reserves b - b_treasury b)) by (unfold is_u64; lia).
  rewrite (wrap_u64_small (b_reserves b - b_treasury b - b_first b)) by (unfold is_u64; lia).
  rewrite wrap_u64_small by (unfold is_u64; lia). lia.
Qed.

Lemma net_fee_wf p : pool_wf p -> ratio_wf (net_fee p).
Proof.
  intros [_ _ _ [Hl _] [Ht Lt] [Hf Lf] [Hs Ls]]. unfold net_fee.
  destruct (fee_sub_eq _ _ Hl Ht Lt) as [W1 _]. destruct (fee_sub_eq _ _ W1 Hf Lf) as [W2 _].
  by destruct (fee_sub_eq _ _ W2 Hs Ls).
Qed.

(** What is left of [x] after the treasury and the royalties took their shares
    covers the net fee's share. *)
Lemma net_fee_covered p x ft ff fs : pool_wf p -> 0 <= x ->
  ft * denom (treasury_fee p) <= x * numer (treasury_fee p) ->
  ff * denom (first_royalty_fee p) <= x * numer (first_royalty_fee p) ->
  fs * denom (second_royalty_fee p) <= x * numer (second_royalty_fee p) ->
  x * numer (net_fee p) <= (x - ft - ff - fs) * denom (net_fee p).
Proof.
  intros [_ _ _ [Hl Ll] [Ht Lt] [Hf Lf] [Hs Ls]] Hx H1 H2 H3. unfold net_fee.
  destruct (fee_sub_eq _ _ Hl Ht Lt) as [W1 E1]. destruct (fee_sub_eq _ _ W1 Hf Lf) as [W2 E2].
  destruct (fee_sub_eq _ _ W2 Hs Ls) as [W3 E3].
  assert (x * numer (lp_fee p) <= x * denom (lp_fee p)) as S0 by (apply Z.mul_le_mono_nonneg_l; lia).
  pose proof (fee_step x x ft _ _ _ _ _ _ (proj2 Hl) (proj2 Ht) (proj2 W1) S0 H1 E1) as S1.
  pose proof (fee_step x _ ff _ _ _ _ _ _ (proj2 W1) (proj2 Hf) (proj2 W2) S1 H2 E2) as S2.
  exact (fee_step x _ fs _ _ _ _ _ _ (proj2 W2) (proj2 Hs) (proj2 W3) S2 H3 E3).
Qed.

Lemma fee_share_spec x fee : 0 <= x -> ratio_wf fee -> x * numer fee <= u64_max ->
  exists s, fee_share x fee = Ok s /\ 0 <= s /\ s * denom fee <= x * numer fee.
Proof.
  intros Hx [Hn Hd] Hm. unfold fee_share. destruct (Z.eqb_spec (denom fee) 0); [lia|].
  rewrite wrap_u64_small by (unfold is_u64; nia). eexists. split; [done|].
  pose proof (Z.mul_div_le (x * numer fee) (denom fee) Hd). split; [apply Z.div_pos; nia|lia].
Qed.

Lemma canonical_cases p : asset_x p <> asset_y p ->
  (base_of p = asset_x p /\ quote_of p = asset_y p) \/ (base_of p = asset_y p /\ quote_of p = asset_x p).
Proof. intros _. unfold base_of, quote_of, order_canonical. destruct (asset_cmp _ _); auto. Qed.

Lemma sides_wf p i : pool_wf p -> balances_wf (side_in p i) /\ balances_wf (side_out p i).
Proof.
  intros [_ Hx Hy _ _ _ _]. unfold side_in, side_out, base_balances, quote_balances.
  destruct i; case_bool_decide; done.
Qed.

(** The quoted output is the constant-product formula on the input's side. *)
Lemma output_on_side_eq p i : asset_x p <> asset_y p ->
  output_on_side p i =
    (q ← cfmm_quote (tradable (side_in p i)) (tradable (side_out p i)) (unwrap i) (net_fee p);
     Ok (capped (is_native (asset_out p i)) (tradable (side_out p i)) q)).
Proof.
  intros Hne. unfold output_on_side, royalty_output_amount, classic_cfmm_output_amount, side_in,
    side_out, asset_out, base_balances, quote_balances.
  destruct (canonical_cases p Hne) as [[-> ->]|[-> ->]]; destruct i; cbn [unwrap];
    repeat case_bool_decide; done || congruence.
Qed.

(** The output quoted for an admissible input. *)
Lemma output_on_side_spec p i : pool_wf p -> swap_fits p i ->
  exists o, output_on_side p i = Ok o /\ 0 <= o < tradable (side_out p i) /\
    o * (tradable (side_in p i) * denom (net_fee p) + unwrap i * numer (net_fee p)) <=
      tradable (side_out p i) * unwrap i * numer (net_fee p) /\
    (asset_out p i = Native -> UNTOUCHABLE_LOVELACE_AMOUNT <= tradable (side_out p i) - o).
Proof.
  intros Hwf [[Fi Fm] Fd Fp _ _ _ Fn]. destruct (net_fee_wf p Hwf) as [Nn Nd].
  destruct (sides_wf p i Hwf) as [Wi Wo].
  destruct (tradable_wf _ Wi) as [_ Bi]. destruct (tradable_wf _ Wo) as [_ Bo].
  rewrite (output_on_side_eq p i (wf_assets _ Hwf)).
  set (tin := tradable (side_in p i)) in *. set (tout := tradable (side_out p i)) in *.
  destruct (cfmm_quote_spec tin tout (unwrap i) (net_fee p)) as (q & Eq & Bq & Hq); try lia.
  { unfold balances_wf, u64_max, u128_max in *. nia. }
  rewrite Eq. cbn [mbind outcome_bind]. eexists. split; [reflexivity|].
  destruct (capped_spec (is_native (asset_out p i)) tout q) as [Hc Hn]; [unfold is_u64; lia|lia| |].
  { unfold is_native. rewrite bool_decide_eq_true. apply Fn. }
  assert (q < tout).
  { apply Z.nle_gt. intros Hge. assert (0 < tout * (tin * denom (net_fee p))) by nia.
    assert (0 <= unwrap i * numer (net_fee p)) by nia.
    pose proof (Z.mul_le_mono_nonneg_r tout q
                  (tin * denom (net_fee p) + unwrap i * numer (net_fee p)) ltac:(nia) Hge). lia. }
  split; [lia|]. split.
  - etransitivity; [|exact Hq]. apply Z.mul_le_mono_nonneg_r; [nia|lia].
  - intros Ha. apply Hn. unfold is_native. by apply bool_decide_eq_true.
Qed.

(** A swap moves the balances of the two sides and nothing else. *)
Lemma royalty_swap_eq p i o bin :
  asset_x p <> asset_y p -> output_on_side p i = Ok o ->
  balances_in p (side_in p i) (unwrap i) = Ok bin ->
  exists p', royalty_swap p i = Ok p' /\ side_in p' i = bin /\
    side_out p' i = balances_out (side_out p i) o /\
    (exists x y, p' = set_balances p x y).
Proof.
  intros Hne Ho Hb. unfold royalty_swap. rewrite Ho. cbn [mbind outcome_bind].
  unfold side_in, side_out, base_balances, quote_balances in *.
  destruct i as [x|x]; cbn [unwrap] in Hb; case_bool_decide as Hc; rewrite Hb; cbn [mbind outcome_bind];
    eexists; (split; [reflexivity|]);
    change (base_of (set_balances p _ _)) with (base_of p);
    change (asset_x (set_balances p _ _)) with (asset_x p);
    (rewrite bool_decide_eq_true_2 by done) || (rewrite bool_decide_eq_false_2 by done);
    cbn; destruct bin; (split; [done|]); (split; [done|]); by eexists _, _.
Qed.

Lemma balances_in_spec p b x : pool_wf p -> balances_wf b -> 0 <= x ->
  b_reserves b + x <= u64_max ->
  x * numer (treasury_fee p) <= u64_max -> x * numer (first_royalty_fee p) <= u64_max ->
  x * numer (second_royalty_fee p) <= u64_max ->
  exists bin, balances_in p b x = Ok bin /\ balances_wf bin /\ b_reserves bin = b_reserves b + x /\
    x * numer (net_fee p) <= (tradable bin - tradable b) * denom (net_fee p).
Proof.
  intros Hwf Hb Hx Hr F1 F2 F3. destruct (net_fee_wf p Hwf) as [Nn Nd].
  destruct (fee_share_spec x (treasury_fee p)) as (t & Et & Pt & Lt); [done|apply Hwf|done|].
  destruct (fee_share_spec x (first_royalty_fee p)) as (f & Ef & Pf & Lf); [done|apply Hwf|done|].
  destruct (fee_share_spec x (second_royalty_fee p)) as (s & Es & Ps & Ls); [done|apply Hwf|done|].
  pose proof (net_fee_covered p x t f s Hwf Hx Lt Lf Ls) as Hc.
  assert (0 <= x - t - f - s) as Hle by (assert (0 <= x * numer (net_fee p)) by nia; nia).
  unfold balances_in. rewrite Et, Ef, Es. cbn [mbind outcome_bind].
  destruct (tradable_wf _ Hb) as [Eb _]. unfold balances_wf in Hb. destruct Hb as (B1 & B2 & B3 & B4 & B5).
  rewrite !wrap_u64_small by (unfold is_u64; lia). eexists. split; [reflexivity|].
  assert (balances_wf (mkBalances (b_reserves b + x) (b_treasury b + t) (b_first b + f) (b_second b + s)))
    as Hw by (unfold balances_wf; cbn; lia).
  split; [done|]. split; [done|]. destruct (tradable_wf _ Hw) as [-> _]. rewrite Eb. cbn.
  replace (b_reserves b + x - (b_treasury b + t) - (b_first b + f) - (b_second b + s) -
           (b_reserves b - b_treasury b - b_first b - b_second b)) with (x - t - f - s) by ring.
  done.
Qed.

Lemma balances_out_spec b o : balances_wf b -> 0 <= o < tradable b ->
  balances_wf (balances_out b o) /\ b_reserves (balances_out b o) = b_reserves b - o /\
  tradable (balances_out b o) = tradable b - o.
Proof.
  intros Hb Ho. destruct (tradable_wf _ Hb) as [Eb _]. unfold balances_wf in Hb.
  assert (wrap_u64 (b_reserves b - o) = b_reserves b - o) as Ew
    by (apply wrap_u64_small; unfold is_u64; lia).
  assert (balances_wf (balances_out b o)) as Hw
    by (unfold balances_wf, balances_out; cbn; rewrite Ew; lia).
  split; [done|]. destruct (tradable_wf _ Hw) as [-> _]. cbn. rewrite Ew. lia.
Qed.

(** Balances written to the sides of a swap are the pool's balances. *)
Lemma set_balances_wf p p' i x y : pool_wf p -> p' = set_balances p x y ->
  balances_wf (side_in p' i) -> balances_wf (side_out p' i) -> pool_wf p'.
Proof.
  intros Hwf -> Hi Ho. unfold side_in, side_out, base_balances, quote_balances in *.
  destruct Hwf as [Wa _ _ Wl Wt Wf Ws]. split; try done; destruct i; case_bool_decide; done.
Qed.

Lemma royalty_swap_succeeds p i : pool_wf p -> swap_fits p i ->
  exists p' o, royalty_swap p i = Ok p' /\ output_on_side p i = Ok o /\ pool_wf p' /\
    (exists x y, p' = set_balances p x y) /\
    b_reserves (side_in p' i) = b_reserves (side_in p i) + unwrap i /\
    b_reserves (side_out p' i) = b_reserves (side_out p i) - o /\
    0 <= o < tradable (side_out p i) /\
    tradable (side_in p i) * tradable (side_out p i) <=
      tradable (side_in p' i) * tradable (side_out p' i) /\
    (asset_out p i = Native -> UNTOUCHABLE_LOVELACE_AMOUNT <= tradable (side_out p' i)).
Proof.
  intros Hwf Hfit. destruct (sides_wf p i Hwf) as [Wi Wo]. destruct (net_fee_wf p Hwf) as [_ Nd].
  destruct (output_on_side_spec p i Hwf Hfit) as (o & Eo & Bo & Ho & Hn).
  destruct Hfit as [[Fi Fm] _ _ F1 F2 F3 _].
  destruct (balances_in_spec p (side_in p i) (unwrap i)) as (bin & Ein & Win & Rin & Tin); try done.
  destruct (balances_out_spec (side_out p i) o Wo Bo) as (Wout & Rout & Tout).
  destruct (royalty_swap_eq p i o bin (wf_assets _ Hwf) Eo Ein) as (p' & E & Ei & Eout & x & y & Hs).
  exists p', o. rewrite Ei, Eout, Rin, Rout, Tout. split; [done|]. split; [done|].
  split; [eapply set_balances_wf; [done|done|by rewrite Ei|by rewrite Eout]|].
  split; [by eexists _, _|]. split; [done|]. split; [done|]. split; [done|]. split; [|done].
  pose proof (product_step (tradable (side_in p i)) (tradable (side_out p i)) (unwrap i)
    (tradable bin - tradable (side_in p i)) o (numer (net_fee p)) _ Nd) as Hp.
  replace (tradable (side_in p i) + (tradable bin - tradable (side_in p i)))
    with (tradable bin) in Hp by ring.
  destruct (tradable_wf _ Wi) as [_ ?]. apply Hp; done || lia.
Qed.

(** C9: A swap never lowers the pool's value.  For a well-formed pool and an
    input whose arithmetic fits the machine integers the swap succeeds; the
    reserves grow by exactly the input and shrink by exactly the quoted
    output, the product of the tradable reserves does not decrease although
    treasury and royalties take their share, a lovelace side keeps three ADA,
    and the pool stays well-formed. *)
Theorem royalty_swap_keeps_product p i : pool_wf p -> swap_fits p i ->
  exists p' o, royalty_swap p i = Ok p' /\ royalty_estimated_trade p i = Ok (Some (mkAvailable (unwrap i) o)) /\
    pool_wf p' /\
    b_reserves (side_in p' i) = b_reserves (side_in p i) + unwrap i /\
    b_reserves (side_out p' i) = b_reserves (side_out p i) - o /\
    0 <= o < tradable (side_out p i) /\
    tradable (balances_x p) * tradable (balances_y p) <=
      tradable (balances_x p') * tradable (balances_y p') /\
    (asset_out p i = Native -> UNTOUCHABLE_LOVELACE_AMOUNT <= tradable (side_out p' i)).
Proof.
  intros Hwf Hfit.
  destruct (royalty_swap_succeeds p i Hwf Hfit) as (p' & o & E & Eo & W & (x & y & Hs) & R1 & R2 & B & Hp & Hn).
  exists p', o. split; [done|]. split; [unfold royalty_estimated_trade; by rewrite Eo|].
  repeat (split; [done|]). split; [|done].
  assert (forall q, tradable (side_in q i) * tradable (side_out q i) =
                    tradable (balances_x q) * tradable (balances_y q)) as Es.
  { intros q. unfold side_in, side_out, base_balances, quote_balances.
    destruct i; case_bool_decide; lia. }
  by rewrite <- !Es.
Qed.

(** The laws the liquidity book relies on hold for the inputs above. *)
Definition royalty_swap_ok (p : RoyaltyPool) (i : OnSide Z) : Prop := pool_wf p /\ swap_fits p i.

Lemma royalty_liquidity_sides p :
  royalty_liquidity p = mkReserves (b_reserves (base_balances p)) (b_reserves (quote_balances p)).
Proof.
  unfold royalty_liquidity, base_balances, quote_balances.
  repeat case_bool_decide; done || congruence.
Qed.

Global Instance royalty_trade_laws `{BigNumberLib} :
  MakerTradeLaws RoyaltyPool ExUnits Token royalty_swap_ok.
Proof.
  assert (forall p i, royalty_swap_ok p i -> exists p' o, swap_succ p i = p' /\
    (exists x y, p' = set_balances p x y) /\
    b_reserves (side_in p' i) = b_reserves (side_in p i) + unwrap i /\
    b_reserves (side_out p' i) = b_reserves (side_out p i) - o /\
    0 <= o < tradable (side_out p i)) as Hsw.
  { intros p i [Hwf Hf].
    destruct (royalty_swap_succeeds p i Hwf Hf) as (p' & o & E & _ & _ & Hs & R1 & R2 & B & _).
    exists p', o. unfold swap_succ. cbn [swap royalty_maker_behavior]. by rewrite E. }
  assert (forall p, pool_wf p -> 0 <= b_reserves (base_balances p) /\ 0 <= b_reserves (quote_balances p) /\
            tradable (base_balances p) <= b_reserves (base_balances p) /\
            tradable (quote_balances p) <= b_reserves (quote_balances p)) as Hnn.
  { intros p Hwf. destruct (sides_wf p (OnAsk 0) Hwf) as [Wb Wq]. cbn in Wb, Wq.
    destruct (tradable_wf _ Wb), (tradable_wf _ Wq). unfold balances_wf in *. lia. }
  split.
  - intros p i [Hwf _]. cbn [liquidity royalty_market_maker]. rewrite royalty_liquidity_sides. cbn.
    pose proof (Hnn p Hwf). lia.
  - intros p x Hok. destruct (Hsw p _ Hok) as (p' & o & -> & _ & R1 & R2 & B).
    cbn [liquidity royalty_market_maker]. rewrite !royalty_liquidity_sides. cbn in *.
    pose proof (Hnn p (proj1 Hok)). lia.
  - intros p x Hok. destruct (Hsw p _ Hok) as (p' & o & -> & _ & R1 & R2 & B).
    cbn [liquidity royalty_market_maker]. rewrite !royalty_liquidity_sides. cbn in *.
    pose proof (Hnn p (proj1 Hok)). lia.
  - intros p i Hok. by destruct (Hsw p _ Hok) as (p' & o & -> & (x & y & ->) & _).
  - done.
Qed.

End PoolLaws.
