(* ===== verification/LbGreen.v ===== *)
(** * The book at the agent's types

    Green orders and royalty pools satisfy what the liquidity book relies on
    ([LbCoreProofs.v]); concrete batches that instantiate its theorems. *)

From stdpp Require Import base gmap list.
From Stdlib Require Import ZArith Lia Strings.Byte.
From S2P Require Import Prelude Mpf ToyHash LbTypes Assets Intention GreenOrder LbCore LbCoreProofs.
From S2P Require Import RoyaltyPool RoyaltyPoolProofs.

(** [ExUnits]: sums wrap, the order is the derived lexicographic one. *)
Global Instance ex_units : Units ExUnits := {|
  units_empty := mkExUnits 0 0;
  units_add := fun a b => mkExUnits (wrap_u64 (mem a + mem b)) (wrap_u64 (steps a + steps b));
  units_ltb := fun a b =>
    ((mem a <? mem b) || (mem a =? mem b) && (steps a <? steps b))%Z;
|}.

Section GreenLaws.
Context `{RL : RatioLib} `{HG : Hashing}.

Global Instance green_final_laws : TakerFinalLaws GreenOrder ExUnits.
Proof.
  split; cbn; try done.
  - intros t added Ha Hm. unfold saturating_add. split; [done|lia].
  - intros t. unfold green_try_terminate. destruct (Z.eqb_spec (current_remainder t) 0); done.
Qed.

Global Instance green_stable_laws : TakerStableLaws GreenOrder ExUnits Token.
Proof.
  intros t t' removed added. cbn. unfold green_applied_trade, green_try_terminate.
  destruct (_ =? _)%Z; [done|]. by intros [= <-].
Qed.

End GreenLaws.

(** The wrapper trades as the pool inside. *)
Global Instance v1_trade_laws `{FeeLaws} `{BigNumberLib} :
  MakerTradeLaws RoyaltyV1PoolOnly ExUnits Token (fun p i => royalty_swap_ok (inner p) i).
Proof.
  destruct royalty_trade_laws as [L1 L2 L3 L4 L5]. split.
  - intros m i Hok. by apply (L1 (inner m) i).
  - intros m x Hok. by apply (L2 (inner m) x).
  - intros m x Hok. by apply (L3 (inner m) x).
  - intros m i Hok. by apply (L4 (inner m) i).
  - done.
Qed.

(** ** Concrete libraries, orders and a pool *)

Definition exact_fee : FeeLib := {|
  fee_sub := fun a b => mkRatio (numer a * denom b - numer b * denom a) (denom a * denom b);
  fee_checked_sub := fun a b =>
    if (numer b * denom a <=? numer a * denom b)%Z
    then Some (mkRatio (numer a * denom b - numer b * denom a) (denom a * denom b)) else None;
|}.

Lemma exact_fee_laws : @FeeLaws exact_fee.
Proof. intros a b [Ha Hda] [Hb Hdb] Hle. unfold ratio_wf, ratio_le in *. cbn. split; [nia|ring]. Qed.

(** A decimal library whose conversions always fail. *)
Definition no_bignum : BigNumberLib := {|
  f64 := unit; bignum := unit; as_f64 := fun _ => tt; f64_half := tt; ratio_to_f64 := fun _ => None;
  bn_from := fun _ => tt; bn_from_int := fun _ => tt; bn_add := fun _ _ => tt;
  bn_sub := fun _ _ => tt; bn_mul := fun _ _ => tt; bn_div := fun _ _ => tt;
  bn_pow := fun _ _ => tt; bn_to_u64 := fun _ => None;
|}.

Definition list_order (K : Type) `{Countable K} : HashOrder K := fun V m => map_to_list m.
Lemma list_order_laws K `{Countable K} : @HashOrderLaws K _ _ (list_order K).
Proof. by intros V m. Qed.

Definition green (nonce : Z) (inp out : AssetClass) (leaving expected : Z) : GreenOrder :=
  mkGreenOrder (mkGreenOrderId (replicate 32 x01) 3 nonce (replicate 32 x02)) (replicate 32 x01)
    (mkGreenIntention inp out leaving expected 10 3 nonce (replicate 28 x07)) 0 leaving
    (Sig [] [] (replicate 64 x00) []).

(** One million lovelace for at least 1,900,000 tokens, and two million tokens
    for at least 900,000 lovelace. *)
Definition seller : GreenOrder := green 1 Native sample_token 1000000 1900000.
Definition buyer : GreenOrder := green 2 sample_token Native 2000000 900000.

Lemma order_match_fair_witness :
  exists base quote take_ask take_bid,
    @execute_with_taker _ _ (@green_market_taker exact_ratio) _ seller buyer
      (fun a b => @settle_price exact_ratio _ _ (@green_market_taker exact_ratio) a b (Some (mkRatio 2 1))) =
      Ok (take_ask, take_bid) /\
    @removed_input _ _ (@green_market_taker exact_ratio) take_ask = Ok base /\
    @added_output _ _ (@green_market_taker exact_ratio) take_ask = Ok quote.
Proof.
  destruct (@order_match_fair exact_ratio exact_ratio_laws GreenOrder ExUnits
    (@green_market_taker exact_ratio) _ (@green_trade_laws exact_ratio) seller buyer seller buyer
    (mkRatio 2 1)) as (base & quote & ta & tb & E & _ & _ & R1 & _ & _ & A1 & _).
  all: try (vm_compute; reflexivity).
  all: try (vm_compute; split; discriminate).
  all: try (vm_compute; split; [discriminate|reflexivity]).
  - by left.
  - vm_compute. discriminate.
  - exists base, quote, ta, tb. exact (conj E (conj R1 A1)).
Defined.

(** A pool of ten thousand ADA and twenty thousand million tokens. *)
Definition sample_pool : RoyaltyPool :=
  mkRoyaltyPool (mkToken (replicate 28 x09) (mkAssetName 0 (replicate 32 x00)))
    10000000000 20000000000 14142135623 Native sample_token sample_token
    (mkRatio 99700 100000) (mkRatio 100 100000) 5000000 7000000 (mkRatio 50 100000) (mkRatio 0 100)
    1000000 1000000 0 0 0 [] [] [] [] V1 (mkExUnits 0 0) (mkPoolValidation 10000000 0) 0 None.

(** Facts about concrete integers. *)
Ltac zfacts :=
  vm_compute; repeat match goal with |- _ /\ _ => split end;
  first [reflexivity | discriminate | intros; discriminate].

Lemma sample_pool_wf : @pool_wf exact_fee sample_pool.
Proof. split; zfacts. Qed.

Lemma royalty_swap_keeps_product_witness :
  exists p' o, @royalty_swap exact_fee sample_pool (OnAsk 1000000%Z) = Ok p' /\
    @royalty_estimated_trade exact_fee sample_pool (OnAsk 1000000%Z) =
      Ok (Some (mkAvailable 1000000 o)) /\
    (tradable (balances_x sample_pool) * tradable (balances_y sample_pool) <=
     tradable (balances_x p') * tradable (balances_y p'))%Z.
Proof.
  destruct (@royalty_swap_keeps_product exact_fee exact_fee_laws sample_pool (OnAsk 1000000%Z))
    as (p' & o & E & T & _ & _ & _ & _ & P & _).
  - apply sample_pool_wf.
  - split; zfacts.
  - exists p', o. exact (conj E (conj T P)).
Defined.

(** A seller takes two steps through the pool and the rest of its input is
    matched with a buyer. *)
Section SampleBatch.
#[local] Existing Instance exact_ratio.
#[local] Existing Instance exact_fee.
#[local] Existing Instance exact_fee_laws.
#[local] Existing Instance no_bignum.
#[local] Existing Instance toy.
#[local] Existing Instance list_order.
#[local] Existing Instance list_order_laws.
#[local] Existing Instance green_trade_laws.

Notation Batch := (MatchmakingAttempt GreenOrder RoyaltyPool ExUnits Token Token).

Definition next_or {S E} (d : S) (n : Next S E) : S := match n with Succ s => s | Term _ => d end.

Definition swap1 := default_swap_with_taker seller sample_pool (OnAsk 300000%Z).
Definition seller1 : GreenOrder := next_or seller (result swap1.1).
Definition pool1 : RoyaltyPool := next_or sample_pool (result swap1.2).
Definition swap2 := default_swap_with_taker seller1 pool1 (OnAsk 300000%Z).
Definition seller2 : GreenOrder := next_or seller (result swap2.1).
Definition matched : panics (TakeInProgress GreenOrder * TakeInProgress GreenOrder) :=
  execute_with_taker buyer seller2 (fun a b => settle_price a b (Some (static_price pool1))).

Definition batch1 : Batch := add_take (add_make attempt_empty swap1.2) swap1.1.
Definition batch2 : Batch := add_take (add_make batch1 swap2.2) swap2.1.
Definition sample_batch : Batch :=
  match matched with
  | Ok (ta, tb) => add_take (add_take batch2 ta) tb
  | _ => batch2
  end.

Lemma sample_batch_built : Built royalty_swap_ok sample_batch.
Proof.
  unfold sample_batch. destruct matched as [[ta tb]| |] eqn:E; [|by vm_compute in E..].
  apply (built_match royalty_swap_ok batch2 buyer seller2 seller2 buyer
           (fun a b => settle_price a b (Some (static_price pool1))) ta tb); [|by right|..|exact E].
  - apply (built_swap royalty_swap_ok batch1 seller1 pool1 300000%Z swap2.1 swap2.2);
      [|vm_compute; reflexivity|vm_compute; reflexivity|zfacts| |zfacts|reflexivity].
    + apply (built_swap royalty_swap_ok attempt_empty seller sample_pool 300000%Z swap1.1 swap1.2);
        [constructor|vm_compute; exact I|vm_compute; exact I|zfacts| |zfacts|reflexivity].
      split; [apply sample_pool_wf|split; zfacts].
    + split; [split; zfacts|split; zfacts].
  - vm_compute; reflexivity.
  - vm_compute; exact I.
  - vm_compute; reflexivity.
  - vm_compute; reflexivity.
  - vm_compute. discriminate.
  - vm_compute; reflexivity.
  - vm_compute; reflexivity.
  - zfacts.
  - zfacts.
  - zfacts.
  - zfacts.
  - zfacts.
Qed.

Lemma sample_batch_fits : fits royalty_swap_ok sample_batch.
Proof.
  split.
  - zfacts.
  - zfacts.
  - assert (forallb (fun p => bool_decide (0 <= rest_output (result p.2) /\
        rest_output (result p.2) + msum next_base (makes sample_batch) <= u64_max /\
        rest_output (result p.2) + msum next_quote (makes sample_batch) <= u64_max)%Z)
        (map_to_list (takes sample_batch)) = true) as Hl by (vm_compute; reflexivity).
    apply map_Forall_to_list, Forall_forall. intros [k t] Hin. rewrite forallb_forall in Hl.
    by apply list_elem_of_In, Hl, bool_decide_eq_true in Hin.
  - apply map_Forall_to_list.
    assert (map_to_list (makes sample_batch) =
              [(rp_id sample_pool, mkTrans sample_pool (result swap2.2))]) as -> by (vm_compute; reflexivity).
    constructor; [|constructor]. unfold uncurry, rebalance_ok. cbv beta zeta iota.
    match goal with |- context [checked_sub ?a ?b] =>
      assert (checked_sub a b = Some 600000%Z) as -> by (vm_compute; reflexivity) end.
    split; [exact sample_pool_wf|split; zfacts].
Qed.

Lemma accepted_recipe_conserves_witness :
  exists instrs, recipe_try_from sample_batch 0 = Ok instrs /\
    length instrs = 3 /\ zsum (instr_base <$> instrs) = 0%Z /\ zsum (instr_quote <$> instrs) = 0%Z.
Proof.
  pose proof (accepted_recipe_conserves royalty_swap_ok sample_batch 0 sample_batch_built
                sample_batch_fits) as Hc.
  destruct (recipe_try_from sample_batch 0) as [instrs| |] eqn:E; [|exfalso..].
  - exists instrs. split; [reflexivity|]. destruct Hc as (H1 & H2 & _). split; [|exact (conj H1 H2)].
    assert (match recipe_try_from sample_batch 0 with Ok l => length l | _ => 0 end = 3) as L
      by (vm_compute; reflexivity).
    rewrite E in L. exact L.
  - assert (match recipe_try_from sample_batch 0 with Ok _ => True | _ => False end) as L
      by (vm_compute; exact I). rewrite E in L. exact L.
  - exact Hc.
Defined.

End SampleBatch.

(** ** A taker that is only its budget *)

Section BudgetOnly.
Definition budget_taker : MarketTaker Z unit := {|
  taker_side := fun _ => Ask; taker_input := fun _ => 0%Z; taker_output := fun _ => 0%Z;
  taker_price := fun _ => mkRatio 1 1; operator_fee := fun _ _ => 0%Z; taker_fee := fun _ => 0%Z;
  budget := fun b => b; consumable_budget := fun b => b; taker_marginal_cost_hint := fun _ => tt;
  min_marginal_output := fun _ => 0%Z; time_bounds := fun _ => Unbounded;
|}.

Definition budget_behaviour : TakerBehaviour Z := {|
  with_updated_time := fun b _ => Succ b;
  with_applied_trade := fun b _ _ => Succ b;
  with_budget_corrected := fun b d =>
    let b' := Z.min (Z.max (b + d) 0) i64_max in ((b' - b)%Z, b');
  with_fee_charged := fun b _ => b;
  with_output_added := fun b _ => b;
  try_terminate := fun b => Succ b;
|}.

Lemma budget_only_laws : @BudgetLaws Z unit budget_taker budget_behaviour.
Proof. intros t d d' t' [= <- <-]. cbn. unfold i64_max. lia. Qed.

Lemma budget_correction_accounted_witness :
  exists d t', @correct_consumed_budget Z unit budget_behaviour (mkTrans (100%Z, tt) (Succ 70%Z)) 50 = (d, t') /\
    d = 50%Z /\ (100 = @rest_budget Z unit budget_taker (result t') + (30 + d))%Z.
Proof.
  eexists _, _. split; [reflexivity|]. split; [reflexivity|].
  apply (@budget_correction_accounted Z unit unit budget_taker budget_behaviour budget_only_laws
           (mkTrans (100%Z, tt) (Succ 70%Z)) 50 50 (mkTrans (100%Z, tt) (Succ 20%Z)) 30);
    [zfacts|zfacts|zfacts|zfacts|reflexivity|vm_compute; reflexivity].
Defined.
End BudgetOnly.
