(* ===== verification/LbState.v ===== *)
(** * The state of a liquidity book

    [liquidity_book/state/mod.rs], [state/price_range.rs], [state/queries.rs]
    and [stashing_option.rs]: the ordered sets of takers on both sides, the
    takers waiting for their time, the pools, and the automaton
    Idle / PartialPreview / Preview with its commit, rollback and stash.

    A [BTreeSet] is the list of its elements in increasing order of [Ord];
    [insert] keeps an element that compares equal, as the library does. *)

From stdpp Require Import base gmap list.
From Stdlib Require Import ZArith Lia.
From S2P Require Import Prelude LbTypes LbCore.

(** [Ord] of takers, and its laws. *)
Class TakerOrd (T : Type) := taker_cmp : T -> T -> comparison.
Class TakerOrdLaws (T : Type) `{TakerOrd T} : Prop := {
  taker_cmp_antisym : forall a b, taker_cmp b a = CompOpp (taker_cmp a b);
  taker_cmp_lt_trans : forall a b c, taker_cmp a b = Lt -> taker_cmp b c = Lt -> taker_cmp a c = Lt;
  taker_cmp_eq_l : forall a b c, taker_cmp a b = Eq -> taker_cmp a c = taker_cmp b c;
}.

(** ** Ordered sets *)

Section OrderedSets.
Context {T : Type} `{TakerOrd T}.

Fixpoint bt_insert (x : T) (l : list T) : list T :=
  match l with
  | [] => [x]
  | y :: l =>
    match taker_cmp x y with
    | Lt => x :: y :: l
    | Eq => y :: l
    | Gt => y :: bt_insert x l
    end
  end.

Fixpoint bt_remove (x : T) (l : list T) : list T :=
  match l with
  | [] => []
  | y :: l =>
    match taker_cmp x y with
    | Lt => y :: l
    | Eq => l
    | Gt => y :: bt_remove x l
    end
  end.

Definition pop_first (l : list T) : option T * list T :=
  match l with [] => (None, []) | x :: l => (Some x, l) end.

End OrderedSets.

(** [OrderWeight]: the fee, then the cheaper execution.  Costs are partially
    ordered. *)
Class CostOrd (U : Type) := cost_cmp : U -> U -> option comparison.

Record OrderWeight (U : Type) := mkWeight { weight_fee : Z; weight_cost : U }.
Arguments mkWeight {U} _ _.
Arguments weight_fee {U} _.
Arguments weight_cost {U} _.

Definition weight_partial_cmp {U} `{CostOrd U} (a b : OrderWeight U) : option comparison :=
  match (weight_fee a ?= weight_fee b)%Z with
  | Eq => CompOpp <$> cost_cmp (weight_cost a) (weight_cost b)
  | c => Some c
  end.

Definition weight {T U} `{MarketTaker T U} (t : T) : OrderWeight U :=
  mkWeight (taker_fee t) (taker_marginal_cost_hint t).

Section State.
Context {T M U MI : Type}.
Context `{RL : RatioLib} `{TK : MarketTaker T U} `{TB : TakerBehaviour T} `{TO : TakerOrd T}.
Context `{MK : MarketMaker M U} `{Countable MI} `{MS : Stable M MI} `{MH : !HashOrder MI}.
Context `{MT : MakerForTaker T M}.

(** ** Takers *)

Record MarketTakers := mkTakers { asks : list T; bids : list T }.

Definition takers_new : MarketTakers := mkTakers [] [].

Definition takers_insert (m : MarketTakers) (fr : T) : MarketTakers :=
  match taker_side fr with
  | Bid => mkTakers (asks m) (bt_insert fr (bids m))
  | Ask => mkTakers (bt_insert fr (asks m)) (bids m)
  end.

Definition takers_remove (m : MarketTakers) (fr : T) : MarketTakers :=
  match taker_side fr with
  | Bid => mkTakers (asks m) (bt_remove fr (bids m))
  | Ask => mkTakers (bt_remove fr (asks m)) (bids m)
  end.

Definition takers_insert_all (m : MarketTakers) (l : list T) : MarketTakers :=
  fold_left takers_insert l m.
Definition takers_remove_all (m : MarketTakers) (l : list T) : MarketTakers :=
  fold_left takers_remove l m.

(** [Chronology]: the active takers and those waiting for their slot. *)
Record Chronology := mkChronology {
  time_now : Z;
  active : MarketTakers;
  inactive : gmap Z MarketTakers;
}.

Definition chronology_new (t : Z) : Chronology := mkChronology t takers_new ∅.

Definition set_active (c : Chronology) (a : MarketTakers) : Chronology :=
  mkChronology (time_now c) a (inactive c).

Definition add_inactive (m : gmap Z MarketTakers) (at_time : Z) (fr : T) : gmap Z MarketTakers :=
  <[at_time := takers_insert (default takers_new (m !! at_time)) fr]> m.

(** The takers of one side whose time has not run out. *)
Definition keep_alive (new_time : Z) (l : list T) (store : list T) : list T :=
  fold_left (fun acc fr => match with_updated_time fr new_time with
                           | Succ next_fr => bt_insert next_fr acc
                           | Term _ => acc
                           end) l store.

Definition chronology_advance_clocks (c : Chronology) (new_time : Z) : Chronology :=
  let new_slot := default takers_new (inactive c !! new_time) in
  mkChronology new_time
    (mkTakers (keep_alive new_time (asks (active c)) (asks new_slot))
              (keep_alive new_time (bids (active c)) (bids new_slot)))
    (base.delete new_time (inactive c)).

(** Whether a taker has to wait, and until when. *)
Definition waits_until (now : Z) (fr : T) : option Z :=
  match lower_bound (time_bounds fr) with
  | Some lb => if (now <? lb)%Z then Some lb else None
  | None => None
  end.

Definition chronology_remove_fragment (c : Chronology) (fr : T) : Chronology :=
  match waits_until (time_now c) fr with
  | Some lb =>
    match inactive c !! lb with
    | Some slot => mkChronology (time_now c) (active c) (<[lb := takers_remove slot fr]> (inactive c))
    | None => c
    end
  | None => set_active c (takers_remove (active c) fr)
  end.

Definition chronology_add_fragment (c : Chronology) (fr : T) : Chronology :=
  match waits_until (time_now c) fr with
  | Some lb => mkChronology (time_now c) (active c) (add_inactive (inactive c) lb fr)
  | None => set_active c (takers_insert (active c) fr)
  end.

(** ** Pools *)

Record MarketMakers := mkMakers { values : gmap MI M; quality_index : gmap Z MI }.

Definition makers_new : MarketMakers := mkMakers ∅ ∅.

Definition update_pool (m : MarketMakers) (pool : M) : MarketMakers :=
  let index := match values m !! (stable_id pool : MI) with
               | Some old_pool => base.delete (quality old_pool) (quality_index m)
               | None => quality_index m
               end in
  mkMakers (<[(stable_id pool : MI) := pool]> (values m)) (<[quality pool := (stable_id pool : MI)]> index).

Definition remove_pool (m : MarketMakers) (pool : M) : MarketMakers :=
  mkMakers (base.delete (stable_id pool : MI) (values m)) (base.delete (quality pool) (quality_index m)).

Definition remove_by_id (m : MarketMakers) (pid : MI) : option M * MarketMakers :=
  (values m !! pid, mkMakers (base.delete pid (values m)) (quality_index m)).

(** ** The automaton *)

Inductive StashingOption := Stash (ts : list T) | Unstash.

Record IdleState := mkIdle { takers : Chronology; makers : MarketMakers }.

Record PartialPreviewState := mkPartial {
  takers_preview : Chronology;
  consumed_active_takers : list T;
  pp_stashed : list T;
  pp_makers_intact : MarketMakers;
  pp_makers_preview : MarketMakers;
}.

Record PreviewState := mkPreview {
  takers_intact : Chronology;
  active_takers_preview : MarketTakers;
  p_stashed : list T;
  inactive_takers_changeset : list (Z * T);
  p_makers_intact : MarketMakers;
  p_makers_preview : MarketMakers;
}.

Inductive TLBState :=
| Idle (s : IdleState)
| PartialPreview (s : PartialPreviewState)
| Preview (s : PreviewState).

Definition state_new (t : Z) : TLBState := Idle (mkIdle (chronology_new t) makers_new).

Definition pp_commit (st : PartialPreviewState) : IdleState :=
  mkIdle (takers_preview st) (pp_makers_preview st).

(** The consumed takers are popped from the end of the list. *)
Definition pp_restored (st : PartialPreviewState) : MarketTakers :=
  takers_insert_all (active (takers_preview st)) (reverse (consumed_active_takers st)).

Definition pp_rollback (st : PartialPreviewState) (opt : StashingOption)
    : IdleState + PartialPreviewState :=
  let restored := pp_restored st in
  let '(act, stashed) :=
    match opt with
    | Stash to_stash => (takers_remove_all restored to_stash, pp_stashed st ++ to_stash)
    | Unstash => (takers_insert_all restored (pp_stashed st), [])
    end in
  let tk := set_active (takers_preview st) act in
  match stashed with
  | [] => inl (mkIdle tk (pp_makers_intact st))
  | _ => inr (mkPartial tk [] stashed (pp_makers_intact st) (pp_makers_intact st))
  end.

(** The inactive takers are popped from the end of the changeset. *)
Definition p_commit (st : PreviewState) : IdleState :=
  let inact := fold_left (fun m '(t, fr) => add_inactive m t fr)
                 (reverse (inactive_takers_changeset st)) (inactive (takers_intact st)) in
  let act := takers_insert_all (active_takers_preview st) (p_stashed st) in
  mkIdle (mkChronology (time_now (takers_intact st)) act inact) (p_makers_preview st).

Definition p_rollback (st : PreviewState) (opt : StashingOption)
    : IdleState + PartialPreviewState :=
  let '(act, stashed) :=
    match opt with
    | Stash to_stash =>
      (takers_remove_all (active (takers_intact st)) to_stash, p_stashed st ++ to_stash)
    | Unstash => (takers_insert_all (active (takers_intact st)) (p_stashed st), [])
    end in
  let tk := set_active (takers_intact st) act in
  match stashed with
  | [] => inl (mkIdle tk (p_makers_intact st))
  | _ => inr (mkPartial tk [] stashed (p_makers_intact st) (p_makers_intact st))
  end.

Definition either_state (e : IdleState + PartialPreviewState) : TLBState :=
  match e with inl s => Idle s | inr s => PartialPreview s end.

Definition state_commit (s : TLBState) : TLBState :=
  match s with
  | PartialPreview st => Idle (pp_commit st)
  | Preview st => Idle (p_commit st)
  | Idle _ => s
  end.

Definition state_rollback (s : TLBState) (opt : StashingOption) : TLBState :=
  match s with
  | PartialPreview st => either_state (pp_rollback st opt)
  | Preview st => either_state (p_rollback st opt)
  | Idle _ => s
  end.

(** [None]: the code panics. *)
Definition move_into_partial_preview (s : TLBState) : option PartialPreviewState :=
  match s with
  | Idle st => Some (mkPartial (takers st) [] [] (makers st) (makers st))
  | _ => None
  end.

Definition move_into_preview (s : TLBState) : option PreviewState :=
  match s with
  | Idle st => Some (mkPreview (takers st) (active (takers st)) [] [] (makers st) (makers st))
  | PartialPreview st =>
    Some (mkPreview (set_active (takers_preview st) (pp_restored st)) (active (takers_preview st))
            (pp_stashed st) [] (pp_makers_intact st) (pp_makers_preview st))
  | Preview _ => None
  end.

Definition active_fragments (s : TLBState) : MarketTakers :=
  match s with
  | Idle st => active (takers st)
  | PartialPreview st => active (takers_preview st)
  | Preview st => active_takers_preview st
  end.

Definition current_time (s : TLBState) : Z :=
  match s with
  | Idle st => time_now (takers st)
  | PartialPreview st => time_now (takers_preview st)
  | Preview st => time_now (takers_intact st)
  end.

Definition pools (s : TLBState) : MarketMakers :=
  match s with
  | Idle st => makers st
  | PartialPreview st => pp_makers_preview st
  | Preview st => p_makers_preview st
  end.

(** ** Price range and selection of takers *)

Record AllowedPriceRange := mkRange {
  max_ask_price : option AbsolutePrice;
  min_bid_price : option AbsolutePrice;
}.

Definition range_default : AllowedPriceRange := mkRange None None.

Definition test_ask (r : AllowedPriceRange) (ask : T) : option T :=
  match max_ask_price r with
  | None => Some ask
  | Some max_ask => if ratio_leb (taker_price ask) max_ask then Some ask else None
  end.

(** The source matches on [max_ask_price] here too. *)
Definition test_bid (r : AllowedPriceRange) (bid : T) : option T :=
  match max_ask_price r with
  | None => Some bid
  | Some min_bid => if ratio_geb (taker_price bid) min_bid then Some bid else None
  end.

Definition stashed_takers (s : TLBState) : list T :=
  match s with
  | Idle _ => []
  | PartialPreview st => pp_stashed st
  | Preview st => p_stashed st
  end.

Definition prices_on (side : Side) (l : list T) : list AbsolutePrice :=
  omap (fun tk => if bool_decide (taker_side tk = side) then Some (taker_price tk) else None) l.

Definition allowed_price_range (s : TLBState) : AllowedPriceRange :=
  match s with
  | Idle _ => range_default
  | _ => mkRange (min_by ratio_cmp (prices_on Ask (stashed_takers s)))
                 (max_by ratio_cmp (prices_on Bid (stashed_takers s)))
  end.

Definition side_store (m : MarketTakers) (side : Side) : list T :=
  match side with Bid => bids m | Ask => asks m end.

Definition set_side_store (m : MarketTakers) (side : Side) (l : list T) : MarketTakers :=
  match side with Bid => mkTakers (asks m) l | Ask => mkTakers l (bids m) end.

Definition best_taker_price (s : TLBState) (side : Side) : option (OnSide AbsolutePrice) :=
  (fun fr => wrap side (taker_price fr)) <$> head (side_store (active_fragments s) side).

Definition try_pick_fr (m : MarketTakers) (side : Side) (test : T -> bool) : option T * MarketTakers :=
  match side_store m side with
  | [] => (None, m)
  | best_fr :: rest =>
    if test best_fr then (Some best_fr, set_side_store m side rest)
    else (None, set_side_store m side (bt_insert best_fr rest))
  end.

(** [pick_best_fr_either]: [a >= b] of weights fails when the costs do not
    compare. *)
Definition best_fr_either `{CostOrd U} (m : MarketTakers) (index_price : option AbsolutePrice)
    : option T * MarketTakers :=
  match pop_first (bids m), pop_first (asks m) with
  | (Some bid, bids'), (Some ask, asks') =>
    let bid_is_underpriced := match index_price with Some ip => ratio_ltb (taker_price bid) ip | None => false end in
    let ask_is_overpriced := match index_price with Some ip => ratio_ltb ip (taker_price ask) | None => false end in
    let bid_is_heavier :=
      match weight_partial_cmp (weight bid) (weight ask) with Some (Gt | Eq) => true | _ => false end in
    if (bid_is_heavier && negb bid_is_underpriced) || ask_is_overpriced
    then (Some bid, mkTakers (bt_insert ask asks') bids')
    else (Some ask, mkTakers asks' (bt_insert bid bids'))
  | (Some any, bids'), (None, asks') | (None, bids'), (Some any, asks') => (Some any, mkTakers asks' bids')
  | (None, _), (None, _) => (None, m)
  end.

(** [Ratio<i128>] of a price. *)
Definition price_to_signed (p : AbsolutePrice) : Ratio :=
  sratio_new (u128_as_i128 (numer p)) (u128_as_i128 (denom p)).

(** [Ratio::new(1, bid.input())] panics on a bid without input; active takers
    have input left. *)
Definition max_by_volume_of (ask bid : T) (spot_price : option AbsolutePrice) : T :=
  let ask_vol := ratio_new (taker_input ask) 1 in
  let bid_vol := ratio_mul (ratio_new 1 (taker_input bid)) (default (taker_price bid) spot_price) in
  match ratio_cmp ask_vol bid_vol with Gt => ask | _ => bid end.

Definition max_by_distance_to_spot (m : MarketTakers) (spot_price : AbsolutePrice)
    (range : AllowedPriceRange) : option T * MarketTakers :=
  let best_bid := head (bids m) ≫= test_bid range in
  let best_ask := head (asks m) ≫= test_ask range in
  let choice :=
    match best_ask, best_bid with
    | Some ask, Some bid =>
      let abs_price := price_to_signed spot_price in
      let distance_from_ask := sratio_sub abs_price (price_to_signed (taker_price ask)) in
      let distance_from_bid :=
        sratio_mul (sratio_sub abs_price (price_to_signed (taker_price bid))) (mkRatio (-1) 1) in
      match sratio_cmp distance_from_ask distance_from_bid with
      | Gt => Some ask
      | Lt => Some bid
      | Eq => Some (max_by_volume_of ask bid (Some spot_price))
      end
    | Some taker, _ => Some taker
    | None, Some taker => Some taker
    | None, None => None
    end in
  match choice with
  | Some taker => (Some taker, takers_remove m taker)
  | None => (None, m)
  end.

Definition max_by_volume `{EqDecision T} (m : MarketTakers) (range : AllowedPriceRange)
    : option T * MarketTakers :=
  let best_bid := head (bids m) ≫= test_bid range in
  let best_ask := head (asks m) ≫= test_ask range in
  let '(choice, m) :=
    match best_ask, best_bid with
    | Some ask, Some bid =>
      let choice := max_by_volume_of ask bid None in
      (Some choice, takers_insert m (if bool_decide (choice = ask) then bid else ask))
    | Some taker, _ => (Some taker, m)
    | None, Some taker => (Some taker, m)
    | None, None => (None, m)
    end in
  match choice with
  | Some taker => (Some taker, takers_remove m taker)
  | None => (None, m)
  end.

(** ** Picking *)

(** The query [f] removes what it picks from the takers it is given. *)
Definition pick_active_taker (s : TLBState) (f : MarketTakers -> option T * MarketTakers)
    : option T * TLBState :=
  match s with
  | Idle st =>
    let '(choice, act) := f (active (takers st)) in
    let st' := mkIdle (set_active (takers st) act) (makers st) in
    match choice with
    | Some c =>
      (Some c, PartialPreview (mkPartial (takers st') [c] [] (makers st') (makers st')))
    | None => (None, Idle st')
    end
  | PartialPreview st =>
    let '(choice, act) := f (active (takers_preview st)) in
    (choice, PartialPreview (mkPartial (set_active (takers_preview st) act)
               (match choice with
                | Some c => consumed_active_takers st ++ [c]
                | None => consumed_active_takers st
                end)
               (pp_stashed st) (pp_makers_intact st) (pp_makers_preview st)))
  | Preview st =>
    let '(choice, act) := f (active_takers_preview st) in
    (choice, Preview (mkPreview (takers_intact st) act (p_stashed st) (inactive_takers_changeset st)
                        (p_makers_intact st) (p_makers_preview st)))
  end.

Definition try_pick_taker (s : TLBState) (side : Side) (test : T -> bool) : option T * TLBState :=
  pick_active_taker s (fun af => try_pick_fr af side test).

Definition pick_best_fr_either `{CostOrd U} (s : TLBState) (index_price : option AbsolutePrice)
    : option T * TLBState :=
  pick_active_taker s (fun fragments => best_fr_either fragments index_price).

Definition preview_add_taker (st : PreviewState) (now : Z) (taker : T) : PreviewState :=
  match waits_until now taker with
  | Some lb => mkPreview (takers_intact st) (active_takers_preview st) (p_stashed st)
                 (inactive_takers_changeset st ++ [(lb, taker)]) (p_makers_intact st) (p_makers_preview st)
  | None => mkPreview (takers_intact st) (takers_insert (active_takers_preview st) taker) (p_stashed st)
              (inactive_takers_changeset st) (p_makers_intact st) (p_makers_preview st)
  end.

Definition pre_add_taker (s : TLBState) (taker : T) : TLBState :=
  let now := current_time s in
  match s with
  | Preview st => Preview (preview_add_taker st now taker)
  | _ => match move_into_preview s with
         | Some st => Preview (preview_add_taker st now taker)
         | None => s
         end
  end.

Definition preview_update_pool (st : PreviewState) (pool : M) : PreviewState :=
  mkPreview (takers_intact st) (active_takers_preview st) (p_stashed st)
    (inactive_takers_changeset st) (p_makers_intact st) (update_pool (p_makers_preview st) pool).

Definition pre_add_maker (s : TLBState) (pool : M) : TLBState :=
  match s with
  | Preview st => Preview (preview_update_pool st pool)
  | _ => match move_into_preview s with
         | Some st => Preview (preview_update_pool st pool)
         | None => s
         end
  end.

Definition pick_maker_by_id (s : TLBState) (pid : MI) : option M * TLBState :=
  match s with
  | Idle st =>
    let '(r, m) := remove_by_id (makers st) pid in
    (r, PartialPreview (mkPartial (takers st) [] [] (makers st) m))
  | PartialPreview st =>
    let '(r, m) := remove_by_id (pp_makers_preview st) pid in
    (r, PartialPreview (mkPartial (takers_preview st) (consumed_active_takers st) (pp_stashed st)
                          (pp_makers_intact st) m))
  | Preview st =>
    let '(r, m) := remove_by_id (p_makers_preview st) pid in
    (r, Preview (mkPreview (takers_intact st) (active_takers_preview st) (p_stashed st)
                   (inactive_takers_changeset st) (p_makers_intact st) m))
  end.

Definition best_market_maker (s : TLBState) : option M :=
  max_by (fun a b => (quality a ?= quality b)%Z) (snd <$> hash_iter (values (pools s))).

(** ** Preselection of a pool *)

Record FillPreview := mkFill { fill_price : AbsolutePrice; fill_input : Z }.

Definition dummy_swap (taker : T) (demand : Z) (side : Side) (maker : M) : option (MI * FillPreview) :=
  real ← effective_price maker taker (wrap side demand);
  Some (stable_id maker, mkFill real demand).

(** The binary search of [try_optimized_swap]; [fuel] bounds its iterations. *)
Fixpoint search_loop (fuel : nat) (quote : Z -> option AbsolutePrice) (ok : AbsolutePrice -> bool)
    (low high : Z) (best : option (Z * AbsolutePrice)) : option (Z * AbsolutePrice) :=
  match fuel with
  | O => best
  | S fuel =>
    if (low <? high)%Z then
      let candidate := (low + (high - low + 1) / 2)%Z in
      match quote candidate with
      | Some p =>
        if ok p then search_loop fuel quote ok candidate high (Some (candidate, p))
        else search_loop fuel quote ok low (candidate - 1) best
      | None => search_loop fuel quote ok low (candidate - 1) best
      end
    else best
  end.

(** Each iteration halves an interval of [u64] numbers. *)
Definition search_fuel : nat := 64.

Definition try_optimized_swap (taker : T) (price : AbsolutePrice) (demand : Z) (side : Side) (maker : M)
    : option (MI * FillPreview) :=
  al ← available_liquidity_on_side maker (wrap side price);
  let input := available_input al in
  absolute_price ←
    (match effective_price maker taker (wrap side input) with
     | Some p => Some p
     | None => match side with
               | Bid => price_new input (available_output al)
               | Ask => price_new (available_output al) input
               end
     end);
  let admissible p := overlaps (wrap side price) p in
  '(input, absolute_price) ←
    (if ((0 <? input) && (input <=? demand))%Z && negb (admissible absolute_price)
     then search_loop search_fuel (fun c => effective_price maker taker (wrap side c)) admissible
            0 input None
     else Some (input, absolute_price));
  if ((0 <? input) && (input <=? demand))%Z && admissible absolute_price
  then Some (stable_id maker, mkFill absolute_price input) else None.

Definition preselect_market_maker (s : TLBState) (price : AbsolutePrice) (demand : Z) (side : Side)
    (optimized : bool) (target_taker : T) : option (MI * FillPreview) :=
  let candidates :=
    filter (fun c => overlaps (wrap side price) (fill_price c.2) = true)
      (omap (fun p =>
         if optimized then
           match try_optimized_swap target_taker price demand side p with
           | Some r => Some r
           | None => dummy_swap target_taker demand side p
           end
         else dummy_swap target_taker demand side p)
        (filter (fun p => is_active p = true) (snd <$> hash_iter (values (pools s))))) in
  let by_price (a b : MI * FillPreview) := ratio_cmp (fill_price a.2) (fill_price b.2) in
  match side with
  | Bid => min_by by_price candidates
  | Ask => max_by by_price candidates
  end.

(** ** External events on a settled book *)

Definition idle_advance_clocks (s : IdleState) (new_time : Z) : IdleState :=
  mkIdle (chronology_advance_clocks (takers s) new_time) (makers s).
Definition idle_add_fragment (s : IdleState) (fr : T) : IdleState :=
  mkIdle (chronology_add_fragment (takers s) fr) (makers s).
Definition idle_remove_fragment (s : IdleState) (fr : T) : IdleState :=
  mkIdle (chronology_remove_fragment (takers s) fr) (makers s).
Definition idle_update_pool (s : IdleState) (pool : M) : IdleState :=
  mkIdle (takers s) (update_pool (makers s) pool).
Definition idle_remove_pool (s : IdleState) (pool : M) : IdleState :=
  mkIdle (takers s) (remove_pool (makers s) pool).

Record LiquidityBookSize := mkSize {
  num_active_takers : nat;
  num_active_makers : nat;
  num_idle_takers : nat;
  num_idle_makers : nat;
}.

Definition takers_count (m : MarketTakers) : nat := length (asks m) + length (bids m).

Definition state_size (s : TLBState) : LiquidityBookSize :=
  match s with
  | Idle st => mkSize (takers_count (active (takers st))) (size (values (makers st)))
                 (size (inactive (takers st))) 0
  | PartialPreview st =>
    mkSize (takers_count (active (takers_preview st))) (size (values (pp_makers_preview st)))
      (size (inactive (takers_preview st))) 0
  | Preview st =>
    mkSize (takers_count (active_takers_preview st)) (size (values (p_makers_preview st)))
      (size (inactive (takers_intact st)) + length (inactive_takers_changeset st)) 0
  end.

End State.

Arguments MarketTakers T : clear implicits.
Arguments Chronology T : clear implicits.
Arguments MarketMakers M MI {_ _}.
Arguments StashingOption T : clear implicits.
Arguments IdleState T M MI {_ _}.
Arguments PartialPreviewState T M MI {_ _}.
Arguments PreviewState T M MI {_ _}.
Arguments TLBState T M MI {_ _}.
