(* ===== verification/LbStateProofs.v ===== *)
(** * Previews never lose a taker

    Theorems about [LbState.v]: ordered sets, the state every preview can be
    rolled back to, what a commit keeps and drops, and the binary search for a
    fill. *)

From stdpp Require Import base gmap list sorting.
From Stdlib Require Import ZArith Lia.
From S2P Require Import Prelude LbTypes LbCore LbState.

(** ** Ordered sets *)

Section Ordered.
Context {T : Type} `{TOL : TakerOrdLaws T}.
Implicit Types (x y z : T) (l : list T).

Definition cmp_lt x y : Prop := taker_cmp x y = Lt.

Lemma taker_cmp_refl x : taker_cmp x x = Eq.
Proof. pose proof (taker_cmp_antisym x x) as E. by destruct (taker_cmp x x). Qed.

Lemma taker_cmp_eq_sym x y : taker_cmp x y = Eq -> taker_cmp y x = Eq.
Proof. intros E. by rewrite taker_cmp_antisym, E. Qed.

Lemma taker_cmp_gt x y : taker_cmp x y = Gt -> cmp_lt y x.
Proof. unfold cmp_lt. intros E. by rewrite taker_cmp_antisym, E. Qed.

#[local] Instance cmp_lt_trans : Transitive cmp_lt.
Proof. intros x y z. apply taker_cmp_lt_trans. Qed.
#[local] Instance cmp_lt_irrefl : Irreflexive cmp_lt.
Proof. intros x. unfold complement, cmp_lt. by rewrite taker_cmp_refl. Qed.
#[local] Instance cmp_lt_antisym : AntiSymm (=) cmp_lt.
Proof. intros x y H1 H2. exfalso. apply (cmp_lt_irrefl x). by etransitivity. Qed.

Notation sorted := (StronglySorted cmp_lt).

Lemma sorted_nodup l : sorted l -> NoDup l.
Proof.
  induction 1 as [|x l _ IH Hf]; constructor; [|done].
  intros Hx. rewrite Forall_forall in Hf. by apply (cmp_lt_irrefl x), Hf.
Qed.

(** Ordered lists are determined by their elements. *)
Lemma sorted_ext l l' : sorted l -> sorted l' -> (forall x, x ∈ l <-> x ∈ l') -> l = l'.
Proof.
  intros Hl Hl' Hx. apply (StronglySorted_unique cmp_lt); [done..|].
  by apply NoDup_Permutation; [apply sorted_nodup..|].
Qed.

(** Two elements of an ordered list that compare equal are the same. *)
Lemma sorted_eq l x y : sorted l -> x ∈ l -> y ∈ l -> taker_cmp x y = Eq -> x = y.
Proof.
  induction 1 as [|z l _ IH Hf]; [by intros ?%elem_of_nil|].
  rewrite Forall_forall in Hf. intros [->|Hx]%elem_of_cons [->|Hy]%elem_of_cons E; [done| | |by apply IH].
  - pose proof (Hf y Hy) as L. unfold cmp_lt in L. congruence.
  - pose proof (Hf x Hx) as L. unfold cmp_lt in L. apply taker_cmp_eq_sym in E. congruence.
Qed.

(** No element compares equal to [y]. *)
Definition fresh_in y l : Prop := Forall (fun z => taker_cmp y z <> Eq) l.

Lemma lt_all_fresh y l : Forall (cmp_lt y) l -> fresh_in y l.
Proof. intros Hf. eapply Forall_impl; [exact Hf|]. unfold cmp_lt. cbn. congruence. Qed.

Lemma bt_insert_elem y l : sorted l ->
  forall x, x ∈ bt_insert y l <-> x ∈ l \/ x = y /\ fresh_in y l.
Proof.
  induction 1 as [|z l Hs IH Hf]; intros x; cbn.
  - rewrite list_elem_of_singleton. split; [intros ->; right; split; [done|constructor]|].
    by intros [?%elem_of_nil|[-> _]].
  - destruct (taker_cmp y z) eqn:E.
    + split; [by left|]. intros [?|[-> Hn]]; [done|]. by apply Forall_cons in Hn as [? _].
    + rewrite elem_of_cons. split; [|naive_solver]. intros [->|?]; [right|by left]. split; [done|].
      apply lt_all_fresh. constructor; [done|]. eapply Forall_impl; [exact Hf|].
      intros w Hw. by transitivity z.
    + rewrite !elem_of_cons, IH. unfold fresh_in. rewrite Forall_cons, E. naive_solver.
Qed.

Lemma bt_insert_sorted y l : sorted l -> sorted (bt_insert y l).
Proof.
  induction 1 as [|z l Hs IH Hf]; cbn; [by repeat constructor|].
  destruct (taker_cmp y z) eqn:E; [by constructor| |].
  - constructor; [by constructor|]. constructor; [done|].
    eapply Forall_impl; [exact Hf|]. intros w Hw. by transitivity z.
  - constructor; [done|]. apply Forall_forall. intros x [Hx|[-> _]]%bt_insert_elem; [| |done].
    + rewrite Forall_forall in Hf. by apply Hf.
    + by apply taker_cmp_gt.
Qed.

Lemma bt_remove_elem y l : sorted l ->
  forall x, x ∈ bt_remove y l <-> x ∈ l /\ taker_cmp y x <> Eq.
Proof.
  induction 1 as [|z l Hs IH Hf]; intros x; cbn; [by split; [intros ?%elem_of_nil|intros [?%elem_of_nil _]]|].
  rewrite Forall_forall in Hf. destruct (taker_cmp y z) eqn:E; rewrite !elem_of_cons.
  - split.
    + intros Hx. split; [by right|]. rewrite (taker_cmp_eq_l _ _ _ E). specialize (Hf x Hx).
      unfold cmp_lt in Hf. congruence.
    + intros [[->|Hx] Hn]; [congruence|done].
  - split; [|by intros [? _]]. intros [->|Hx]; (split; [naive_solver|]); [congruence|].
    assert (cmp_lt y x) as L by (transitivity z; [done|by apply Hf]). unfold cmp_lt in L. congruence.
  - rewrite IH. naive_solver congruence.
Qed.

Lemma bt_remove_sorted y l : sorted l -> sorted (bt_remove y l).
Proof.
  induction 1 as [|z l Hs IH Hf]; cbn; [constructor|].
  destruct (taker_cmp y z) eqn:E; [done|by constructor|]. constructor; [done|].
  rewrite Forall_forall in *. intros x [Hx _]%bt_remove_elem; [|done]. by apply Hf.
Qed.

End Ordered.

Notation sorted := (StronglySorted cmp_lt).

(** ** Takers of both sides *)

Section Takers.
Context {T U : Type} `{TK : MarketTaker T U} `{TOL : TakerOrdLaws T}.
Implicit Types (x y z : T) (m : MarketTakers T) (l : list T).

Definition elems m : list T := asks m ++ bids m.

(** Both sides are ordered and hold their own takers. *)
Record takers_ok m : Prop := {
  ok_asks : sorted (asks m);
  ok_bids : sorted (bids m);
  ok_ask_side : Forall (fun x => taker_side x = Ask) (asks m);
  ok_bid_side : Forall (fun x => taker_side x = Bid) (bids m);
}.

(** The same entry of the book. *)
Definition same x y : Prop := taker_side x = taker_side y /\ taker_cmp x y = Eq.

Definition fresh y m : Prop := forall z, z ∈ elems m -> ~ same y z.

Lemma elem_of_asks m x : takers_ok m -> x ∈ asks m <-> x ∈ elems m /\ taker_side x = Ask.
Proof.
  intros [_ _ Ha Hb]. unfold elems. rewrite elem_of_app. rewrite Forall_forall in Ha, Hb.
  split; [naive_solver|]. intros [[?|Hx] E]; [done|]. apply Hb in Hx. congruence.
Qed.

Lemma elem_of_bids m x : takers_ok m -> x ∈ bids m <-> x ∈ elems m /\ taker_side x = Bid.
Proof.
  intros [_ _ Ha Hb]. unfold elems. rewrite elem_of_app. rewrite Forall_forall in Ha, Hb.
  split; [naive_solver|]. intros [[Hx|?] E]; [|done]. apply Ha in Hx. congruence.
Qed.

Lemma takers_ext m m' : takers_ok m -> takers_ok m' -> (forall x, x ∈ elems m <-> x ∈ elems m') -> m = m'.
Proof.
  intros H1 H2 Hx.
  assert (asks m = asks m') as Ea
    by (apply sorted_ext; [apply H1|apply H2|intros x; by rewrite !elem_of_asks, Hx]).
  assert (bids m = bids m') as Eb
    by (apply sorted_ext; [apply H1|apply H2|intros x; by rewrite !elem_of_bids, Hx]).
  destruct m, m'. cbn in *. congruence.
Qed.

Lemma takers_unique m x y : takers_ok m -> x ∈ elems m -> y ∈ elems m -> same x y -> x = y.
Proof.
  intros Hm Hx Hy [Hs Hc]. destruct (taker_side x) eqn:E.
  - apply (sorted_eq (bids m)); [apply Hm|by apply elem_of_bids..|done].
  - apply (sorted_eq (asks m)); [apply Hm|by apply elem_of_asks..|done].
Qed.

Lemma fresh_asks y m : takers_ok m -> taker_side y = Ask -> fresh_in y (asks m) <-> fresh y m.
Proof.
  intros Hm Hy. unfold fresh_in, fresh. rewrite Forall_forall. setoid_rewrite (elem_of_asks m _ Hm).
  unfold same. rewrite Hy. naive_solver.
Qed.

Lemma fresh_bids y m : takers_ok m -> taker_side y = Bid -> fresh_in y (bids m) <-> fresh y m.
Proof.
  intros Hm Hy. unfold fresh_in, fresh. rewrite Forall_forall. setoid_rewrite (elem_of_bids m _ Hm).
  unfold same. rewrite Hy. naive_solver.
Qed.

Lemma takers_insert_spec m y : takers_ok m ->
  takers_ok (takers_insert m y) /\
  forall x, x ∈ elems (takers_insert m y) <-> x ∈ elems m \/ x = y /\ fresh y m.
Proof.
  intros Hm. unfold takers_insert. destruct (taker_side y) eqn:E.
  - split.
    + destruct Hm as [H1 H2 H3 H4]. split; cbn; try done; [by apply bt_insert_sorted|].
      apply Forall_forall. intros x [Hx|[-> _]]%bt_insert_elem; [|done..].
      rewrite Forall_forall in H4. by apply H4.
    + intros x. unfold elems at 1. cbn. rewrite elem_of_app, bt_insert_elem by apply Hm.
      rewrite fresh_bids by done. unfold elems. rewrite elem_of_app. naive_solver.
  - split.
    + destruct Hm as [H1 H2 H3 H4]. split; cbn; try done; [by apply bt_insert_sorted|].
      apply Forall_forall. intros x [Hx|[-> _]]%bt_insert_elem; [|done..].
      rewrite Forall_forall in H3. by apply H3.
    + intros x. unfold elems at 1. cbn. rewrite elem_of_app, bt_insert_elem by apply Hm.
      rewrite fresh_asks by done. unfold elems. rewrite elem_of_app. naive_solver.
Qed.

Lemma takers_remove_spec m y : takers_ok m ->
  takers_ok (takers_remove m y) /\
  forall x, x ∈ elems (takers_remove m y) <-> x ∈ elems m /\ ~ same y x.
Proof.
  intros Hm. unfold takers_remove. destruct (taker_side y) eqn:E.
  - split.
    + destruct Hm as [H1 H2 H3 H4]. split; cbn; try done; [by apply bt_remove_sorted|].
      apply Forall_forall. intros x [Hx _]%bt_remove_elem; [|done]. rewrite Forall_forall in H4. by apply H4.
    + intros x. unfold elems at 1. cbn. rewrite elem_of_app, bt_remove_elem by apply Hm.
      rewrite elem_of_asks, elem_of_bids by done. unfold same. rewrite E.
      destruct (taker_side x); naive_solver.
  - split.
    + destruct Hm as [H1 H2 H3 H4]. split; cbn; try done; [by apply bt_remove_sorted|].
      apply Forall_forall. intros x [Hx _]%bt_remove_elem; [|done]. rewrite Forall_forall in H3. by apply H3.
    + intros x. unfold elems at 1. cbn. rewrite elem_of_app, bt_remove_elem by apply Hm.
      rewrite elem_of_asks, elem_of_bids by done. unfold same. rewrite E.
      destruct (taker_side x); naive_solver.
Qed.

Lemma same_refl x : same x x.
Proof. split; [done|apply taker_cmp_refl]. Qed.
Lemma same_sym x y : same x y -> same y x.
Proof. intros [? ?]. split; [done|by apply taker_cmp_eq_sym]. Qed.

(** Putting back what was taken out restores the set. *)
Lemma insert_remove m c : takers_ok m -> c ∈ elems m -> takers_insert (takers_remove m c) c = m.
Proof.
  intros Hm Hc. destruct (takers_remove_spec m c Hm) as [Hr Er].
  destruct (takers_insert_spec _ c Hr) as [Hi Ei]. apply takers_ext; [done..|].
  intros x. rewrite Ei, Er. split.
  - by intros [[? _]|[-> _]].
  - intros Hx. destruct (decide (taker_side c = taker_side x)) as [Hs|]; [|left; split; [done|by intros []]].
    destruct (taker_cmp c x) eqn:E; [|left; split; [done|intros []; congruence]..].
    right. assert (c = x) as -> by by apply (takers_unique m). split; [done|].
    intros z [_ Hz]%Er. done.
Qed.

(** ** Inserting and removing several takers *)

(** No two takers of the list are the same entry. *)
Fixpoint apart l : Prop :=
  match l with [] => True | x :: l => (forall y, y ∈ l -> ~ same x y) /\ apart l end.

Lemma apart_app l l' : apart (l ++ l') <->
  apart l /\ apart l' /\ forall x y, x ∈ l -> y ∈ l' -> ~ same x y.
Proof.
  induction l as [|a l IH]; cbn.
  - split; [intros H1; repeat split; [done|]; by intros x y ?%elem_of_nil|naive_solver].
  - rewrite IH. setoid_rewrite elem_of_app. setoid_rewrite elem_of_cons. naive_solver.
Qed.

Lemma insert_all_spec l : forall m, takers_ok m -> apart l -> (forall y, y ∈ l -> fresh y m) ->
  takers_ok (takers_insert_all m l) /\
  forall x, x ∈ elems (takers_insert_all m l) <-> x ∈ elems m \/ x ∈ l.
Proof.
  induction l as [|y l IH]; intros m Hm Ha Hf; cbn.
  - split; [done|]. intros x. rewrite elem_of_nil. naive_solver.
  - destruct Ha as [Hy Ha]. destruct (takers_insert_spec m y Hm) as [Hi Ei].
    assert (fresh y m) as Fy by (apply Hf; left).
    destruct (IH (takers_insert m y)) as [H1 H2]; [done..| |].
    { intros z Hz w [Hw|[-> _]]%Ei; [by apply (Hf z); [right|]|]. intros ?%same_sym. by apply (Hy z). }
    split; [done|]. intros x. rewrite H2, Ei, elem_of_cons. naive_solver.
Qed.

Lemma insert_all_ok l : forall m, takers_ok m -> takers_ok (takers_insert_all m l).
Proof. induction l as [|y l IH]; intros m Hm; cbn; [done|]. apply IH. by apply takers_insert_spec. Qed.

Lemma insert_all_incl l : forall m x, takers_ok m -> x ∈ elems m -> x ∈ elems (takers_insert_all m l).
Proof.
  induction l as [|y l IH]; intros m x Hm Hx; cbn; [done|].
  destruct (takers_insert_spec m y Hm) as [Hi Ei]. apply IH; [done|]. apply Ei. by left.
Qed.

Lemma insert_all_has l : forall m t, takers_ok m -> t ∈ l ->
  exists t', t' ∈ elems (takers_insert_all m l) /\ same t t'.
Proof.
  induction l as [|y l IH]; intros m t Hm; [by intros ?%elem_of_nil|].
  destruct (takers_insert_spec m y Hm) as [Hi Ei]. intros [->|Ht]%elem_of_cons; cbn; [|by apply IH].
  assert (exists t', t' ∈ elems (takers_insert m y) /\ same y t') as (t' & Ht' & Hs).
  { destruct (decide (Exists (fun z => taker_side y = taker_side z /\ taker_cmp y z = Eq) (elems m))) as [He|He].
    - apply Exists_exists in He as (z & Hz & Hs). exists z. split; [|done]. apply Ei. by left.
    - exists y. split; [|apply same_refl]. apply Ei. right. split; [done|].
      intros z Hz Hs. apply He, Exists_exists. by exists z. }
  exists t'. split; [|done]. by apply insert_all_incl.
Qed.

Lemma remove_all_spec l : forall m, takers_ok m ->
  takers_ok (takers_remove_all m l) /\
  forall x, x ∈ elems (takers_remove_all m l) <-> x ∈ elems m /\ forall y, y ∈ l -> ~ same y x.
Proof.
  induction l as [|y l IH]; intros m Hm; cbn.
  - split; [done|]. intros x. split; [|naive_solver]. intros Hx. split; [done|]. by intros y ?%elem_of_nil.
  - destruct (takers_remove_spec m y Hm) as [Hi Ei]. destruct (IH _ Hi) as [H1 H2].
    split; [done|]. intros x. rewrite H2, Ei. setoid_rewrite elem_of_cons. naive_solver.
Qed.

End Takers.

(** ** The automaton *)

Section Automaton.
Context {T M U MI : Type}.
Context `{RL : RatioLib} `{TK : MarketTaker T U} `{TB : TakerBehaviour T} `{TOL : TakerOrdLaws T}.
Context `{MK : MarketMaker M U} `{Countable MI} `{MS : Stable M MI}.

Local Arguments pp_restored : simpl never.
Local Notation State := (TLBState T M MI).
Implicit Types (s : State).

(** The active takers of the settled state a preview started from, less the
    stashed ones. *)
Definition unstashed s : MarketTakers T :=
  match s with
  | Idle st => active (takers st)
  | PartialPreview st => pp_restored st
  | Preview st => active (takers_intact st)
  end.

(** The settled state a preview started from: what a rollback that unstashes
    leaves behind. *)
Definition intact s : IdleState T M MI :=
  match s with
  | Idle st => st
  | PartialPreview st =>
    mkIdle (set_active (takers_preview st) (takers_insert_all (pp_restored st) (pp_stashed st)))
      (pp_makers_intact st)
  | Preview st =>
    mkIdle (set_active (takers_intact st)
              (takers_insert_all (active (takers_intact st)) (p_stashed st)))
      (p_makers_intact st)
  end.

Record state_ok s : Prop := {
  so_unstashed : takers_ok (unstashed s);
  so_active : takers_ok (active_fragments s);
  so_apart : apart (stashed_takers s);
  so_fresh : forall y, y ∈ stashed_takers s -> fresh y (unstashed s);
}.

(** A query picks an element of the set and removes it, or changes nothing. *)
Definition picker (f : MarketTakers T -> option T * MarketTakers T) : Prop :=
  forall m, takers_ok m ->
    match f m with
    | (Some c, m') => c ∈ elems m /\ m' = takers_remove m c
    | (None, m') => m' = m
    end.

Lemma pick_preserves s f c s' : picker f -> state_ok s -> pick_active_taker s f = (c, s') ->
  state_ok s' /\ intact s' = intact s /\ unstashed s' = unstashed s.
Proof.
  intros Hf [Hu Ha Hap Hfr]. specialize (Hf _ Ha). destruct s as [st|st|st]; cbn in *.
  - destruct (f (active (takers st))) as [[x|] m'] eqn:E; intros [= <- <-].
    + destruct Hf as [Hx ->].
      assert (pp_restored (mkPartial (set_active (takers st) (takers_remove (active (takers st)) x))
                [x] [] (makers st) (makers st)) = active (takers st)) as Eu by by apply insert_remove.
      split; [split; cbn; rewrite ?Eu; try done; by apply takers_remove_spec|].
      split; [|done]. cbn. rewrite Eu. by destruct st as [[] ?].
    + subst m'. destruct st as [[] ?]. cbn in *. split; [by split|done].
  - destruct (f (active (takers_preview st))) as [[x|] m'] eqn:E; intros [= <- <-].
    + destruct Hf as [Hx ->].
      assert (pp_restored (mkPartial (set_active (takers_preview st) (takers_remove (active (takers_preview st)) x))
                (consumed_active_takers st ++ [x]) (pp_stashed st) (pp_makers_intact st)
                (pp_makers_preview st)) = pp_restored st) as Eu.
      { unfold pp_restored. cbn [consumed_active_takers takers_preview set_active active].
        rewrite reverse_snoc. unfold takers_insert_all. cbn [fold_left]. by rewrite insert_remove. }
      split; [split; cbn; rewrite ?Eu; try done; by apply takers_remove_spec|].
      split; [|done]. cbn. by rewrite Eu.
    + subst m'. destruct st as [[] ? ? ? ?]. cbn in *. split; [by split|done].
  - destruct (f (active_takers_preview st)) as [[x|] m'] eqn:E; intros [= <- <-].
    + destruct Hf as [Hx ->]. split; [split; cbn; try done; by apply takers_remove_spec|done].
    + subst m'. split; [by split|done].
Qed.

Lemma pick_active s f x s' : picker f -> state_ok s -> pick_active_taker s f = (x, s') ->
  match x with
  | Some t => t ∈ elems (active_fragments s) /\
              active_fragments s' = takers_remove (active_fragments s) t
  | None => active_fragments s' = active_fragments s
  end.
Proof.
  intros Hf [_ Ha _ _]. specialize (Hf _ Ha). unfold pick_active_taker.
  destruct s as [st|st|st]; cbn [active_fragments] in *; destruct (f _) as [[y|] m']; intros [= <- <-]; cbn;
    done.
Qed.

Lemma pre_add_taker_active s t x : state_ok s ->
  x ∈ elems (active_fragments (pre_add_taker s t)) -> x ∈ elems (active_fragments s) \/ x = t.
Proof.
  intros [_ Ha _ _]. unfold pre_add_taker.
  destruct s as [st|st|st]; cbn [move_into_preview active_fragments] in *; unfold preview_add_taker;
    destruct (waits_until _ _); cbn; try (by left); intros [?|[-> _]]%takers_insert_spec; auto.
Qed.

Lemma pre_add_maker_active s p : active_fragments (pre_add_maker s p) = active_fragments s.
Proof. by destruct s. Qed.

Lemma pick_maker_active s pid : active_fragments (pick_maker_by_id s pid).2 = active_fragments s.
Proof. by destruct s. Qed.

(** A rollback starts the next round: nothing is consumed. *)
Lemma rollback_active s opt : active_fragments (state_rollback s opt) = unstashed (state_rollback s opt).
Proof.
  destruct s as [st|st|st]; [done|..]; cbn; unfold pp_rollback, p_rollback; destruct opt; cbn;
    repeat case_match; simplify_eq; done.
Qed.

Lemma preview_add_taker_ok st now t :
  state_ok (Preview st : State) -> state_ok (Preview (preview_add_taker st now t)) /\
  intact (Preview (preview_add_taker st now t)) = intact (Preview st) /\
  unstashed (Preview (preview_add_taker st now t)) = unstashed (Preview st).
Proof.
  intros [Hu Ha Hap Hfr]. unfold preview_add_taker.
  destruct (waits_until now t); (split; [split; cbn in *; try done|done]).
  by apply takers_insert_spec.
Qed.

Lemma move_into_preview_ok s st : state_ok s -> move_into_preview s = Some st ->
  state_ok (Preview st) /\ intact (Preview st) = intact s /\ unstashed (Preview st) = unstashed s.
Proof.
  intros [Hu Ha Hap Hfr]. destruct s as [i|i|i]; cbn in *; [| |done]; intros [= <-].
  - split; [by split|]. split; [|done]. by destruct i as [[] ?].
  - split; [by split|done].
Qed.

Lemma pre_add_taker_preserves s t : state_ok s ->
  state_ok (pre_add_taker s t) /\ intact (pre_add_taker s t) = intact s /\
  unstashed (pre_add_taker s t) = unstashed s.
Proof.
  intros Hs. unfold pre_add_taker.
  assert (forall st, move_into_preview s = Some st ->
    state_ok (Preview (preview_add_taker st (current_time s) t)) /\
    intact (Preview (preview_add_taker st (current_time s) t)) = intact s /\
    unstashed (Preview (preview_add_taker st (current_time s) t)) = unstashed s) as Hmv.
  { intros st E. destruct (move_into_preview_ok s st Hs E) as (H1 & <- & <-).
    by apply preview_add_taker_ok. }
  destruct s; [by apply Hmv..|by apply preview_add_taker_ok].
Qed.

Lemma pre_add_maker_preserves s p : state_ok s ->
  state_ok (pre_add_maker s p) /\ intact (pre_add_maker s p) = intact s /\
  unstashed (pre_add_maker s p) = unstashed s.
Proof.
  intros Hs. unfold pre_add_maker. destruct s as [st|st|st]; [| |by destruct Hs; split; [split|]].
  all: match goal with |- context [move_into_preview ?x] =>
    destruct (move_into_preview x) as [st'|] eqn:E; [|done];
    destruct (move_into_preview_ok x st' Hs E) as ([? ? ? ?] & <- & <-) end; by split; [split|].
Qed.

Lemma pick_maker_preserves s pid : state_ok s ->
  state_ok (pick_maker_by_id s pid).2 /\ intact (pick_maker_by_id s pid).2 = intact s /\
  unstashed (pick_maker_by_id s pid).2 = unstashed s.
Proof.
  intros [Hu Ha Hap Hfr]. destruct s as [st|st|st]; cbn in *; (split; [by split|]); [|done..].
  split; [|done]. by destruct st as [[] ?].
Qed.

(** Stashing moves takers from the active set to the stash. *)
Lemma stash_preserves s ts : state_ok s -> apart ts -> (forall t, t ∈ ts -> t ∈ elems (unstashed s)) ->
  (exists i, s = Idle i) \/
  state_ok (state_rollback s (Stash ts)) /\ intact (state_rollback s (Stash ts)) = intact s.
Proof.
  intros [Hu Ha Hap Hfr] Hts Hin.
  destruct (remove_all_spec ts (unstashed s) Hu) as [Hr Er].
  set (m := unstashed s) in *. set (st0 := stashed_takers s) in *.
  assert (apart (st0 ++ ts)) as Hall.
  { apply apart_app. split; [done|]. split; [done|]. intros x y Hx Hy. apply (Hfr x Hx). by apply Hin. }
  assert (forall y, y ∈ st0 ++ ts -> fresh y (takers_remove_all m ts)) as Hfr'.
  { intros y [Hy|Hy]%elem_of_app z [Hz Hn]%Er; [by apply (Hfr y)|by apply Hn]. }
  assert (takers_insert_all (takers_remove_all m ts) (st0 ++ ts) = takers_insert_all m st0) as Eset.
  { destruct (insert_all_spec _ _ Hr Hall Hfr') as [O1 E1].
    destruct (insert_all_spec st0 m Hu Hap Hfr) as [O2 E2].
    apply takers_ext; [done..|]. intros x. rewrite E1, E2, Er, elem_of_app. split.
    - intros [[? _]|[?|Hx]]; [by left|by right|]. left. by apply Hin.
    - intros [Hx|?]; [|naive_solver].
      destruct (decide (Exists (fun y => taker_side y = taker_side x /\ taker_cmp y x = Eq) ts)) as [He|He].
      + apply Exists_exists in He as (y & Hy & Hs1 & Hs2).
        assert (y = x) as <- by (apply (takers_unique m); [done|by apply Hin|done|done]). naive_solver.
      + left. split; [done|]. intros y Hy [? ?]. apply He, Exists_exists. by exists y. }
  destruct s as [st|st|st]; [left; by eexists|right..]; cbn [state_rollback]; unfold pp_rollback, p_rollback;
    cbn [stashed_takers unstashed] in *;
    match goal with |- context [match ?stash with [] => _ | _ => _ end] =>
      destruct stash as [|x l] eqn:El end; cbn [either_state].
  1,3: apply app_eq_nil in El as [E1 ->]; split; [split; cbn; try done; by intros y ?%elem_of_nil|];
    cbn; unfold m, st0 in *; cbn in *; by rewrite E1.
  all: rewrite <- El; split; [split; cbn; done|]; unfold m, st0 in Eset; cbn [intact unstashed stashed_takers] in *;
    rewrite <- Eset; reflexivity.
Qed.

(** States a matchmaking attempt reaches from the settled state [s0]. *)
Inductive Explored (s0 : IdleState T M MI) : State -> Prop :=
| explored_start : Explored s0 (Idle s0)
| explored_pick s f c s' :
    Explored s0 s -> picker f -> pick_active_taker s f = (c, s') -> Explored s0 s'
| explored_add_taker s t : Explored s0 s -> Explored s0 (pre_add_taker s t)
| explored_add_maker s p : Explored s0 s -> Explored s0 (pre_add_maker s p)
| explored_pick_maker s pid : Explored s0 s -> Explored s0 (pick_maker_by_id s pid).2
| explored_stash s ts :
    Explored s0 s -> apart ts -> (forall t, t ∈ ts -> t ∈ elems (unstashed s)) ->
    Explored s0 (state_rollback s (Stash ts))
| explored_unstash s : Explored s0 s -> Explored s0 (state_rollback s Unstash).

Lemma unstash_intact s : state_rollback s Unstash = Idle (intact s).
Proof. by destruct s. Qed.

Lemma explored_intact (s0 : IdleState T M MI) s : takers_ok (active (takers s0)) -> Explored s0 s ->
  state_ok s /\ intact s = s0.
Proof.
  intros H0'. induction 1 as [|s f c s' _ [IH1 IH2] Hf E|s t _ [IH1 IH2]|s p _ [IH1 IH2]|s pid _ [IH1 IH2]
                             |s ts _ [IH1 IH2] Ha Hin|s _ [IH1 IH2]].
  - split; [split; cbn; try done; by intros y ?%elem_of_nil|done].
  - destruct (pick_preserves s f c s' Hf IH1 E) as (? & -> & _). done.
  - destruct (pre_add_taker_preserves s t IH1) as (? & -> & _). done.
  - destruct (pre_add_maker_preserves s p IH1) as (? & -> & _). done.
  - destruct (pick_maker_preserves s pid IH1) as (? & -> & _). done.
  - destruct (stash_preserves s ts IH1 Ha Hin) as [[i ->]|[? ->]]; done.
  - rewrite unstash_intact, IH2. split; [|done]. split; cbn; try done; by intros y ?%elem_of_nil.
Qed.

(** The queries of the matchmaker are pickers. *)
Lemma head_elem (m : MarketTakers T) side x : head (side_store m side) = Some x -> x ∈ elems m.
Proof.
  intros [l E]%head_Some. unfold elems. rewrite elem_of_app. destruct side; cbn in E; rewrite E; [right|left]; left.
Qed.

Lemma tested_bid (m : MarketTakers T) range x : head (bids m) ≫= test_bid range = Some x -> x ∈ elems m.
Proof.
  intros (y & Hy & Ht)%bind_Some. apply (head_elem m Bid). cbn. unfold test_bid in Ht.
  repeat case_match; congruence.
Qed.
Lemma tested_ask (m : MarketTakers T) range x : head (asks m) ≫= test_ask range = Some x -> x ∈ elems m.
Proof.
  intros (y & Hy & Ht)%bind_Some. apply (head_elem m Ask). cbn. unfold test_ask in Ht.
  repeat case_match; congruence.
Qed.

Lemma max_by_volume_either (a b : T) spot : max_by_volume_of a b spot = a \/ max_by_volume_of a b spot = b.
Proof. unfold max_by_volume_of. destruct (ratio_cmp _ _); auto. Qed.

Lemma max_by_distance_picker spot range : picker (fun m => max_by_distance_to_spot m spot range).
Proof.
  intros m Hm. unfold max_by_distance_to_spot.
  destruct (head (asks m) ≫= test_ask range) as [a|] eqn:Ea, (head (bids m) ≫= test_bid range) as [b|] eqn:Eb;
    [|by split; [eapply tested_ask|]|by split; [eapply tested_bid|]|done].
  destruct (sratio_cmp _ _); [|by split; [eapply tested_bid|]|by split; [eapply tested_ask|]].
  split; [|done]. destruct (max_by_volume_either a b (Some spot)) as [-> | ->]; [by eapply tested_ask|by eapply tested_bid].
Qed.

Lemma max_by_volume_picker `{!EqDecision T} range : picker (fun m => max_by_volume m range).
Proof.
  intros m Hm. unfold max_by_volume.
  destruct (head (asks m) ≫= test_ask range) as [a|] eqn:Ea, (head (bids m) ≫= test_bid range) as [b|] eqn:Eb;
    [|by split; [eapply tested_ask|]|by split; [eapply tested_bid|]|done].
  assert (a ∈ elems m /\ b ∈ elems m) as [Ha Hb] by (split; [by eapply tested_ask|by eapply tested_bid]).
  assert (forall x, x ∈ elems m -> takers_insert m x = m) as Hi.
  { intros x Hx. destruct (takers_insert_spec m x Hm) as [Ho Ei]. apply takers_ext; [done..|].
    intros y. rewrite Ei. split; [|by left]. by intros [?|[-> _]]. }
  rewrite Hi by by destruct (bool_decide _). split; [|done].
  by destruct (max_by_volume_either a b None) as [-> | ->].
Qed.

(** Popping the first taker of a side removes it; putting it back restores
    the side. *)
Lemma bt_insert_head (x : T) l : sorted (x :: l) -> bt_insert x l = x :: l.
Proof.
  intros [Hs Hf]%StronglySorted_inv. destruct l as [|y l]; cbn; [done|].
  apply Forall_cons in Hf as [E _]. by rewrite E.
Qed.

Lemma pop_side (m : MarketTakers T) side x l : takers_ok m -> side_store m side = x :: l ->
  x ∈ elems m /\ set_side_store m side l = takers_remove m x /\ bt_insert x l = side_store m side.
Proof.
  intros Hm E. split; [by apply (head_elem m side); rewrite E|]. split.
  - assert (x ∈ side_store m side) as Hx by (rewrite E; left). unfold takers_remove.
    destruct side; cbn in *; [apply elem_of_bids in Hx as [_ ->]|apply elem_of_asks in Hx as [_ ->]]; try done;
      rewrite E; cbn; by rewrite taker_cmp_refl.
  - rewrite E. apply bt_insert_head. destruct side; cbn in E; rewrite <- E; apply Hm.
Qed.

Lemma try_pick_picker side test : picker (fun m => try_pick_fr m side test).
Proof.
  intros m Hm. unfold try_pick_fr. destruct (side_store m side) as [|x l] eqn:E; [done|].
  destruct (pop_side m side x l Hm E) as (Hx & Hr & Hi). destruct (test x); [done|].
  rewrite Hi. by destruct m, side.
Qed.

Lemma best_fr_either_picker `{CostOrd U} index : picker (fun m => best_fr_either m index).
Proof.
  intros m Hm. unfold best_fr_either.
  destruct (bids m) as [|b bs] eqn:Eb, (asks m) as [|a az] eqn:Ea; cbn; [done|..].
  - destruct (pop_side m Ask a az Hm Ea) as (Hx & <- & _). cbn. by rewrite Eb.
  - destruct (pop_side m Bid b bs Hm Eb) as (Hx & <- & _). cbn. by rewrite Ea.
  - destruct (pop_side m Ask a az Hm Ea) as (Hxa & Hra & Hia).
    destruct (pop_side m Bid b bs Hm Eb) as (Hxb & Hrb & Hib). cbn in *.
    destruct (_ || _); [rewrite Hia|rewrite Hib]; done.
Qed.

(** A preview never loses anything.  Whatever a matchmaking attempt does
    to the state of the book (picking takers and pools, adding their
    successors, stashing the takers it could not satisfy, in any order), a
    rollback that unstashes gives back exactly the settled state it started
    from. *)
Theorem rollback_restores_book (s0 : IdleState T M MI) s : takers_ok (active (takers s0)) -> Explored s0 s ->
  state_rollback s Unstash = Idle s0.
Proof. intros H1 H2. rewrite unstash_intact. by destruct (explored_intact s0 s H1 H2) as [_ ->]. Qed.

(** Committing a full preview keeps every stashed taker in the book next
    to the previewed ones, but committing a partial preview drops all of them:
    no stashed taker is active afterwards. *)
Theorem commit_and_stash (s0 : IdleState T M MI) s : takers_ok (active (takers s0)) -> Explored s0 s ->
  match s with
  | Idle _ => True
  | PartialPreview st =>
    forall t, t ∈ pp_stashed st -> t ∉ elems (active (takers (pp_commit st)))
  | Preview st =>
    (forall t, t ∈ p_stashed st -> exists t', t' ∈ elems (active (takers (p_commit st))) /\ same t t') /\
    (forall t, t ∈ elems (active_takers_preview st) -> t ∈ elems (active (takers (p_commit st))))
  end.
Proof.
  intros H1 H2. destruct (explored_intact s0 s H1 H2) as [[Hu Ha Hap Hfr] _].
  destruct s as [st|st|st]; cbn in *; [done| |].
  - intros t Ht Hin. apply (Hfr t Ht t); [|apply same_refl]. by apply insert_all_incl.
  - split; [intros t Ht; by apply insert_all_has|intros t Ht; by apply insert_all_incl].
Qed.

End Automaton.

(** ** The search for a fill *)

Section Search.
Open Scope Z_scope.
Context (quote : Z -> option AbsolutePrice) (ok : AbsolutePrice -> bool).

Definition good (c : Z) : bool := match quote c with Some p => ok p | None => false end.

(** The best candidate so far is the lower end of the interval. *)
Definition best_at (low : Z) (best : option (Z * AbsolutePrice)) : Prop :=
  match best with
  | Some (c, p) => c = low /\ 0 < c /\ quote c = Some p /\ ok p = true
  | None => low = 0
  end.

(** One iteration: the interval at least halves and keeps its invariant. *)
Lemma search_step low high best : low < high ->
  exists low' high' best',
    (forall fuel, search_loop (S fuel) quote ok low high best =
                  search_loop fuel quote ok low' high' best') /\
    low <= low' /\ low' <= high' <= high /\ 2 * (high' - low') <= high - low /\
    (0 <= low -> best_at low best -> best_at low' best') /\
    ((forall a b, 0 < a <= b -> b <= high -> good b = true -> good a = true) -> 0 <= low ->
     forall c, high' < c <= high -> good c = false).
Proof.
  intros Hlt. cbn [search_loop]. rewrite (proj2 (Z.ltb_lt low high) Hlt).
  set (c := low + (high - low + 1) / 2).
  assert (low < c <= high /\ 2 * (high - c) <= high - low /\ 2 * (c - 1 - low) <= high - low) as (B & D1 & D2).
  { unfold c. pose proof (Z.div_mod (high - low + 1) 2 ltac:(lia)).
    pose proof (Z.mod_pos_bound (high - low + 1) 2 ltac:(lia)). lia. }
  assert (good c = false -> (forall a b, 0 < a <= b -> b <= high -> good b = true -> good a = true) ->
          0 <= low -> forall x, c - 1 < x <= high -> good x = false) as Hup.
  { intros Hc Hmono H0 x Hx. destruct (good x) eqn:E; [|done]. rewrite (Hmono c x) in Hc; [done|lia|lia|done]. }
  unfold good in Hup at 1. destruct (quote c) as [p|] eqn:Eq; [destruct (ok p) eqn:Eo|].
  - exists c, high, (Some (c, p)). repeat split; try lia; cbn; intros; lia || done.
  - exists low, (c - 1), best. repeat split; try lia; auto.
  - exists low, (c - 1), best. repeat split; try lia; auto.
Qed.

Lemma search_done fuel low high best : high <= low -> search_loop fuel quote ok low high best = best.
Proof. intros Hle. destruct fuel; [done|]. cbn. by destruct (Z.ltb_spec low high); [lia|]. Qed.

Lemma search_spec n : forall extra low high best,
  0 <= low <= high -> high - low < 2 ^ Z.of_nat n -> best_at low best ->
  search_loop (n + extra) quote ok low high best = search_loop n quote ok low high best /\
  exists top, best_at top (search_loop n quote ok low high best) /\ low <= top <= high /\
    ((forall a b, 0 < a <= b -> b <= high -> good b = true -> good a = true) ->
     forall c, top < c <= high -> good c = false).
Proof.
  induction n as [|n IH]; intros extra low high best Hlh Hn Hb.
  - assert (low = high) as <- by (cbn in Hn; lia). cbn [Nat.add]. rewrite !search_done by lia.
    split; [done|]. exists low. repeat split; [done|lia..].
  - destruct (Z.lt_ge_cases low high) as [Hlt|Hge].
    2: { rewrite !search_done by lia. split; [done|]. exists low. repeat split; [done|lia..]. }
    rewrite Nat2Z.inj_succ, Z.pow_succ_r in Hn by lia.
    destruct (search_step low high best Hlt) as (l1 & h1 & b1 & E & A1 & A2 & A3 & A4 & A5).
    cbn [Nat.add]. rewrite !E.
    destruct (IH extra l1 h1 b1) as (IH1 & top & T1 & T2 & T3); [lia|lia|apply A4; [lia|done]|].
    split; [done|]. exists top. split; [done|]. split; [lia|]. intros Hmono c Hc.
    destruct (Z.le_gt_cases c h1); [|apply A5; [done|lia..]].
    apply T3; [|lia]. intros a b Hab Hb1. apply Hmono; lia.
Qed.


End Search.
