(* ===== verification/Tlb.v ===== *)
(** * The matchmaking loop

    [liquidity_book/mod.rs]: [TLB], its [attempt] at forming a recipe, the
    feedback of the executor ([on_recipe_succeeded], [on_recipe_failed]) and the
    external events, over the state of [LbState.v] and the batches of
    [LbCore.v].

    The two nested loops of [attempt] have no bound in the source: [steps]
    bounds the matches of one round, [rounds] the retries, and running out is
    the value [OutOfFuel]. *)

From stdpp Require Import base gmap list.
From Stdlib Require Import ZArith Lia.
From S2P Require Import Prelude LbTypes LbCore LbState.

Inductive Timeout := OutOfFuel.

(** [ExecutionConfig] and its caps. *)
Record ExecutionConfig (U : Type) := mkConfig {
  soft_cap : U;
  hard_cap : U;
  o2o_allowed : bool;
  base_step_budget : Z;
}.
Arguments mkConfig {U} _ _ _ _.
Arguments soft_cap {U} _.
Arguments hard_cap {U} _.
Arguments o2o_allowed {U} _.
Arguments base_step_budget {U} _.

Inductive ExecutionEvent :=
| SpotPriceEv (p : AbsolutePrice)
| SpotPriceNotAvailable
| SizePreAttempt (s : LiquidityBookSize)
| SizePostAttempt (s : LiquidityBookSize).

Section Tlb.
Context {T M U TI MI P : Type}.
Context `{RL : RatioLib} `{UN : Units U} `{TK : MarketTaker T U} `{TB : TakerBehaviour T}
        `{TO : TakerOrd T} `{MK : MarketMaker M U} `{MB : MakerBehavior M} `{MT : MakerForTaker T M}.
Context `{Countable TI} `{Countable MI} `{TS : Stable T TI} `{MS : Stable M MI}.
Context `{TH : !HashOrder TI} `{MH : !HashOrder MI}.

Local Notation State := (TLBState T M MI).
Local Notation Batch := (MatchmakingAttempt T M U TI MI).

Record TLB := mkTLB { state : State; conf : ExecutionConfig U; pair : P }.

Definition tlb_new (time : Z) (c : ExecutionConfig U) (p : P) : TLB := mkTLB (state_new time) c p.

Definition set_state (t : TLB) (s : State) : TLB := mkTLB s (conf t) (pair t).

(** ** Feedback *)

Definition on_recipe_succeeded (t : TLB) : TLB := set_state t (state_commit (state t)).
Definition on_recipe_failed (t : TLB) : TLB := set_state t (state_rollback (state t) Unstash).

(** ** One attempt *)

Definition spot_price (s : State) : option AbsolutePrice := static_price <$> best_market_maker s.

Definition on_take {A} (s : State) (tx : Next T A) : State :=
  match tx with Succ next => pre_add_taker s next | Term _ => s end.
Definition on_make {A} (s : State) (tx : Next M A) : State :=
  match tx with Succ next => pre_add_maker s next | Term _ => s end.

Definition execute_with_maker (target_taker : T) (maker : M) (chunk_size : OnSide Z)
    : TakeInProgress T * MakeInProgress M :=
  swap_with_taker maker target_taker chunk_size.

Inductive Flow := Continue (s : State) (b : Batch) | Break (s : State) (b : Batch).

(** The counter order is preferred: it crosses the target and is no worse than
    the best pool. *)
Definition counter_preferred (c : ExecutionConfig U) (target_price : OnSide AbsolutePrice)
    (counter : option (OnSide AbsolutePrice)) (maker : option (MI * FillPreview)) : bool :=
  match counter with
  | Some price_counter =>
    o2o_allowed c && overlaps target_price (unwrap price_counter) &&
    match maker with Some (_, fp) => better_than price_counter (fill_price fp) | None => false end
  | None => false
  end.

Definition match_orders (s : State) (b : Batch) (target_taker : T) (spot : AbsolutePrice) : panics Flow :=
  match try_pick_taker s (side_not (taker_side target_taker)) (fun _ => true) with
  | (Some counter_taker, s) =>
    '(take_a, take_b) ←
      execute_with_taker target_taker counter_taker (fun ask bid => settle_price ask bid (Some spot));
    let b := add_take b take_a in
    let s := on_take s (result take_a) in
    let b := add_take b take_b in
    let s := on_take s (result take_b) in
    Ok (Continue s b)
  | (None, s) => Ok (Break s b)
  end.

Definition match_pool (s : State) (b : Batch) (target_taker : T) (maker_sid : MI) (input : Z) : Flow :=
  match pick_maker_by_id s maker_sid with
  | (Some maker, s) =>
    let '(take, make) := execute_with_maker target_taker maker (wrap (taker_side target_taker) input) in
    let b := add_make b make in
    let b := add_take b take in
    let s := on_take s (result take) in
    let s := on_make s (result make) in
    Continue s b
  | (None, s) => Break s b
  end.

(** The body of the inner loop: the events it logs and where it goes on. *)
Definition match_step (c : ExecutionConfig U) (optimized : bool) (s : State) (b : Batch)
    : list ExecutionEvent * panics Flow :=
  match spot_price s with
  | None => ([SpotPriceNotAvailable], Ok (Break s b))
  | Some spot =>
    ([SpotPriceEv spot],
     let price_range := allowed_price_range s in
     match pick_active_taker s (fun fs => max_by_distance_to_spot fs spot price_range) with
     | (None, s) => Ok (Break s b)
     | (Some target_taker, s) =>
       let target_side := taker_side target_taker in
       let target_price := wrap target_side (taker_price target_taker) in
       let counter := best_taker_price s (side_not target_side) in
       let maker := preselect_market_maker s (taker_price target_taker) (taker_input target_taker)
                      target_side optimized target_taker in
       if counter_preferred c target_price counter maker
       then match_orders s b target_taker spot
       else match maker with
            | Some (maker_sid, fp) =>
              if overlaps target_price (fill_price fp)
              then Ok (match_pool s b target_taker maker_sid (fill_input fp))
              else Ok (Break (pre_add_taker s target_taker) b)
            | None => Ok (Break (pre_add_taker s target_taker) b)
            end
     end)
  end.

Definition has_room (c : ExecutionConfig U) (b : Batch) : bool :=
  units_ltb (execution_units_consumed b) (soft_cap c) && (num_takes b <? 15).

Fixpoint match_loop (steps : nat) (c : ExecutionConfig U) (optimized : bool) (s : State) (b : Batch)
    (ev : list ExecutionEvent) : outcome Timeout (State * Batch * list ExecutionEvent) :=
  if has_room c b then
    match steps with
    | O => Err OutOfFuel
    | S steps =>
      let '(ev', flow) := match_step c optimized s b in
      match flow with
      | Ok (Continue s b) => match_loop steps c optimized s b (ev ++ ev')
      | Ok (Break s b) => Ok (s, b, ev ++ ev')
      | _ => Panic
      end
    end
  else Ok (s, b, ev).

(** [attempt]: the recipe, the events of the last round and the new state. *)
Fixpoint attempt (rounds steps : nat) (c : ExecutionConfig U) (optimized : bool) (s : State)
    : outcome Timeout (option (list (Instruction T M)) * list ExecutionEvent * State) :=
  match rounds with
  | O => Err OutOfFuel
  | S rounds =>
    match match_loop steps c optimized s attempt_empty [SizePreAttempt (state_size s)] with
    | Ok (s', b, ev) =>
      let ev := ev ++ [SizePostAttempt (state_size s')] in
      match recipe_try_from b (base_step_budget c) with
      | Ok recipe => Ok (Some recipe, ev, s')
      | Err None => Ok (None, ev, state_rollback s' Unstash)
      | Err (Some (Dissatisfied unsatisfied)) =>
        attempt rounds steps c optimized (state_rollback s' (Stash unsatisfied))
      | Err (Some DowngradeNeeded) => attempt rounds steps c false (state_rollback s' (Stash []))
      | Panic => Panic
      end
    | Err e => Err e
    | Panic => Panic
    end
  end.

(** ** External events *)

(** [requiring_settled_state]: a panic while a recipe is pending. *)
Definition requiring_settled_state (t : TLB) (f : IdleState T M MI -> IdleState T M MI) : panics TLB :=
  match state t with
  | Idle st => Ok (set_state t (Idle (f st)))
  | PartialPreview _ | Preview _ => Panic
  end.

Definition advance_clocks (t : TLB) (new_time : Z) : panics TLB :=
  requiring_settled_state t (fun st => idle_advance_clocks st new_time).
Definition update_taker (t : TLB) (fr : T) : panics TLB :=
  requiring_settled_state t (fun st => idle_add_fragment st fr).
Definition remove_taker (t : TLB) (fr : T) : panics TLB :=
  requiring_settled_state t (fun st => idle_remove_fragment st fr).
Definition update_maker (t : TLB) (pool : M) : panics TLB :=
  requiring_settled_state t (fun st => idle_update_pool st pool).
Definition remove_maker (t : TLB) (pool : M) : panics TLB :=
  requiring_settled_state t (fun st => idle_remove_pool st pool).

End Tlb.

Arguments TLB T M U MI P {_ _}.
