(* ===== verification/TlbProofs.v ===== *)
(** * Attempts leave no trace unless they succeed

    Theorems about [Tlb.v]: a failed attempt restores the book it started
    from, so does the failure of a recipe, and an attempt whose recipe stays
    too complex never returns. *)

From stdpp Require Import base gmap list.
From Stdlib Require Import ZArith Lia.
From S2P Require Import Prelude LbTypes LbCore LbCoreProofs LbState LbStateProofs Tlb.

(** Takers that compare equal have one identity. *)
Class TakerIdLaws (T TI : Type) `{TakerOrd T} `{Stable T TI} : Prop :=
  taker_cmp_id : forall x y : T, taker_cmp x y = Eq -> (stable_id x : TI) = stable_id y.

(** A trade with a pool transforms the given taker under its identity. *)
Class SwapTakerLaws (T M TI : Type) `{MakerForTaker T M} `{Stable T TI} : Prop :=
  swap_taker_law : forall m t i,
    target (swap_with_taker m t i).1 = t /\
    forall s, result (swap_with_taker m t i).1 = Succ s -> (stable_id s : TI) = stable_id t.

Section Attempts.
Context {T M U TI MI : Type}.
Context `{RL : RatioLib} `{UN : Units U} `{TK : MarketTaker T U} `{TB : TakerBehaviour T}
        `{TOL : TakerOrdLaws T} `{MK : MarketMaker M U} `{MB : MakerBehavior M} `{MT : MakerForTaker T M}.
Context `{CT : Countable TI} `{CM : Countable MI} `{TS : Stable T TI} `{MS : Stable M MI}.
Context `{TH : !HashOrder TI} `{MH : !HashOrder MI} `{!HashOrderLaws TI}.
Context `{TSL : !TakerStableLaws T U TI} `{TIL : !TakerIdLaws T TI} `{STL : !SwapTakerLaws T M TI}.

Local Notation State := (TLBState T M MI).
Local Notation Batch := (MatchmakingAttempt T M U TI MI).
Implicit Types (s : State) (b : Batch) (c : ExecutionConfig U).

(** ** Targets of an unsatisfied recipe *)

Lemma finalize_takes_targets (l : list (TI * TakeInProgress T)) : forall acc eb eq lt eb' eq',
  finalize_takes l acc eb eq = Ok (lt, eb', eq') ->
  exists l', lt = acc ++ l' /\ Forall2 (fun p p' => p'.1 = p.1 /\ target p'.2 = target p.2) l l'.
Proof.
  assert (forall (t t' : TakeInProgress T) e, take_finalized t e = Ok t' -> target t' = target t) as Ht.
  { intros t t' e. unfold take_finalized. intros E. inv_outcome. by subst. }
  induction l as [|[id t] l IH]; intros acc eb eq lt eb' eq'; cbn [finalize_takes].
  - intros [= <- <- <-]. exists []. by rewrite app_nil_r.
  - destruct (taker_side (target t)); intros (t' & Et & E)%bind_Ok_inv;
      apply IH in E as (l' & -> & F); exists ((id, t') :: l'); rewrite <- app_assoc; split; try done;
      constructor; try done; (split; [done|by eapply Ht]).
Qed.

Lemma unsatisfied_sublist (l : list (TI * TakeInProgress T)) : forall ts,
  unsatisfied_of l = Ok ts -> sublist ts ((fun p => target p.2) <$> l).
Proof.
  induction l as [|[id t] l IH]; intros ts; cbn [unsatisfied_of]; [by intros [= <-]|].
  destruct (added_output t); try done. destruct (unsatisfied_of l) as [rest| |]; try done.
  intros [= <-]. rewrite fmap_cons. cbn [snd]. destruct (_ <? _)%Z; constructor; by apply IH.
Qed.

Lemma fmap_sublist {A B} (f : A -> B) l k : sublist l k -> sublist (f <$> l) (f <$> k).
Proof. induction 1; cbn; by constructor. Qed.

(** The takers reported unsatisfied are targets of the batch, one per id. *)
Lemma dissatisfied_targets b n ts :
  (forall id tr, takes b !! id = Some tr -> stable_id (target tr) = id) ->
  recipe_try_from b n = Err (Some (Dissatisfied ts)) ->
  (forall t, t ∈ ts -> exists id tr, takes b !! id = Some tr /\ t = target tr) /\
  NoDup ((fun t => stable_id t : TI) <$> ts).
Proof.
  intros Hid. unfold recipe_try_from. destruct (is_complete b); [|done].
  destruct (attempt_finalized b) as [[r|]| |] eqn:Ef; try done.
  assert (forall id t', f_takes r !! id = Some t' ->
            exists t, takes b !! id = Some t /\ target t' = target t) as Hr.
  { unfold attempt_finalized in Ef.
    destruct (finalize_makes _ _ _ _) as [[[lm eb] eq]|]; [|done].
    apply bind_Ok_inv in Ef as ([[lt eb'] eq'] & Et & E).
    destruct (_ && _); [|done]. injection E as <-.
    apply finalize_takes_targets in Et as (l' & -> & F). cbn [app f_takes].
    intros id t' [i Hi]%elem_of_list_to_map_2%list_elem_of_lookup.
    destruct (Forall2_lookup_r _ _ _ _ _ F Hi) as ([id0 t] & Hi' & [E1 E2]). cbn in E1, E2. subst id0.
    exists t. split; [|done]. apply hash_iter_lookup. by eapply list_elem_of_lookup_2. }
  destruct (unsatisfied_fragments r) as [[|t0 ts0]| |] eqn:Eu; try done.
  { destruct (cached_keys _ _); try done. by repeat case_match. }
  intros [= <-]. apply unsatisfied_sublist in Eu. split.
  - intros t Ht. apply (elem_of_sublist _ _ _ Ht) in Eu as Hin'; clear Ht; rename Hin' into Ht.
    apply list_elem_of_fmap in Ht as ([id t'] & -> & Hin%hash_iter_lookup).
    destruct (Hr _ _ Hin) as (tr & Htr & E). by exists id, tr.
  - eapply sublist_NoDup; [|apply fmap_sublist; exact Eu]. rewrite <- list_fmap_compose.
    replace (_ <$> hash_iter (f_takes r)) with (hash_iter (f_takes r)).*1; [apply hash_iter_nodup|].
    apply list_fmap_ext. intros i [id t'] Hi. cbn.
    destruct (Hr id t') as (tr & Htr & ->); [|symmetry; by apply Hid].
    apply hash_iter_lookup. by eapply list_elem_of_lookup_2.
Qed.

(** ** The invariant of a round *)

(** The taker belongs to the book the round started from, or the batch has
    already traded with it. *)
Definition known s b (t : T) : Prop :=
  t ∈ elems (unstashed s) \/ is_Some (takes b !! (stable_id t : TI)).

Record round_inv (i : IdleState T M MI) s b : Prop := {
  ri_explored : Explored i s;
  ri_active : forall t, t ∈ elems (active_fragments s) -> known s b t;
  ri_takes : forall id tr, takes b !! id = Some tr ->
    target tr ∈ elems (unstashed s) /\ stable_id (target tr) = id;
}.

Context (i : IdleState T M MI) (Hi : takers_ok (active (takers i))).

Lemma round_ok s b : round_inv i s b -> state_ok s.
Proof. intros Hr. by destruct (explored_intact i s Hi (ri_explored _ _ _ Hr)). Qed.

Lemma pick_inv s b f x s' : round_inv i s b -> picker f -> pick_active_taker s f = (x, s') ->
  round_inv i s' b /\ match x with Some t => known s' b t | None => True end.
Proof.
  intros Hr Hf E. pose proof (round_ok s b Hr) as Hok.
  destruct (pick_preserves s f x s' Hf Hok E) as (Hok' & _ & Eu).
  pose proof (pick_active s f x s' Hf Hok E) as Ha.
  assert (forall t, known s b t -> known s' b t) as Hk by (unfold known; by rewrite Eu).
  assert (Explored i s') as He by by eapply explored_pick, E; [apply Hr|].
  destruct x as [t|].
  - destruct Ha as [Ht Ea]. split; [split; [done| |]|].
    + intros y Hy. rewrite Ea in Hy. apply takers_remove_spec in Hy as [Hy _]; [|apply Hok].
      by apply Hk, (ri_active _ _ _ Hr).
    + rewrite Eu. apply Hr.
    + by apply Hk, (ri_active _ _ _ Hr).
  - split; [|done]. split; [done| |].
    + rewrite Ha. intros y Hy. by apply Hk, (ri_active _ _ _ Hr).
    + rewrite Eu. apply Hr.
Qed.

(** Adding a take of a known taker keeps the targets of the batch. *)
Lemma add_take_takes s b (take : TakeInProgress T) :
  (forall id tr, takes b !! id = Some tr ->
     target tr ∈ elems (unstashed s) /\ stable_id (target tr) = id) ->
  known s b (target take) ->
  (forall id tr, takes (add_take b take) !! id = Some tr ->
     target tr ∈ elems (unstashed s) /\ stable_id (target tr) = id) /\
  (forall id, is_Some (takes b !! id) -> is_Some (takes (add_take b take) !! id)) /\
  is_Some (takes (add_take b take) !! (stable_id (target take) : TI)).
Proof.
  intros Hb Hk. unfold add_take.
  destruct (takes b !! (stable_id (target take) : TI)) as [tr0|] eqn:E; cbn.
  - split; [|split].
    + intros id tr [[<- <-]|[Hne Ht]]%lookup_insert_Some; [|by apply Hb]. cbn. by apply Hb.
    + intros id Hid. rewrite lookup_insert_is_Some'. by right.
    + rewrite lookup_insert_eq. by eexists.
  - split; [|split].
    + intros id tr [[<- <-]|[Hne Ht]]%lookup_insert_Some; [|by apply Hb].
      split; [|done]. destruct Hk as [?|[? Hk]]; [done|congruence].
    + intros id Hid. rewrite lookup_insert_is_Some'. by right.
    + rewrite lookup_insert_eq. by eexists.
Qed.

Lemma after_take s b (take : TakeInProgress T) :
  round_inv i s b -> known s b (target take) ->
  (forall n, result take = Succ n -> (stable_id n : TI) = stable_id (target take)) ->
  round_inv i (on_take s (result take)) (add_take b take) /\
  (forall t, known s b t -> known (on_take s (result take)) (add_take b take) t).
Proof.
  intros Hr Hk Hn. destruct (add_take_takes s b take (ri_takes _ _ _ Hr) Hk) as (A1 & A2 & A3).
  pose proof (round_ok s b Hr) as Hok. unfold on_take.
  destruct (result take) as [n|tt] eqn:E.
  - destruct (pre_add_taker_preserves s n Hok) as (Hok' & _ & Eu). split.
    + split; [apply explored_add_taker, Hr| |by rewrite Eu].
      unfold known. rewrite Eu. intros t [Ht| ->]%pre_add_taker_active; [| |done].
      * destruct (ri_active _ _ _ Hr t Ht); [by left|right; by apply A2].
      * right. rewrite (Hn n eq_refl). done.
    + unfold known. rewrite Eu. intros t [?|?]; [by left|right; by apply A2].
  - split.
    + split; [apply Hr| |done]. intros t Ht.
      destruct (ri_active _ _ _ Hr t Ht); [by left|right; by apply A2].
    + intros t [?|?]; [by left|right; by apply A2].
Qed.

(** The two takes of a match belong to the two matched takers. *)
Lemma execute_targets x y f ta tb : execute_with_taker x y f = Ok (ta, tb) ->
  ((target ta = x /\ target tb = y) \/ (target ta = y /\ target tb = x)) /\
  (forall n, result ta = Succ n -> (stable_id n : TI) = stable_id (target ta)) /\
  (forall n, result tb = Succ n -> (stable_id n : TI) = stable_id (target tb)).
Proof.
  unfold execute_with_taker. destruct (taker_side x); cbv zeta; intros E;
    apply bind_Ok_inv in E as (d & _ & E); apply bind_Ok_inv in E as ([q bs] & _ & [= <- <-]);
    cbn; (split; [auto|]); split; intros n Hn; by apply applied_trade_stable in Hn as [_ ?].
Qed.

Definition flow_inv (fl : Flow) : Prop :=
  match fl with Continue s b | Break s b => round_inv i s b end.

Lemma match_orders_inv s b t spot fl : round_inv i s b -> known s b t ->
  match_orders s b t spot = Ok fl -> flow_inv fl.
Proof.
  intros Hr Hk. unfold match_orders, try_pick_taker.
  destruct (pick_active_taker s _) as [x s1] eqn:E.
  destruct (pick_inv s b _ x s1 Hr (try_pick_picker _ _) E) as [Hr1 Hx].
  assert (known s1 b t) as Hk1.
  { destruct (pick_preserves s _ x s1 (try_pick_picker _ _) (round_ok s b Hr) E) as (_ & _ & Eu).
    unfold known in *. by rewrite Eu. }
  destruct x as [ct|]; [|by intros [= <-]].
  intros ([ta tb] & Ex & [= <-])%bind_Ok_inv. cbn.
  destruct (execute_targets _ _ _ _ _ Ex) as (Ht & Na & Nb).
  assert (known s1 b (target ta) /\ known s1 b (target tb)) as [Ka Kb] by (destruct Ht as [[-> ->]|[-> ->]]; done).
  destruct (after_take s1 b ta Hr1 Ka Na) as [Hr2 Hmono].
  by apply after_take; [|apply Hmono|].
Qed.

Lemma match_pool_inv s b t sid input : round_inv i s b -> known s b t ->
  flow_inv (match_pool s b t sid input).
Proof.
  intros Hr Hk. unfold match_pool. pose proof (pick_maker_preserves s sid (round_ok s b Hr)) as (_ & _ & Eu).
  pose proof (pick_maker_active s sid) as Ea.
  assert (round_inv i (pick_maker_by_id s sid).2 b) as Hr1.
  { split; [apply explored_pick_maker, Hr| |rewrite Eu; apply Hr].
    rewrite Ea. unfold known. rewrite Eu. apply Hr. }
  assert (known (pick_maker_by_id s sid).2 b t) as Hk1 by (unfold known in *; by rewrite Eu).
  destruct (pick_maker_by_id s sid) as [[m|] s1]; cbn in *; [|done].
  pose proof (swap_taker_law m t (wrap (taker_side t) input)) as [St Sn].
  unfold execute_with_maker. destruct (swap_with_taker _ _ _) as [take make]. cbn in St, Sn.
  assert (takes (add_make b make) = takes b) as Em by (unfold add_make; by destruct (makes b !! _)).
  assert (round_inv i s1 (add_make b make)) as Hr2
    by (destruct Hr1 as [R1 R2 R3]; split; unfold known in *; rewrite ?Em; done).
  destruct (after_take s1 (add_make b make) take Hr2) as [Hr3 _].
  { rewrite St. unfold known in *. by rewrite Em. }
  { rewrite St. done. }
  cbn. unfold on_make. destruct (result make) as [m'|[]].
  destruct (pre_add_maker_preserves _ m' (round_ok _ _ Hr3)) as (_ & _ & Eu3).
  destruct Hr3 as [R1 R2 R3]. split; [by apply explored_add_maker| |by rewrite Eu3].
  rewrite pre_add_maker_active. unfold known in *. by rewrite Eu3.
Qed.

Lemma give_back_inv s b t : round_inv i s b -> known s b t -> round_inv i (pre_add_taker s t) b.
Proof.
  intros Hr Hk. pose proof (round_ok s b Hr) as Hok.
  destruct (pre_add_taker_preserves s t Hok) as (_ & _ & Eu).
  split; [apply explored_add_taker, Hr| |rewrite Eu; apply Hr]. unfold known in *. rewrite Eu.
  intros x [Hx| ->]%pre_add_taker_active; [by apply (ri_active _ _ _ Hr)|done..].
Qed.

Lemma match_step_inv c optimized s b ev fl : round_inv i s b ->
  match_step c optimized s b = (ev, Ok fl) -> flow_inv fl.
Proof.
  intros Hr. unfold match_step. destruct (spot_price s) as [spot|]; [|by intros [= _ <-]].
  intros [= _ E]. revert E.
  destruct (pick_active_taker s _) as [x s1] eqn:Ep.
  destruct (pick_inv s b _ x s1 Hr (max_by_distance_picker _ _) Ep) as [Hr1 Hx].
  destruct x as [t|]; [|by intros [= <-]].
  destruct (counter_preferred _ _ _ _); [by apply match_orders_inv|].
  destruct (preselect_market_maker _ _ _ _ _ _) as [[sid fp]|]; [|intros [= <-]; by apply give_back_inv].
  destruct (overlaps _ _); intros [= <-]; [by apply match_pool_inv|by apply give_back_inv].
Qed.

Lemma match_loop_inv steps c optimized : forall s b ev s' b' ev',
  round_inv i s b -> match_loop steps c optimized s b ev = Ok (s', b', ev') -> round_inv i s' b'.
Proof.
  induction steps as [|steps IH]; intros s b ev s' b' ev' Hr; cbn [match_loop];
    destruct (has_room c b); try done; [by intros [= <- <- _]| |by intros [= <- <- _]].
  destruct (match_step c optimized s b) as [ev1 fl] eqn:E.
  destruct fl as [[s1 b1|s1 b1]| |]; try done.
  - apply IH. by apply (match_step_inv _ _ _ _ _ _ Hr E).
  - intros [= <- <- _]. by apply (match_step_inv _ _ _ _ _ _ Hr E).
Qed.

(** ** Attempts *)

Lemma new_round s : Explored i s -> active_fragments s = unstashed s -> round_inv i s attempt_empty.
Proof.
  intros He Ea. split; [done| |intros id tr Htr; cbn in Htr; by rewrite lookup_empty in Htr].
  intros t Ht. left. by rewrite <- Ea.
Qed.

(** Stashing what a round could not satisfy starts a new round. *)
Lemma stash_round s b ts : round_inv i s b ->
  (forall t, t ∈ ts -> exists id tr, takes b !! id = Some tr /\ t = target tr) ->
  NoDup ((fun t => stable_id t : TI) <$> ts) ->
  round_inv i (state_rollback s (Stash ts)) attempt_empty.
Proof.
  intros Hr Ht Hn. apply new_round; [|apply rollback_active]. apply explored_stash; [apply Hr| |].
  - clear Ht. induction ts as [|t ts IH]; cbn; [done|]. rewrite fmap_cons in Hn.
    apply NoDup_cons in Hn as [Hni Hn]. split; [|by apply IH]. intros y Hy [_ Hc].
    apply Hni, list_elem_of_fmap. exists y. split; [by apply taker_cmp_id|done].
  - intros t (id & tr & Htr & ->)%Ht. by apply (ri_takes _ _ _ Hr id).
Qed.

Lemma attempt_explored rounds steps c : forall optimized s recipe ev s',
  round_inv i s attempt_empty -> attempt rounds steps c optimized s = Ok (recipe, ev, s') ->
  match recipe with None => s' = Idle i | Some _ => Explored i s' end.
Proof.
  induction rounds as [|rounds IH]; intros optimized s recipe ev s' Hr; cbn [attempt]; [done|].
  destruct (match_loop _ _ _ _ _ _) as [[[s1 b] ev1]|[]|] eqn:El; try done.
  assert (round_inv i s1 b) as Hr1 by by eapply match_loop_inv, El.
  destruct (recipe_try_from b _) as [instrs|[[ts|]|]|] eqn:Er; try done.
  - intros [= <- _ <-]. apply Hr1.
  - apply IH. destruct (dissatisfied_targets b (base_step_budget c) ts) as [D1 D2]; [|done|by apply (stash_round s1 b)].
    intros id tr Htr. by apply (ri_takes _ _ _ Hr1).
  - apply IH. apply (stash_round s1 b); [done|by intros t ?%elem_of_nil|constructor].
  - intros [= <- _ <-]. rewrite unstash_intact.
    by destruct (explored_intact i s1 Hi (ri_explored _ _ _ Hr1)) as [_ ->].
Qed.

(** Within a round the stash does not grow. *)

Lemma on_take_stash {A} s (n : Next T A) : stashed_takers (on_take s n) = stashed_takers s.
Proof.
  destruct n; [|done]. destruct s as [st|st|st]; cbn; unfold preview_add_taker; by destruct (waits_until _ _).
Qed.
Lemma on_make_stash {A} s (n : Next M A) : stashed_takers (on_make s n) = stashed_takers s.
Proof. destruct n; [|done]. by destruct s as [st|st|st]. Qed.
Lemma pick_stash s f x s' : pick_active_taker s f = (x, s') -> stashed_takers s' = stashed_takers s.
Proof.
  destruct s as [st|st|st]; cbn; destruct (f _) as [[y|] m']; by intros [= _ <-].
Qed.
Lemma pick_maker_stash s pid : stashed_takers (pick_maker_by_id s pid).2 = stashed_takers s.
Proof. by destruct s. Qed.

Definition flow_state (fl : Flow (T:=T) (M:=M) (U:=U) (TI:=TI) (MI:=MI)) : State :=
  match fl with Continue s _ | Break s _ => s end.

Lemma match_step_stash c optimized s b ev fl : match_step c optimized s b = (ev, Ok fl) ->
  stashed_takers (flow_state fl) = stashed_takers s.
Proof.
  unfold match_step. destruct (spot_price s) as [spot|]; [|by intros [= _ <-]].
  intros [= _ E]. revert E. destruct (pick_active_taker s _) as [x s1] eqn:Ep.
  apply pick_stash in Ep. rewrite <- Ep. destruct x as [t|]; [|by intros [= <-]].
  destruct (counter_preferred _ _ _ _).
  - unfold match_orders, try_pick_taker. destruct (pick_active_taker s1 _) as [[ct|] s2] eqn:Eq;
      apply pick_stash in Eq; rewrite <- Eq; [|by intros [= <-]].
    intros ([ta tb] & _ & [= <-])%bind_Ok_inv. cbn. by rewrite !on_take_stash.
  - pose proof (on_take_stash (A:=unit) s1 (Succ t)) as Hg. cbn in Hg.
    destruct (preselect_market_maker _ _ _ _ _ _) as [[sid fp]|]; [|by intros [= <-]].
    destruct (overlaps _ _); intros [= <-]; [|done]. unfold match_pool.
    rewrite <- (pick_maker_stash s1 sid). destruct (pick_maker_by_id s1 sid) as [[m|] s2]; [|done].
    destruct (execute_with_maker _ _ _). cbn. by rewrite on_make_stash, on_take_stash.
Qed.

Lemma match_loop_stash steps c optimized : forall s b ev s' b' ev',
  match_loop steps c optimized s b ev = Ok (s', b', ev') -> stashed_takers s' = stashed_takers s.
Proof.
  induction steps as [|steps IH]; intros s b ev s' b' ev'; cbn [match_loop];
    destruct (has_room c b); try done; [by intros [= <- _ _]| |by intros [= <- _ _]].
  destruct (match_step c optimized s b) as [ev1 fl] eqn:E.
  destruct fl as [[s1 b1|s1 b1]| |]; try done; apply match_step_stash in E; cbn in E; rewrite <- E.
  - apply IH.
  - by intros [= <- _ _].
Qed.

(** C27: When the recipe a book gives is too complex for its budget, and stays
    so without optimisation, the attempt never returns: every retry meets the
    book it started from and fails in the same way. *)
Theorem downgrade_never_returns steps c :
  (forall optimized, exists s' b ev,
     match_loop steps c optimized (Idle i) attempt_empty [SizePreAttempt (state_size (Idle i))] =
       Ok (s', b, ev) /\
     recipe_try_from b (base_step_budget c) = Err (Some DowngradeNeeded)) ->
  forall rounds optimized, attempt rounds steps c optimized (Idle i) = Err OutOfFuel.
Proof.
  intros Hd rounds. induction rounds as [|rounds IH]; intros optimized; [done|]. cbn [attempt].
  destruct (Hd optimized) as (s' & b & ev & El & Er). rewrite El, Er.
  assert (round_inv i s' b) as Hr by (eapply match_loop_inv, El; by apply new_round; [constructor|]).
  assert (state_rollback s' (Stash []) = Idle i) as ->; [|done].
  apply match_loop_stash in El. cbn in El.
  assert (state_rollback s' (Stash []) = Idle (intact s')) as ->.
  { destruct s' as [st|st|st]; cbn in *; [done|unfold pp_rollback|unfold p_rollback]; by rewrite El. }
  by destruct (explored_intact i s' Hi (ri_explored _ _ _ Hr)) as [_ ->].
Qed.

End Attempts.

(** ** The life of a book *)

(** Time does not move a taker to the other side. *)
Class TakerTimeLaws (T U : Type) `{MarketTaker T U} `{TakerBehaviour T} : Prop :=
  updated_time_side : forall (t t' : T) time,
    with_updated_time t time = Succ t' -> taker_side t' = taker_side t.

Section Life.
Context {T M U TI MI P : Type}.
Context `{RL : RatioLib} `{UN : Units U} `{TK : MarketTaker T U} `{TB : TakerBehaviour T}
        `{TOL : TakerOrdLaws T} `{MK : MarketMaker M U} `{MB : MakerBehavior M} `{MT : MakerForTaker T M}.
Context `{CT : Countable TI} `{CM : Countable MI} `{TS : Stable T TI} `{MS : Stable M MI}.
Context `{TH : !HashOrder TI} `{MH : !HashOrder MI} `{!HashOrderLaws TI}.
Context `{TSL : !TakerStableLaws T U TI} `{TIL : !TakerIdLaws T TI} `{STL : !SwapTakerLaws T M TI}.
Context `{TTL : !TakerTimeLaws T U}.

Local Notation Book := (TLB T M U MI P).
Implicit Types (t : Book).

(** The books that events, attempts and the executor's feedback lead to.  An
    attempt starts from a settled book, and its recipe is answered before the
    next event. *)
Inductive Lived : Book -> Prop :=
| lived_new time c p : Lived (tlb_new time c p)
| lived_clocks t t' time : Lived t -> advance_clocks t time = Ok t' -> Lived t'
| lived_update_taker t t' fr : Lived t -> update_taker t fr = Ok t' -> Lived t'
| lived_remove_taker t t' fr : Lived t -> remove_taker t fr = Ok t' -> Lived t'
| lived_update_maker t t' m : Lived t -> update_maker t m = Ok t' -> Lived t'
| lived_remove_maker t t' m : Lived t -> remove_maker t m = Ok t' -> Lived t'
| lived_attempt t i rounds steps optimized recipe ev s' :
    Lived t -> state t = Idle i ->
    attempt (TI:=TI) rounds steps (conf t) optimized (state t) = Ok (recipe, ev, s') -> Lived (set_state t s')
| lived_succeeded t : Lived t -> Lived (on_recipe_succeeded t)
| lived_failed t : Lived t -> Lived (on_recipe_failed t).

(** Every set of takers, active or waiting, is ordered and on its side. *)
Record chronology_ok (c : Chronology T) : Prop := {
  co_active : takers_ok (active c);
  co_inactive : map_Forall (fun _ m => takers_ok m) (inactive c);
}.

Lemma takers_new_ok : takers_ok (takers_new (T:=T)).
Proof. split; constructor. Qed.

Lemma slot_ok (m : gmap Z (MarketTakers T)) (at_time : Z) : map_Forall (fun _ m => takers_ok m) m ->
  takers_ok (default (takers_new (T:=T)) (m !! at_time)).
Proof. intros Hm. destruct (m !! at_time) eqn:E; [by apply (Hm at_time)|apply takers_new_ok]. Qed.

Lemma add_inactive_ok m (at_time : Z) fr : map_Forall (fun _ m => takers_ok m) m ->
  map_Forall (fun _ m => takers_ok m) (add_inactive m at_time fr).
Proof. intros Hm. apply map_Forall_insert_2; [|done]. by apply takers_insert_spec, slot_ok. Qed.

Lemma keep_alive_ok time side l : forall store, sorted store ->
  Forall (fun x => taker_side x = side) l -> Forall (fun x => taker_side x = side) store ->
  sorted (keep_alive time l store) /\ Forall (fun x => taker_side x = side) (keep_alive time l store).
Proof.
  induction l as [|x l IH]; intros store Hs Hl Hst; cbn; [done|].
  apply Forall_cons in Hl as [Hx Hl].
  destruct (with_updated_time x time) as [x'|] eqn:E; apply IH; try done; [by apply bt_insert_sorted|].
  apply Forall_forall. intros y [Hy|[-> _]]%bt_insert_elem; [| |done].
  - rewrite Forall_forall in Hst. by apply Hst.
  - by rewrite (updated_time_side _ _ _ E).
Qed.

Lemma advance_clocks_ok c time : chronology_ok c -> chronology_ok (chronology_advance_clocks c time).
Proof.
  intros [[A1 A2 A3 A4] Hi]. pose proof (slot_ok _ time Hi) as [S1 S2 S3 S4].
  destruct (keep_alive_ok time Ask (asks (active c)) _ S1 A3 S3).
  destruct (keep_alive_ok time Bid (bids (active c)) _ S2 A4 S4).
  split; cbn; [by split|]. by apply map_Forall_delete.
Qed.

Lemma add_fragment_ok c fr : chronology_ok c -> chronology_ok (chronology_add_fragment c fr).
Proof.
  intros [Ha Hi]. unfold chronology_add_fragment. destruct (waits_until _ _); split; cbn; try done.
  - by apply add_inactive_ok.
  - by apply takers_insert_spec.
Qed.

Lemma remove_fragment_ok c fr : chronology_ok c -> chronology_ok (chronology_remove_fragment c fr).
Proof.
  intros [Ha Hi]. unfold chronology_remove_fragment. destruct (waits_until _ _) as [lb|].
  - destruct (inactive c !! lb) as [slot|] eqn:E; [|done]. split; cbn; [done|].
    apply map_Forall_insert_2; [|done]. by apply takers_remove_spec, (Hi lb).
  - split; cbn; [by apply takers_remove_spec|done].
Qed.

(** Committing what an attempt explored from a sound book gives a sound book. *)
Lemma commit_ok (i : IdleState T M MI) s : chronology_ok (takers i) -> Explored i s ->
  exists i', state_commit s = Idle i' /\ chronology_ok (takers i').
Proof.
  intros Hi He. destruct (explored_intact i s (co_active _ Hi) He) as [[Hu Ha _ _] Ei].
  assert (map_Forall (fun _ m => takers_ok m) (inactive (takers (intact s)))) as Hn by (rewrite Ei; apply Hi).
  destruct s as [st|st|st]; cbn in *; eexists; (split; [done|]); split; cbn; try done.
  - by apply insert_all_ok.
  - revert Hn. generalize (inactive (takers_intact st)) as m0.
    induction (reverse (inactive_takers_changeset st)) as [|[time fr] l IH]; intros m0 Hm; cbn; [done|].
    by apply IH, add_inactive_ok.
Qed.

(** The settled book behind a lived one is sound, and what is pending was
    explored from it. *)
Lemma lived_explored t : Lived t -> exists i, Explored i (state t) /\ chronology_ok (takers i).
Proof.
  assert (forall t t' f, requiring_settled_state t f = Ok t' ->
    (exists i, Explored i (state t) /\ chronology_ok (takers i)) ->
    (forall i, chronology_ok (takers i) -> chronology_ok (takers (f i))) ->
    exists i, Explored i (state t') /\ chronology_ok (takers i)) as Hev.
  { intros t0 t' f E (i & He & Hi) Hf. unfold requiring_settled_state in E.
    destruct (state t0) as [st| |] eqn:Es; try done. injection E as <-.
    destruct (explored_intact i _ (co_active _ Hi) He) as [_ Ei]. cbn in Ei. subst st.
    exists (f i). split; [apply explored_start|by apply Hf]. }
  induction 1 as [time c p|t t' time _ IH E|t t' fr _ IH E|t t' fr _ IH E|t t' m _ IH E|t t' m _ IH E
                 |t i rounds steps opt recipe ev s' _ (i0 & He & Hi) Es E|t _ (i & He & Hi)|t _ (i & He & Hi)].
  - exists (mkIdle (chronology_new time) makers_new). split; [apply explored_start|].
    split; [apply takers_new_ok|apply map_Forall_empty].
  - apply (Hev t t' _ E IH). intros i. apply advance_clocks_ok.
  - apply (Hev t t' _ E IH). intros i. apply add_fragment_ok.
  - apply (Hev t t' _ E IH). intros i. apply remove_fragment_ok.
  - apply (Hev t t' _ E IH). done.
  - apply (Hev t t' _ E IH). done.
  - rewrite Es in E, He. destruct (explored_intact i0 _ (co_active _ Hi) He) as [_ Ei]. cbn in Ei. subst i0.
    exists i. split; [|done]. cbn.
    apply attempt_explored with (i:=i) in E; [|by apply Hi|by apply new_round; [constructor|]].
    destruct recipe; [done|]. subst s'. constructor.
  - destruct (commit_ok i _ Hi He) as (i' & E & Hi'). exists i'. split; [|done]. cbn. rewrite E. constructor.
  - exists i. split; [|done]. cbn. rewrite unstash_intact.
    destruct (explored_intact i _ (co_active _ Hi) He) as [_ ->]. constructor.
Qed.

(** C3: An attempt leaves no trace unless its recipe is executed.  Whatever
    the life of the book so far, however many rounds the attempt takes and
    whatever it stashes on the way, an attempt that forms no recipe ends in
    exactly the book it started from, and when it forms one the failure of the
    recipe restores that book. *)
Theorem attempt_restores_book rounds steps optimized t i recipe ev s' :
  Lived t -> state t = Idle i ->
  attempt (TI:=TI) rounds steps (conf t) optimized (state t) = Ok (recipe, ev, s') ->
  match recipe with
  | None => s' = state t
  | Some _ => state (on_recipe_failed (set_state t s')) = state t
  end.
Proof.
  intros (i0 & He & Hi)%lived_explored Es E. rewrite Es in He, E |- *.
  destruct (explored_intact i0 _ (co_active _ Hi) He) as [_ Ei]. cbn in Ei. subst i0.
  apply attempt_explored with (i:=i) in E; [|by apply Hi|by apply new_round; [constructor|]].
  destruct recipe; [|done]. cbn. rewrite unstash_intact.
  by destruct (explored_intact i s' (co_active _ Hi) E) as [_ ->].
Qed.

(** C17: Whatever the life of a book, the takers of both sides, active,
    waiting or previewed, are ordered, unique and on their side, and the
    stash has no entry twice and shares none with the book it was taken from. *)
Theorem lived_book_sound t : Lived t ->
  takers_ok (active_fragments (state t)) /\
  chronology_ok (takers (intact (state t))) /\
  apart (stashed_takers (state t)) /\
  (forall y, y ∈ stashed_takers (state t) -> fresh y (unstashed (state t))).
Proof.
  intros (i & He & Hi)%lived_explored. destruct (explored_intact i _ (co_active _ Hi) He) as [[? ? ? ?] ->].
  done.
Qed.

End Life.
