(* ===== verification/TlbGreen.v ===== *)
(** * The matchmaker at the agent's types

    Green orders and the pools they trade with satisfy what [LbStateProofs.v]
    and [TlbProofs.v] rely on; concrete books that instantiate the theorems. *)

From stdpp Require Import base gmap list.
From Stdlib Require Import ZArith Lia Strings.Byte.
From S2P Require Import Prelude Mpf ToyHash LbTypes Assets Intention GreenOrder LbCore LbCoreProofs.
From S2P Require Import RoyaltyPool RoyaltyPoolProofs LbGreen LbState LbStateProofs Tlb TlbProofs.

(** ** The order of green orders *)

Lemma order_id_cmp_eq a b : order_id_cmp a b = Eq -> a = b.
Proof.
  unfold order_id_cmp. intros [E1%bytes_cmp_eq [E2%Z.compare_eq [E3%Z.compare_eq E4%bytes_cmp_eq]%lex_eq]%lex_eq]%lex_eq.
  destruct a, b; cbn in *; congruence.
Qed.

Lemma order_id_cmp_trans a b c : order_id_cmp a b = Lt -> order_id_cmp b c = Lt -> order_id_cmp a c = Lt.
Proof.
  unfold order_id_cmp. rewrite !lex_lt, !Z.compare_eq_iff, !Z.compare_lt_iff.
  intros [H1|[E1%bytes_cmp_eq H1]] [H2|[E2%bytes_cmp_eq H2]].
  - left. by eapply bytes_cmp_lt_trans.
  - left. by rewrite <- E2.
  - left. by rewrite E1.
  - right. rewrite E1, E2. split; [apply bytes_cmp_refl|].
    destruct H1 as [?|(? & [?|[? ?]])], H2 as [?|(? & [?|[? ?]])]; try (left; lia);
      right; (split; [lia|]); try (left; lia).
    right. split; [lia|]. by eapply bytes_cmp_lt_trans.
Qed.

Global Instance green_ord : TakerOrd GreenOrder := green_order_cmp.

Global Instance green_ord_laws : TakerOrdLaws GreenOrder.
Proof.
  split.
  - intros a b. unfold taker_cmp, green_ord, green_order_cmp, order_id_cmp.
    rewrite !lex_opp, <- !bytes_cmp_opp, <- !Z.compare_antisym. done.
  - intros a b c. apply order_id_cmp_trans.
  - intros a b c. unfold taker_cmp, green_ord, green_order_cmp. by intros ->%order_id_cmp_eq.
Qed.

Global Instance green_id_laws `{Hashing} : TakerIdLaws GreenOrder Token.
Proof. intros a b E%order_id_cmp_eq. unfold stable_id, green_stable. by rewrite E. Qed.

Global Instance green_time_laws `{RatioLib} : TakerTimeLaws GreenOrder ExUnits.
Proof. by intros t t' time [= <-]. Qed.

(** The trait's default methods: the taker sees the pool's own price. *)
Definition default_maker_for_taker {T M U} `{TakerBehaviour T} `{MarketMaker M U} `{MakerBehavior M}
    : MakerForTaker T M := {|
  effective_price := fun maker _ input => real_price maker input;
  swap_with_taker := fun maker taker input => default_swap_with_taker taker maker input;
|}.

Global Instance green_swap_laws `{Hashing} `{RatioLib} `{MarketMaker M U} `{MakerBehavior M} :
  @SwapTakerLaws GreenOrder M Token default_maker_for_taker _.
Proof.
  intros m t i. split; [done|]. cbn. intros s E. by destruct (green_stable_laws t s _ _ E).
Qed.

(** ** Concrete books *)

Section SampleBook.
#[local] Existing Instance exact_ratio.
#[local] Existing Instance exact_fee.
#[local] Existing Instance no_bignum.
#[local] Existing Instance toy.
#[local] Existing Instance list_order.
#[local] Existing Instance list_order_laws.
#[local] Existing Instance default_maker_for_taker.

Notation Book := (TLBState GreenOrder RoyaltyPool Token).

Definition config (step_budget : Z) : ExecutionConfig ExUnits :=
  mkConfig (mkExUnits 10 10) (mkExUnits 20 20) false step_budget.

(** A seller, a buyer and a pool. *)
Definition book : IdleState GreenOrder RoyaltyPool Token :=
  idle_update_pool (idle_add_fragment (idle_add_fragment
    (mkIdle (chronology_new 0) makers_new) seller) buyer) sample_pool.

Definition tlb (c : ExecutionConfig ExUnits) : TLB GreenOrder RoyaltyPool ExUnits Token unit :=
  mkTLB (Idle book) c tt.

Lemma tlb_lived c : Lived (TI:=Token) (tlb c).
Proof.
  pose proof (lived_new (TI:=Token) 0%Z c tt : Lived (T:=GreenOrder) (M:=RoyaltyPool) (MI:=Token) _) as H0.
  eapply lived_update_taker with (fr:=seller) in H0; [|reflexivity].
  eapply lived_update_taker with (fr:=buyer) in H0; [|reflexivity].
  eapply lived_update_maker with (m:=sample_pool) in H0; [|reflexivity].
  exact H0.
Qed.

Lemma book_takers_ok : takers_ok (active (takers book)).
Proof.
  destruct (lived_explored (tlb (config 0)) (tlb_lived _)) as (i & He & Hi).
  destruct (explored_intact i _ (co_active _ Hi) He) as [_ E]. cbn in E. rewrite E. apply Hi.
Qed.

Notation run c := (attempt (TI:=Token) 5 20 (conf (tlb c)) true (state (tlb c))).

(** The seller and the buyer both trade with the pool. *)
Lemma run_recipe : exists recipe ev s', run (config 0) = Ok (Some recipe, ev, s') /\ length recipe = 3.
Proof.
  assert (match run (config 0) with Ok (Some r, _, _) => length r = 3 | _ => False end) as L
    by (vm_compute; reflexivity).
  destruct (run (config 0)) as [[[[r|] ev] s']| |]; [|exact (False_ind _ L)..].
  exists r, ev, s'. exact (conj eq_refl L).
Qed.

Lemma attempt_restores_book_witness :
  exists recipe ev s', run (config 0) = Ok (Some recipe, ev, s') /\ length recipe = 3 /\
    state (on_recipe_failed (set_state (tlb (config 0)) s')) = Idle book.
Proof.
  destruct run_recipe as (recipe & ev & s' & E & L). exists recipe, ev, s'.
  split; [exact E|]. split; [exact L|].
  exact (attempt_restores_book 5 20 true (tlb (config 0)) book (Some recipe) ev s' (tlb_lived _) eq_refl E).
Defined.

Lemma lived_book_sound_witness :
  takers_ok (active_fragments (state (tlb (config 0)))) /\ apart (stashed_takers (state (tlb (config 0)))).
Proof.
  destruct (lived_book_sound (tlb (config 0)) (tlb_lived _)) as (H1 & _ & H2 & _). exact (conj H1 H2).
Defined.

(** With a step budget of 500 lovelace the fees of 10 do not pay for the pool. *)
Lemma too_complex : forall optimized, exists s' b ev,
  match_loop (TI:=Token) 20 (config 500) optimized (Idle book) attempt_empty
    [SizePreAttempt (state_size (Idle book))] = Ok (s', b, ev) /\
  recipe_try_from b (base_step_budget (config 500)) = Err (Some DowngradeNeeded).
Proof.
  assert (forall optimized, match match_loop (TI:=Token) 20 (config 500) optimized (Idle book) attempt_empty
    [SizePreAttempt (state_size (Idle book))] with
    | Ok (s', b, ev) => match recipe_try_from b (base_step_budget (config 500)) with
                        | Err (Some DowngradeNeeded) => True | _ => False end
    | _ => False end) as L by (intros []; vm_compute; exact I).
  intros optimized. specialize (L optimized).
  destruct (match_loop _ _ _ _ _ _) as [[[s' b] ev]| |]; [|exact (False_ind _ L)..].
  exists s', b, ev. split; [reflexivity|].
  destruct (recipe_try_from b _) as [|[[|]|]|]; first [reflexivity|exact (False_ind _ L)].
Qed.

Lemma downgrade_never_returns_witness :
  attempt (TI:=Token) 1000 20 (config 500) true (Idle book) = Err OutOfFuel.
Proof. exact (downgrade_never_returns book book_takers_ok 20 (config 500) too_complex 1000 true). Defined.

(** The seller is picked and the pool taken out for it. *)
Definition picked : Book :=
  (pick_maker_by_id
     (pick_active_taker (Idle book) (fun m => try_pick_fr m Ask (fun _ => true))).2 (rp_id sample_pool)).2.

Lemma picked_explored : Explored book picked.
Proof.
  unfold picked. apply explored_pick_maker.
  destruct (pick_active_taker (Idle book) _) as [c s'] eqn:E.
  exact (explored_pick book (Idle book) _ c s' (explored_start book) (try_pick_picker Ask _) E).
Qed.

Lemma rollback_restores_book_witness : state_rollback picked Unstash = Idle book.
Proof. exact (rollback_restores_book book picked book_takers_ok picked_explored). Defined.

(** The seller could not be satisfied and is stashed. *)
Definition stashing : Book := state_rollback picked (Stash [seller]).

Lemma stashing_explored : Explored book stashing.
Proof.
  unfold stashing. apply explored_stash; [apply picked_explored| |].
  - split; [by intros y ?%elem_of_nil|done].
  - intros t ->%list_elem_of_singleton.
    assert (unstashed picked = mkTakers [seller] [buyer]) as -> by (vm_compute; reflexivity).
    unfold elems. cbn [asks bids app]. left.
Qed.

Lemma commit_and_stash_witness :
  exists st, stashing = PartialPreview st /\ pp_stashed st = [seller] /\
    seller ∉ elems (active (takers (pp_commit st))).
Proof.
  assert (match stashing with PartialPreview st => pp_stashed st = [seller] | _ => False end) as L
    by (vm_compute; reflexivity).
  pose proof (commit_and_stash book stashing book_takers_ok stashing_explored) as Hc.
  destruct stashing as [st|st|st]; [exact (False_ind _ L)| |exact (False_ind _ L)].
  exists st. split; [reflexivity|]. split; [exact L|]. apply Hc. rewrite L. left.
Defined.

End SampleBook.

