(* ===== verification/StateIndexProofs.v ===== *)
(** * The index refines a table of slots

    [StateIndexLaws] is the abstract specification of an index of states; the
    in-memory index of [StateIndex.v] implements it and keeps no state that no
    slot refers to. *)

From stdpp Require Import base gmap list.
From Stdlib Require Import ZArith Lia Strings.Byte.
From S2P Require Import Prelude LbTypes StateIndex.

(** ** The abstract table *)

Section Table.
Context {T SID V : Type} `{EqDecision V} `{TS : Stable T SID} `{SN : Snapshot T V} `{IB : IdBytes SID}.

(** The state of an entity, by modality. *)
Definition table := byte -> bytes -> option T.

(** A new state fills its slot; the other slots of the entity that hold the
    same version see the new value. *)
Definition put_slot (t : table) (p : byte) (e : T) : table := fun q a =>
  if bool_decide (a = id_bytes (stable_id e)) then
    if bool_decide (q = p) then Some e
    else (fun f => if bool_decide (version f = version e) then e else f) <$> t q a
  else t q a.

(** A dropped version leaves every slot but the confirmed one of a
    quasi-permanent entity. *)
Definition invalidate_slot (t : table) (v : V) : table := fun q a =>
  f ← t q a;
  if bool_decide (version f = v) && negb (bool_decide (q = LAST_CONFIRMED_PREFIX) && is_quasi_permanent f)
  then None else Some f.

Definition eliminate_slot (t : table) (sid : SID) : table := fun q a =>
  if bool_decide (a = id_bytes sid) then None else t q a.

(** The version of [e] belongs to no other entity of the table. *)
Definition owns (t : table) (e : T) : Prop :=
  forall q a f, t q a = Some f -> version f = version e -> a = id_bytes (stable_id e).

End Table.
Arguments table T : clear implicits.

Class StateIndexLaws (IX T SID V : Type) `{EqDecision V} `{Stable T SID} `{Snapshot T V} `{IdBytes SID}
    `{StateIndex IX T SID V} := {
  index_ok : IX -> Prop;
  slots : IX -> table T;
  slots_id : forall ix q a e, index_ok ix -> slots ix q a = Some e -> id_bytes (stable_id e) = a;
  slots_version : forall ix q a e q' a' e', index_ok ix ->
    slots ix q a = Some e -> slots ix q' a' = Some e' -> version e = version e' -> e = e';
  get_confirmed_slot : forall ix id, get_last_confirmed ix id = slots ix LAST_CONFIRMED_PREFIX (id_bytes id);
  get_unconfirmed_slot : forall ix id, get_last_unconfirmed ix id = slots ix LAST_UNCONFIRMED_PREFIX (id_bytes id);
  get_predicted_slot : forall ix id, get_last_predicted ix id = slots ix LAST_PREDICTED_PREFIX (id_bytes id);
  get_fallback_slot : forall ix id, get_fallback ix id = slots ix FALLBACK_PREFIX (id_bytes id);
  get_state_slots : forall ix v e, index_ok ix ->
    get_state ix v = Some e <-> version e = v /\ exists q a, slots ix q a = Some e;
  put_slots : forall ix e, index_ok ix -> owns (slots ix) e ->
    let puts p ix' := index_ok ix' /\ forall q a, slots ix' q a = put_slot (slots ix) p e q a in
    puts LAST_CONFIRMED_PREFIX (put_confirmed ix e) /\ puts LAST_UNCONFIRMED_PREFIX (put_unconfirmed ix e) /\
    puts LAST_PREDICTED_PREFIX (put_predicted ix e) /\ puts FALLBACK_PREFIX (put_fallback ix e);
  invalidate_slots : forall ix v, index_ok ix ->
    index_ok (invalidate_version ix v).1 /\
    (forall q a, slots (invalidate_version ix v).1 q a = invalidate_slot (slots ix) v q a) /\
    (invalidate_version ix v).2 = stable_id <$> get_state ix v;
  eliminate_slots : forall ix sid, index_ok ix ->
    index_ok (eliminate ix sid) /\
    forall q a, slots (eliminate ix sid) q a = eliminate_slot (slots ix) sid q a;
}.

(** ** The in-memory index *)

Section InMemory.
Context {T SID V : Type}.
Context `{CV : Countable V} `{TS : Stable T SID} `{SN : Snapshot T V} `{IB : IdBytes SID}.
Local Notation Index := (InMemoryStateIndex T V).
Implicit Types (ix : Index) (p q : byte) (a : bytes) (e f : T) (v : V).

Definition slot ix : table T := fun q a => v ← index ix !! (q :: a); store ix !! v.

(** Every key names a stored state of its entity, states are stored under
    their version, and every stored state is named by a key. *)
Record in_memory_ok ix : Prop := {
  io_keys : forall k v, index ix !! k = Some v -> exists q a, k = q :: a /\ q ∈ ALL_STATE_KEYS;
  io_bound : forall q a v, index ix !! (q :: a) = Some v ->
    exists e, store ix !! v = Some e /\ id_bytes (stable_id e) = a;
  io_version : forall v e, store ix !! v = Some e -> version e = v;
  io_used : forall v e, store ix !! v = Some e ->
    exists q, q ∈ ALL_STATE_KEYS /\ index ix !! (q :: id_bytes (stable_id e)) = Some v;
}.

Lemma index_new_ok : in_memory_ok index_new.
Proof. split; intros *; cbn; rewrite lookup_empty; done. Qed.

Lemma slot_some ix q a e : in_memory_ok ix ->
  slot ix q a = Some e <-> index ix !! (q :: a) = Some (version e) /\ store ix !! version e = Some e.
Proof.
  intros Hok. unfold slot. rewrite bind_Some. split; [|naive_solver].
  intros (v & Hv & He). by rewrite (io_version _ Hok _ _ He).
Qed.

Lemma slot_bound ix q a v : in_memory_ok ix -> index ix !! (q :: a) = Some v ->
  exists e, slot ix q a = Some e /\ version e = v /\ id_bytes (stable_id e) = a.
Proof.
  intros Hok Hv. destruct (io_bound _ Hok _ _ _ Hv) as (e & He & Ha).
  exists e. unfold slot. rewrite Hv. cbn. split; [done|]. split; [by apply (io_version _ Hok)|done].
Qed.

Lemma bound_versions_elem ix p sid v :
  v ∈ bound_versions ix p sid <->
  exists q, q ∈ ALL_STATE_KEYS /\ q <> p /\ index ix !! (q :: id_bytes sid) = Some v.
Proof.
  unfold bound_versions, index_key. rewrite list_elem_of_omap. split.
  - intros (q & Hq & E). case_bool_decide; [|done]. by exists q.
  - intros (q & Hq & Hne & E). exists q. split; [done|]. by rewrite bool_decide_true.
Qed.

(** Nothing another key names is released. *)
Lemma release_other ix p e q a v f : in_memory_ok ix ->
  index ix !! (q :: a) = Some v -> (q, a) <> (p, id_bytes (stable_id e)) -> store ix !! v = Some f ->
  release ix p (stable_id e) !! v = Some f.
Proof.
  intros Hok Hv Hne Hf. unfold release. destruct (index ix !! index_key _ _) as [old|] eqn:Eo; [|done].
  case_bool_decide as Hb; [done|]. rewrite lookup_delete_ne; [done|]. intros ->.
  apply Hb, bound_versions_elem.
  destruct (io_bound _ Hok _ _ _ Hv) as (g & Hg & Hga). unfold index_key in Eo.
  destruct (io_bound _ Hok _ _ _ Eo) as (g' & Hg' & Hga'). assert (g' = g) as -> by congruence.
  destruct (io_keys _ Hok _ _ Hv) as (q' & a' & [= <- <-] & Hq). exists q.
  split; [done|]. split; [congruence|]. by rewrite <- Hga', Hga.
Qed.

Lemma release_incl ix p sid v f : release ix p sid !! v = Some f -> store ix !! v = Some f.
Proof.
  unfold release. repeat case_match; try done. by intros [_ ?]%lookup_delete_Some.
Qed.

Lemma put_slot_eq ix p e : in_memory_ok ix -> owns (slot ix) e ->
  forall q a, slot (put ix p (stable_id e) e) q a = put_slot (slot ix) p e q a.
Proof.
  intros Hok Hown q a. unfold put_slot. unfold slot at 1. cbn [put index store].
  destruct (decide ((q, a) = (p, id_bytes (stable_id e)))) as [[= -> ->]|Hne].
  { unfold index_key. rewrite lookup_insert_eq. cbn. rewrite lookup_insert_eq.
    by rewrite !bool_decide_true. }
  rewrite lookup_insert_ne by (unfold index_key; congruence).
  destruct (index ix !! (q :: a)) as [v|] eqn:Ev; cbn.
  - destruct (slot_bound ix q a v Hok Ev) as (f & Hf & Hfv & Hfa). rewrite Hf. cbn.
    destruct (decide (v = version e)) as [->|Hv].
    + rewrite lookup_insert_eq. assert (a = id_bytes (stable_id e)) as -> by by eapply Hown.
      rewrite bool_decide_true by done. rewrite bool_decide_false by congruence.
      by rewrite bool_decide_true.
    + rewrite lookup_insert_ne by done. apply slot_some in Hf as [_ Hf]; [|done]. rewrite Hfv in Hf.
      rewrite (release_other ix p e q a v f) by done.
      case_bool_decide; [|done]. rewrite bool_decide_false by congruence.
      by rewrite bool_decide_false by congruence.
  - unfold slot. rewrite Ev. cbn. by repeat case_bool_decide; simplify_eq.
Qed.

Lemma put_ok ix p e : p ∈ ALL_STATE_KEYS -> in_memory_ok ix -> owns (slot ix) e ->
  in_memory_ok (put ix p (stable_id e) e).
Proof.
  intros Hp Hok Hown. split; cbn [put index store].
  - intros k v [[<- <-]|[_ Hk]]%lookup_insert_Some; [by eexists _, _|by apply (io_keys _ Hok) in Hk].
  - intros q a v Hk. pose proof (put_slot_eq ix p e Hok Hown q a) as Es. unfold slot at 1 in Es.
    cbn [put index store] in Es. rewrite Hk in Es. cbn in Es. rewrite Es. unfold put_slot.
    apply lookup_insert_Some in Hk as [[[= <- <-] <-]|[Hne Hk]].
    + rewrite !bool_decide_true by done. by exists e.
    + destruct (slot_bound ix q a v Hok Hk) as (f & Hf & Hfv & Hfa). rewrite Hf. cbn.
      repeat case_bool_decide; by eexists.
  - intros v f [[<- <-]|[_ Hf%release_incl]]%lookup_insert_Some; [done|]. by apply (io_version _ Hok).
  - intros v f [[<- <-]|[Hne Hf]]%lookup_insert_Some.
    { exists p. split; [done|]. apply lookup_insert_eq. }
    pose proof (release_incl _ _ _ _ _ Hf) as Hs.
    destruct (io_used _ Hok _ _ Hs) as (q & Hq & Hk).
    destruct (decide ((q, id_bytes (stable_id f)) = (p, id_bytes (stable_id e)))) as [[= -> Ha]|Hne'].
    + unfold release, index_key in Hf. rewrite <- Ha, Hk in Hf. case_bool_decide as Hb.
      * apply bound_versions_elem in Hb as (q' & Hq' & Hqp & Hk'). exists q'. split; [done|].
        unfold index_key. rewrite lookup_insert_ne by congruence. by rewrite Ha.
      * by rewrite lookup_delete_eq in Hf.
    + exists q. split; [done|]. unfold index_key. by rewrite lookup_insert_ne by congruence.
Qed.

(** ** Invalidation *)

Lemma drop_all_lookup v (ks : list bytes) : forall (m : gmap bytes V) k,
  fold_left (fun m k => drop_if_bound v k m) ks m !! k =
  if bool_decide (k ∈ ks /\ m !! k = Some v) then None else m !! k.
Proof.
  induction ks as [|k0 ks IH]; intros m k; cbn.
  - rewrite bool_decide_false; [done|]. by intros [?%elem_of_nil _].
  - rewrite IH. unfold drop_if_bound. destruct (bool_decide_reflect (m !! k0 = Some v)) as [E|E].
    + destruct (decide (k = k0)) as [->|Hne].
      * rewrite lookup_delete_eq. rewrite bool_decide_false by naive_solver.
        rewrite bool_decide_true; [done|]. split; [left|done].
      * rewrite lookup_delete_ne by done. erewrite bool_decide_ext; [reflexivity|]. rewrite elem_of_cons. naive_solver.
    + erewrite bool_decide_ext; [reflexivity|]. rewrite elem_of_cons. naive_solver.
Qed.

Lemma all_keys q : q ∈ ALL_STATE_KEYS -> q = LAST_CONFIRMED_PREFIX \/ q ∈ EPHEMERAL_STATE_KEYS.
Proof. intros [->|Hq]%elem_of_cons; [by left|by right]. Qed.

Lemma confirmed_not_ephemeral : LAST_CONFIRMED_PREFIX ∉ EPHEMERAL_STATE_KEYS.
Proof. unfold EPHEMERAL_STATE_KEYS. rewrite !not_elem_of_cons. repeat split; try done. apply not_elem_of_nil. Qed.

Lemma ephemeral_key q a sid : q :: a ∈ (fun p => index_key p sid) <$> EPHEMERAL_STATE_KEYS <->
  q ∈ EPHEMERAL_STATE_KEYS /\ a = id_bytes sid.
Proof.
  rewrite list_elem_of_fmap. unfold index_key. split; [|naive_solver].
  by intros (p & [= -> ->] & Hp).
Qed.

Lemma invalidate_lookup ix v e : in_memory_ok ix -> store ix !! v = Some e ->
  (forall q a, index (index_invalidate ix v).1 !! (q :: a) =
     if bool_decide (index ix !! (q :: a) = Some v) &&
        negb (bool_decide (q = LAST_CONFIRMED_PREFIX) && is_quasi_permanent e)
     then None else index ix !! (q :: a)) /\
  (forall w, store (index_invalidate ix v).1 !! w =
     if bool_decide (w = v) then
       if bool_decide (index ix !! index_key LAST_CONFIRMED_PREFIX (stable_id e) = Some v) && is_quasi_permanent e
       then Some e else None
     else store ix !! w).
Proof.
  intros Hok He. unfold index_invalidate. rewrite He.
  set (sid := stable_id e). set (kc := index_key LAST_CONFIRMED_PREFIX sid).
  set (im := if bool_decide (index ix !! kc = Some v)
             then if is_quasi_permanent e then index ix else base.delete kc (index ix) else index ix).
  split.
  - intros q a.
    replace (index _) with (fold_left (fun m k => drop_if_bound v k m)
      ((fun p => index_key p sid) <$> EPHEMERAL_STATE_KEYS) im)
      by (unfold im; repeat case_match; done).
    rewrite drop_all_lookup.
    destruct (bool_decide_reflect (index ix !! (q :: a) = Some v)) as [Ev|Ev]; cbn [andb].
    + destruct (io_bound _ Hok _ _ _ Ev) as (f & Hf & Ha). assert (f = e) as -> by congruence.
      destruct (io_keys _ Hok _ _ Ev) as (q' & a' & [= <- <-] & Hq).
      destruct (all_keys q Hq) as [->|He'].
      * rewrite bool_decide_false by (intros [[Hn _]%ephemeral_key _]; by apply confirmed_not_ephemeral).
        rewrite (bool_decide_true (_ = _)) by done. cbn [andb negb]. unfold im, kc, index_key. unfold sid. rewrite Ha, Ev.
        rewrite bool_decide_true by done. destruct (is_quasi_permanent e); [done|apply lookup_delete_eq].
      * assert (q <> LAST_CONFIRMED_PREFIX) as Hne by (intros ->; by apply confirmed_not_ephemeral).
        rewrite (bool_decide_false (q = _)) by done. cbn [andb negb]. rewrite bool_decide_true; [done|].
        split; [by apply ephemeral_key|]. unfold im, kc, index_key.
        repeat case_match; try done. by rewrite lookup_delete_ne by congruence.
    + assert (im !! (q :: a) = index ix !! (q :: a)) as Ei.
      { unfold im. destruct (bool_decide_reflect (index ix !! kc = Some v)); [|done].
        destruct (is_quasi_permanent e); [done|]. rewrite lookup_delete_ne; congruence. }
      rewrite Ei. by rewrite bool_decide_false by naive_solver.
  - intros w. fold kc sid. destruct (bool_decide (index ix !! kc = Some v)), (is_quasi_permanent e); cbn;
      case_bool_decide; subst; rewrite ?lookup_insert_eq, ?lookup_insert_ne, ?lookup_delete_eq, ?lookup_delete_ne by done;
      done.
Qed.

Lemma invalidate_incl ix v k w : index (index_invalidate ix v).1 !! k = Some w -> index ix !! k = Some w.
Proof.
  assert (forall ks (m : gmap bytes V),
    fold_left (fun m k => drop_if_bound v k m) ks m !! k = Some w -> m !! k = Some w) as Hd.
  { intros ks m. rewrite drop_all_lookup. by case_bool_decide. }
  unfold index_invalidate. destruct (store ix !! v) as [e|]; [|done].
  set (ks := (fun p => index_key p (stable_id e)) <$> EPHEMERAL_STATE_KEYS).
  repeat case_match; simplify_eq; cbn [fst index]; intros E; apply (Hd ks) in E; try done.
  by apply lookup_delete_Some in E as [_ ?].
Qed.

Lemma invalidate_slot_eq ix v : in_memory_ok ix ->
  forall q a, slot (index_invalidate ix v).1 q a = invalidate_slot (slot ix) v q a.
Proof.
  intros Hok q a. unfold invalidate_slot. destruct (store ix !! v) as [e|] eqn:Ee.
  - destruct (invalidate_lookup ix v e Hok Ee) as [Hi Hs]. unfold slot at 1. rewrite Hi.
    destruct (index ix !! (q :: a)) as [w|] eqn:Ew.
    + destruct (slot_bound ix q a w Hok Ew) as (f & Hf & <- & Ha). rewrite Hf. cbn.
      apply slot_some in Hf as [_ Hf]; [|done].
      destruct (decide (version f = v)) as [<-|Hne].
      * assert (f = e) as -> by congruence. rewrite (bool_decide_true (Some _ = _)), (bool_decide_true (version _ = _)) by done. cbn [andb].
        destruct (bool_decide_reflect (q = LAST_CONFIRMED_PREFIX)) as [->|]; [|done].
        destruct (is_quasi_permanent e) eqn:Eq; [|done]. cbn. rewrite Hs.
        unfold index_key. by rewrite Ha, Ew, !bool_decide_true.
      * rewrite (bool_decide_false (version _ = _)), (bool_decide_false (Some _ = _)) by congruence. cbn.
        by rewrite Hs, bool_decide_false.
    + rewrite bool_decide_false by done. cbn. unfold slot. by rewrite Ew.
  - unfold index_invalidate. rewrite Ee. cbn [fst]. destruct (slot ix q a) as [f|] eqn:Ef; cbn; [|done].
    apply slot_some in Ef as [_ Ef]; [|done]. by rewrite bool_decide_false by congruence.
Qed.

Lemma invalidate_ok ix v : in_memory_ok ix -> in_memory_ok (index_invalidate ix v).1.
Proof.
  intros Hok. destruct (store ix !! v) as [e|] eqn:Ee; [|unfold index_invalidate; by rewrite Ee].
  destruct (invalidate_lookup ix v e Hok Ee) as [Hi Hs]. split.
  - intros k w Hk%invalidate_incl. by apply (io_keys _ Hok) in Hk.
  - intros q a w Hk. pose proof (invalidate_incl _ _ _ _ Hk) as Hw.
    destruct (io_bound _ Hok _ _ _ Hw) as (f & Hf & Ha). exists f. split; [|done]. rewrite Hs.
    destruct (bool_decide_reflect (w = v)) as [->|]; [|done]. assert (f = e) as -> by congruence.
    rewrite Hi, Hw, bool_decide_true in Hk by done. cbn in Hk.
    destruct (bool_decide_reflect (q = LAST_CONFIRMED_PREFIX)) as [->|]; [|done].
    destruct (is_quasi_permanent e); [|done]. unfold index_key. by rewrite Ha, Hw, bool_decide_true.
  - intros w f. rewrite Hs. destruct (bool_decide_reflect (w = v)) as [->|]; [|by apply (io_version _ Hok)].
    case_match; [|done]. intros [= <-]. by apply (io_version _ Hok).
  - intros w f. rewrite Hs. destruct (bool_decide_reflect (w = v)) as [->|Hw].
    + destruct (bool_decide_reflect (index ix !! index_key LAST_CONFIRMED_PREFIX (stable_id e) = Some v))
        as [Ev|]; [|done]. destruct (is_quasi_permanent e) eqn:Eq; [|done]. intros [= <-].
      exists LAST_CONFIRMED_PREFIX. split; [left|]. rewrite Hi. unfold index_key in Ev.
      by rewrite Ev, !bool_decide_true.
    + intros Hf. destruct (io_used _ Hok _ _ Hf) as (q & Hq & Hk). exists q. split; [done|].
      rewrite Hi, Hk. by rewrite bool_decide_false by congruence.
Qed.

(** ** Elimination *)

Local Arguments index_eliminate : simpl never.

Lemma eliminate_lookup sid ps : forall ix,
  (forall k, index (fold_left (eliminate_key sid) ps ix) !! k =
     if bool_decide (k ∈ (fun p => index_key p sid) <$> ps) then None else index ix !! k) /\
  (forall w, store (fold_left (eliminate_key sid) ps ix) !! w =
     if bool_decide (Exists (fun p => index ix !! index_key p sid = Some w) ps) then None else store ix !! w).
Proof.
  induction ps as [|p ps IH]; intros ix; cbn [fold_left].
  - split; [intros k|intros w]; rewrite bool_decide_false; try done; [apply not_elem_of_nil|by intros ?%Exists_nil].
  - assert (forall k, index (eliminate_key sid ix p) !! k =
              if bool_decide (k = index_key p sid) then None else index ix !! k) as Ei.
    { intros k. unfold eliminate_key. destruct (index ix !! index_key p sid) eqn:E; cbn; case_bool_decide; subst;
        rewrite ?lookup_delete_eq, ?lookup_delete_ne by done; done. }
    assert (forall w, store (eliminate_key sid ix p) !! w =
              if bool_decide (index ix !! index_key p sid = Some w) then None else store ix !! w) as Es.
    { intros w. unfold eliminate_key. destruct (index ix !! index_key p sid) eqn:E; cbn; case_bool_decide; simplify_eq;
        rewrite ?lookup_delete_eq, ?lookup_delete_ne by congruence; done. }
    destruct (IH (eliminate_key sid ix p)) as [H1 H2]. split.
    + intros k. rewrite H1, Ei, fmap_cons. repeat case_bool_decide; set_solver.
    + intros w. rewrite H2, Es. destruct (decide (index ix !! index_key p sid = Some w)) as [Ew|Ew].
      * rewrite (bool_decide_true (_ = Some w)), (bool_decide_true (Exists _ (p :: ps))) by (done || by left).
        by case_bool_decide.
      * rewrite (bool_decide_false (_ = Some w)) by done. erewrite bool_decide_ext; [reflexivity|].
        rewrite Exists_cons. rewrite !Exists_exists. setoid_rewrite Ei. split.
        -- intros (r & Hr & E). case_bool_decide; [done|]. right. by exists r.
        -- intros [?|(r & Hr & E)]; [done|]. exists r. split; [done|]. case_bool_decide; congruence.
Qed.

Lemma eliminate_index ix sid q a : in_memory_ok ix ->
  index (index_eliminate ix sid) !! (q :: a) = if bool_decide (a = id_bytes sid) then None else index ix !! (q :: a).
Proof.
  intros Hok. unfold index_eliminate. rewrite (proj1 (eliminate_lookup sid _ ix)).
  destruct (index ix !! (q :: a)) eqn:E; [|by repeat case_bool_decide].
  destruct (io_keys _ Hok _ _ E) as (q' & a' & [= <- <-] & Hq). erewrite bool_decide_ext; [reflexivity|].
  rewrite list_elem_of_fmap. unfold index_key. naive_solver.
Qed.

Lemma eliminate_store ix sid v e : in_memory_ok ix -> store ix !! v = Some e ->
  store (index_eliminate ix sid) !! v = if bool_decide (id_bytes (stable_id e) = id_bytes sid) then None else Some e.
Proof.
  intros Hok He. unfold index_eliminate. rewrite (proj2 (eliminate_lookup sid _ ix)), He.
  erewrite bool_decide_ext; [reflexivity|]. rewrite Exists_exists. unfold index_key. split.
  - intros (p & Hp & Ev). destruct (io_bound _ Hok _ _ _ Ev) as (f & Hf & Ha). congruence.
  - intros E. destruct (io_used _ Hok _ _ He) as (q & Hq & Hk). exists q. by rewrite <- E.
Qed.

Lemma eliminate_store_incl ix sid v e : store (index_eliminate ix sid) !! v = Some e -> store ix !! v = Some e.
Proof. unfold index_eliminate. rewrite (proj2 (eliminate_lookup sid _ ix)). by case_bool_decide. Qed.

Lemma eliminate_slot_eq ix sid : in_memory_ok ix ->
  forall q a, slot (index_eliminate ix sid) q a = eliminate_slot (slot ix) sid q a.
Proof.
  intros Hok q a. unfold eliminate_slot. unfold slot. rewrite eliminate_index by done. case_bool_decide; [done|].
  destruct (index ix !! (q :: a)) as [v|] eqn:Ev; cbn; [|done].
  destruct (io_bound _ Hok _ _ _ Ev) as (e & He & Ha).
  rewrite He, (eliminate_store _ _ _ _ Hok He). by rewrite bool_decide_false by congruence.
Qed.

Lemma eliminate_ok ix sid : in_memory_ok ix -> in_memory_ok (index_eliminate ix sid).
Proof.
  intros Hok. split.
  - intros k v. unfold index_eliminate. rewrite (proj1 (eliminate_lookup sid _ ix)). case_bool_decide; [done|].
    apply (io_keys _ Hok).
  - intros q a v. rewrite eliminate_index by done. case_bool_decide as Ha; [done|]. intros Ev.
    destruct (io_bound _ Hok _ _ _ Ev) as (e & He & Hea). exists e. split; [|done].
    rewrite (eliminate_store _ _ _ _ Hok He). by rewrite bool_decide_false by congruence.
  - intros v e He%eliminate_store_incl. by apply (io_version _ Hok).
  - intros v e He. pose proof (eliminate_store_incl _ _ _ _ He) as He'.
    rewrite (eliminate_store _ _ _ _ Hok He') in He. case_bool_decide as Ha; [done|].
    destruct (io_used _ Hok _ _ He') as (q & Hq & Hk). exists q. split; [done|].
    rewrite eliminate_index by done. by rewrite bool_decide_false.
Qed.

(** ** The refinement *)

Global Instance in_memory_laws : StateIndexLaws (InMemoryStateIndex T V) T SID V.
Proof.
  refine {| index_ok := in_memory_ok; slots := slot |}; try done.
  - intros ix q a e Hok [Hk He]%slot_some; [|done]. destruct (io_bound _ Hok _ _ _ Hk) as (f & Hf & Ha). congruence.
  - intros ix q a e q' a' e' Hok [_ H1]%slot_some [_ H2]%slot_some Ev; [|done..]. congruence.
  - intros ix v e Hok. cbn. split.
    + intros He. split; [by apply (io_version _ Hok)|]. destruct (io_used _ Hok _ _ He) as (q & Hq & Hk).
      exists q, (id_bytes (stable_id e)). apply slot_some; [done|]. by rewrite (io_version _ Hok _ _ He).
    + by intros [<- (q & a & [_ He]%slot_some)]; [|done].
  - intros ix e Hok Hown. cbn.
    split; [|split; [|split]]; (split; [apply put_ok; [|done..]|by apply put_slot_eq]).
    all: unfold ALL_STATE_KEYS; rewrite !elem_of_cons; auto.
  - intros ix v Hok. split; [by apply invalidate_ok|]. split; [by apply invalidate_slot_eq|].
    cbn. unfold index_invalidate. destruct (store ix !! v); [|done]. by repeat case_match.
  - intros ix sid Hok. split; [by apply eliminate_ok|by apply eliminate_slot_eq].
Defined.

End InMemory.

(** ** Sequences of operations *)

Section Sequences.
Context {T SID V : Type}.
Context `{CV : Countable V} `{TS : Stable T SID} `{SN : Snapshot T V} `{IB : IdBytes SID}.

Inductive IndexOp :=
| PutConfirmed (e : T) | PutUnconfirmed (e : T) | PutPredicted (e : T) | PutFallback (e : T)
| Invalidate (v : V) | Eliminate (sid : SID).

Definition run_op {IX} `{StateIndex IX T SID V} (ix : IX) (o : IndexOp) : IX :=
  match o with
  | PutConfirmed e => put_confirmed ix e
  | PutUnconfirmed e => put_unconfirmed ix e
  | PutPredicted e => put_predicted ix e
  | PutFallback e => put_fallback ix e
  | Invalidate v => (invalidate_version ix v).1
  | Eliminate sid => eliminate ix sid
  end.

Definition spec_op (t : table T) (o : IndexOp) : table T :=
  match o with
  | PutConfirmed e => put_slot t LAST_CONFIRMED_PREFIX e
  | PutUnconfirmed e => put_slot t LAST_UNCONFIRMED_PREFIX e
  | PutPredicted e => put_slot t LAST_PREDICTED_PREFIX e
  | PutFallback e => put_slot t FALLBACK_PREFIX e
  | Invalidate v => invalidate_slot t v
  | Eliminate sid => eliminate_slot t sid
  end.

(** A version never belongs to two entities. *)
Definition op_ok (t : table T) (o : IndexOp) : Prop :=
  match o with
  | PutConfirmed e | PutUnconfirmed e | PutPredicted e | PutFallback e => owns t e
  | _ => True
  end.

Fixpoint ops_ok (t : table T) (os : list IndexOp) : Prop :=
  match os with [] => True | o :: os => op_ok t o /\ ops_ok (spec_op t o) os end.

(** The freshest state: predicted, unconfirmed, fallback, confirmed. *)
Definition freshest (t : table T) (sid : SID) : option T :=
  head (omap (fun q => t q (id_bytes sid))
    [LAST_PREDICTED_PREFIX; LAST_UNCONFIRMED_PREFIX; FALLBACK_PREFIX; LAST_CONFIRMED_PREFIX]).

Lemma resolve_freshest {IX} `{SI : StateIndex IX T SID V} `{IL : !StateIndexLaws IX T SID V} ix id :
  resolve_state id ix = freshest (slots ix) id.
Proof.
  unfold resolve_state, freshest. rewrite get_predicted_slot, get_unconfirmed_slot, get_fallback_slot, get_confirmed_slot.
  cbn. destruct (slots ix LAST_PREDICTED_PREFIX _); [done|]. destruct (slots ix LAST_UNCONFIRMED_PREFIX _); [done|].
  destruct (slots ix FALLBACK_PREFIX _); [done|]. by destruct (slots ix LAST_CONFIRMED_PREFIX _).
Qed.

Lemma freshest_ext (t t' : table T) id : (forall q a, t q a = t' q a) -> freshest t id = freshest t' id.
Proof. intros Ht. unfold freshest. cbn. by rewrite !Ht. Qed.

Lemma table_op_ext (t t' : table T) o : (forall q a, t q a = t' q a) ->
  (forall q a, spec_op t o q a = spec_op t' o q a) /\ (op_ok t o -> op_ok t' o).
Proof.
  intros Ht. split.
  - intros q a. destruct o; cbn; unfold put_slot, invalidate_slot, eliminate_slot; by rewrite Ht.
  - destruct o; cbn; unfold owns; try done; intros Ho q a f Hf; rewrite <- Ht in Hf; by apply (Ho q).
Qed.

Lemma ops_ok_ext os : forall t t' : table T, (forall q a, t q a = t' q a) -> ops_ok t os -> ops_ok t' os.
Proof.
  induction os as [|o os IH]; intros t t' Ht; cbn; [done|]. intros [H1 H2].
  destruct (table_op_ext t t' o Ht) as [E1 E2]. split; [by apply E2|]. by apply (IH _ _ E1).
Qed.

Lemma run_op_refines {IX} `{SI : StateIndex IX T SID V} `{IL : !StateIndexLaws IX T SID V} ix o : index_ok ix -> op_ok (slots ix) o ->
  index_ok (run_op ix o) /\ forall q a, slots (run_op ix o) q a = spec_op (slots ix) o q a.
Proof.
  intros Hok Ho. destruct o; cbn in *; try (by destruct (put_slots ix e Hok Ho) as (? & ? & ? & ?)).
  - by destruct (invalidate_slots ix v Hok) as (? & ? & _).
  - by apply eliminate_slots.
Qed.

Lemma run_refines {IX} `{SI : StateIndex IX T SID V} `{IL : !StateIndexLaws IX T SID V} os : forall (ix : IX) t,
  index_ok ix -> (forall q a, slots ix q a = t q a) -> ops_ok t os ->
  index_ok (fold_left run_op os ix) /\
  forall q a, slots (fold_left run_op os ix) q a = fold_left spec_op os t q a.
Proof.
  induction os as [|o os IH]; intros ix t Hok Ht; cbn; [done|]. intros [Ho Hos].
  destruct (run_op_refines ix o Hok) as [Hok' E].
  { apply (table_op_ext t (slots ix) o); [by intros; rewrite Ht|done]. }
  apply IH; [done| |done]. intros q a. rewrite E. by apply table_op_ext.
Qed.

(** C6: The index is a table of the confirmed, unconfirmed, predicted and
    fallback state of every entity.  After any sequence of operations in which
    no version belongs to two entities, looking up an entity gives what that
    sequence leaves in the table, the freshest state is resolved from it, a
    version is known exactly when a slot holds it, and nothing else is kept. *)
Theorem state_index_refines os :
  ops_ok (fun _ _ => None) os ->
  let ix := fold_left run_op os (index_new : InMemoryStateIndex T V) in
  let t := fold_left spec_op os (fun _ _ => None) in
  (forall id, get_last_confirmed ix id = t LAST_CONFIRMED_PREFIX (id_bytes id)) /\
  (forall id, get_last_unconfirmed ix id = t LAST_UNCONFIRMED_PREFIX (id_bytes id)) /\
  (forall id, get_last_predicted ix id = t LAST_PREDICTED_PREFIX (id_bytes id)) /\
  (forall id, get_fallback ix id = t FALLBACK_PREFIX (id_bytes id)) /\
  (forall id, resolve_state id ix = freshest t id) /\
  (forall v e, store ix !! v = Some e <-> version e = v /\ exists q a, t q a = Some e).
Proof.
  intros Hos ix t. destruct (run_refines (IX:=InMemoryStateIndex T V) os index_new (fun _ _ => None)) as [Hok E];
    [exact index_new_ok|done|done|].
  fold ix in Hok, E. fold t in E. repeat split; try (intros id; cbn; apply E).
  - intros id. rewrite resolve_freshest. by apply freshest_ext.
  - by apply (get_state_slots ix v e Hok).
  - apply (get_state_slots ix v e Hok) in H as [_ (q & a & H)]. exists q, a. by rewrite <- E.
  - intros [Hv (q & a & Ht)]. apply (get_state_slots ix v e Hok). split; [done|]. exists q, a. by rewrite E.
Qed.

End Sequences.

Arguments IndexOp T SID V : clear implicits.
