(* ===== verification/Containers.v ===== *)
(** * Containers of the executor

    [spectrum-offchain/src/data/circular_filter.rs],
    [execution_engine/focus_set.rs], [multi_pair.rs] and [funding_effect.rs].

    [CircularBuffer] is a library: class [RingLib] holds the operations the
    filter calls, [RingLaws] what its documentation says of them, in terms of
    the elements from front to back. *)

From stdpp Require Import base gmap list.
From Stdlib Require Import ZArith Lia.
From S2P Require Import Prelude.

(** ** Circular filters *)

Class RingLib (R T : Type) := {
  ring_new : R;
  ring_try_push_back : R -> T -> option R;    (* [None]: the buffer is full *)
  ring_push_back : R -> T -> R;
  ring_pop_front : R -> option (T * R);
  ring_pop_back : R -> option (T * R);
  ring_elems : R -> list T;
}.

Class RingLaws (R T : Type) `{RingLib R T} (N : nat) : Prop := {
  ring_new_elems : ring_elems ring_new = [];
  ring_try_push_spec : forall r x,
    match ring_try_push_back r x with
    | Some r' => ring_elems r' = ring_elems r ++ [x] /\ length (ring_elems r) < N
    | None => N <= length (ring_elems r)
    end;
  ring_push_spec : forall r x, length (ring_elems r) < N ->
    ring_elems (ring_push_back r x) = ring_elems r ++ [x];
  ring_pop_front_spec : forall r,
    match ring_pop_front r with
    | Some (x, r') => ring_elems r = x :: ring_elems r'
    | None => ring_elems r = []
    end;
  ring_capacity : forall r, length (ring_elems r) <= N;
}.

Section CircularFilters.
Context {R T : Type} `{Countable T} `{RB : RingLib R T}.

Record CircularFilter := mkFilter { buffer : R; members : gset T }.

Definition filter_new : CircularFilter := mkFilter ring_new ∅.

Definition filter_add (f : CircularFilter) (a : T) : CircularFilter * option T :=
  if bool_decide (a ∈ members f) then (f, None)
  else
    let ms := {[a]} ∪ members f in
    match ring_try_push_back (buffer f) a with
    | Some b => (mkFilter b ms, None)
    | None =>
      match ring_pop_front (buffer f) with
      | Some (evicted, b) => (mkFilter (ring_push_back b a) (ms ∖ {[evicted]}), Some evicted)
      | None => (mkFilter (buffer f) ms, None)
      end
    end.

(** [remove] leaves the element in the buffer. *)
Definition filter_remove (f : CircularFilter) (a : T) : CircularFilter * bool :=
  (mkFilter (buffer f) (members f ∖ {[a]}), bool_decide (a ∈ members f)).

Definition filter_pop_back (f : CircularFilter) : CircularFilter * option T :=
  match ring_pop_back (buffer f) with
  | Some (x, b) => (mkFilter b (members f ∖ {[x]}), Some x)
  | None => (f, None)
  end.

Definition filter_contains (f : CircularFilter) (a : T) : bool := bool_decide (a ∈ members f).

End CircularFilters.
Arguments CircularFilter R T {_ _}.

(** ** Focus sets *)

Section FocusSets.
Context {T : Type} `{Countable T}.

Record FocusSet := mkFocus { focus_queue : list T; focus_filter : gset T }.

Definition focus_new : FocusSet := mkFocus [] ∅.

Definition focus_push_back (f : FocusSet) (a : T) : FocusSet :=
  if bool_decide (a ∈ focus_filter f) then f
  else mkFocus (focus_queue f ++ [a]) ({[a]} ∪ focus_filter f).

Definition focus_pop_front (f : FocusSet) : option T * FocusSet :=
  match focus_queue f with
  | a :: q => (Some a, mkFocus q (focus_filter f ∖ {[a]}))
  | [] => (None, f)
  end.

End FocusSets.
Arguments FocusSet T {_ _}.

(** ** Resources by pair *)

(** [MultiPair::get_mut]: the resource of the pair, made on first use. *)
Definition multi_get_mut {PR R} `{Countable PR} (make : PR -> R) (m : gmap PR R) (pair : PR) : R * gmap PR R :=
  match m !! pair with
  | Some r => (r, m)
  | None => (make pair, <[pair := make pair]> m)
  end.

(** ** Funding *)

Inductive FundingEvent (B : Type) := FundingConsumed (b : B) | FundingProduced (b : B).
Arguments FundingConsumed {B} _.
Arguments FundingProduced {B} _.

Definition funding_inverse {B} (e : FundingEvent B) : FundingEvent B :=
  match e with FundingConsumed x => FundingProduced x | FundingProduced x => FundingConsumed x end.

(** The funding box [t] of a transaction, and what becomes of it. *)
Inductive FundingIO (T K : Type) := FundingReplaced (t : T) (k : K) | FundingAdded (t : T) (k : K) | FundingNotUsed (t : T).
Arguments FundingReplaced {T K} _ _.
Arguments FundingAdded {T K} _ _.
Arguments FundingNotUsed {T K} _.

(** [map_output] with a function that may panic. *)
Definition map_output {E T K B} (f : K -> outcome E B) (io : FundingIO T K) : outcome E (FundingIO T B) :=
  match io with
  | FundingReplaced inp out => b ← f out; Ok (FundingReplaced inp b)
  | FundingAdded inp out => b ← f out; Ok (FundingAdded inp b)
  | FundingNotUsed inp => Ok (FundingNotUsed inp)
  end.

Definition into_effects {B} (io : FundingIO B B) : option B * list (FundingEvent B) :=
  match io with
  | FundingReplaced consumed produced => (None, [FundingConsumed consumed; FundingProduced produced])
  | FundingAdded unused produced => (Some unused, [FundingProduced produced])
  | FundingNotUsed unused => (Some unused, [])
  end.

(** ** What the filter keeps *)

Section FilterTheorems.
Context {R T : Type} (N : nat) `{Countable T} `{RB : RingLib R T} `{RL : !RingLaws R T N}.
Implicit Types (f : CircularFilter R T) (x a : T) (l : list T).

(** The buffer holds exactly the members, once each. *)
Record filter_ok f : Prop := {
  fo_nodup : NoDup (ring_elems (buffer f));
  fo_members : forall x, x ∈ members f <-> x ∈ ring_elems (buffer f);
}.

Definition filter_add_all f l : CircularFilter R T := fold_left (fun f a => (filter_add f a).1) l f.

Lemma filter_new_ok : filter_ok filter_new.
Proof. split; cbn; rewrite ring_new_elems; [constructor|]. intros x. rewrite elem_of_nil. set_solver. Qed.

(** Adding a new element appends it, after dropping the front of a full
    buffer. *)
Lemma filter_add_elems f a : filter_ok f -> a ∉ members f -> 0 < N ->
  filter_ok (filter_add f a).1 /\
  ring_elems (buffer (filter_add f a).1) =
    (if bool_decide (length (ring_elems (buffer f)) < N) then ring_elems (buffer f)
     else tail (ring_elems (buffer f))) ++ [a].
Proof.
  intros [Hn Hm] Ha HN. unfold filter_add. rewrite bool_decide_false by done.
  assert (a ∉ ring_elems (buffer f)) as Ha' by by rewrite <- Hm.
  pose proof (ring_try_push_spec (buffer f) a) as Hp. destruct (ring_try_push_back (buffer f) a) as [b|].
  - destruct Hp as [Eb Hl]. rewrite bool_decide_true by done. split; [|done]. split; cbn; rewrite Eb.
    + apply NoDup_app. split; [done|]. split; [|apply NoDup_singleton].
      intros x Hx ->%list_elem_of_singleton. done.
    + intros x. rewrite elem_of_app, list_elem_of_singleton, elem_of_union, elem_of_singleton, Hm. tauto.
  - rewrite bool_decide_false by lia. pose proof (ring_pop_front_spec (buffer f)) as Hf.
    destruct (ring_pop_front (buffer f)) as [[ev b]|]; [|rewrite Hf in Hp; cbn in Hp; lia].
    pose proof (ring_capacity (buffer f)) as Hc. rewrite Hf in Hc, Hn, Ha' |- *. cbn in Hc |- *.
    apply NoDup_cons in Hn as [Hev Hn]. apply not_elem_of_cons in Ha' as [Hae Ha'].
    assert (ring_elems (ring_push_back b a) = ring_elems b ++ [a]) as Eb by (apply ring_push_spec; lia).
    split; [|done]. split; cbn; rewrite Eb.
    + apply NoDup_app. split; [done|]. split; [|apply NoDup_singleton].
      intros x Hx ->%list_elem_of_singleton. done.
    + intros x. rewrite elem_of_difference, elem_of_union, !elem_of_singleton, Hm, Hf.
      rewrite elem_of_app, list_elem_of_singleton, elem_of_cons.
      split; [tauto|]. intros [Hx| ->]; (split; [tauto|]); [by intros ->|done].
Qed.

Lemma filter_add_ok f a : filter_ok f -> 0 < N -> filter_ok (filter_add f a).1.
Proof.
  intros Hf HN. destruct (decide (a ∈ members f)) as [Ha|Ha]; [|by apply filter_add_elems].
  unfold filter_add. by rewrite bool_decide_true.
Qed.

Lemma filter_add_all_ok l : forall f, filter_ok f -> 0 < N -> filter_ok (filter_add_all f l).
Proof. induction l as [|a l IH]; intros f Hf HN; cbn; [done|]. by apply IH; [apply filter_add_ok|]. Qed.

Lemma filter_add_all_app f l k : filter_add_all f (l ++ k) = filter_add_all (filter_add_all f l) k.
Proof. apply fold_left_app. Qed.

(** An element with fewer than [N - k] elements behind it survives [k]
    additions. *)
Lemma filter_add_behind l : forall f x pre post, filter_ok f -> 0 < N ->
  ring_elems (buffer f) = pre ++ x :: post -> length post + length l < N ->
  x ∈ members (filter_add_all f l).
Proof.
  induction l as [|a l IH]; intros f x pre post Hf HN E Hl; cbn.
  - apply (fo_members _ Hf). rewrite E. set_solver.
  - destruct (decide (a ∈ members f)) as [Ha|Ha].
    + unfold filter_add. rewrite bool_decide_true by done. apply (IH f x pre post); cbn in *; [done..|lia].
    + destruct (filter_add_elems f a Hf Ha HN) as [Hf' Ef].
      destruct (bool_decide_reflect (length (ring_elems (buffer f)) < N)) as [Hlt|Hge].
      * apply (IH _ x pre (post ++ [a])); [done|done| |rewrite length_app; cbn in *; lia].
        rewrite Ef, E, <- app_assoc. done.
      * rewrite E, length_app in Hge. cbn in Hge, Hl. destruct pre as [|y pre]; [cbn in Hge; lia|].
        apply (IH _ x pre (post ++ [a])); [done|done| |rewrite length_app; cbn in *; lia].
        rewrite Ef, E. cbn. by rewrite <- app_assoc.
Qed.

(** A circular filter of capacity [N] remembers.  However it was filled,
    an element that is added while absent is contained, and stays contained
    through the next [N - 1] additions; and the filter never holds more than
    [N] elements. *)
Theorem filter_remembers past x l : 0 < N ->
  x ∉ members (filter_add_all filter_new past) -> length l < N ->
  filter_contains (filter_add_all filter_new (past ++ x :: l)) x = true /\
  size (members (filter_add_all filter_new (past ++ x :: l))) <= N.
Proof.
  intros HN Hx Hl. rewrite filter_add_all_app. cbn.
  pose proof (filter_add_all_ok past filter_new filter_new_ok HN) as Hp.
  destruct (filter_add_elems _ x Hp Hx HN) as [Hf' Ef]. split.
  - apply bool_decide_eq_true. eapply (filter_add_behind l _ x _ []); [done|done|exact Ef|done].
  - pose proof (filter_add_all_ok l _ Hf' HN) as Hl'. unfold filter_add_all in Hl' |- *.
    set (g := fold_left _ l _) in *. rewrite <- (ring_capacity (buffer g)).
    assert (members g = list_to_set (ring_elems (buffer g))) as ->
      by (apply set_eq; intros y; rewrite elem_of_list_to_set; apply (fo_members _ Hl')).
    by rewrite size_list_to_set; [|apply Hl'].
Qed.

End FilterTheorems.

(** ** Rings as lists *)

Definition list_ring (N : nat) (T : Type) : RingLib (list T) T := {|
  ring_new := [];
  ring_try_push_back := fun r x => if bool_decide (length r < N) then Some (r ++ [x]) else None;
  ring_push_back := fun r x => if bool_decide (length r < N) then r ++ [x] else tail r ++ [x];
  ring_pop_front := fun r => match take N r with [] => None | x :: r => Some (x, r) end;
  ring_pop_back := fun r => match reverse (take N r) with [] => None | x :: r => Some (x, reverse r) end;
  ring_elems := take N;
|}.

Lemma list_ring_laws N T : @RingLaws (list T) T (list_ring N T) N.
Proof.
  split; cbn.
  - by destruct N.
  - intros r x. case_bool_decide as Hl; [|rewrite length_take; lia].
    rewrite length_take. split; [|lia]. by rewrite !take_ge by (rewrite ?length_app; cbn; lia).
  - intros r x Hl. rewrite length_take in Hl. rewrite bool_decide_true by lia.
    by rewrite !take_ge by (rewrite ?length_app; cbn; lia).
  - intros r. destruct (take N r) as [|x r'] eqn:E; [done|]. f_equal. rewrite take_ge; [done|].
    pose proof (length_take r N) as Hl. rewrite E in Hl. cbn in Hl. lia.
  - intros r. rewrite length_take. lia.
Qed.

Section RingExamples.
#[local] Instance ring3 : RingLib (list nat) nat := list_ring 3 nat.
#[local] Instance ring3_laws : RingLaws (list nat) nat 3 := list_ring_laws 3 nat.

(** The removal of an element leaves its place in the buffer taken: once it
    comes back, the eviction of the old place forgets the element although
    only two others were added after it. *)
Example filter_remove_forgets :
  let f := (filter_add (filter_remove (filter_add filter_new 1).1 1).1 1).1 in
  filter_contains f 1 = true /\ filter_contains (filter_add_all f [2; 3]) 1 = false.
Proof. split; vm_compute; reflexivity. Qed.

Lemma filter_remembers_witness : filter_contains (filter_add_all filter_new [1; 2; 3; 4; 5]) 3 = true.
Proof.
  refine (proj1 (filter_remembers 3 [1; 2] 3 [4; 5] _ _ _)).
  - lia.
  - apply (bool_decide_eq_false_1 (3 ∈ members (filter_add_all filter_new [1; 2]))). vm_compute. reflexivity.
  - cbn. lia.
Defined.
End RingExamples.
