(* ===== verification/Engine.v ===== *)
(** * The executor

    [bloom-offchain/src/execution_engine/mod.rs]: the stream that keeps the
    index of states and the books in step with the ledger, matches orders,
    sends transactions and waits for the outcome of each before the next.

    Books, backlogs, indices, interpreters and the prover are traits of the
    source and classes here.  The streams the executor polls are queues; a poll
    is ready when its queue is not empty.  Logging, reports, the health status
    and the ledger context of an event, which nothing reads, are left out. *)

From stdpp Require Import base gmap list.
From Stdlib Require Import ZArith Lia.
From S2P Require Import Prelude LbTypes LbCore LbState Tlb StateIndex Containers.

(** ** Events *)

Inductive Ior (A B : Type) := IorLeft (a : A) | IorRight (b : B) | IorBoth (a : A) (b : B).
Arguments IorLeft {A B} _.
Arguments IorRight {A B} _.
Arguments IorBoth {A B} _ _.

(** Left: old state, right: new state; left: rolled back, right: revived. *)
Inductive Transition (T : Type) := Forward (i : Ior T T) | Backward (i : Ior T T).
Arguments Forward {T} _.
Arguments Backward {T} _.

Inductive Channel (T : Type) := Ledger (t : T) | Mempool (t : T) | LocalTxSubmit (t : T).
Arguments Ledger {T} _.
Arguments Mempool {T} _.
Arguments LocalTxSubmit {T} _.

Definition erased {T} (c : Channel T) : T := match c with Ledger t | Mempool t | LocalTxSubmit t => t end.

Inductive OrderUpdate (N E : Type) := Created (o : N) | Eliminated (o : E).
Arguments Created {N E} _.
Arguments Eliminated {N E} _.

Record Baked (T V : Type) := mkBaked { entity : T; baked_version : V }.
Arguments mkBaked {T V} _ _.
Arguments entity {T V} _.
Arguments baked_version {T V} _.

Record Bundled (T B : Type) := mkBundled { bundled : T; bearer : B }.
Arguments mkBundled {T B} _ _.
Arguments bundled {T B} _.
Arguments bearer {T B} _.

Inductive ExecutionEff (T K : Type) := EffUpdated (elim : K) (upd : T) | EffEliminated (elim : K).
Arguments EffUpdated {T K} _ _.
Arguments EffEliminated {T K} _.

(** [bimap] with functions that may panic; the consumed state comes first. *)
Definition eff_bimap {E T K T2 K2} (ft : T -> outcome E T2) (fk : K -> outcome E K2) (x : ExecutionEff T K)
    : outcome E (ExecutionEff T2 K2) :=
  match x with
  | EffUpdated e u => e ← fk e; u ← ft u; Ok (EffUpdated e u)
  | EffEliminated e => e ← fk e; Ok (EffEliminated e)
  end.

(** ** Interfaces *)

(** [Stable::is_quasi_permanent]. *)
Class QuasiPermanent (T : Type) := quasi_permanent : T -> bool.

(** [LiquidityBook], [ExternalLBEvents], [LBFeedback] and [Maker]. *)
Class LiquidityBook (Book CO P PR : Type) := {
  book_make : PR -> Book;
  book_attempt : Book -> outcome Timeout (option (list (Instruction CO P)) * Book);
  book_on_recipe_succeeded : Book -> Book;
  book_on_recipe_failed : Book -> Book;
  book_update_taker : Book -> CO -> panics Book;
  book_remove_taker : Book -> CO -> panics Book;
  book_update_maker : Book -> P -> panics Book;
  book_remove_maker : Book -> P -> panics Book;
}.

Class SpecializedOrder (SO SID V : Type) := { self_ref : SO -> V; pool_ref : SO -> SID }.

Class HotBacklog (L O V PR : Type) := {
  backlog_make : PR -> L;
  backlog_put : L -> O -> L;
  backlog_try_pop : L -> option O * L;
  backlog_remove : L -> V -> L;
  backlog_soft_evict : L -> V -> L;
}.

Class RecipeInterpreter (RIR CO P V B TC : Type) :=
  trade_run : RIR -> list (Execution CO P B) -> B ->
    RIR * (TC * list (ExecutionEff (Bundled (Baked CO V + Baked P V) B) (Bundled (Baked CO V + Baked P V) B)) * FundingIO B B).

Class SpecializedInterpreter (SIR P SO V B TC : Type) :=
  spec_try_run : SIR -> Bundled P B -> Bundled SO B ->
    SIR * option (TC * Bundled (Baked P V) B * Bundled SO B).

Class TxProver (TC TX TH : Type) := { prove : TC -> TX; canonical_hash : TX -> TH }.

(** [Has<V>] of bearers, and [TryInto<HashSet<V>>] of submission errors: the
    inputs the ledger did not find. *)
Class BearerRef (B V : Type) := bearer_ref : B -> V.
Class MissingInputs (E V : Type) `{Countable V} := missing_inputs : E -> option (gset V).

(** The order in which a [HashSet] is iterated. *)
Definition set_iter {V} `{HashOrder V} (s : gset V) : list V := (hash_iter (gset_to_gmap tt s)).*1.

Inductive EngineFault := BookFault | PollFuel.

Section Engine.
Context {PR SID V CO SO P B TC TX TH E IX Book L RIR SIR R : Type}.
Context `{Countable PR} `{CV : Countable V} `{VO : TakerOrd V} `{VH : !HashOrder V} `{BO : TakerOrd B}.
Context `{COS : Stable CO SID} `{PS : Stable P SID} `{COQ : QuasiPermanent CO} `{PQ : QuasiPermanent P}.
Context `{SOS : SpecializedOrder SO SID V} `{BR : BearerRef B V} `{EM : !MissingInputs E V}.
Context `{LB : LiquidityBook Book CO P PR} `{HB : HotBacklog L (Bundled SO B) V PR}.
Context `{RI : RecipeInterpreter RIR CO P V B TC} `{SI : SpecializedInterpreter SIR P SO V B TC}.
Context `{PV : TxProver TC TX TH} `{RB : RingLib R V}.

Definition Entity := (Baked CO V + Baked P V)%type.
Definition EvolvingEntity := Bundled Entity B.

Definition entity_id (e : Entity) : SID :=
  match e with inl o => stable_id (entity o) | inr p => stable_id (entity p) end.
Definition entity_version (e : Entity) : V :=
  match e with inl o => baked_version o | inr p => baked_version p end.
Definition entity_permanent (e : Entity) : bool :=
  match e with inl o => quasi_permanent (entity o) | inr p => quasi_permanent (entity p) end.

Global Instance evolving_stable : Stable EvolvingEntity SID := fun e => entity_id (bundled e).
Global Instance evolving_snapshot : Snapshot EvolvingEntity V := {|
  version := fun e => entity_version (bundled e);
  is_quasi_permanent := fun e => entity_permanent (bundled e);
|}.

Context `{IX_ : !StateIndex IX EvolvingEntity SID V}.

Inductive ExecutionEffects :=
| FromLiquidityBook (effs : list (ExecutionEff EvolvingEntity EvolvingEntity))
| FromBacklog (pool : Bundled (Baked P V) B) (order : Bundled SO B).

Record Effects := mkEffects {
  tx_hash : TH;
  eff_pair : PR;
  consumed_versions : gset V;
  execution : ExecutionEffects;
  funding : list (FundingEvent B);
}.

Inductive Event :=
| LiquidityEvent (c : Channel (Transition EvolvingEntity))
| BacklogEvent (c : Channel (OrderUpdate (Bundled SO B) SO)).

(** [Once]: the beacon it watches; it waits for [state_synced] to rise or for
    [rollback_in_progress] to fall. *)
Inductive Blocker := UntilSynced | UntilRolledBack.

Record Executor := mkExecutor {
  ex_index : IX;
  multi_book : gmap PR Book;
  multi_backlog : gmap PR L;
  trade_interpreter : RIR;
  spec_interpreter : SIR;
  upstream : list (PR * Event);
  funding_events : list (FundingEvent B);
  funding_pool : list B;
  feedback : list (unit + E);
  pending_effects : option Effects;
  focus_set : FocusSet PR;
  skip_filter : CircularFilter R V;
  state_synced : bool;
  rollback_in_progress : bool;
  blocker : option Blocker;
}.

Definition executor_new (ix : IX) (rir : RIR) (sir : SIR) : Executor :=
  mkExecutor ix ∅ ∅ rir sir [] [] [] [] None focus_new filter_new false false None.

Definition set_index (x : IX) (e : Executor) : Executor :=
  let '(mkExecutor _ b l r s u f p k pe fo sk sy rb bl) := e in mkExecutor x b l r s u f p k pe fo sk sy rb bl.
Definition set_books (x : gmap PR Book) (e : Executor) : Executor :=
  let '(mkExecutor i _ l r s u f p k pe fo sk sy rb bl) := e in mkExecutor i x l r s u f p k pe fo sk sy rb bl.
Definition set_backlogs (x : gmap PR L) (e : Executor) : Executor :=
  let '(mkExecutor i b _ r s u f p k pe fo sk sy rb bl) := e in mkExecutor i b x r s u f p k pe fo sk sy rb bl.
Definition set_interpreters (xr : RIR) (xs : SIR) (e : Executor) : Executor :=
  let '(mkExecutor i b l _ _ u f p k pe fo sk sy rb bl) := e in mkExecutor i b l xr xs u f p k pe fo sk sy rb bl.
Definition set_upstream (x : list (PR * Event)) (e : Executor) : Executor :=
  let '(mkExecutor i b l r s _ f p k pe fo sk sy rb bl) := e in mkExecutor i b l r s x f p k pe fo sk sy rb bl.
Definition set_funding_events (x : list (FundingEvent B)) (e : Executor) : Executor :=
  let '(mkExecutor i b l r s u _ p k pe fo sk sy rb bl) := e in mkExecutor i b l r s u x p k pe fo sk sy rb bl.
Definition set_pool (x : list B) (e : Executor) : Executor :=
  let '(mkExecutor i b l r s u f _ k pe fo sk sy rb bl) := e in mkExecutor i b l r s u f x k pe fo sk sy rb bl.
Definition set_feedback (x : list (unit + E)) (e : Executor) : Executor :=
  let '(mkExecutor i b l r s u f p _ pe fo sk sy rb bl) := e in mkExecutor i b l r s u f p x pe fo sk sy rb bl.
Definition set_pending (x : option Effects) (e : Executor) : Executor :=
  let '(mkExecutor i b l r s u f p k _ fo sk sy rb bl) := e in mkExecutor i b l r s u f p k x fo sk sy rb bl.
Definition set_focus (x : FocusSet PR) (e : Executor) : Executor :=
  let '(mkExecutor i b l r s u f p k pe _ sk sy rb bl) := e in mkExecutor i b l r s u f p k pe x sk sy rb bl.
Definition set_skip (x : CircularFilter R V) (e : Executor) : Executor :=
  let '(mkExecutor i b l r s u f p k pe fo _ sy rb bl) := e in mkExecutor i b l r s u f p k pe fo x sy rb bl.
Definition set_blocker (x : option Blocker) (e : Executor) : Executor :=
  let '(mkExecutor i b l r s u f p k pe fo sk sy rb _) := e in mkExecutor i b l r s u f p k pe fo sk sy rb x.

Definition set_beacons (xs xr : bool) (e : Executor) : Executor :=
  let '(mkExecutor i b l r s u f p k pe fo sk _ _ bl) := e in mkExecutor i b l r s u f p k pe fo sk xs xr bl.

(** ** Books and backlogs of a pair *)

Definition on_book (e : Executor) (pr : PR) (f : Book -> panics Book) : outcome EngineFault Executor :=
  let '(b, m) := multi_get_mut book_make (multi_book e) pr in
  b' ← expect (f b);
  Ok (set_books (<[pr := b']> m) e).

Definition on_backlog (e : Executor) (pr : PR) (f : L -> L) : Executor :=
  let '(l, m) := multi_get_mut backlog_make (multi_backlog e) pr in
  set_backlogs (<[pr := f l]> m) e.

Definition sync_backlog (e : Executor) (pr : PR) (update : Channel (OrderUpdate (Bundled SO B) SO)) : Executor :=
  match erased update with
  | Created new_order =>
    if filter_contains (skip_filter e) (self_ref (bundled new_order)) then e
    else on_backlog e pr (fun l => backlog_put l new_order)
  | Eliminated elim_order =>
    match update with
    | Ledger _ => on_backlog e pr (fun l => backlog_remove l (self_ref elim_order))
    | _ => on_backlog e pr (fun l => backlog_soft_evict l (self_ref elim_order))
    end
  end.

Definition sync_book (e : Executor) (pr : PR) (tr : Ior Entity Entity) : outcome EngineFault Executor :=
  match tr with
  | IorLeft (inl o) => on_book e pr (fun b => book_remove_taker b (entity o))
  | IorLeft (inr p) => on_book e pr (fun b => book_remove_maker b (entity p))
  | IorBoth (inl old) (inl new) =>
    e ← on_book e pr (fun b => book_remove_taker b (entity old));
    on_book e pr (fun b => book_update_taker b (entity new))
  | IorBoth _ (inr new) => on_book e pr (fun b => book_update_maker b (entity new))
  | IorBoth (inr _) (inl _) => Panic   (* [unreachable!()] *)
  | IorRight (inl new) => on_book e pr (fun b => book_update_taker b (entity new))
  | IorRight (inr new) => on_book e pr (fun b => book_update_maker b (entity new))
  end.

Definition to_transition (prev next : option EvolvingEntity) : option (Ior Entity Entity) :=
  match prev, next with
  | Some p, None => Some (IorLeft (bundled p))
  | None, Some n => Some (IorRight (bundled n))
  | Some p, Some n => Some (IorBoth (bundled p) (bundled n))
  | None, None => None
  end.

(** ** State of the chain *)

(** One version: [None] when the index does not know it. *)
Definition invalidate_one (e : Executor) (pr : PR) (ver : V) : option (outcome EngineFault Executor) :=
  match get_state (ex_index e) ver with
  | Some st =>
    let sid := stable_id st in
    let before := resolve_state sid (ex_index e) in
    let ix := (invalidate_version (ex_index e) ver).1 in
    let after := resolve_state sid ix in
    let e := set_index ix e in
    Some (match to_transition before after with
          | Some tr => sync_book e pr tr
          | None => Ok e
          end)
  | None => None
  end.

(** The loop of [invalidate_versions], with the versions it did not find. *)
Fixpoint invalidate_loop (e : Executor) (pr : PR) (vs missing : list V) : outcome EngineFault (Executor * list V) :=
  match vs with
  | [] => Ok (e, missing)
  | ver :: vs =>
    match invalidate_one e pr ver with
    | Some r => e ← r; invalidate_loop e pr vs missing
    | None => invalidate_loop e pr vs (missing ++ [ver])
    end
  end.

Definition invalidate_versions (e : Executor) (pr : PR) (versions : gset V) : outcome EngineFault (Executor * list V) :=
  invalidate_loop e pr (set_iter versions) [].

(** A new state of an entity. *)
Definition update_new_state (e : Executor) (update : Channel (Transition EvolvingEntity))
    (new_state : EvolvingEntity) : Executor * option (Ior Entity Entity) :=
  let ver := version new_state in
  let is_rollback_upd := match erased update with Backward _ => true | Forward _ => false end in
  let state_to_rollback :=
    match erased update with Backward (IorBoth rolled_back _) => Some (version rolled_back) | _ => None end in
  let skipped := filter_contains (skip_filter e) ver in
  if skipped && negb is_rollback_upd then
    (set_index (match update with
                | Ledger _ => put_confirmed (ex_index e) new_state
                | _ => put_fallback (ex_index e) new_state
                end) e, None)
  else
    let e := if skipped then set_skip (filter_remove (skip_filter e) ver).1 e else e in
    let before := resolve_state (stable_id new_state) (ex_index e) in
    let ix := match state_to_rollback with
              | Some v => (invalidate_version (ex_index e) v).1
              | None => ex_index e
              end in
    let ix := match update with
              | Ledger _ => put_confirmed ix new_state
              | Mempool _ => put_unconfirmed ix new_state
              | LocalTxSubmit _ => put_predicted ix new_state
              end in
    let after := resolve_state (stable_id new_state) ix in
    (set_index ix e, to_transition before after).

(** The end of an entity. *)
Definition update_ended (e : Executor) (update : Channel (Transition EvolvingEntity))
    (st : EvolvingEntity) : Executor * option (Ior Entity Entity) :=
  let permanent := is_quasi_permanent st in
  match update, permanent with
  | Ledger _, true => (set_index (put_fallback (ex_index e) st) e, None)
  | Mempool _, true =>
    let before := resolve_state (stable_id st) (ex_index e) in
    let ix := (invalidate_version (ex_index e) (version st)).1 in
    let after := resolve_state (stable_id st) ix in
    (set_index ix e,
     if bool_decide ((version <$> before) = (version <$> after)) then None else to_transition before after)
  | Ledger _, false | _, false => (set_index (eliminate (ex_index e) (stable_id st)) e, Some (IorLeft (bundled st)))
  | LocalTxSubmit _, true => (e, Some (IorLeft (bundled st)))
  end.

Definition update_state (e : Executor) (update : Channel (Transition EvolvingEntity))
    : Executor * option (Ior Entity Entity) :=
  match erased update with
  | Forward (IorRight new_state) | Forward (IorBoth _ new_state)
  | Backward (IorRight new_state) | Backward (IorBoth _ new_state) => update_new_state e update new_state
  | Forward (IorLeft st) | Backward (IorLeft st) => update_ended e update st
  end.

Definition on_entity_processed (e : Executor) (ver : V) : Executor :=
  set_skip (filter_add (skip_filter e) ver).1 e.

(** ** Feedback *)

Definition apply_effect (pr : PR) (e : Executor) (eff : ExecutionEff EvolvingEntity EvolvingEntity) : outcome EngineFault Executor :=
  let '(e, tr) :=
    match eff with
    | EffUpdated elim upd =>
      update_state (on_entity_processed e (version elim)) (LocalTxSubmit (Forward (IorBoth elim upd)))
    | EffEliminated elim =>
      update_state (on_entity_processed e (version elim)) (LocalTxSubmit (Forward (IorLeft elim)))
    end in
  match tr with Some tr => sync_book e pr tr | None => Ok e end.

Fixpoint apply_effects (pr : PR) (e : Executor) (effs : list (ExecutionEff EvolvingEntity EvolvingEntity))
    : outcome EngineFault Executor :=
  match effs with [] => Ok e | eff :: effs => e ← apply_effect pr e eff; apply_effects pr e effs end.

Definition bundled_pool (p : Bundled (Baked P V) B) : EvolvingEntity := mkBundled (inr (bundled p)) (bearer p).

(** The pending effects are popped from the end of the list. *)
Definition on_execution_effects_success (e : Executor) (eff : Effects) : outcome EngineFault Executor :=
  match execution eff with
  | FromLiquidityBook effs =>
    e ← on_book e (eff_pair eff) (fun b => Ok (book_on_recipe_succeeded b));
    apply_effects (eff_pair eff) e (reverse effs)
  | FromBacklog new_pool consumed_ord =>
    let e := on_entity_processed e (self_ref (bundled consumed_ord)) in
    Ok (update_state e (LocalTxSubmit (Forward (IorRight (bundled_pool new_pool))))).1
  end.

(** The takers behind the effects. *)
Definition effect_takers (effs : list (ExecutionEff EvolvingEntity EvolvingEntity)) : list CO :=
  omap (fun eff => match bundled (match eff with EffUpdated k _ | EffEliminated k => k end) with
                   | inl order => Some (entity order)
                   | inr _ => None
                   end) effs.

Fixpoint remove_takers (e : Executor) (pr : PR) (l : list CO) : outcome EngineFault Executor :=
  match l with
  | [] => Ok e
  | o :: l => e ← on_book e pr (fun b => book_remove_taker b o); remove_takers e pr l
  end.

Definition on_execution_effects_failure (e : Executor) (err : E) (eff : Effects) : outcome EngineFault Executor :=
  let pr := eff_pair eff in
  match missing_inputs err with
  | Some missing =>
    '(e, strict_index_consistency) ←
      (match execution eff with
       | FromLiquidityBook _ =>
         e ← on_book e pr (fun b => Ok (book_on_recipe_failed b)); Ok (e, true)
       | FromBacklog _ order =>
         let order_ref := self_ref (bundled order) in
         Ok (if bool_decide (order_ref ∈ missing)
             then on_backlog e pr (fun l => backlog_soft_evict l order_ref)
             else on_backlog e pr (fun l => backlog_put l order), false)
       end);
    '(e, unknown) ← invalidate_versions e pr (missing ∩ consumed_versions eff);
    match unknown with
    | [] => Ok e
    | _ => if strict_index_consistency : bool then Panic else Ok e
    end
  | None =>
    match execution eff with
    | FromLiquidityBook effs =>
      e ← on_book e pr (fun b => Ok (book_on_recipe_failed b));
      remove_takers e pr (effect_takers effs)
    | FromBacklog _ order => Ok (on_backlog e pr (fun l => backlog_put l order))
    end
  end.

Definition on_funding_effects_success (e : Executor) (effects : list (FundingEvent B)) : Executor :=
  set_pool (fold_left (fun pool eff => match eff with
                                       | FundingConsumed _ => pool
                                       | FundingProduced f => bt_insert f pool
                                       end) (reverse effects) (funding_pool e)) e.

Definition on_funding_effects_failure (e : Executor) (err : E) (effects : list (FundingEvent B)) : Executor :=
  let missing := default ∅ (missing_inputs err) in
  set_pool (fold_left (fun pool eff => match eff with
                                       | FundingProduced _ => pool
                                       | FundingConsumed f =>
                                         if bool_decide (bearer_ref f ∈ missing) then pool else bt_insert f pool
                                       end) (reverse effects) (funding_pool e)) e.

Fixpoint remove_orphans (e : Executor) (pr : PR) (l : list (Orphan CO P)) : outcome EngineFault Executor :=
  match l with
  | [] => Ok e
  | OrphanT t :: l => e ← on_book e pr (fun b => book_remove_taker b t); remove_orphans e pr l
  | OrphanM m :: l => e ← on_book e pr (fun b => book_remove_maker b m); remove_orphans e pr l
  end.

Definition on_linkage_failure (e : Executor) (pr : PR) (orphans : list (Orphan CO P)) : outcome EngineFault Executor :=
  e ← on_book e pr (fun b => Ok (book_on_recipe_failed b));
  remove_orphans e pr orphans.

(** ** External events *)

Definition on_pair_event (e : Executor) (pr : PR) (event : Event) : outcome EngineFault Executor :=
  e ← (match event with
       | LiquidityEvent c =>
         let '(e, tr) := update_state e c in
         match tr with Some upd => sync_book e pr upd | None => Ok e end
       | BacklogEvent c => Ok (sync_backlog e pr c)
       end);
  Ok (set_focus (focus_push_back (focus_set e) pr) e).

Definition on_funding_event (e : Executor) (event : FundingEvent B) : Executor :=
  match event with
  | FundingConsumed b => set_pool (bt_remove b (funding_pool e)) e
  | FundingProduced b => set_pool (bt_insert b (funding_pool e)) e
  end.

(** ** Matchmaking *)

Definition ver_ltb (a b : V) : bool := match taker_cmp a b with Lt => true | _ => false end.

(** The smallest box between the two versions a transaction consumes, or the
    smallest box. *)
Definition pop_preferred_funding (pool : list B) (consumed : gset V) : option B * list B :=
  match elements consumed with
  | [a; b] =>
    let '(lower, upper) := match taker_cmp a b with Gt => (b, a) | _ => (a, b) end in
    match list_find (fun f => ver_ltb lower (bearer_ref f) && ver_ltb (bearer_ref f) upper = true) pool with
    | Some (_, candidate) => (Some candidate, bt_remove candidate pool)
    | None => pop_first pool
    end
  | _ => pop_first pool
  end.

Definition link_bearer (ix : IX) (id : SID) : option (V * B) :=
  (fun st => (version st, bearer st)) <$> resolve_state id ix.

(** A recipe is executed when it links and a funding box is left; the result is
    the transaction, or the executor that goes on to the backlog. *)
Definition execute_recipe (e : Executor) (pr : PR) (recipe : list (Instruction CO P))
    : outcome EngineFault (option TX * Executor) :=
  match recipe_link recipe (link_bearer (ex_index e)) with
  | inl (linked, consumed) =>
    match pop_preferred_funding (funding_pool e) consumed with
    | (Some f, pool) =>
      let '(rir, (txc, effs, funding_io)) := trade_run (trade_interpreter e) linked f in
      let tx := prove txc in
      let '(unused, funding_effects) := into_effects funding_io in
      let pool := match unused with Some u => bt_insert u pool | None => pool end in
      let e := set_interpreters rir (spec_interpreter e) (set_pool pool e) in
      let e := set_pending (Some (mkEffects (canonical_hash tx) pr consumed (FromLiquidityBook effs) funding_effects)) e in
      Ok (Some tx, set_focus (focus_push_back (focus_set e) pr) e)
    | (None, pool) =>
      e ← on_book (set_pool pool e) pr (fun b => Ok (book_on_recipe_failed b));
      Ok (None, e)
    end
  | inr orphans => e ← on_linkage_failure e pr orphans; Ok (None, e)
  end.

Definition try_book (e : Executor) (pr : PR) : outcome EngineFault (option TX * Executor) :=
  let '(b, m) := multi_get_mut book_make (multi_book e) pr in
  match book_attempt b with
  | Ok (maybe_recipe, b) =>
    let e := set_books (<[pr := b]> m) e in
    match maybe_recipe with
    | Some recipe => execute_recipe e pr recipe
    | None => Ok (None, e)
    end
  | _ => Err BookFault
  end.

Definition try_backlog (e : Executor) (pr : PR) : option TX * Executor :=
  let '(l, m) := multi_get_mut backlog_make (multi_backlog e) pr in
  let '(popped, l) := backlog_try_pop l in
  let e := set_backlogs (<[pr := l]> m) e in
  match popped with
  | Some next_order =>
    match resolve_state (pool_ref (bundled next_order)) (ex_index e) with
    | Some (mkBundled (inr pool) pool_bearer) =>
      let '(sir, r) := spec_try_run (spec_interpreter e) (mkBundled (entity pool) pool_bearer) next_order in
      let e := set_interpreters (trade_interpreter e) sir e in
      match r with
      | Some (txc, updated_pool, consumed_ord) =>
        let tx := prove txc in
        let consumed := {[baked_version pool; self_ref (bundled consumed_ord)]} in
        let e := set_pending (Some (mkEffects (canonical_hash tx) pr consumed
                                      (FromBacklog updated_pool consumed_ord) [])) e in
        (Some tx, set_focus (focus_push_back (focus_set e) pr) e)
      | None => (None, e)
      end
    | _ => (None, e)
    end
  | None => (None, e)
  end.

(** The loop over the focus set; [fuel] bounds its length. *)
Fixpoint matchmake (fuel : nat) (e : Executor) : outcome EngineFault (option TX * Executor) :=
  match focus_pop_front (focus_set e) with
  | (Some pr, fs) =>
    match fuel with
    | O => Err PollFuel
    | S fuel =>
      '(tx, e) ← try_book (set_focus fs e) pr;
      match tx with
      | Some tx => Ok (Some tx, e)
      | None =>
        let '(tx, e) := try_backlog e pr in
        match tx with
        | Some tx => Ok (Some tx, e)
        | None => matchmake fuel e
        end
      end
    end
  | (None, _) => Ok (None, e)
  end.

(** ** The poll *)

Definition handle_feedback (e : Executor) : outcome EngineFault Executor :=
  match pending_effects e, feedback e with
  | Some eff, res :: rest =>
    let e := set_pending None (set_feedback rest e) in
    match res with
    | inl _ => e ← on_execution_effects_success e eff; Ok (on_funding_effects_success e (funding eff))
    | inr err => e ← on_execution_effects_failure e err eff; Ok (on_funding_effects_failure e err (funding eff))
    end
  | _, _ => Ok e
  end.

Definition resolved (e : Executor) (b : Blocker) : bool :=
  match b with UntilSynced => state_synced e | UntilRolledBack => negb (rollback_in_progress e) end.

(** [poll_next]: [None] is [Poll::Pending].  The beacons do not change during a
    poll. *)
Fixpoint poll_next (fuel : nat) (e : Executor) : outcome EngineFault (option TX * Executor) :=
  match fuel with
  | O => Err PollFuel
  | S fuel =>
    e ← handle_feedback e;
    match upstream e with
    | (pr, event) :: rest => e ← on_pair_event (set_upstream rest e) pr event; poll_next fuel e
    | [] =>
      match funding_events e with
      | event :: rest => poll_next fuel (on_funding_event (set_funding_events rest e) event)
      | [] =>
        match blocker e with
        | Some b => if resolved e b then poll_next fuel (set_blocker None e) else Ok (None, e)
        | None =>
          if negb (state_synced e) then poll_next fuel (set_blocker (Some UntilSynced) e)
          else if rollback_in_progress e then poll_next fuel (set_blocker (Some UntilRolledBack) e)
          else matchmake (length (focus_queue (focus_set e))) e
        end
      end
    end
  end.

End Engine.
