(* ===== verification/EngineProofs.v ===== *)
(** * The executor is never stuck

    Theorems about [Engine.v], against the interfaces of the books
    ([LiquidityBookLaws]), of the index ([StateIndexLaws]) and of the
    interpreters: no poll panics, every poll ends, and no book is touched while
    a recipe of it is pending. *)

From stdpp Require Import base gmap list.
From Stdlib Require Import ZArith Lia.
From S2P Require Import Prelude LbTypes LbCore LbState Tlb StateIndex StateIndexProofs Containers Engine.

(** What the executor relies on when it drives a book.  A settled book accepts
    every event; an attempt without a recipe changes nothing, and one with a
    recipe leaves a tentative book, which the failure of the recipe turns back
    into the settled one and its success into a settled one. *)
Class LiquidityBookLaws (Book CO P PR : Type) `{LiquidityBook Book CO P PR} := {
  settled : Book -> Prop;
  tentative : Book -> Book -> Prop;
  settled_make : forall pr, settled (book_make pr);
  settled_update_taker : forall b o, settled b -> exists b', book_update_taker b o = Ok b' /\ settled b';
  settled_remove_taker : forall b o, settled b -> exists b', book_remove_taker b o = Ok b' /\ settled b';
  settled_update_maker : forall b p, settled b -> exists b', book_update_maker b p = Ok b' /\ settled b';
  settled_remove_maker : forall b p, settled b -> exists b', book_remove_maker b p = Ok b' /\ settled b';
  attempt_none : forall b b', settled b -> book_attempt b = Ok (None, b') -> b' = b;
  attempt_some : forall b r b', settled b -> book_attempt b = Ok (Some r, b') -> tentative b b';
  tentative_failed : forall b b', settled b -> tentative b b' -> book_on_recipe_failed b' = b;
  tentative_succeeded : forall b b', settled b -> tentative b b' -> settled (book_on_recipe_succeeded b');
}.

(** ** Programs that return *)

Definition returns {F A} (r : outcome F A) (Q : A -> Prop) : Prop := exists a, r = Ok a /\ Q a.

Lemma returns_ok {F A} (a : A) (Q : A -> Prop) : Q a -> returns (Ok a : outcome F A) Q.
Proof. intros Ha. by exists a. Qed.

Lemma returns_bind {F A B} (r : outcome F A) (k : A -> outcome F B) (Q : A -> Prop) (S : B -> Prop) :
  returns r Q -> (forall a, Q a -> returns (k a) S) -> returns (r ≫= k) S.
Proof. intros (a & -> & Ha) Hk. by apply Hk. Qed.

Lemma returns_impl {F A} (r : outcome F A) (Q S : A -> Prop) :
  returns r Q -> (forall a, Q a -> S a) -> returns r S.
Proof. intros (a & -> & Ha) Hi. exists a. auto. Qed.

Lemma bind_assoc_outcome {F A B C} (r : outcome F A) (k : A -> outcome F B) (h : B -> outcome F C) :
  (r ≫= fun a => k a ≫= h) = (r ≫= k) ≫= h.
Proof. by destruct r. Qed.

Section Proofs.
Context {PR SID V CO SO P B TC TX TH E IX Book L RIR SIR R : Type}.
Context `{CPR : Countable PR} `{CV : Countable V} `{VO : TakerOrd V} `{VH : !HashOrder V} `{VHL : !HashOrderLaws V}
        `{BO : TakerOrd B}.
Context `{COS : Stable CO SID} `{PS : Stable P SID} `{COQ : QuasiPermanent CO} `{PQ : QuasiPermanent P}.
Context `{SOS : SpecializedOrder SO SID V} `{BR : BearerRef B V} `{EM : !MissingInputs E V} `{IB : IdBytes SID}.
Context `{LB : LiquidityBook Book CO P PR} `{LBL : !LiquidityBookLaws Book CO P PR}.
Context `{HB : HotBacklog L (Bundled SO B) V PR}.
Context `{RI : RecipeInterpreter RIR CO P V B TC} `{SI : SpecializedInterpreter SIR P SO V B TC}.
Context `{PV : TxProver TC TX TH} `{RB : RingLib R V}.
Context `{IX_ : !StateIndex IX (EvolvingEntity (V:=V) (CO:=CO) (P:=P) (B:=B)) SID V}
        `{IXL : !StateIndexLaws IX (EvolvingEntity (V:=V) (CO:=CO) (P:=P) (B:=B)) SID V}.

Local Notation Ent := (EvolvingEntity (V:=V) (CO:=CO) (P:=P) (B:=B)).
Local Notation Exec := (Executor (PR:=PR) (V:=V) (CO:=CO) (SO:=SO) (P:=P) (B:=B) (TH:=TH) (E:=E) (IX:=IX)
  (Book:=Book) (L:=L) (RIR:=RIR) (SIR:=SIR) (R:=R)).
Implicit Types (e : Exec) (x : Ent) (pr : PR).

(** ** States of one chain *)

(** The entity a version belongs to, and whether an identity is an order's. *)
Context (owner : V -> bytes) (is_order : bytes -> bool).

Definition entity_order (x : Entity (V:=V) (CO:=CO) (P:=P)) : bool := match x with inl _ => true | inr _ => false end.

Definition genuine x : Prop :=
  owner (version x) = id_bytes (stable_id x) /\ is_order (id_bytes (stable_id x)) = entity_order (bundled x).

Definition ior_all {A} (Q : A -> Prop) (i : Ior A A) : Prop :=
  match i with IorLeft a => Q a | IorRight b => Q b | IorBoth a b => Q a /\ Q b end.

Definition genuine_transition (t : Transition Ent) : Prop :=
  match t with Forward i | Backward i => ior_all genuine i end.

Definition genuine_event (ev : PR * Event (SO:=SO) (V:=V) (CO:=CO) (P:=P) (B:=B)) : Prop :=
  match ev.2 with LiquidityEvent c => genuine_transition (erased c) | BacklogEvent _ => True end.

Definition genuine_eff (eff : ExecutionEff Ent Ent) : Prop :=
  match eff with EffUpdated k u => genuine k /\ genuine u | EffEliminated k => genuine k end.

Definition genuine_execution (x : ExecutionEffects (SO:=SO) (V:=V) (CO:=CO) (P:=P) (B:=B)) : Prop :=
  match x with
  | FromLiquidityBook effs => Forall genuine_eff effs
  | FromBacklog pool _ => genuine (bundled_pool pool)
  end.

Definition genuine_index (ix : IX) : Prop := forall q a x, slots ix q a = Some x -> genuine x.

(** Both ends of a transition of the book are orders, or both are pools. *)
Definition one_kind (tr : Ior (Entity (V:=V) (CO:=CO) (P:=P)) Entity) : Prop :=
  match tr with IorBoth a b => entity_order a = entity_order b | _ => True end.

Lemma resolve_genuine ix id x : index_ok ix -> genuine_index ix -> resolve_state id ix = Some x ->
  genuine x /\ id_bytes (stable_id x) = id_bytes id /\ exists q, slots ix q (id_bytes id) = Some x.
Proof.
  intros Hok Hg. rewrite resolve_freshest. unfold freshest. intros [l El]%head_Some.
  assert (x ∈ omap (fun q => slots ix q (id_bytes id))
    [LAST_PREDICTED_PREFIX; LAST_UNCONFIRMED_PREFIX; FALLBACK_PREFIX; LAST_CONFIRMED_PREFIX]) as Hx
    by (rewrite El; left).
  apply list_elem_of_omap in Hx as (q & _ & Hq). split; [by eapply Hg|].
  split; [by eapply slots_id|by exists q].
Qed.

Lemma transition_kind ix ix' id tr : index_ok ix -> genuine_index ix -> index_ok ix' -> genuine_index ix' ->
  to_transition (resolve_state id ix) (resolve_state id ix') = Some tr -> one_kind tr.
Proof.
  intros H1 H2 H3 H4. unfold to_transition.
  destruct (resolve_state id ix) as [x|] eqn:Ex, (resolve_state id ix') as [y|] eqn:Ey; intros [= <-]; try done.
  apply resolve_genuine in Ex as ([_ Kx] & Ix & _); [|done..].
  apply resolve_genuine in Ey as ([_ Ky] & Iy & _); [|done..]. cbn. congruence.
Qed.

Lemma genuine_owns ix x : genuine_index ix -> index_ok ix -> genuine x -> owns (slots ix) x.
Proof.
  intros Hg Hok [Hx _] q a y Hy Hv. rewrite <- Hx, <- Hv. destruct (Hg _ _ _ Hy) as [-> _]. symmetry.
  by eapply slots_id.
Qed.

(** Operations of the index keep it genuine. *)
Definition sound_index (ix : IX) : Prop := index_ok ix /\ genuine_index ix.

Lemma put_sound ix x : sound_index ix -> genuine x ->
  sound_index (put_confirmed ix x) /\ sound_index (put_unconfirmed ix x) /\
  sound_index (put_predicted ix x) /\ sound_index (put_fallback ix x).
Proof.
  intros [Hok Hg] Hx. destruct (put_slots ix x Hok (genuine_owns ix x Hg Hok Hx)) as (P1 & P2 & P3 & P4).
  assert (forall p ix', (index_ok ix' /\ forall q a, slots ix' q a = put_slot (slots ix) p x q a) -> sound_index ix') as Hs.
  { intros p ix' [Hok' Es]. split; [done|]. intros q a y. rewrite Es. unfold put_slot.
    repeat case_bool_decide; [by intros [= <-]| |by apply Hg].
    intros (z & Hz & ->)%fmap_Some. case_bool_decide; [done|by eapply Hg]. }
  eauto 10.
Qed.

Lemma invalidate_sound ix v : sound_index ix -> sound_index (invalidate_version ix v).1.
Proof.
  intros [Hok Hg]. destruct (invalidate_slots ix v Hok) as (Hok' & Es & _). split; [done|].
  intros q a x. rewrite Es. unfold invalidate_slot. intros (y & Hy & Hc)%bind_Some.
  destruct (_ && _); simplify_eq. by eapply Hg.
Qed.

Lemma eliminate_sound ix sid : sound_index ix -> sound_index (eliminate ix sid).
Proof.
  intros [Hok Hg]. destruct (eliminate_slots ix sid Hok) as [Hok' Es]. split; [done|].
  intros q a x. rewrite Es. unfold eliminate_slot. case_bool_decide; [done|]. apply Hg.
Qed.

(** ** The invariant of a poll *)

(** Every book is settled but the given one; nothing is pending. *)
Record calm (busy : option PR) e : Prop := {
  c_index : sound_index (ex_index e);
  c_books : forall pr b, multi_book e !! pr = Some b -> busy <> Some pr -> settled b;
  c_busy : forall pr, busy = Some pr -> exists b0 b, multi_book e !! pr = Some b /\ settled b0 /\ tentative b0 b;
  c_pending : pending_effects e = None;
  c_events : Forall genuine_event (upstream e);
}.

(** What handlers leave alone. *)
Definition same_env e e' : Prop :=
  upstream e' = upstream e /\ funding_events e' = funding_events e /\ feedback e' = feedback e /\
  blocker e' = blocker e /\ state_synced e' = state_synced e /\ rollback_in_progress e' = rollback_in_progress e.

#[local] Instance same_env_preorder : PreOrder same_env.
Proof.
  split; [by intros e|]. intros a b c (?&?&?&?&?&?) (?&?&?&?&?&?). repeat split; congruence.
Qed.

Definition calms e (r : outcome EngineFault Exec) : Prop := returns r (fun e' => calm None e' /\ same_env e e').

Lemma calms_bind e r k : calms e r -> (forall e', calm None e' -> same_env e e' -> calms e' (k e')) ->
  calms e (r ≫= k).
Proof.
  intros Hr Hk. eapply returns_bind; [exact Hr|]. intros e' [Hc Hs].
  eapply returns_impl; [by apply Hk|]. intros e'' [Hc' Hs']. split; [done|by etrans].
Qed.

Lemma calm_set_index e ix : calm None e -> sound_index ix -> calm None (set_index ix e).
Proof. destruct e. intros [] ?. by split. Qed.

Lemma calm_set_skip e f : calm None e -> calm None (set_skip f e).
Proof. destruct e. intros []. by split. Qed.

(** Every handler that replaces a field keeps the others. *)
Ltac field := by (intros; repeat match goal with e : Exec |- _ => destruct e end; cbn in *; repeat split).

Lemma on_book_calms e pr f : calm None e -> (forall b, settled b -> exists b', f b = Ok b' /\ settled b') ->
  returns (on_book e pr f) (fun e' => calm None e' /\ same_env e e' /\ ex_index e' = ex_index e /\ focus_set e' = focus_set e).
Proof.
  intros [Hi Hb _ Hp He] Hf. unfold on_book, multi_get_mut.
  assert (forall b m, settled b -> (forall pr' b', m !! pr' = Some b' -> settled b') ->
    returns (b' ← expect (f b); Ok (set_books (<[pr:=b']> m) e) : outcome EngineFault Exec)
      (fun e' => calm None e' /\ same_env e e' /\ ex_index e' = ex_index e /\ focus_set e' = focus_set e)) as Hgo.
  { intros b m Hs Hm. destruct (Hf b Hs) as (b' & -> & Hb'). apply returns_ok.
    split; [|destruct e; by repeat split]. split; [by destruct e| |done|by destruct e..].
    intros pr' b0. destruct e; cbn. intros [[<- <-]|[Hne Hl]]%lookup_insert_Some _; [done|by eapply Hm]. }
  destruct (multi_book e !! pr) as [b|] eqn:El; apply Hgo.
  - by apply (Hb pr).
  - intros pr' b' Hl. by apply (Hb pr').
  - apply settled_make.
  - intros pr' b' [[<- <-]|[Hne Hl]]%lookup_insert_Some; [apply settled_make|by apply (Hb pr')].
Qed.

(** The feedback settles the busy book. *)
Lemma settle_calms e pr (f : Book -> Book) : calm (Some pr) e ->
  (forall b0 b, settled b0 -> tentative b0 b -> settled (f b)) ->
  returns (on_book e pr (fun b => Ok (f b)))
    (fun e' => calm None e' /\ same_env e e' /\ ex_index e' = ex_index e /\ focus_set e' = focus_set e).
Proof.
  intros [Hi Hb Hbusy Hp He] Hf. destruct (Hbusy pr eq_refl) as (b0 & b & El & H0 & Hbt).
  unfold on_book, multi_get_mut. rewrite El. apply returns_ok.
  split; [|destruct e; by repeat split]. split; [by destruct e| |done|by destruct e..].
  intros pr' b'. destruct e; cbn in *. intros [[<- <-]|[Hne Hl]]%lookup_insert_Some _; [by eapply Hf|].
  eapply Hb; [exact Hl|]. congruence.
Qed.

Lemma settle_succeeded e pr : calm (Some pr) e ->
  returns (on_book e pr (fun b => Ok (book_on_recipe_succeeded b)))
    (fun e' => calm None e' /\ same_env e e' /\ ex_index e' = ex_index e /\ focus_set e' = focus_set e).
Proof. intros Hc. apply settle_calms; [done|]. apply tentative_succeeded. Qed.

Lemma settle_failed e pr : calm (Some pr) e ->
  returns (on_book e pr (fun b => Ok (book_on_recipe_failed b)))
    (fun e' => calm None e' /\ same_env e e' /\ ex_index e' = ex_index e /\ focus_set e' = focus_set e).
Proof. intros Hc. apply settle_calms; [done|]. intros b0 b H0 Hb. by rewrite (tentative_failed b0 b). Qed.

(** ** Handlers *)

Definition book_returns e (r : outcome EngineFault Exec) : Prop :=
  returns r (fun e' => calm None e' /\ same_env e e' /\ ex_index e' = ex_index e /\ focus_set e' = focus_set e).

Lemma book_bind e r k : book_returns e r ->
  (forall e', calm None e' -> book_returns e' (k e')) -> book_returns e (r ≫= k).
Proof.
  intros Hr Hk. eapply returns_bind; [exact Hr|]. intros e' (Hc & Hs & Hi & Hf).
  eapply returns_impl; [by apply Hk|]. intros e'' (Hc' & Hs' & Hi' & Hf').
  split; [done|]. split; [by etrans|]. split; congruence.
Qed.

Lemma book_calms e r : book_returns e r -> calms e r.
Proof. intros Hr. eapply returns_impl; [exact Hr|]. naive_solver. Qed.

Lemma sync_book_calms e pr tr : calm None e -> one_kind tr -> book_returns e (sync_book e pr tr).
Proof.
  intros Hc Hk. destruct tr as [[o|p]|[o|p]|[o|p] [o'|p']]; cbn in *; try done;
    try (by apply on_book_calms; [done|]; eauto using settled_remove_taker, settled_remove_maker,
           settled_update_taker, settled_update_maker).
  apply book_bind; [by apply on_book_calms; [done|]; eauto using settled_remove_taker|].
  intros e' Hc'. by apply on_book_calms; [done|]; eauto using settled_update_taker.
Qed.

Lemma remove_takers_calms pr l : forall e, calm None e -> book_returns e (remove_takers e pr l).
Proof.
  induction l as [|o l IH]; intros e Hc; cbn; [by apply returns_ok|].
  apply book_bind; [apply on_book_calms; [done|]; eauto using settled_remove_taker|].
  intros e' Hc'. by apply IH.
Qed.

Lemma remove_orphans_calms pr l : forall e, calm None e -> book_returns e (remove_orphans e pr l).
Proof.
  induction l as [|[o|p] l IH]; intros e Hc; cbn; [by apply returns_ok|..];
    (apply book_bind; [apply on_book_calms; [done|]; eauto using settled_remove_taker, settled_remove_maker|]);
    intros e' Hc'; by apply IH.
Qed.

Lemma update_new_calms e c x : calm None e -> genuine x -> 
  let '(e', tr) := update_new_state e c x in
  calm None e' /\ same_env e e' /\ match tr with Some tr => one_kind tr | None => True end.
Proof.
  intros Hc Hx. pose proof (c_index _ _ Hc) as Hi. unfold update_new_state. cbv zeta.
  destruct (filter_contains (skip_filter e) (version x) && _) eqn:Esk.
  - split; [|split; [by destruct e|done]]. apply calm_set_index; [done|].
    destruct (put_sound _ _ Hi Hx) as (? & ? & ? & ?). by destruct c.
  - set (e1 := if filter_contains (skip_filter e) (version x) then _ else e).
    assert (calm None e1 /\ same_env e e1 /\ ex_index e1 = ex_index e) as (Hc1 & Hs1 & Ei).
    { unfold e1. destruct (filter_contains _ _); [|done].
      split; [by apply calm_set_skip|by destruct e]. }
    rewrite Ei. set (ix := match _ with Some v => _ | None => _ end).
    assert (sound_index ix) as Hix by (unfold ix; repeat case_match; try done; by apply invalidate_sound).
    set (ix' := match c with Ledger _ => put_confirmed ix x | _ => _ end).
    assert (sound_index ix') as Hix'.
    { destruct (put_sound _ _ Hix Hx) as (? & ? & ? & ?). unfold ix'. by destruct c. }
    split; [by apply calm_set_index|]. split; [etrans; [exact Hs1|by destruct e1]|].
    destruct (to_transition _ _) as [tr|] eqn:Et; [|done].
    destruct Hi, Hix'. by eapply transition_kind in Et.
Qed.

Lemma update_ended_calms e c x : calm None e ->  genuine x ->
  let '(e', tr) := update_ended e c x in
  calm None e' /\ same_env e e' /\ match tr with Some tr => one_kind tr | None => True end.
Proof.
  intros Hc Hx. pose proof (c_index _ _ Hc) as Hi. unfold update_ended. cbv zeta.
  assert (forall ix, sound_index ix -> calm None (set_index ix e) /\ same_env e (set_index ix e)) as Hset
    by (intros ix Hix; split; [by apply calm_set_index|by destruct e]).
  destruct (put_sound _ _ Hi Hx) as (_ & _ & _ & Hf). pose proof (invalidate_sound _ (version x) Hi) as Hv.
  pose proof (eliminate_sound _ (stable_id x) Hi) as He.
  destruct c, (is_quasi_permanent x); try (by destruct (Hset _ Hf)); try (by destruct (Hset _ He)); try done.
  destruct (Hset _ Hv) as [H1 H2]. split; [done|]. split; [done|].
  case_bool_decide; [done|]. destruct (to_transition _ _) as [tr|] eqn:Et; [|done].
  destruct Hi, Hv. by eapply transition_kind in Et.
Qed.

Lemma update_state_calms e c : calm None e -> genuine_transition (erased c) ->
  let '(e', tr) := update_state e c in
  calm None e' /\ same_env e e' /\ match tr with Some tr => one_kind tr | None => True end.
Proof.
  intros Hc Hg. unfold update_state.
  destruct (erased c) as [[x|x|y x]|[x|x|y x]]; cbn in Hg;
    first [by apply update_ended_calms|apply update_new_calms; [done|by try apply Hg]].
Qed.

(** Updating the state and then the book. *)
Lemma update_sync_calms e c pr : calm None e -> genuine_transition (erased c) ->
  calms e (let '(e', tr) := update_state e c in match tr with Some tr => sync_book e' pr tr | None => Ok e' end).
Proof.
  intros Hc Hg. pose proof (update_state_calms e c Hc Hg) as Hu. destruct (update_state e c) as [e' [tr|]].
  - destruct Hu as (Hc' & Hs & Hk). eapply returns_impl; [by apply sync_book_calms|].
    intros e'' (? & ? & _). split; [done|by etrans].
  - apply returns_ok. naive_solver.
Qed.

Lemma calm_processed e v : calm None e -> calm None (on_entity_processed e v) /\ same_env e (on_entity_processed e v).
Proof. intros Hc. split; [by apply calm_set_skip|by destruct e]. Qed.

Lemma apply_effect_calms pr e eff : calm None e -> genuine_eff eff -> calms e (apply_effect pr e eff).
Proof.
  intros Hc Hg. unfold apply_effect. destruct eff as [k u|k];
    destruct (calm_processed e (version k) Hc) as [Hc' Hs];
    (eapply returns_impl; [by apply update_sync_calms|]); intros e' [? ?]; (split; [done|by etrans]).
Qed.

Lemma apply_effects_calms pr effs : forall e, calm None e -> Forall genuine_eff effs -> calms e (apply_effects pr e effs).
Proof.
  induction effs as [|eff effs IH]; intros e Hc Hg; cbn; [by apply returns_ok|].
  apply Forall_cons in Hg as [Hg Hgs]. apply calms_bind; [by apply apply_effect_calms|].
  intros e' Hc' _. by apply IH.
Qed.

Lemma on_pair_event_calms e pr ev : calm None e -> genuine_event (pr, ev) -> calms e (on_pair_event e pr ev).
Proof.
  intros Hc Hg. unfold on_pair_event. apply calms_bind.
  - destruct ev as [c|c]; [by apply update_sync_calms|]. apply returns_ok. unfold sync_backlog, on_backlog.
    destruct Hc, e. by repeat case_match; (split; [split|]).
  - intros e' Hc' _. apply returns_ok. destruct Hc', e'. by split; [split|].
Qed.

(** ** Feedback *)

Definition known e (v : V) : Prop := is_Some (get_state (ex_index e) v).

Lemma known_slot ix v : index_ok ix -> is_Some (get_state ix v) <-> exists q a x, slots ix q a = Some x /\ version x = v.
Proof.
  intros Hok. split.
  - intros [x Hx]. apply get_state_slots in Hx as [Hv (q & a & Hs)]; [|done]. naive_solver.
  - intros (q & a & x & Hs & Hv). exists x. apply get_state_slots; [done|]. naive_solver.
Qed.

(** Dropping a version leaves the others known. *)
Lemma invalidate_known ix v w : index_ok ix -> w <> v -> is_Some (get_state ix w) ->
  is_Some (get_state (invalidate_version ix v).1 w).
Proof.
  intros Hok Hne Hw. destruct (invalidate_slots ix v Hok) as (Hok' & Es & _).
  apply known_slot in Hw as (q & a & x & Hs & Hv); [|done]. apply known_slot; [done|].
  exists q, a, x. split; [|done]. rewrite Es. unfold invalidate_slot. rewrite Hs. cbn [mbind option_bind].
  by rewrite bool_decide_false by congruence.
Qed.

Lemma invalidate_loop_calms pr vs : forall e missing, calm None e ->
  returns (invalidate_loop e pr vs missing) (fun r => calm None r.1 /\ same_env e r.1 /\
    ((forall v, v ∈ vs -> known e v) -> NoDup vs -> r.2 = missing)).
Proof.
  induction vs as [|v vs IH]; intros e missing Hc; cbn; [by apply returns_ok|].
  unfold invalidate_one. destruct (get_state (ex_index e) v) as [st|] eqn:Est.
  - set (ix := (invalidate_version (ex_index e) v).1). pose proof (c_index _ _ Hc) as Hi.
    assert (sound_index ix) as Hix by by apply invalidate_sound.
    assert (calm None (set_index ix e)) as Hc1 by by apply calm_set_index.
    assert (book_returns (set_index ix e)
      (match to_transition (resolve_state (stable_id st) (ex_index e)) (resolve_state (stable_id st) ix) with
       | Some tr => sync_book (set_index ix e) pr tr | None => Ok (set_index ix e) end)) as Hb.
    { destruct (to_transition _ _) as [tr|] eqn:Et; [|by apply returns_ok].
      apply sync_book_calms; [done|]. destruct Hi, Hix. by eapply transition_kind in Et. }
    eapply returns_bind; [exact Hb|]. intros e' (Hc' & Hs' & Ei' & _).
    eapply returns_impl; [by apply IH|]. intros [e'' m] (Hc'' & Hs'' & Hm). cbn in *.
    split; [done|]. split; [etrans; [|exact Hs'']; etrans; [|exact Hs']; by destruct e|].
    intros Hk Hn. apply NoDup_cons in Hn as [Hv Hn]. apply Hm; [|done].
    intros w Hw. unfold known. rewrite Ei'. replace (ex_index (set_index ix e)) with ix by by destruct e.
    apply invalidate_known; [apply Hi|by intros ->|]. apply Hk. by right.
  - eapply returns_impl; [by apply IH|]. intros [e' m] (Hc' & Hs' & Hm). cbn in *. split; [done|]. split; [done|].
    intros Hk _. destruct (Hk v) as [st Hst]; [left|]. congruence.
Qed.

Lemma set_iter_spec (s : gset V) : NoDup (set_iter s) /\ forall v, v ∈ set_iter s <-> v ∈ s.
Proof.
  unfold set_iter. split; [apply hash_iter_nodup|]. intros v. rewrite list_elem_of_fmap. split.
  - intros ([w u] & -> & Hw%hash_iter_lookup). by apply lookup_gset_to_gmap_Some in Hw as [? _].
  - intros Hv. exists (v, ()). split; [done|]. apply hash_iter_lookup. by apply lookup_gset_to_gmap_Some.
Qed.

(** The pair whose book awaits the feedback. *)
Definition busy_pair (eff : Effects (PR:=PR) (V:=V) (CO:=CO) (SO:=SO) (P:=P) (B:=B) (TH:=TH)) : option PR :=
  match execution eff with FromLiquidityBook _ => Some (eff_pair eff) | FromBacklog _ _ => None end.

Record pending_ok e (eff : Effects (PR:=PR) (V:=V) (CO:=CO) (SO:=SO) (P:=P) (B:=B) (TH:=TH)) : Prop := {
  po_calm : calm (busy_pair eff) (set_pending None e);
  po_genuine : genuine_execution (execution eff);
  po_known : is_Some (busy_pair eff) -> forall v, v ∈ consumed_versions eff -> known e v;
}.

Lemma success_calms e eff : pending_ok e eff -> calms (set_pending None e) (on_execution_effects_success (set_pending None e) eff).
Proof.
  intros [Hc Hg _]. unfold on_execution_effects_success, busy_pair in *. destruct (execution eff) as [effs|pool ord].
  - eapply returns_bind; [by apply settle_succeeded|].
    intros e' (Hc' & Hs & _). eapply returns_impl; [apply apply_effects_calms; [done|]|].
    + by apply Forall_reverse.
    + intros e'' [? ?]. split; [done|by etrans].
  - apply returns_ok. destruct (calm_processed _ (self_ref (bundled ord)) Hc) as [Hc' Hs].
    pose proof (update_state_calms _ (LocalTxSubmit (Forward (IorRight (bundled_pool pool)))) Hc' Hg) as Hu.
    destruct (update_state _ _) as [e' tr]. destruct Hu as (? & ? & _). split; [done|by etrans].
Qed.

Lemma on_backlog_calm e pr f : calm None e -> calm None (on_backlog e pr f) /\ same_env e (on_backlog e pr f).
Proof. intros []. destruct e. unfold on_backlog. by case_match; (split; [split|]). Qed.

Lemma failure_calms e err eff : pending_ok e eff ->
  calms (set_pending None e) (on_execution_effects_failure (set_pending None e) err eff).
Proof.
  intros [Hc _ Hk]. unfold on_execution_effects_failure, busy_pair in *.
  set (e0 := set_pending None e) in *. assert (ex_index e0 = ex_index e) as Ei0 by by destruct e.
  destruct (missing_inputs err) as [missing|].
  - destruct (execution eff) as [effs|pool ord].
    + rewrite <- bind_assoc_outcome.
      eapply returns_bind; [by apply settle_failed|].
      intros e1 (Hc1 & Hs1 & Ei1 & _). cbn. unfold invalidate_versions.
      eapply returns_bind; [by apply invalidate_loop_calms|]. intros [e2 unknown] (Hc2 & Hs2 & Hm). cbn in *.
      destruct (set_iter_spec (missing ∩ consumed_versions eff)) as [Hn Hin].
      rewrite Hm; [|intros v [_ Hv]%Hin%elem_of_intersection|done].
      * apply returns_ok. split; [done|by etrans].
      * unfold known. rewrite Ei1, Ei0. by apply Hk.
    + cbn. assert (calm None (if bool_decide (self_ref (bundled ord) ∈ missing)
        then on_backlog e0 (eff_pair eff) (fun l => backlog_soft_evict l (self_ref (bundled ord)))
        else on_backlog e0 (eff_pair eff) (fun l => backlog_put l ord)) /\ same_env e0 (if bool_decide (self_ref (bundled ord) ∈ missing)
        then on_backlog e0 (eff_pair eff) (fun l => backlog_soft_evict l (self_ref (bundled ord)))
        else on_backlog e0 (eff_pair eff) (fun l => backlog_put l ord))) as [Hc1 Hs1]
        by (case_bool_decide; by apply on_backlog_calm).
      eapply returns_bind; [by apply invalidate_loop_calms|]. intros [e2 unknown] (Hc2 & Hs2 & _). cbn in *.
      destruct unknown; apply returns_ok; (split; [done|by etrans]).
  - destruct (execution eff) as [effs|pool ord].
    + eapply returns_bind; [by apply settle_failed|].
      intros e1 (Hc1 & Hs1 & _). eapply returns_impl; [by apply remove_takers_calms|].
      intros e2 (? & ? & _). split; [done|by etrans].
    + apply returns_ok. by apply on_backlog_calm.
Qed.

(** ** Matchmaking *)

(** The interpreters return states of the chain. *)
Definition interpreters_ok : Prop :=
  (forall rir recipe (f : B), Forall genuine_eff (trade_run (V:=V) (P:=P) (TC:=TC) rir recipe f).2.1.2) /\
  (forall sir pool (ord : Bundled SO B) sir' txc pool' ord',
     spec_try_run (V:=V) (TC:=TC) sir pool ord = (sir', Some (txc, pool', ord')) -> genuine (bundled_pool pool')).

Lemma link_loop_consumed (link : SID -> option (V * B)) (l : list (Instruction CO P)) :
  forall consumed translated orphans consumed' translated' orphans',
  link_loop link l consumed translated orphans = (consumed', translated', orphans') ->
  (forall v, v ∈ consumed -> exists id b, link id = Some (v, b)) ->
  forall v, v ∈ consumed' -> exists id b, link id = Some (v, b).
Proof.
  induction l as [|i l IH]; intros * ; cbn; [by intros [= <- <- <-]|].
  destruct (link_step link i) as [[ver x]|o] eqn:Es; intros El Hc; [|by eapply IH].
  eapply IH; [exact El|]. intros v [Hv| ->%list_elem_of_singleton]%elem_of_app; [by apply Hc|].
  unfold link_step in Es. destruct i as [t|m];
    [destruct (link (stable_id (target t))) as [[v b]|] eqn:E1|destruct (link (stable_id (target m))) as [[v b]|] eqn:E1];
    simplify_eq; eauto.
Qed.

Lemma recipe_link_known e (recipe : list (Instruction CO P)) linked consumed : sound_index (ex_index e) ->
  recipe_link recipe (link_bearer (ex_index e)) = inl (linked, consumed) -> forall v, v ∈ consumed -> known e v.
Proof.
  intros [Hok Hg] El v. unfold recipe_link in El.
  destruct (link_loop _ _ _ _ _) as [[cs ts] os] eqn:E1. destruct os; [|done]. injection El as <- <-.
  intros Hv%elem_of_list_to_set. eapply link_loop_consumed in E1 as (id & b & Eb);
    [| |exact Hv]; [|by intros w ?%elem_of_nil].
  unfold link_bearer in Eb. apply fmap_Some in Eb as (x & Hx & [= -> ->]).
  apply resolve_genuine in Hx as (_ & _ & q & Hq); [|done..]. apply known_slot; [done|]. by exists q, (id_bytes id), x.
Qed.

(** Between polls: calm, or waiting for the feedback of what is pending. *)
Definition after_poll (tx : option TX) e : Prop :=
  match tx with
  | None => calm None e
  | Some _ => exists eff, pending_effects e = Some eff /\ pending_ok e eff
  end.

Lemma calm_same busy e e' : calm busy e -> ex_index e' = ex_index e -> multi_book e' = multi_book e ->
  pending_effects e' = pending_effects e \/ pending_effects e' = None -> upstream e' = upstream e -> calm busy e'.
Proof.
  intros [H1 H2 H2' H3 H4] E1 E2 E3 E4.
  split; [by rewrite E1|by rewrite E2|by rewrite E2|by destruct E3 as [-> | ->]|by rewrite E4].
Qed.

Definition focus_kept (tx : option TX) e e' : Prop := tx = None -> focus_set e' = focus_set e.

Lemma execute_recipe_calms e pr recipe : interpreters_ok -> calm (Some pr) e ->
  returns (execute_recipe (TX:=TX) e pr recipe)
    (fun r => after_poll r.1 r.2 /\ same_env e r.2 /\ focus_kept r.1 e r.2).
Proof.
  intros [Htr _] Hc. unfold execute_recipe.
  destruct (recipe_link recipe _) as [[linked consumed]|orphans] eqn:El.
  - destruct (pop_preferred_funding _ _) as [[f|] pool].
    + pose proof (Htr (trade_interpreter e) linked f) as Hf.
      destruct (trade_run _ _ _) as [rir [[txc effs] fio]]. cbn in Hf.
      destruct (into_effects fio) as [unused feffs]. apply returns_ok. cbn.
      split; [|destruct e; by repeat split].
      eexists. split; [by destruct e|]. split.
      * cbn. eapply calm_same; [exact Hc|..]; destruct e; by auto.
      * done.
      * intros _ v Hv. unfold known. replace (ex_index _) with (ex_index e) by by destruct e.
        eapply recipe_link_known; [by apply Hc|exact El|done].
    + assert (calm (Some pr) (set_pool pool e)) as Hc' by (eapply calm_same; [exact Hc|..]; destruct e; by auto).
      eapply returns_bind; [by apply settle_failed|].
      intros e' (Hc'' & Hs & _ & Hf). apply returns_ok. split; [done|]. split; [etrans; [|exact Hs]; by destruct e|].
      intros _. cbn. rewrite Hf. by destruct e.
  - unfold on_linkage_failure.
    eapply (returns_bind _ _ (fun e' => calm None e' /\ same_env e e' /\ focus_set e' = focus_set e)).
    + eapply returns_bind; [by apply settle_failed|]. intros e' (Hc' & Hs & _ & Hf).
      eapply returns_impl; [by apply remove_orphans_calms|]. intros e'' (? & ? & _ & Hf').
      split; [done|]. split; [by etrans|congruence].
    + intros e' (? & ? & ?). apply returns_ok. split; [done|]. split; [done|]. by intros _.
Qed.

(** An attempt that does not return is the only way to fail. *)
Definition returns_or_fault {A} (r : outcome EngineFault A) (Q : A -> Prop) : Prop :=
  r = Err BookFault \/ returns r Q.

Lemma try_book_calms e pr : interpreters_ok -> calm None e ->
  returns_or_fault (try_book (TX:=TX) e pr)
    (fun r => after_poll r.1 r.2 /\ same_env e r.2 /\ focus_kept r.1 e r.2).
Proof.
  intros Hint Hc. unfold try_book.
  assert (settled (multi_get_mut book_make (multi_book e) pr).1 /\
    forall pr' b, (multi_get_mut book_make (multi_book e) pr).2 !! pr' = Some b -> settled b) as [Hb Hm].
  { unfold multi_get_mut. destruct (multi_book e !! pr) as [b|] eqn:Eb.
    - split; [by apply (c_books _ _ Hc pr)|]. intros pr' b' Hl. by apply (c_books _ _ Hc pr').
    - split; [apply settled_make|]. cbn. intros pr' b' [[<- <-]|[_ Hl]]%lookup_insert_Some; [apply settled_make|].
      by apply (c_books _ _ Hc pr'). }
  destruct (multi_get_mut book_make (multi_book e) pr) as [b m]. cbn in Hb, Hm.
  destruct (book_attempt b) as [[[recipe|] b']| |] eqn:Ea; [..|by left|by left]; right.
  - assert (calm (Some pr) (set_books (<[pr:=b']> m) e)) as Hc'.
    { destruct Hc, e. split; cbn in *; try done.
      - intros pr' b0 [[<- <-]|[_ Hl]]%lookup_insert_Some Hne; [done|]. by eapply Hm.
      - intros pr' [= <-]. exists b, b'. rewrite lookup_insert_eq. split; [done|]. split; [done|].
        by eapply attempt_some. }
    eapply returns_impl; [by apply execute_recipe_calms|]. intros [tx e'] (? & ? & Hf). split; [done|].
    split; [etrans; [|done]; by destruct e|]. intros Hn. rewrite (Hf Hn). by destruct e.
  - apply returns_ok. split; [|by destruct e; repeat split]. destruct Hc, e. split; cbn in *; try done.
    intros pr' b0 [[<- <-]|[_ Hl]]%lookup_insert_Some _; [|by eapply Hm].
    by rewrite (attempt_none b b').
Qed.

Lemma try_backlog_calms e pr : interpreters_ok -> calm None e ->
  after_poll (try_backlog (TX:=TX) e pr).1 (try_backlog e pr).2 /\ same_env e (try_backlog (TX:=TX) e pr).2 /\
  focus_kept (try_backlog (TX:=TX) e pr).1 e (try_backlog (TX:=TX) e pr).2.
Proof.
  intros [_ Hsp] Hc. unfold try_backlog.
  destruct (multi_get_mut backlog_make (multi_backlog e) pr) as [l m].
  destruct (backlog_try_pop l) as [popped l']. set (e1 := set_backlogs _ e).
  assert (calm None e1) as Hc1 by (eapply calm_same; [exact Hc|..]; destruct e; by auto).
  assert (same_env e e1 /\ focus_set e1 = focus_set e) as [Hs1 Hf1] by by destruct e.
  assert (focus_kept None e e1) as Hk1 by by intros _.
  destruct popped as [ord|]; [|done].
  destruct (resolve_state _ _) as [[[o|pool] bear]|]; [done| |done].
  destruct (spec_try_run _ _ _) as [sir [[[txc pool'] ord']|]] eqn:Er; cbn.
  - apply Hsp in Er. split; [|split; [etrans; [exact Hs1|]; by destruct e1|done]].
    eexists. split; [by destruct e1|]. split; cbn.
    + eapply calm_same; [exact Hc1|..]; destruct e1; by auto.
    + done.
    + by intros [? ?].
  - split; [|split; [etrans; [exact Hs1|]; by destruct e1|intros _; rewrite <- Hf1; by destruct e1]].
    eapply calm_same; [exact Hc1|..]; destruct e1; by auto.
Qed.

Lemma matchmake_calms fuel : interpreters_ok -> forall e, calm None e -> length (focus_queue (focus_set e)) <= fuel ->
  returns_or_fault (matchmake (TX:=TX) fuel e) (fun r => after_poll r.1 r.2 /\ same_env e r.2).
Proof.
  intros Hint. induction fuel as [|fuel IH]; intros e Hc Hl; cbn [matchmake]; unfold focus_pop_front;
    destruct (focus_queue (focus_set e)) as [|pr q] eqn:Eq; cbn in Hl; try lia; try (right; by apply returns_ok).
  set (e1 := set_focus _ e). assert (calm None e1) as Hc1 by (eapply calm_same; [exact Hc|..]; destruct e; by auto).
  assert (same_env e e1) as Hs1 by by destruct e.
  assert (length (focus_queue (focus_set e1)) <= fuel) as Hl1 by (unfold e1; destruct e; cbn in *; lia).
  destruct (try_book_calms e1 pr Hint Hc1) as [->|([tx e2] & -> & Hp & Hs2 & Hf2)]; [by left|]. cbn in Hp, Hs2, Hf2 |- *.
  destruct tx as [tx|]; [right; apply returns_ok; split; [done|by etrans]|].
  specialize (Hf2 eq_refl). destruct (try_backlog_calms e2 pr Hint Hp) as (Hp3 & Hs3 & Hf3).
  destruct (try_backlog e2 pr) as [[tx|] e3]; cbn in *.
  - right. apply returns_ok. split; [done|]. etrans; [|exact Hs3]. by etrans.
  - specialize (Hf3 eq_refl). destruct (IH e3) as [->|([r e4] & -> & ? & ?)]; [done|congruence|by left|].
    right. apply returns_ok. split; [done|]. cbn in *. etrans; [|done]. etrans; [|exact Hs3]. by etrans.
Qed.

(** ** Polls *)

(** What holds between polls. *)
Definition ready e : Prop :=
  match pending_effects e with
  | None => calm None e
  | Some eff => pending_ok e eff /\ feedback e <> []
  end.

(** The feedback is handled and nothing but its queue is consumed. *)
Lemma handle_feedback_calms e : ready e ->
  returns (handle_feedback e) (fun e' => calm None e' /\ upstream e' = upstream e /\
    funding_events e' = funding_events e /\ blocker e' = blocker e /\ state_synced e' = state_synced e /\
    rollback_in_progress e' = rollback_in_progress e).
Proof.
  unfold ready, handle_feedback. destruct (pending_effects e) as [eff|]; [|intros Hc; by apply returns_ok].
  intros [Hp Hf]. destruct (feedback e) as [|res rest]; [done|].
  assert (pending_ok (set_feedback rest e) eff) as Hp'.
  { destruct Hp as [Hc Hg Hk]. split; [|done|intros Hb v Hv; unfold known in *; specialize (Hk Hb v Hv); by destruct e].
    eapply calm_same; [exact Hc|..]; destruct e; by auto. }
  set (e0 := set_pending None (set_feedback rest e)).
  assert (upstream e0 = upstream e /\ funding_events e0 = funding_events e /\ blocker e0 = blocker e /\
    state_synced e0 = state_synced e /\ rollback_in_progress e0 = rollback_in_progress e) as He by by destruct e.
  assert (forall e1 pool, calm None e1 /\ same_env e0 e1 -> calm None (set_pool pool e1) /\
    upstream (set_pool pool e1) = upstream e /\ funding_events (set_pool pool e1) = funding_events e /\
    blocker (set_pool pool e1) = blocker e /\ state_synced (set_pool pool e1) = state_synced e /\
    rollback_in_progress (set_pool pool e1) = rollback_in_progress e) as Hpool.
  { intros e1 pool [Hc1 (?&?&?&?&?&?)]. split; [eapply calm_same; [exact Hc1|..]; destruct e1; by auto|].
    destruct e1; cbn in *. destruct He as (?&?&?&?&?). repeat split; congruence. }
  destruct res as [u|err]; (eapply returns_bind; [first [apply success_calms|apply failure_calms]; exact Hp'|]);
    intros e1 H1; apply returns_ok, Hpool, H1.
Qed.

(** How many more rounds the blockers cost. *)
Definition blocker_cost e : nat :=
  match blocker e with Some b => if resolved e b then 3 else 1 | None => 2 end.
Definition poll_cost e : nat := length (upstream e) + length (funding_events e) + blocker_cost e.

Lemma poll_returns fuel : interpreters_ok -> forall e, ready e -> poll_cost e <= fuel ->
  returns_or_fault (poll_next (TX:=TX) fuel e) (fun r => after_poll r.1 r.2).
Proof.
  intros Hint. induction fuel as [|fuel IH]; intros e Hr Hcost; [unfold poll_cost, blocker_cost in Hcost; repeat case_match; lia|].
  cbn [poll_next]. destruct (handle_feedback_calms e Hr) as (e1 & -> & Hc & Eu & Ef & Eb & Es & Er). cbn.
  assert (poll_cost e1 <= S fuel) as Hcost1.
  { unfold poll_cost, blocker_cost, resolved in *. by rewrite Eu, Ef, Eb, Es, Er. }
  clear Hcost Hr e Eu Ef Eb Es Er.
  assert (forall e', calm None e' -> ready e') as Hready by (intros e' H'; unfold ready; by rewrite (c_pending _ _ H')).
  destruct (upstream e1) as [|[pr ev] rest] eqn:Eu.
  - destruct (funding_events e1) as [|ev rest] eqn:Ef.
    + unfold poll_cost in Hcost1. rewrite Eu, Ef in Hcost1. cbn in Hcost1.
      assert (forall b, calm None (set_blocker b e1)) as Hset
        by (intros b; eapply calm_same; [exact Hc|..]; destruct e1; by auto).
      assert (forall b, poll_cost (set_blocker b e1) = blocker_cost (set_blocker b e1)) as Hpc
        by (intros b; unfold poll_cost; destruct e1; cbn in *; by subst).
      unfold blocker_cost in Hcost1. destruct (blocker e1) as [b|] eqn:Eb.
      * destruct (resolved e1 b) eqn:Erb; [|right; by apply returns_ok].
        apply IH; [by apply Hready, Hset|]. rewrite Hpc. unfold blocker_cost. destruct e1; cbn in *. lia.
      * destruct (negb (state_synced e1)) eqn:Esy.
        { apply IH; [by apply Hready, Hset|]. rewrite Hpc. unfold blocker_cost, resolved. destruct e1; cbn in *.
          apply negb_true_iff in Esy. rewrite Esy. lia. }
        destruct (rollback_in_progress e1) eqn:Erb.
        { apply IH; [by apply Hready, Hset|]. rewrite Hpc. unfold blocker_cost, resolved. destruct e1; cbn in *.
          rewrite Erb. cbn. lia. }
        destruct (matchmake_calms _ Hint e1 Hc (le_n _)) as [->|(r & -> & Hp & _)]; [by left|right; by apply returns_ok].
    + apply IH.
      * apply Hready. destruct ev; (eapply calm_same; [exact Hc|..]; destruct e1; by auto).
      * unfold poll_cost, blocker_cost, resolved in *. destruct ev, e1; cbn in *; subst; cbn in *; lia.
  - pose proof (c_events _ _ Hc) as He. rewrite Eu in He. apply Forall_cons in He as [Hev He].
    assert (calm None (set_upstream rest e1)) as Hc1.
    { destruct Hc, e1. split; cbn in *; try done. }
    destruct (on_pair_event_calms _ pr ev Hc1 Hev) as (e2 & -> & Hc2 & (Eu2 & Ef2 & _ & Eb2 & Es2 & Er2)).
    cbn. apply IH; [by apply Hready|]. unfold poll_cost, blocker_cost, resolved in *.
    rewrite Eu2, Ef2, Eb2, Es2, Er2. destruct e1; cbn in *. subst. cbn in *. lia.
Qed.

(** ** Runs *)

(** The life of an executor.  Events and beacons come at any time; the stream
    submits a transaction and sends its outcome back before it polls again. *)
Inductive Run : Exec -> Prop :=
| run_new ix rir sir : sound_index ix -> Run (executor_new ix rir sir)
| run_event e ev : Run e -> genuine_event ev -> Run (set_upstream (upstream e ++ [ev]) e)
| run_funding e ev : Run e -> Run (set_funding_events (funding_events e ++ [ev]) e)
| run_beacons e synced rollback : Run e -> Run (set_beacons synced rollback e)
| run_idle e fuel e' : Run e -> poll_next (TX:=TX) fuel e = Ok (None, e') -> Run e'
| run_submit e fuel tx e' outcome : Run e -> poll_next (TX:=TX) fuel e = Ok (Some tx, e') ->
    Run (set_feedback (feedback e' ++ [outcome]) e').

Lemma poll_fuel fuel : forall e r, poll_next (TX:=TX) fuel e = Ok r -> forall more, poll_next (fuel + more) e = Ok r.
Proof.
  induction fuel as [|fuel IH]; intros e r; cbn; [done|].
  destruct (handle_feedback e) as [e1| |]; cbn; try done.
  destruct (upstream e1) as [|[pr ev] rest].
  - destruct (funding_events e1); [|by apply IH].
    destruct (blocker e1) as [b|]; [by destruct (resolved e1 b); [apply IH|]|].
    by destruct (negb _); [apply IH|]; destruct (rollback_in_progress e1); [apply IH|].
  - destruct (on_pair_event _ _ _) as [e2| |]; cbn; try done. apply IH.
Qed.

Lemma ready_frame e e' : ready e -> ex_index e' = ex_index e -> multi_book e' = multi_book e ->
  pending_effects e' = pending_effects e -> Forall genuine_event (upstream e') ->
  (feedback e <> [] -> feedback e' <> []) -> ready e'.
Proof.
  unfold ready. intros Hr Ei Em Ep Hu Hf. rewrite Ep. destruct (pending_effects e) as [eff|] eqn:Epe.
  - destruct Hr as [[[C1 C2 C3 C4 C5] Hg Hk] Hfb]. split; [|by apply Hf]. split; [|done|].
    + replace (calm _ (set_pending None e')) with (calm (busy_pair eff) (set_pending None e')) by done.
      split; [destruct e, e'; cbn in *; congruence|..].
      * intros pr b. destruct e, e'; cbn in *; subst. by apply C2.
      * intros pr Hpr. destruct (C3 pr Hpr) as (b0 & b & ?). exists b0, b. destruct e, e'; cbn in *; by subst.
      * by destruct e'.
      * by destruct e'.
    + intros Hb v Hv. unfold known. rewrite Ei. by apply Hk.
  - destruct Hr as [C1 C2 C3 C4 C5]. split; [by rewrite Ei|by rewrite Em|by rewrite Em|done|done].
Qed.

Lemma ready_events e : ready e -> Forall genuine_event (upstream e).
Proof. unfold ready. destruct (pending_effects e); [intros [[[]] _]|intros []]; by destruct e. Qed.

Lemma run_ready e : interpreters_ok -> Run e -> ready e.
Proof.
  intros Hint. induction 1 as [ix rir sir Hix|e ev _ IH Hev|e ev _ IH|e sy rb _ IH|e fuel e' _ IH Ep|e fuel tx e' res _ IH Ep].
  - by split; cbn.
  - eapply ready_frame; [exact IH|by destruct e..| |by destruct e].
    pose proof (ready_events e IH). destruct e; cbn in *. apply Forall_app. split; [done|]. by constructor.
  - pose proof (ready_events e IH).
    eapply ready_frame; [exact IH|by destruct e..].
  - pose proof (ready_events e IH).
    eapply ready_frame; [exact IH|by destruct e..].
  - pose proof (poll_fuel _ _ _ Ep (poll_cost e)) as Ep'.
    destruct (poll_returns (fuel + poll_cost e) Hint e IH) as [E1|(r & E1 & Hp)]; [lia|congruence|].
    rewrite Ep' in E1. injection E1 as <-. cbn in Hp. unfold ready. by rewrite (c_pending _ _ Hp).
  - pose proof (poll_fuel _ _ _ Ep (poll_cost e)) as Ep'.
    destruct (poll_returns (fuel + poll_cost e) Hint e IH) as [E1|(r & E1 & Hp)]; [lia|congruence|].
    rewrite Ep' in E1. injection E1 as <-. cbn in Hp. destruct Hp as (eff & Epe & Hpo).
    unfold ready. replace (pending_effects _) with (Some eff) by by destruct e'.
    split; [|destruct e'; cbn; by intros [_ ?]%app_nil].
    destruct Hpo as [Hc Hg Hk]. split; [|done|intros Hb v Hv; specialize (Hk Hb v Hv); unfold known in *; by destruct e'].
    eapply calm_same; [exact Hc|..]; destruct e'; by auto.
Qed.


End Proofs.
