(* ===== verification/EngineFunding.v ===== *)
(** * A rejected transaction leaves no trace

    The funding boxes of the executor ([Engine.v]) and the composition of a
    book's attempt, the execution of its recipe and the failure of the
    transaction: everything the attempt touched is as before. *)

From stdpp Require Import base gmap list.
From Stdlib Require Import ZArith Lia.
From S2P Require Import Prelude LbTypes LbCore LbState LbStateProofs Tlb StateIndex StateIndexProofs Containers.
From S2P Require Import Engine EngineProofs.

(** ** Boxes *)

Section Boxes.
Context {B V : Type} `{BOL : TakerOrdLaws B} `{CV : Countable V} `{VO : TakerOrd V} `{BR : BearerRef B V}.
Implicit Types (pool : list B) (f : B).

Lemma bt_insert_remove pool f : sorted pool -> f ∈ pool -> bt_insert f (bt_remove f pool) = pool.
Proof.
  intros Hs Hf. pose proof (bt_remove_sorted f pool Hs) as Hr.
  apply sorted_ext; [by apply bt_insert_sorted|done|]. intros x.
  rewrite bt_insert_elem, bt_remove_elem by done. split.
  - by intros [[? _]|[-> _]].
  - intros Hx. destruct (taker_cmp f x) eqn:Ec; [right|by left..].
    assert (f = x) as -> by by apply (sorted_eq pool). split; [done|].
    apply Forall_forall. intros z [_ ?]%bt_remove_elem; done.
Qed.

(** The box a transaction takes leaves the pool, and only it. *)
Lemma pop_preferred_spec pool (consumed : gset V) f pool' : sorted pool ->
  pop_preferred_funding pool consumed = (Some f, pool') -> f ∈ pool /\ pool' = bt_remove f pool.
Proof.
  intros Hs. assert (pop_first pool = (Some f, pool') -> f ∈ pool /\ pool' = bt_remove f pool) as Hp.
  { destruct pool as [|x pool]; cbn; [done|]. intros [= <- <-]. rewrite taker_cmp_refl. split; [left|done]. }
  unfold pop_preferred_funding. destruct (elements consumed) as [|a [|b [|? ?]]]; try done.
  destruct (match taker_cmp a b with Gt => (b, a) | _ => (a, b) end) as [lower upper].
  destruct (list_find _ _) as [[i c]|] eqn:Ef; [|done]. intros [= <- <-]. split; [|done].
  apply list_find_Some in Ef as (Hi & _ & _). by eapply list_elem_of_lookup_2.
Qed.

End Boxes.

Section Rejection.
Context {PR SID V CO SO P B TC TX TH E IX Book L RIR SIR R : Type}.
Context `{CPR : Countable PR} `{CV : Countable V} `{VO : TakerOrd V} `{VH : !HashOrder V} `{VHL : !HashOrderLaws V}
        `{BO : TakerOrd B} `{BOL : !TakerOrdLaws B}.
Context `{COS : Stable CO SID} `{PS : Stable P SID} `{COQ : QuasiPermanent CO} `{PQ : QuasiPermanent P}.
Context `{SOS : SpecializedOrder SO SID V} `{BR : BearerRef B V} `{EM : !MissingInputs E V} `{IB : IdBytes SID}.
Context `{LB : LiquidityBook Book CO P PR} `{LBL : !LiquidityBookLaws Book CO P PR}.
Context `{HB : HotBacklog L (Bundled SO B) V PR}.
Context `{RI : RecipeInterpreter RIR CO P V B TC} `{SI : SpecializedInterpreter SIR P SO V B TC}.
Context `{PV : TxProver TC TX TH} `{RB : RingLib R V}.
Context `{IX_ : !StateIndex IX (EvolvingEntity (V:=V) (CO:=CO) (P:=P) (B:=B)) SID V}.

Local Notation Exec := (Executor (PR:=PR) (V:=V) (CO:=CO) (SO:=SO) (P:=P) (B:=B) (TH:=TH) (E:=E) (IX:=IX)
  (Book:=Book) (L:=L) (RIR:=RIR) (SIR:=SIR) (R:=R)).
Implicit Types (e : Exec).

(** The interpreter accounts for the box it is given. *)
Definition funding_input (io : FundingIO B B) : B :=
  match io with FundingReplaced t _ | FundingAdded t _ | FundingNotUsed t => t end.
Definition funding_accounted : Prop :=
  forall rir recipe f, funding_input (trade_run (CO:=CO) (P:=P) (V:=V) (TC:=TC) (RIR:=RIR) rir recipe f).2.2 = f.

(** The book of the pair as [get_mut] sees it. *)
Definition book_of e pr : Book := default (book_make pr) (multi_book e !! pr).

Lemma invalidate_nothing e pr : invalidate_versions e pr ∅ = Ok (e, []).
Proof.
  unfold invalidate_versions, set_iter. assert (hash_iter (gset_to_gmap () (∅ : gset V)) = []) as ->; [|done].
  apply Permutation_nil_r. rewrite hash_iter_perm. by rewrite gset_to_gmap_empty, map_to_list_empty.
Qed.

(** The boxes of a failed transaction go back. *)
Lemma failed_funding e err missing io pool : missing_inputs err = Some missing ->
  bearer_ref (funding_input io) ∉ missing ->
  funding_pool (on_funding_effects_failure (set_pool (match (into_effects io).1 with
    | Some u => bt_insert u pool | None => pool end) e) err (into_effects io).2) = bt_insert (funding_input io) pool.
Proof.
  intros Em Hn. unfold on_funding_effects_failure. rewrite Em. destruct e, io; cbn in *; try done.
  by rewrite bool_decide_false.
Qed.

(** C5: A transaction that the ledger rejects for inputs that are none of its
    own leaves no trace: the book of the pair, every other book, the index of
    states, the filter of processed versions and the pool of funding boxes are
    as they were before the attempt, and nothing is pending. *)
Theorem rejected_tx_leaves_no_trace e pr tx e' eff err missing :
  funding_accounted -> sorted (funding_pool e) -> settled (book_of e pr) -> feedback e = [] ->
  try_book (TX:=TX) e pr = Ok (Some tx, e') -> pending_effects e' = Some eff ->
  missing_inputs err = Some missing -> missing ∩ consumed_versions eff = ∅ ->
  (forall f, f ∈ funding_pool e -> bearer_ref f ∉ missing) ->
  exists e'', handle_feedback (set_feedback [inr err] e') = Ok e'' /\
    multi_book e'' = <[pr := book_of e pr]> (multi_book e) /\
    ex_index e'' = ex_index e /\ funding_pool e'' = funding_pool e /\ skip_filter e'' = skip_filter e /\
    multi_backlog e'' = multi_backlog e /\ pending_effects e'' = None.
Proof.
  intros Hacc Hso Hset Hfb Et Ep Em Hmi Hmf. unfold try_book in Et.
  assert (multi_get_mut book_make (multi_book e) pr = (book_of e pr, <[pr := book_of e pr]> (multi_book e))) as Eg.
  { unfold multi_get_mut, book_of. destruct (multi_book e !! pr) eqn:El; cbn; [by rewrite insert_id|done]. }
  rewrite Eg in Et. clear Eg. set (b0 := book_of e pr) in *.
  destruct (book_attempt b0) as [[[recipe|] b]| |] eqn:Ea; try done.
  apply attempt_some in Ea; [|done]. rewrite insert_insert_eq in Et. set (e1 := set_books _ e) in Et.
  unfold execute_recipe in Et.
  destruct (recipe_link recipe _) as [[linked consumed]|orphans]; [|by inv_outcome].
  destruct (pop_preferred_funding (funding_pool e1) consumed) as [[f|] pool] eqn:Ef; [|by inv_outcome].
  apply pop_preferred_spec in Ef as [Hf ->]; [|by destruct e].
  pose proof (Hacc (trade_interpreter e1) linked f) as Hio.
  destruct (trade_run _ _ _) as [rir [[txc effs] io]]. cbn in Hio. subst f.
  destruct (into_effects io) as [unused feffs] eqn:Eio. injection Et as <- <-.
  assert (eff = mkEffects (SO:=SO) (canonical_hash (prove txc)) pr consumed (FromLiquidityBook effs) feffs) as Eeff by
    (destruct e; cbn in Ep; congruence).
  unfold handle_feedback. set (e2 := set_feedback _ _).
  replace (pending_effects e2) with (Some eff) by (subst eff; by destruct e). subst eff. clear Ep.
  replace (feedback e2) with [inr err : unit + E] by by destruct e. cbn [funding].
  unfold on_execution_effects_failure. rewrite Em. cbn [execution eff_pair consumed_versions] in *. rewrite Hmi.
  unfold on_book. set (e3 := set_pending None _).
  assert (multi_get_mut book_make (multi_book e3) pr = (b, <[pr := b]> (multi_book e))) as ->.
  { unfold multi_get_mut, e3, e2, e1. destruct e; cbn in *. by rewrite lookup_insert_eq. }
  cbn. rewrite insert_insert_eq, (tentative_failed b0 b), invalidate_nothing by done. cbn.
  eexists. split; [done|]. repeat split; try (unfold e3, e2, e1; by destruct e).
  pose proof (failed_funding e err missing io (bt_remove (funding_input io) (funding_pool e)) Em) as Hpool.
  rewrite Eio in Hpool. cbn in Hpool. rewrite bt_insert_remove in Hpool; [|done|by destruct e].
  unfold e3, e2, e1 in *. destruct e; cbn in *. apply Hpool, Hmf, Hf.
Qed.

End Rejection.
