(* ===== verification/EngineTlb.v ===== *)
(** * The matchmaker as the executor's book

    [TLB] implements the traits [LiquidityBook], [ExternalLBEvents] and
    [LBFeedback] of the executor ([liquidity_book/mod.rs]); the theorems of
    [TlbProofs.v] discharge [LiquidityBookLaws].  [rounds] and [steps] bound the
    loops of an attempt. *)

From stdpp Require Import base gmap list.
From Stdlib Require Import ZArith Lia.
From S2P Require Import Prelude LbTypes LbCore LbCoreProofs LbState LbStateProofs Tlb TlbProofs.
From S2P Require Import Containers Engine EngineProofs.

Section TlbBook.
Context {T M U TI MI PR : Type}.
Context `{RL : RatioLib} `{UN : Units U} `{TK : MarketTaker T U} `{TB : TakerBehaviour T}
        `{TOL : TakerOrdLaws T} `{MK : MarketMaker M U} `{MB : MakerBehavior M} `{MT : MakerForTaker T M}.
Context `{CT : Countable TI} `{CM : Countable MI} `{TS : Stable T TI} `{MS : Stable M MI}.
Context `{TH : !HashOrder TI} `{MH : !HashOrder MI} `{!HashOrderLaws TI}.
Context `{TSL : !TakerStableLaws T U TI} `{TIL : !TakerIdLaws T TI} `{STL : !SwapTakerLaws T M TI}.
Context `{TTL : !TakerTimeLaws T U}.
Context (rounds steps : nat) (time : Z) (cfg : ExecutionConfig U).

Local Notation Book := (TLB T M U MI PR).
Implicit Types (b : Book).

Definition tlb_attempt b : outcome Timeout (option (list (Instruction T M)) * Book) :=
  match attempt (TI:=TI) rounds steps (conf b) true (state b) with
  | Ok (recipe, _, s) => Ok (recipe, set_state b s)
  | Err e => Err e
  | Panic => Panic
  end.

Definition tlb_book : LiquidityBook Book T M PR := {|
  book_make := fun pr => tlb_new time cfg pr;
  book_attempt := tlb_attempt;
  book_on_recipe_succeeded := on_recipe_succeeded;
  book_on_recipe_failed := on_recipe_failed;
  book_update_taker := update_taker;
  book_remove_taker := remove_taker;
  book_update_maker := update_maker;
  book_remove_maker := remove_maker;
|}.

Definition tlb_settled b : Prop := exists i, state b = Idle i /\ chronology_ok (takers i).
Definition tlb_tentative b b' : Prop := exists i s, state b = Idle i /\ b' = set_state b s /\ Explored i s.

Lemma set_state_id b s : state b = s -> set_state b s = b.
Proof. intros <-. by destruct b. Qed.

Lemma settled_event b f : tlb_settled b -> (forall i, chronology_ok (takers i) -> chronology_ok (takers (f i))) ->
  exists b', requiring_settled_state b f = Ok b' /\ tlb_settled b'.
Proof.
  intros (i & Ei & Hi) Hf. unfold requiring_settled_state. rewrite Ei. eexists. split; [done|].
  exists (f i). split; [done|]. by apply Hf.
Qed.

(** What the executor needs of its books, the matchmaker provides. *)
Definition tlb_book_laws : @LiquidityBookLaws Book T M PR tlb_book.
Proof.
  refine (@Build_LiquidityBookLaws Book T M PR tlb_book tlb_settled tlb_tentative _ _ _ _ _ _ _ _ _).
  - intros pr. exists (mkIdle (chronology_new time) makers_new). split; [done|].
    split; [apply takers_new_ok|apply map_Forall_empty].
  - intros b o Hb. apply settled_event; [done|]. intros i. apply add_fragment_ok.
  - intros b o Hb. apply settled_event; [done|]. intros i. apply remove_fragment_ok.
  - intros b p Hb. by apply settled_event.
  - intros b p Hb. by apply settled_event.
  - intros b b' (i & Ei & Hi). cbn. unfold tlb_attempt. rewrite Ei.
    destruct (attempt _ _ _ _ _) as [[[r ev] s]| |] eqn:E; intros [= -> <-].
    apply attempt_explored with (i:=i) in E; [|by apply Hi|by apply new_round; [constructor|]]. subst s.
    by apply set_state_id.
  - intros b r b' (i & Ei & Hi). cbn. unfold tlb_attempt. rewrite Ei.
    destruct (attempt _ _ _ _ _) as [[[r' ev] s]| |] eqn:E; intros [= -> <-].
    apply attempt_explored with (i:=i) in E; [|by apply Hi|by apply new_round; [constructor|]]. by exists i, s.
  - intros b b' (i & Ei & Hi) (i' & s & Ei' & -> & He). assert (i' = i) as -> by congruence.
    cbn. unfold on_recipe_failed. cbn. rewrite unstash_intact.
    destruct (explored_intact i s (co_active _ Hi) He) as [_ ->]. rewrite <- Ei. by destruct b.
  - intros b b' (i & Ei & Hi) (i' & s & Ei' & -> & He). assert (i' = i) as -> by congruence.
    destruct (commit_ok i s Hi He) as (i' & Ec & Hi'). exists i'. cbn. by rewrite Ec.
Defined.

End TlbBook.
