(* ===== verification/EngineGreen.v ===== *)
(** * An executor of green orders

    A concrete executor: the matchmaker over green orders and a royalty pool,
    the in-memory index, a backlog that is a queue and an interpreter that
    reports the states a recipe leads to.  It instantiates the theorems about
    the executor, its index and its funding. *)

From stdpp Require Import base gmap list.
From Stdlib Require Import ZArith Lia Strings.Byte.
From S2P Require Import Prelude Mpf ToyHash LbTypes Assets Intention GreenOrder LbCore LbCoreProofs.
From S2P Require Import RoyaltyPool RoyaltyPoolProofs LbGreen LbState LbStateProofs Tlb TlbProofs TlbGreen.
From S2P Require Import StateIndex StateIndexProofs Containers Engine EngineProofs EngineFunding EngineTlb.

(** [From<Token> for [u8; 60]]. *)
Global Instance token_id_bytes : IdBytes Token := token_to_array.
Global Instance green_permanence : QuasiPermanent GreenOrder := fun _ => false.
Global Instance royalty_permanence : QuasiPermanent RoyaltyPool := fun _ => true.

Section SampleExecutor.
#[local] Existing Instance exact_ratio.
#[local] Existing Instance exact_fee.
#[local] Existing Instance no_bignum.
#[local] Existing Instance toy.
#[local] Existing Instance list_order.
#[local] Existing Instance list_order_laws.
#[local] Existing Instance default_maker_for_taker.

(** Outputs are numbers, which are their own bearers; a submission error is the
    set of missing inputs. *)
#[local] Instance nat_ord : TakerOrd nat := Nat.compare.
#[local] Instance nat_ord_laws : TakerOrdLaws nat.
Proof.
  split; unfold taker_cmp, nat_ord.
  - intros a b. apply Nat.compare_antisym.
  - intros a b c. rewrite !Nat.compare_lt_iff. lia.
  - intros a b c ->%Nat.compare_eq_iff. done.
Qed.
#[local] Instance nat_bearer : BearerRef nat nat := fun b => b.
#[local] Instance missing_set : MissingInputs (gset nat) nat := Some.
#[local] Instance ring256 : RingLib (list nat) nat := list_ring 256 nat.

#[local] Instance no_orders : SpecializedOrder Empty_set Token nat :=
  {| self_ref := fun o : Empty_set => match o with end; pool_ref := fun o : Empty_set => match o with end |}.
#[local] Instance queue_backlog : HotBacklog (list (Bundled Empty_set nat)) (Bundled Empty_set nat) nat unit := {|
  backlog_make := fun _ => [];
  backlog_put := fun l o => l ++ [o];
  backlog_try_pop := fun l => match l with [] => (None, []) | o :: l => (Some o, l) end;
  backlog_remove := fun l _ => l;
  backlog_soft_evict := fun l _ => l;
|}.

Notation Ent := (EvolvingEntity (V:=nat) (CO:=GreenOrder) (P:=RoyaltyPool) (B:=nat)).

#[local] Instance sample_book : LiquidityBook (TLB GreenOrder RoyaltyPool ExUnits Token unit) GreenOrder RoyaltyPool unit :=
  tlb_book (TI:=Token) 5 20 0 (config 0).
#[local] Instance sample_book_laws : LiquidityBookLaws (TLB GreenOrder RoyaltyPool ExUnits Token unit) GreenOrder RoyaltyPool unit :=
  tlb_book_laws 5 20 0 (config 0).

(** Outputs 1, 101, ... are the seller's, 2, 102, ... the buyer's and the
    others the pool's. *)
Definition sample_owner (v : nat) : bytes :=
  match v mod 100 with
  | 1 => id_bytes (stable_id seller : Token)
  | 2 => id_bytes (stable_id buyer : Token)
  | _ => id_bytes (stable_id sample_pool : Token)
  end.
Definition sample_is_order (a : bytes) : bool := negb (bool_decide (a = id_bytes (stable_id sample_pool : Token))).

Definition genuineb (x : Ent) : bool :=
  bool_decide (sample_owner (version x) = id_bytes (stable_id x)) &&
  bool_decide (sample_is_order (id_bytes (stable_id x)) = entity_order (bundled x)).

Definition order_at (o : GreenOrder) (v : nat) : Ent := mkBundled (inl (mkBaked o v)) v.
Definition pool_at (p : RoyaltyPool) (v : nat) : Ent := mkBundled (inr (mkBaked p v)) v.

(** The states of a recipe's targets after it, at outputs one hundred up. *)
Definition sample_effect (x : Execution GreenOrder RoyaltyPool nat) : ExecutionEff Ent Ent :=
  match x with
  | TakeE (t, b) (Succ t') => EffUpdated (order_at t b) (order_at t' (b + 100))
  | TakeE (t, b) (Term _) => EffEliminated (order_at t b)
  | MakeE (m, b) (Succ m') => EffUpdated (pool_at m b) (pool_at m' (b + 100))
  | MakeE (m, b) (Term z) => match z with end
  end.
Definition effect_genuineb (x : ExecutionEff Ent Ent) : bool :=
  match x with EffUpdated k u => genuineb k && genuineb u | EffEliminated k => genuineb k end.

#[local] Instance sample_interpreter : RecipeInterpreter unit GreenOrder RoyaltyPool nat nat nat :=
  fun _ recipe f =>
    let effs := filter (fun x => effect_genuineb x = true) (sample_effect <$> recipe) in
    (tt, (length effs, effs, FundingReplaced f (f + 1))).
#[local] Instance no_spec_interpreter : SpecializedInterpreter unit RoyaltyPool Empty_set nat nat nat :=
  fun _ _ _ => (tt, None).
#[local] Instance sample_prover : TxProver nat nat nat := {| prove := fun c => c; canonical_hash := fun t => t |}.

Notation Exec := (Executor (PR:=unit) (V:=nat) (CO:=GreenOrder) (SO:=Empty_set) (P:=RoyaltyPool) (B:=nat) (TH:=nat)
  (E:=gset nat) (IX:=InMemoryStateIndex Ent nat) (Book:=TLB GreenOrder RoyaltyPool ExUnits Token unit)
  (L:=list (Bundled Empty_set nat)) (RIR:=unit) (SIR:=unit) (R:=list nat)).
Notation Run := (Run (TX:=nat) sample_owner sample_is_order).

Lemma genuineb_spec x : genuineb x = true -> genuine sample_owner sample_is_order x.
Proof. unfold genuineb, genuine. rewrite andb_true_iff, !bool_decide_eq_true. done. Qed.

Lemma sample_interpreters_ok : interpreters_ok (SO:=Empty_set) (SIR:=unit) (RIR:=unit) (TC:=nat) sample_owner sample_is_order.
Proof.
  split; [|done]. intros [] recipe f. cbn. apply Forall_forall. intros x [Hx _]%list_elem_of_filter.
  destruct x; cbn in *; [apply andb_true_iff in Hx as [? ?]; split; by apply genuineb_spec|by apply genuineb_spec].
Qed.

(** The seller, the buyer, the pool and a box appear. *)
Definition created (x : Ent) : unit * Event (SO:=Empty_set) (V:=nat) (CO:=GreenOrder) (P:=RoyaltyPool) (B:=nat) :=
  (tt, LiquidityEvent (Ledger (Forward (IorRight x)))).

Definition start : Exec := executor_new index_new tt tt.
Definition push (e : Exec) (x : Ent) : Exec := set_upstream (upstream e ++ [created x]) e.
Definition arrived : Exec :=
  let e := push (push (push start (order_at seller 1)) (order_at buyer 2)) (pool_at sample_pool 3) in
  set_funding_events (funding_events e ++ [FundingProduced 50]) e.


Lemma start_sound : sound_index sample_owner sample_is_order (index_new : InMemoryStateIndex Ent nat).
Proof. split; [exact index_new_ok|]. intros q a x Hx. cbn in Hx. discriminate. Qed.

Lemma push_run e x : Run e -> genuineb x = true -> Run (push e x).
Proof. intros He Hx. apply run_event; [done|]. by apply genuineb_spec. Qed.

Lemma arrived_run : Run arrived.
Proof.
  unfold arrived. apply run_funding. apply push_run; [apply push_run; [apply push_run|]|];
    [exact (run_new _ _ index_new tt tt start_sound)|vm_compute; reflexivity..].
Qed.


(** The events are processed while the agent is not synced. *)
Definition waiting : Exec := match poll_next (TX:=nat) 7 arrived with Ok (_, e) => e | _ => start end.

Lemma waiting_run : Run waiting.
Proof.
  apply (run_idle _ _ arrived 7); [apply arrived_run|]. unfold waiting.
  assert (match poll_next (TX:=nat) 7 arrived with Ok (None, _) => True | _ => False end) as L by (vm_compute; exact I).
  destruct (poll_next 7 arrived) as [[[tx|] e]| |]; [exact (False_ind _ L)|reflexivity|exact (False_ind _ L)..].
Qed.

Lemma waiting_settled : settled (book_of waiting tt).
Proof.
  pose proof (run_ready sample_owner sample_is_order waiting sample_interpreters_ok waiting_run) as Hr.
  assert (match pending_effects waiting with None => True | _ => False end) as L by (vm_compute; exact I).
  unfold ready in Hr. destruct (pending_effects waiting); [exact (False_ind _ L)|].
  unfold book_of. destruct (multi_book waiting !! tt) eqn:El; [|apply settled_make].
  by apply (c_books _ _ _ _ Hr tt).
Qed.

Lemma waiting_submits : exists tx e' eff, try_book (TX:=nat) waiting tt = Ok (Some tx, e') /\
  pending_effects e' = Some eff /\ consumed_versions eff = {[1; 2; 3]}.
Proof.
  assert (match try_book (TX:=nat) waiting tt with
          | Ok (Some _, e') => match pending_effects e' with
                               | Some eff => consumed_versions eff = {[1; 2; 3]} | None => False end
          | _ => False end) as L by (vm_compute; reflexivity).
  destruct (try_book waiting tt) as [[[tx|] e']| |]; [|exact (False_ind _ L)..].
  destruct (pending_effects e') as [eff|] eqn:Ep; [|exact (False_ind _ L)].
  exists tx, e', eff. exact (conj eq_refl (conj Ep L)).
Qed.

(** The ledger rejects the transaction for an input of someone else. *)
Lemma rejected_tx_leaves_no_trace_witness :
  exists tx e' e'', try_book (TX:=nat) waiting tt = Ok (Some tx, e') /\
    handle_feedback (set_feedback [inr {[77]}] e') = Ok e'' /\
    ex_index e'' = ex_index waiting /\ funding_pool e'' = [50].
Proof.
  destruct waiting_submits as (tx & e' & eff & Et & Ep & Ec).
  assert (funding_pool waiting = [50]) as Ef by (vm_compute; reflexivity).
  destruct (rejected_tx_leaves_no_trace waiting tt tx e' eff {[77]} {[77]}) as (e'' & H1 & _ & H2 & H3 & _).
  - intros [] recipe f. reflexivity.
  - rewrite Ef. repeat constructor.
  - exact waiting_settled.
  - vm_compute. reflexivity.
  - exact Et.
  - exact Ep.
  - reflexivity.
  - rewrite Ec. vm_compute. reflexivity.
  - rewrite Ef. intros f ->%list_elem_of_singleton Hf.
    apply (bool_decide_eq_true_2 (bearer_ref 50 ∈ ({[77]} : gset nat))) in Hf. vm_compute in Hf. discriminate.
  - exists tx, e', e''. split; [exact Et|]. split; [exact H1|]. split; [exact H2|]. rewrite H3. exact Ef.
Defined.

(** A pool's state is confirmed at output 3 and predicted at output 103, which
    is then dropped. *)
Lemma state_index_refines_witness :
  let os := [PutConfirmed (pool_at sample_pool 3); PutPredicted (pool_at sample_pool 103); Invalidate 103] in
  resolve_state (stable_id sample_pool : Token)
    (fold_left run_op os (index_new : InMemoryStateIndex Ent nat)) = Some (pool_at sample_pool 3).
Proof.
  intros os. destruct (state_index_refines os) as (_ & _ & _ & _ & Hr & _).
  - cbn. unfold owns. repeat split; try (intros q a f; cbn; unfold put_slot; repeat case_bool_decide; try done).
    all: by intros; simplify_eq.
  - rewrite Hr. vm_compute. reflexivity.
Defined.

End SampleExecutor.
