(* ===== verification/Redeemers.v ===== *)
(** * Redeemers of the Aleph scripts

    [bloom-offchain-cardano/src/orders/green.rs]: the action on an account, the
    authorised intentions of a batch and their Plutus forms.

    The proof of an authorisation travels as CBOR; its decoder is a library
    function (class [CborDecodeLib]), whose law is that it undoes the encoder. *)

From stdpp Require Import base gmap list.
From Stdlib Require Import ZArith Lia Strings.Byte.
From S2P Require Import Prelude Mpf LbTypes Assets PlutusData Intention GreenOrder LbCore AccountStore.

Class CborDecodeLib := pd_from_cbor : bytes -> option PlutusData.
Class CborDecodeLaws `{CborLib} `{CborDecodeLib} : Prop := {
  pd_from_to_cbor : forall d, pd_from_cbor (pd_to_cbor d) = Some d;
  pd_to_cbor_nonempty : forall d, pd_to_cbor d <> [];
}.

Inductive AlephAccountAction := Delegate (delegate_index : Z) | Direct.

Record AlephAuthorizedIntention := mkAuthorized {
  authorized_intent : AlephIntention;
  remainder : Z;
  authorized_auth : GreenAuth;
}.

Definition action_into_pd (a : AlephAccountAction) : PlutusData :=
  match a with
  | Delegate i => aiken_constr 0 [int_into_pd i]
  | Direct => aiken_constr 1 []
  end.

(** [as_bytes] slices the padded name and panics past its end. *)
Definition asset_class_into_pd (a : AssetClass) : panics PlutusData :=
  match a with
  | Native => Ok (tuple_pd [bytes_into_pd []; bytes_into_pd []])
  | TokenAsset t =>
    name ← as_bytes (asset_name t);
    Ok (tuple_pd [bytes_into_pd (policy t); bytes_into_pd name])
  end.

Definition nonce_into_pd (i : AlephIntention) : PlutusData :=
  match it_abi i with
  | Legacy => int_into_pd (target_nonce_value i)
  | Current => tuple_pd [int_into_pd (target_nonce_index i); int_into_pd (target_nonce_value i)]
  end.

Definition intention_into_pd (i : AlephIntention) : panics PlutusData :=
  leaving ← asset_class_into_pd (leaving_asset i);
  arriving ← asset_class_into_pd (arriving_asset i);
  Ok (aiken_constr 0
    [nonce_into_pd i; leaving; int_into_pd (leaving_amount i); arriving;
     int_into_pd (expected_arriving_amount i); int_into_pd (fee_lovelace i);
     bytes_into_pd (operator i)]).

Section Auth.
Context `{CD : CborDecodeLib}.

Definition proof_plutus_data (proof : bytes) : panics PlutusData :=
  if bool_decide (proof = []) then Ok (PdList [])
  else match pd_from_cbor proof with Some d => Ok d | None => Panic end.

Definition auth_into_pd (a : GreenAuth) : panics PlutusData :=
  match a with
  | Path proof => p ← proof_plutus_data proof; Ok (aiken_constr 0 [p])
  | Sig prefix postfix signature update_proof =>
    p ← proof_plutus_data update_proof;
    Ok (aiken_constr 1 [bytes_into_pd prefix; bytes_into_pd postfix; bytes_into_pd signature; p])
  end.

Definition authorized_into_pd (a : AlephAuthorizedIntention) : panics PlutusData :=
  i ← intention_into_pd (authorized_intent a);
  p ← auth_into_pd (authorized_auth a);
  Ok (aiken_constr 0 [i; int_into_pd (remainder a); p]).

(** [AlephBatchRedeemer { intentions }.into_pd()]. *)
Definition batch_redeemer_into_pd (intentions : list AlephAuthorizedIntention) : panics PlutusData :=
  items ← map_outcome authorized_into_pd intentions;
  Ok (aiken_constr 0 [PdList items]).

End Auth.
