(* ===== verification/TxBlueprint.v ===== *)
(** * Blueprints of transactions

    [bloom-offchain-cardano/src/execution_engine/execution_state.rs] and
    [spectrum-offchain-cardano/src/script.rs]: what the executions of a recipe
    add to a transaction, and the projection of the whole onto the transaction
    builder of [cml_chain].

    The builder is a library.  [TransactionBuilder] is the log of what has been
    added to it; which additions it accepts, the fee it estimates and the body
    it builds are the functions of class [TxBuilderLib].  A [HashSet] that is
    only handed over element by element (reference inputs, signers) is a list
    without duplicates: the ledger takes both as sets. *)

From stdpp Require Import base gmap list sorting.
From Stdlib Require Import ZArith Lia Strings.Byte.
From S2P Require Import Prelude Mpf LbTypes Assets PlutusData Intention GreenOrder LbCore AccountStore.
From S2P Require Import AccountIndex Containers Redeemers.

Definition MIN_SAFE_LOVELACE_VALUE : Z := 1000000.

(** ** Execution units *)

Definition ex_add (a b : ExUnits) : ExUnits :=
  mkExUnits (wrap_u64 (mem a + mem b)) (wrap_u64 (steps a + steps b)).
Definition ex_scale (a : ExUnits) (factor : Z) : ExUnits :=
  mkExUnits (wrap_u64 (mem a * factor)) (wrap_u64 (steps a * factor)).

(** ** Script inputs *)

Definition ref_cmp (a b : OutputRef) : comparison := lex (bytes_cmp a.1 b.1) (Z.compare a.2 b.2).
Definition ref_le (a b : OutputRef) : Prop := ref_cmp a b <> Gt.
Global Instance ref_le_dec : RelDecision ref_le.
Proof. unfold ref_le. solve_decision. Defined.

Definition TxInputsOrdering := gmap OutputRef nat.
Definition index_of (o : TxInputsOrdering) (r : OutputRef) : panics nat :=
  match o !! r with Some ix => Ok ix | None => Panic end.

Inductive DelayedScriptCost := ReadyCost (r : ExUnits) | DelayedCost (f : nat -> ExUnits).
Definition compute_cost (c : DelayedScriptCost) (self_index : nat) : ExUnits :=
  match c with ReadyCost r => r | DelayedCost f => f self_index end.

Inductive DelayedRedeemer := ReadyRedeemer (r : PlutusData) | DelayedR (f : TxInputsOrdering -> panics PlutusData).
Definition compute_redeemer (d : DelayedRedeemer) (o : TxInputsOrdering) : panics PlutusData :=
  match d with ReadyRedeemer r => Ok r | DelayedR f => f o end.

Record ScriptInputBlueprint := mkScriptInput {
  si_reference : OutputRef;
  si_utxo : TransactionOutput;
  si_hash : bytes;
  si_cost : DelayedScriptCost;
  si_redeemer : DelayedRedeemer;
  si_signers : list bytes;
}.

(** Equality and hashing of a deployed validator look at its script hash only. *)
Record DeployedValidatorErased := mkValidator {
  ref_input : OutputRef;
  ref_output : TransactionOutput;
  dv_hash : bytes;
  dv_ex_budget : ExUnits;
  dv_marginal_cost : ExUnits;
}.

(** ** The blueprint *)

Record TxBlueprint := mkBlueprint {
  script_io : list (ScriptInputBlueprint * TransactionOutput);
  account_script_refs : gset OutputRef;
  reference_inputs : list (OutputRef * TransactionOutput);
  witness_scripts : gmap bytes (DeployedValidatorErased * (PlutusData * Z));
  aleph_batch_witness : option (DeployedValidatorErased * list (OutputRef * AlephAuthorizedIntention));
}.

Definition blueprint_new : TxBlueprint := mkBlueprint [] ∅ [] ∅ None.

Definition add_io (b : TxBlueprint) (i : ScriptInputBlueprint) (o : TransactionOutput) : TxBlueprint :=
  mkBlueprint (script_io b ++ [(i, o)]) (account_script_refs b) (reference_inputs b)
    (witness_scripts b) (aleph_batch_witness b).

Definition add_account_io (b : TxBlueprint) (i : ScriptInputBlueprint) (o : TransactionOutput) : TxBlueprint :=
  mkBlueprint (script_io b ++ [(i, o)]) ({[si_reference i]} ∪ account_script_refs b) (reference_inputs b)
    (witness_scripts b) (aleph_batch_witness b).

(** [HashSet::insert]. *)
Definition set_add {A} `{EqDecision A} (x : A) (l : list A) : list A :=
  if bool_decide (x ∈ l) then l else l ++ [x].

Definition add_ref_input (b : TxBlueprint) (r : OutputRef) (o : TransactionOutput) : TxBlueprint :=
  mkBlueprint (script_io b) (account_script_refs b) (set_add (r, o) (reference_inputs b))
    (witness_scripts b) (aleph_batch_witness b).

Definition add_witness (b : TxBlueprint) (wit : DeployedValidatorErased) (redeemer : PlutusData) : TxBlueprint :=
  mkBlueprint (script_io b) (account_script_refs b) (reference_inputs b)
    (match witness_scripts b !! dv_hash wit with
     | Some (w, (r, sf)) => <[dv_hash wit := (w, (r, wrap_u64 (sf + 1)))]> (witness_scripts b)
     | None => <[dv_hash wit := (wit, (redeemer, 1%Z))]> (witness_scripts b)
     end)
    (aleph_batch_witness b).

Definition add_aleph_batch_intention (b : TxBlueprint) (witness : DeployedValidatorErased)
    (account_ref : OutputRef) (intention : AlephAuthorizedIntention) : panics TxBlueprint :=
  let set_batch x :=
    Ok (mkBlueprint (script_io b) (account_script_refs b) (reference_inputs b) (witness_scripts b) (Some x)) in
  match aleph_batch_witness b with
  | Some (existing, intentions) =>
    if bool_decide (dv_hash existing = dv_hash witness)
    then set_batch (existing, intentions ++ [(account_ref, intention)])
    else Panic
  | None => set_batch (witness, [(account_ref, intention)])
  end.

(** Witnesses are kept under their script hash. *)
Definition witnesses_keyed (b : TxBlueprint) : Prop :=
  map_Forall (fun h w => dv_hash w.1 = h) (witness_scripts b).

Definition forces_operator_funding_input (b : TxBlueprint) : bool :=
  bool_decide (is_Some (aleph_batch_witness b)).

(** ** The state of an execution *)

Record ExecutionState := mkExecState {
  tx_blueprint : TxBlueprint;
  reserved_tx_fee : Z;
  operator_interest : Z;
}.

Definition execution_state_new : ExecutionState := mkExecState blueprint_new 0 0.
Definition add_tx_fee (s : ExecutionState) (amt : Z) : ExecutionState :=
  mkExecState (tx_blueprint s) (wrap_u64 (reserved_tx_fee s + amt)) (operator_interest s).
Definition add_operator_interest (s : ExecutionState) (amt : Z) : ExecutionState :=
  mkExecState (tx_blueprint s) (reserved_tx_fee s) (wrap_u64 (operator_interest s + amt)).
Definition set_blueprint (s : ExecutionState) (b : TxBlueprint) : ExecutionState :=
  mkExecState b (reserved_tx_fee s) (operator_interest s).

(** ** The transaction builder *)

Inductive InputWitness :=
| PlutusRef (hash : bytes) (redeemer : PlutusData) (signers : list bytes)
| PaymentKey.

Record BuilderInput := mkBuilderInput {
  bi_reference : OutputRef;
  bi_utxo : TransactionOutput;
  bi_witness : InputWitness;
}.

(** A withdrawal of nothing from the reward address of a script. *)
Record BuilderWithdrawal := mkWithdrawal { wd_network : Z; wd_hash : bytes; wd_redeemer : PlutusData }.

Inductive RedeemerTag := Spend | Reward.

Record TransactionBuilder := mkTxb {
  tb_inputs : list BuilderInput;
  tb_outputs : list TransactionOutput;
  tb_reference_inputs : list (OutputRef * TransactionOutput);
  tb_signers : list bytes;
  tb_withdrawals : list BuilderWithdrawal;
  tb_exunits : list (RedeemerTag * nat * ExUnits);
  tb_collateral : option FinalizedTxOut;
  tb_metadata : option bytes;
}.

Definition constant_tx_builder : TransactionBuilder := mkTxb [] [] [] [] [] [] None None.

Record TxBody := mkBody { body_outputs : list TransactionOutput; body_hash : bytes }.

Class TxBuilderLib := {
  input_accepted : TransactionBuilder -> BuilderInput -> bool;
  output_accepted : TransactionBuilder -> TransactionOutput -> bool;
  collateral_accepted : TransactionBuilder -> FinalizedTxOut -> bool;
  min_fee : TransactionBuilder -> option Z;
  build_tx : TransactionBuilder -> Address -> option TxBody;
}.

Section Builder.
Context `{TL : TxBuilderLib}.

Definition tb_add_input (t : TransactionBuilder) (i : BuilderInput) : panics TransactionBuilder :=
  if input_accepted t i then
    Ok (mkTxb (tb_inputs t ++ [i]) (tb_outputs t) (tb_reference_inputs t) (tb_signers t) (tb_withdrawals t)
          (tb_exunits t) (tb_collateral t) (tb_metadata t))
  else Panic.

Definition tb_add_output (t : TransactionBuilder) (o : TransactionOutput) : panics TransactionBuilder :=
  if output_accepted t o then
    Ok (mkTxb (tb_inputs t) (tb_outputs t ++ [o]) (tb_reference_inputs t) (tb_signers t) (tb_withdrawals t)
          (tb_exunits t) (tb_collateral t) (tb_metadata t))
  else Panic.

Definition tb_add_reference_input (t : TransactionBuilder) (r : OutputRef) (o : TransactionOutput) : TransactionBuilder :=
  mkTxb (tb_inputs t) (tb_outputs t) (tb_reference_inputs t ++ [(r, o)]) (tb_signers t) (tb_withdrawals t)
    (tb_exunits t) (tb_collateral t) (tb_metadata t).

Definition tb_add_required_signer (t : TransactionBuilder) (s : bytes) : TransactionBuilder :=
  mkTxb (tb_inputs t) (tb_outputs t) (tb_reference_inputs t) (tb_signers t ++ [s]) (tb_withdrawals t)
    (tb_exunits t) (tb_collateral t) (tb_metadata t).

Definition tb_add_withdrawal (t : TransactionBuilder) (w : BuilderWithdrawal) : TransactionBuilder :=
  mkTxb (tb_inputs t) (tb_outputs t) (tb_reference_inputs t) (tb_signers t) (tb_withdrawals t ++ [w])
    (tb_exunits t) (tb_collateral t) (tb_metadata t).

Definition tb_set_exunits (t : TransactionBuilder) (tag : RedeemerTag) (ix : nat) (u : ExUnits) : TransactionBuilder :=
  mkTxb (tb_inputs t) (tb_outputs t) (tb_reference_inputs t) (tb_signers t) (tb_withdrawals t)
    (tb_exunits t ++ [(tag, ix, u)]) (tb_collateral t) (tb_metadata t).

Definition tb_add_collateral (t : TransactionBuilder) (c : FinalizedTxOut) : panics TransactionBuilder :=
  if collateral_accepted t c then
    Ok (mkTxb (tb_inputs t) (tb_outputs t) (tb_reference_inputs t) (tb_signers t) (tb_withdrawals t)
          (tb_exunits t) (Some c) (tb_metadata t))
  else Panic.

Definition tb_set_metadata (t : TransactionBuilder) (m : bytes) : TransactionBuilder :=
  mkTxb (tb_inputs t) (tb_outputs t) (tb_reference_inputs t) (tb_signers t) (tb_withdrawals t)
    (tb_exunits t) (tb_collateral t) (Some m).

(** ** The operator's funding

    What is added to the inputs and outputs for the operator, and what becomes
    of the funding box.  [forced] when the batch has Aleph intentions. *)

Definition set_value (o : TransactionOutput) (v : Value) : TransactionOutput :=
  mkTxOut (out_address o) v (out_datum o) (out_script_ref o).
Definition plain_output (a : Address) (v : Value) : TransactionOutput := mkTxOut a v None None.
Definition lovelace_only (amt : Z) : Value := mkValue amt ∅.

Definition FundingPreview := FundingIO FinalizedTxOut TransactionOutput.
Definition OperatorIO := (option FinalizedTxOut * TransactionOutput)%type.

(** The funding box less the reserve for the network fee. *)
Definition reserve_fee (reserve : Z) (o : TransactionOutput) : panics TransactionOutput :=
  if (0 <? reserve)%Z then v ← sub_unsafe (out_value o) Native reserve; Ok (set_value o v) else Ok o.

Definition operator_io (forced : bool) (reward_address : Address) (funding : FinalizedTxOut)
    (interest reserve : Z) : panics (list OperatorIO * FundingPreview) :=
  if (0 <? interest)%Z then
    if (MIN_SAFE_LOVELACE_VALUE <=? interest)%Z && negb forced then
      let operator_output := plain_output reward_address (lovelace_only interest) in
      Ok ([(None, operator_output)],
          if bool_decide (reward_address = out_address (fin_output funding))
          then FundingAdded funding operator_output else FundingNotUsed funding)
    else if forced then
      operator_output ← reserve_fee reserve (fin_output funding);
      operator_output ←
        (if (interest <? MIN_SAFE_LOVELACE_VALUE)%Z
         then v ← add_unsafe (out_value operator_output) Native interest; Ok (set_value operator_output v)
         else Ok operator_output);
      Ok ((Some funding, operator_output) ::
            (if (MIN_SAFE_LOVELACE_VALUE <=? interest)%Z
             then [(None, plain_output reward_address (lovelace_only interest))] else []),
          FundingReplaced funding operator_output)
    else
      v ← add_unsafe (out_value (fin_output funding)) Native interest;
      let operator_output := plain_output (out_address (fin_output funding)) v in
      Ok ([(Some funding, operator_output)], FundingReplaced funding operator_output)
  else if forced then
    operator_output ← reserve_fee reserve (fin_output funding);
    Ok ([(Some funding, operator_output)], FundingReplaced funding operator_output)
  else Ok ([], FundingNotUsed funding).

(** ** The order of inputs and outputs *)

Definition TxIO := ((ScriptInputBlueprint * TransactionOutput) + OperatorIO)%type.

Definition io_rank (forced : bool) (accounts : gset OutputRef) (io : TxIO) : nat :=
  if forced then
    match io with
    | inl (input, _) => if bool_decide (si_reference input ∈ accounts) then 0 else 2
    | inr (Some _, _) => 1
    | inr (None, _) => 3
    end
  else match io with inr (None, _) => 0 | _ => 1 end.

Definition io_reference (io : TxIO) : option OutputRef :=
  match io with
  | inl (input, _) => Some (si_reference input)
  | inr (Some f, _) => Some (reference f)
  | inr (None, _) => None
  end.

Definition io_output (io : TxIO) : TransactionOutput :=
  match io with inl (_, o) => o | inr (_, o) => o end.

Definition io_cmp (forced : bool) (accounts : gset OutputRef) (lh rh : TxIO) : comparison :=
  lex (Nat.compare (io_rank forced accounts lh) (io_rank forced accounts rh))
    match io_reference lh, io_reference rh with
    | Some l, Some r => ref_cmp l r
    | _, _ => Eq
    end.
Definition io_le (forced : bool) (accounts : gset OutputRef) (lh rh : TxIO) : Prop :=
  io_cmp forced accounts lh rh <> Gt.
Global Instance io_le_dec forced accounts : RelDecision (io_le forced accounts).
Proof. unfold io_le. solve_decision. Defined.

Definition sort_io (forced : bool) (accounts : gset OutputRef) (all_io : list TxIO) : list TxIO :=
  merge_sort (io_le forced accounts) all_io.

(** [cml_spend_indexes]: the position of every input among all inputs. *)
Definition spend_indexes (all_io : list TxIO) : TxInputsOrdering :=
  positions (merge_sort ref_le (omap io_reference all_io)).

Definition account_signers (accounts : gset OutputRef) (all_io : list TxIO) : list bytes :=
  foldl (fun l s => set_add s l) []
    (concat (omap (fun io =>
       match io with
       | inl (input, _) => if bool_decide (si_reference input ∈ accounts) then Some (si_signers input) else None
       | inr _ => None
       end) all_io)).

(** ** Witness scripts *)

Definition keyed_intention_le {A} (a b : nat * A) : Prop := a.1 <= b.1.
Global Instance keyed_intention_le_dec {A} : RelDecision (@keyed_intention_le A).
Proof. unfold keyed_intention_le. intros a b. apply _. Defined.

(** [sort_by_key]: the intentions of the batch by the position of their account. *)
Definition sort_intentions (o : TxInputsOrdering) (intentions : list (OutputRef * AlephAuthorizedIntention))
    : panics (list AlephAuthorizedIntention) :=
  keyed ← map_outcome (fun ri => ix ← index_of o ri.1; Ok (ix, ri.2)) intentions;
  Ok ((merge_sort keyed_intention_le keyed).*2).

Context `{CD : CborDecodeLib}.

Definition batch_witness (o : TxInputsOrdering) (b : TxBlueprint)
    : panics (gmap bytes (DeployedValidatorErased * (PlutusData * Z))) :=
  match aleph_batch_witness b with
  | None => Ok (witness_scripts b)
  | Some (wit, intentions) =>
    sorted ← sort_intentions o intentions;
    rdmr ← batch_redeemer_into_pd sorted;
    let key := match witness_scripts b !! dv_hash wit with Some (w, _) => w | None => wit end in
    Ok (<[dv_hash wit := (key, (rdmr, Z.of_nat (length intentions)))]> (witness_scripts b))
  end.

Definition witness_le (a b : bytes * (DeployedValidatorErased * (PlutusData * Z))) : Prop :=
  bytes_cmp a.1 b.1 <> Gt.
Global Instance witness_le_dec : RelDecision witness_le.
Proof. unfold witness_le. solve_decision. Defined.

(** The witnesses by script hash.  Their reward addresses are on one network
    with script credentials, so they are ordered by the same hashes and the
    index of a reward address is the position of the witness. *)
Definition sorted_witnesses (w : gmap bytes (DeployedValidatorErased * (PlutusData * Z)))
    : list (DeployedValidatorErased * (PlutusData * Z)) :=
  (merge_sort witness_le (map_to_list w)).*2.

(** ** The projection *)

Definition project_script_io (o : TxInputsOrdering) (t : TransactionBuilder)
    (input : ScriptInputBlueprint) (output : TransactionOutput)
    : panics (TransactionBuilder * (RedeemerTag * nat * ExUnits)) :=
  rdmr ← compute_redeemer (si_redeemer input) o;
  t ← tb_add_input t (mkBuilderInput (si_reference input) (si_utxo input)
                        (PlutusRef (si_hash input) rdmr (si_signers input)));
  t ← tb_add_output t output;
  ix ← index_of o (si_reference input);
  Ok (t, (Spend, ix, compute_cost (si_cost input) ix)).

Definition project_funding_io (t : TransactionBuilder) (io : OperatorIO) : panics TransactionBuilder :=
  t ← match io.1 with
      | Some f => tb_add_input t (mkBuilderInput (reference f) (fin_output f) PaymentKey)
      | None => Ok t
      end;
  tb_add_output t io.2.

Fixpoint project_io (o : TxInputsOrdering) (t : TransactionBuilder) (all_io : list TxIO)
    (pending : list (RedeemerTag * nat * ExUnits))
    : panics (TransactionBuilder * list (RedeemerTag * nat * ExUnits)) :=
  match all_io with
  | [] => Ok (t, pending)
  | inl (input, output) :: rest =>
    '(t, u) ← project_script_io o t input output;
    project_io o t rest (pending ++ [u])
  | inr io :: rest =>
    t ← project_funding_io t io;
    project_io o t rest pending
  end.

Definition set_all_exunits (t : TransactionBuilder) (l : list (RedeemerTag * nat * ExUnits)) : TransactionBuilder :=
  foldl (fun t u => tb_set_exunits t u.1.1 u.1.2 u.2) t l.

Definition project_witness (network_id : Z) (t : TransactionBuilder)
    (w : DeployedValidatorErased * (PlutusData * Z)) : TransactionBuilder :=
  tb_add_withdrawal (tb_add_reference_input t (ref_input w.1) (ref_output w.1))
    (mkWithdrawal network_id (dv_hash w.1) w.2.1).

Definition witness_exunits (ws : list (DeployedValidatorErased * (PlutusData * Z)))
    : list (RedeemerTag * nat * ExUnits) :=
  imap (fun ix w => (Reward, ix, ex_add (dv_ex_budget w.1) (ex_scale (dv_marginal_cost w.1) w.2.2))) ws.

Definition project_onto_builder (b : TxBlueprint) (t : TransactionBuilder) (network_id : Z)
    (reward_address : Address) (funding : FinalizedTxOut) (interest reserve : Z)
    : panics (TransactionBuilder * FundingPreview) :=
  let forced := forces_operator_funding_input b in
  '(operator, funding_io) ← operator_io forced reward_address funding interest reserve;
  let all_io := sort_io forced (account_script_refs b) ((inl <$> script_io b) ++ (inr <$> operator)) in
  let ordering := spend_indexes all_io in
  let t := foldl tb_add_required_signer t (account_signers (account_script_refs b) all_io) in
  witnesses ← batch_witness ordering b;
  let t := foldl (fun t ro => tb_add_reference_input t ro.1 ro.2) t (reference_inputs b) in
  '(t, spend) ← project_io ordering t all_io [];
  let t := set_all_exunits t spend in
  let ws := sorted_witnesses witnesses in
  let t := foldl (project_witness network_id) t ws in
  Ok (set_all_exunits t (witness_exunits ws), funding_io).

End Builder.
