(* ===== verification/TxBlueprintProofs.v ===== *)
(** * Projected transactions are aligned with the ledger

    Theorems about [TxBlueprint.v]: the ledger orders the inputs of a
    transaction by reference; every redeemer, its execution units and the
    intentions of a batch are placed by that order.  The projection adds
    nothing but the operator's share to the balance of the script inputs. *)

From stdpp Require Import base gmap list sorting.
From Stdlib Require Import ZArith Lia Strings.Byte.
From S2P Require Import Prelude Mpf LbTypes Assets PlutusData Intention GreenOrder LbCore AccountStore.
From S2P Require Import LbCoreProofs AccountIndex Containers Redeemers TxBlueprint.

(** ** The order of references *)

Lemma ref_cmp_opp a b : ref_cmp b a = CompOpp (ref_cmp a b).
Proof. unfold ref_cmp. by rewrite lex_opp, <- bytes_cmp_opp, <- Z.compare_antisym. Qed.

Lemma ref_cmp_eq a b : ref_cmp a b = Eq -> a = b.
Proof. intros [E1%bytes_cmp_eq E2%Z.compare_eq]%lex_eq. destruct a, b; cbn in *; congruence. Qed.

Lemma ref_cmp_refl a : ref_cmp a a = Eq.
Proof. unfold ref_cmp. by rewrite bytes_cmp_refl, Z.compare_refl. Qed.

Lemma ref_cmp_lt_trans a b c : ref_cmp a b = Lt -> ref_cmp b c = Lt -> ref_cmp a c = Lt.
Proof.
  unfold ref_cmp. rewrite !lex_lt, !Z.compare_lt_iff.
  intros [H1|[E1%bytes_cmp_eq H1]] [H2|[E2%bytes_cmp_eq H2]].
  - left. by eapply bytes_cmp_lt_trans.
  - left. by rewrite <- E2.
  - left. by rewrite E1.
  - right. rewrite E1, E2. split; [apply bytes_cmp_refl|lia].
Qed.

Lemma ref_le_spec a b : ref_le a b <-> a = b \/ ref_cmp a b = Lt.
Proof.
  unfold ref_le. split.
  - destruct (ref_cmp a b) eqn:E; [left; by apply ref_cmp_eq|by right|done].
  - intros [->|E]; [by rewrite ref_cmp_refl|by rewrite E].
Qed.

Global Instance ref_le_total : Total ref_le.
Proof.
  intros a b. unfold ref_le. rewrite (ref_cmp_opp a b). destruct (ref_cmp a b); cbn; auto.
Qed.
Global Instance ref_le_trans : Transitive ref_le.
Proof.
  intros a b c. rewrite !ref_le_spec. intros [->|H1] [->|H2]; auto. right. by eapply ref_cmp_lt_trans.
Qed.
Global Instance ref_le_antisym : AntiSymm eq ref_le.
Proof.
  intros a b. rewrite !ref_le_spec, (ref_cmp_opp a b). intros [->|H1] [?|H2]; [done..|].
  by rewrite H1 in H2.
Qed.

(** ** The order of inputs and outputs *)

Lemma io_rank_reference forced accounts x y : io_rank forced accounts x = io_rank forced accounts y ->
  is_Some (io_reference x) <-> is_Some (io_reference y).
Proof.
  destruct forced, x as [[i o]|[[f|] o]], y as [[i' o']|[[f'|] o']]; cbn; repeat case_bool_decide;
    try done; intros _; split; eauto; by intros [? ?].
Qed.

Lemma io_le_spec forced accounts x y : io_le forced accounts x y <->
  io_rank forced accounts x < io_rank forced accounts y \/
  io_rank forced accounts x = io_rank forced accounts y /\
  forall l r, io_reference x = Some l -> io_reference y = Some r -> ref_le l r.
Proof.
  unfold io_le, io_cmp.
  destruct (Nat.compare_spec (io_rank forced accounts x) (io_rank forced accounts y)) as [E|Hl|Hl]; cbn.
  - destruct (io_reference x) as [l|], (io_reference y) as [r|]; cbn; split; try (intros; right; by split).
    + intros H. right. split; [done|]. by intros ? ? [= <-] [= <-].
    + intros [?|[_ H]]; [lia|]. by apply (H l r).
    + done. + done. + done.
  - split; [by left|done].
  - split; [done|]. intros [?|[? _]]; lia.
Qed.

Global Instance io_le_total forced accounts : Total (io_le forced accounts).
Proof.
  intros x y. rewrite !io_le_spec.
  destruct (Nat.lt_trichotomy (io_rank forced accounts x) (io_rank forced accounts y)) as [?|[E|?]]; auto.
  destruct (io_reference x) as [l|] eqn:El.
  2:{ left. right. split; [done|]. intros. congruence. }
  destruct (io_reference y) as [r|] eqn:Er.
  2:{ left. right. split; [done|]. intros. congruence. }
  destruct (total ref_le l r) as [Hl|Hl]; [left|right]; right; (split; [done|]);
    intros ? ? [= <-] [= <-]; exact Hl.
Qed.

Global Instance io_le_trans forced accounts : Transitive (io_le forced accounts).
Proof.
  intros x y z. rewrite !io_le_spec. intros [H1|[E1 H1]] [H2|[E2 H2]]; [left; lia..|].
  right. split; [congruence|]. intros l r El Er.
  destruct (io_reference y) as [m|] eqn:Em.
  - etrans; [by apply H1|by apply H2].
  - apply io_rank_reference in E1 as [E1 _]. rewrite El, Em in E1. by destruct E1.
Qed.

(** ** The ledger's index of an input

    The ledger sorts the inputs of a transaction by reference: the index of an
    input is the number of inputs with a smaller reference. *)

Definition ledger_index (refs : list OutputRef) (r : OutputRef) : nat :=
  length (filter (fun x => ref_cmp x r = Lt) refs).

Global Instance ledger_index_perm : Proper ((≡ₚ) ==> eq ==> eq) ledger_index.
Proof. intros l l' Hl r ? <-. unfold ledger_index. by rewrite Hl. Qed.

Lemma ledger_index_sorted l ix r : StronglySorted ref_le l -> NoDup l -> l !! ix = Some r ->
  ledger_index l r = ix.
Proof.
  intros Hs Hn Hl. unfold ledger_index. rewrite <- (take_drop_middle l ix r Hl) in Hs, Hn |- *.
  apply StronglySorted_app in Hs as (Hlt & _ & Hgt). apply StronglySorted_cons in Hgt as [Hgt _].
  rewrite NoDup_app, NoDup_cons in Hn. destruct Hn as (_ & Hd & Hnr & _).
  rewrite filter_app, length_app, filter_cons_False by by rewrite ref_cmp_refl.
  rewrite (filter_all (fun x => ref_cmp x r = Lt) (take ix l)).
  - rewrite (filter_none (fun x => ref_cmp x r = Lt) (drop (S ix) l)).
    + cbn. rewrite length_take. apply lookup_lt_Some in Hl. lia.
    + rewrite Forall_forall in Hgt |- *. intros x Hx. rewrite (ref_cmp_opp r x). specialize (Hgt x Hx).
      apply ref_le_spec in Hgt as [->|E]; [by rewrite ref_cmp_refl|by rewrite E].
  - apply Forall_forall. intros x Hx. assert (ref_le x r) as [->|E]%ref_le_spec; [|exfalso|done].
    + apply Hlt; [done|by left].
    + apply (Hd r Hx). by left.
Qed.

Lemma positions_elem (l : list OutputRef) r k : positions l !! r = Some k -> r ∈ l.
Proof.
  unfold positions. intros H%elem_of_list_to_map_2. rewrite elem_of_reverse in H.
  apply elem_of_lookup_imap in H as (i & x & [= -> ->] & Hx). by eapply list_elem_of_lookup_2.
Qed.

Lemma sorted_refs_lookup refs r : NoDup refs -> r ∈ refs ->
  positions (merge_sort ref_le refs) !! r = Some (ledger_index refs r).
Proof.
  intros Hn Hr. pose proof (merge_sort_Permutation ref_le refs) as Hp.
  assert (r ∈ merge_sort ref_le refs) as [ix Hix]%list_elem_of_lookup by by rewrite Hp.
  assert (NoDup (merge_sort ref_le refs)) as Hn' by by rewrite Hp.
  rewrite (positions_lookup _ _ _ Hn' Hix). f_equal. rewrite <- Hp. symmetry.
  apply ledger_index_sorted; [apply StronglySorted_merge_sort; apply _|done|done].
Qed.

(** ** What the projection adds to the builder *)

Lemma foldl_keeps {A B C} (f : A -> B -> A) (g : A -> C) l a :
  (forall a b, g (f a b) = g a) -> g (foldl f a l) = g a.
Proof. intros Hf. revert a. induction l as [|b l IH]; intros a; [done|]. cbn. by rewrite IH, Hf. Qed.

Lemma foldl_appends {A B C} (f : A -> B -> A) (g : A -> list C) (h : B -> C) l a :
  (forall a b, g (f a b) = g a ++ [h b]) -> g (foldl f a l) = g a ++ (h <$> l).
Proof.
  intros Hf. revert a. induction l as [|b l IH]; intros a; cbn; [by rewrite app_nil_r|].
  by rewrite IH, Hf, <- (assoc_L (++)).
Qed.

Section Projection.
Context `{TL : TxBuilderLib} `{CD : CborDecodeLib}.

Definition script_input (o : TxInputsOrdering) (i : ScriptInputBlueprint) : option BuilderInput :=
  match compute_redeemer (si_redeemer i) o with
  | Ok r => Some (mkBuilderInput (si_reference i) (si_utxo i) (PlutusRef (si_hash i) r (si_signers i)))
  | _ => None
  end.

Definition io_input (o : TxInputsOrdering) (io : TxIO) : option BuilderInput :=
  match io with
  | inl (i, _) => script_input o i
  | inr (f, _) => (fun f => mkBuilderInput (reference f) (fin_output f) PaymentKey) <$> f
  end.

Definition io_units (o : TxInputsOrdering) (io : TxIO) : option (RedeemerTag * nat * ExUnits) :=
  match io with
  | inl (i, _) => (fun ix => (Spend, ix, compute_cost (si_cost i) ix)) <$> o !! si_reference i
  | inr _ => None
  end.

Definition io_projected (o : TxInputsOrdering) (io : TxIO) : Prop :=
  match io with
  | inl (i, _) => is_Some (script_input o i) /\ is_Some (o !! si_reference i)
  | inr _ => True
  end.

(** Everything but the inputs and outputs. *)
Definition tb_rest (t : TransactionBuilder) :=
  (tb_reference_inputs t, tb_signers t, tb_withdrawals t, tb_exunits t, tb_collateral t, tb_metadata t).

Lemma tb_add_input_Ok t i t' : tb_add_input t i = Ok t' ->
  tb_inputs t' = tb_inputs t ++ [i] /\ tb_outputs t' = tb_outputs t /\ tb_rest t' = tb_rest t.
Proof. unfold tb_add_input. destruct (input_accepted t i); [|done]. by intros [= <-]. Qed.

Lemma tb_add_output_Ok t o t' : tb_add_output t o = Ok t' ->
  tb_inputs t' = tb_inputs t /\ tb_outputs t' = tb_outputs t ++ [o] /\ tb_rest t' = tb_rest t.
Proof. unfold tb_add_output. destruct (output_accepted t o); [|done]. by intros [= <-]. Qed.

Lemma project_script_io_Ok o t i out t' u : project_script_io o t i out = Ok (t', u) ->
  io_projected o (inl (i, out)) /\
  tb_inputs t' = tb_inputs t ++ option_list (io_input o (inl (i, out))) /\
  tb_outputs t' = tb_outputs t ++ [out] /\ tb_rest t' = tb_rest t /\ io_units o (inl (i, out)) = Some u.
Proof.
  unfold project_script_io. cbn. unfold script_input, index_of.
  destruct (compute_redeemer (si_redeemer i) o) as [r| |]; [|done..]. cbn.
  destruct (tb_add_input t _) as [t1| |] eqn:E1; [|done..]. cbn.
  destruct (tb_add_output t1 out) as [t2| |] eqn:E2; [|done..]. cbn.
  destruct (o !! si_reference i) as [ix|]; [|done]. cbn. intros [= <- <-].
  apply tb_add_input_Ok in E1 as (I1 & O1 & R1). apply tb_add_output_Ok in E2 as (I2 & O2 & R2).
  rewrite I2, O2, R2, I1, O1, R1. split_and!; eauto.
Qed.

Lemma project_funding_io_Ok o t io t' : project_funding_io t io = Ok t' ->
  tb_inputs t' = tb_inputs t ++ option_list (io_input o (inr io)) /\
  tb_outputs t' = tb_outputs t ++ [io_output (inr io)] /\ tb_rest t' = tb_rest t.
Proof.
  destruct io as [[f|] out]; unfold project_funding_io; cbn.
  - destruct (tb_add_input t _) as [t1| |] eqn:E1; [|done..]. cbn. intros E2.
    apply tb_add_input_Ok in E1 as (I1 & O1 & R1). apply tb_add_output_Ok in E2 as (I2 & O2 & R2).
    by rewrite I2, O2, R2, I1, O1, R1.
  - intros (I2 & O2 & R2)%tb_add_output_Ok. by rewrite I2, O2, R2, app_nil_r.
Qed.

Lemma project_io_Ok o l t p t' sp : project_io o t l p = Ok (t', sp) ->
  Forall (io_projected o) l /\ tb_inputs t' = tb_inputs t ++ omap (io_input o) l /\
  tb_outputs t' = tb_outputs t ++ (io_output <$> l) /\ tb_rest t' = tb_rest t /\
  sp = p ++ omap (io_units o) l.
Proof.
  revert t p. induction l as [|[[i out]|io] l IH]; intros t p.
  - cbn. intros [= <- <-]. by rewrite !app_nil_r.
  - cbn [project_io]. destruct (project_script_io o t i out) as [[t1 u]| |] eqn:E; [|done..]. cbn [mbind outcome_bind].
    intros (Hf & I & O & R & ->)%IH. apply project_script_io_Ok in E as (Hp & I1 & O1 & R1 & U).
    rewrite I, O, R, I1, O1, R1, <- !(assoc_L (++)). split_and!; [by constructor|..|done|].
    + f_equal. cbn [omap list_omap]. by destruct (io_input o _).
    + done.
    + f_equal. cbn [omap list_omap]. by rewrite U.
  - cbn [project_io]. destruct (project_funding_io t io) as [t1| |] eqn:E; [|done..]. cbn [mbind outcome_bind].
    intros (Hf & I & O & R & ->)%IH. apply (project_funding_io_Ok o) in E as (I1 & O1 & R1).
    rewrite I, O, R, I1, O1, R1, <- !(assoc_L (++)). split_and!; [by constructor|..|done|done].
    + f_equal. cbn [omap list_omap]. by destruct (io_input o _).
    + done.
Qed.

(** The references of the inputs are those of the sorted entries. *)
Lemma projected_references o l : Forall (io_projected o) l ->
  bi_reference <$> omap (io_input o) l = omap io_reference l.
Proof.
  induction 1 as [|[[i out]|[[f|] out]] l Hp _ IH]; cbn; [done|..|by f_equal|done].
  destruct Hp as [[b Hb] _]. rewrite Hb. cbn. rewrite IH. f_equal.
  unfold script_input in Hb. destruct (compute_redeemer _ _); by simplify_eq.
Qed.

Lemma set_all_exunits_fields t l :
  tb_inputs (set_all_exunits t l) = tb_inputs t /\ tb_outputs (set_all_exunits t l) = tb_outputs t /\
  tb_signers (set_all_exunits t l) = tb_signers t /\ tb_withdrawals (set_all_exunits t l) = tb_withdrawals t /\
  tb_exunits (set_all_exunits t l) = tb_exunits t ++ l.
Proof.
  unfold set_all_exunits. split_and!; try (by apply foldl_keeps).
  rewrite (foldl_appends _ _ id) by by intros ? [[? ?] ?]. by rewrite list_fmap_id.
Qed.

Definition witness_withdrawal (n : Z) (w : DeployedValidatorErased * (PlutusData * Z)) : BuilderWithdrawal :=
  mkWithdrawal n (dv_hash w.1) w.2.1.

(** The projection, field by field. *)
Lemma project_fields b n a f interest reserve t fio :
  project_onto_builder b constant_tx_builder n a f interest reserve = Ok (t, fio) ->
  exists operator witnesses,
    let forced := forces_operator_funding_input b in
    let l := sort_io forced (account_script_refs b) ((inl <$> script_io b) ++ (inr <$> operator)) in
    let o := spend_indexes l in
    operator_io forced a f interest reserve = Ok (operator, fio) /\ batch_witness o b = Ok witnesses /\
    Forall (io_projected o) l /\ tb_inputs t = omap (io_input o) l /\ tb_outputs t = io_output <$> l /\
    tb_signers t = account_signers (account_script_refs b) l /\
    tb_withdrawals t = witness_withdrawal n <$> sorted_witnesses witnesses /\
    tb_exunits t = omap (io_units o) l ++ witness_exunits (sorted_witnesses witnesses).
Proof.
  unfold project_onto_builder. set (forced := forces_operator_funding_input b).
  destruct (operator_io forced a f interest reserve) as [[operator fio']| |]; [|done..]. cbn [mbind outcome_bind].
  set (l := sort_io _ _ _). set (o := spend_indexes l).
  destruct (batch_witness o b) as [witnesses| |] eqn:Ew; [|done..]. cbn [mbind outcome_bind].
  set (t1 := foldl _ _ (reference_inputs b)).
  destruct (project_io o t1 l []) as [[t2 sp]| |] eqn:Ep; [|done..]. cbn [mbind outcome_bind].
  intros [= <- <-]. exists operator, witnesses. split; [done|]. split; [exact Ew|].
  apply project_io_Ok in Ep as (Hp & I & O & R & ->). injection R as Rr Rs Rw Ru _ _. cbn [app].
  assert (tb_inputs t1 = [] /\ tb_outputs t1 = [] /\ tb_withdrawals t1 = [] /\ tb_exunits t1 = [] /\
    tb_signers t1 = account_signers (account_script_refs b) l) as (I1 & O1 & W1 & U1 & S1).
  { subst t1. rewrite !(foldl_keeps _ tb_inputs), !(foldl_keeps _ tb_outputs), !(foldl_keeps _ tb_withdrawals),
      !(foldl_keeps _ tb_exunits) by done. rewrite (foldl_keeps _ tb_signers) by done.
    rewrite (foldl_appends _ tb_signers id), list_fmap_id by done. done. }
  edestruct (set_all_exunits_fields (foldl (project_witness n) (set_all_exunits t2 (omap (io_units o) l))
    (sorted_witnesses witnesses))) as (-> & -> & -> & -> & ->).
  rewrite (foldl_keeps _ tb_inputs), (foldl_keeps _ tb_outputs), (foldl_keeps _ tb_signers),
    (foldl_keeps _ tb_exunits), (foldl_appends _ tb_withdrawals (witness_withdrawal n)) by done.
  edestruct (set_all_exunits_fields t2 (omap (io_units o) l)) as (-> & -> & -> & -> & ->).
  rewrite I, O, Rs, Rw, Ru, I1, O1, W1, U1, S1. by split_and!.
Qed.

(** ** Alignment *)

Lemma sort_intentions_Ok o l l' : sort_intentions o l = Ok l' ->
  exists sorted, sorted ≡ₚ l /\ l' = sorted.*2 /\ Forall (fun ri => is_Some (o !! ri.1)) sorted /\
    StronglySorted (fun x y => default 0 (o !! x.1) <= default 0 (o !! y.1)) sorted.
Proof.
  unfold sort_intentions. set (key := fun ri : OutputRef * AlephAuthorizedIntention => _).
  destruct (map_outcome key l) as [keyed| |] eqn:Ek; [|done..]. cbn. intros [= <-].
  apply map_outcome_inv in Ek.
  assert (Forall2 (fun (k : nat * AlephAuthorizedIntention) (ri : OutputRef * AlephAuthorizedIntention) =>
    o !! ri.1 = Some k.1 /\ ri.2 = k.2) keyed l) as Hk.
  { apply Forall2_flip. eapply Forall2_impl; [exact Ek|]. intros [r i] [ix j]. unfold key, index_of. cbn.
    destruct (o !! r); by intros [= -> ->]. }
  destruct (Permutation_Forall2 (symmetry (merge_sort_Permutation keyed_intention_le keyed)) Hk) as (sorted & Hp & Hs).
  exists sorted. split; [done|].
  assert (StronglySorted keyed_intention_le (merge_sort keyed_intention_le keyed)) as Hso.
  { apply StronglySorted_merge_sort; unfold keyed_intention_le; [intros ? ? ?; lia|intros ? ?; lia]. }
  revert Hs Hso. generalize (merge_sort keyed_intention_le keyed). clear. intros k Hs.
  induction Hs as [|[ix i] [r j] k l [Ho Ei] Hs IH]; [by repeat constructor|]. cbn in *. subst j.
  rewrite StronglySorted_cons. intros [Hk (-> & Hf & Hso)%IH]. split_and!; [done|by constructor|].
  constructor; [done|]. cbn. rewrite Ho. cbn. apply Forall_forall. intros [r' j] Hin.
  apply list_elem_of_lookup in Hin as [n Hn].
  destruct (Forall2_lookup_r _ _ _ _ _ Hs Hn) as ([ix' i'] & Hl & Ho' & _). cbn in *. rewrite Ho'. cbn.
  apply (Forall_lookup_1 _ _ _ _ Hk Hl).
Qed.

Lemma sorted_witnesses_elem w key v : w !! key = Some v -> v ∈ sorted_witnesses w.
Proof.
  intros Hl. unfold sorted_witnesses. apply list_elem_of_fmap. exists (key, v). split; [done|].
  rewrite merge_sort_Permutation. by apply elem_of_map_to_list.
Qed.

Lemma batch_witness_Ok o b w wit intentions : witnesses_keyed b -> batch_witness o b = Ok w ->
  aleph_batch_witness b = Some (wit, intentions) ->
  exists l rdmr v, sort_intentions o intentions = Ok l /\ batch_redeemer_into_pd l = Ok rdmr /\
    v ∈ sorted_witnesses w /\ dv_hash v.1 = dv_hash wit /\ v.2 = (rdmr, Z.of_nat (length intentions)).
Proof.
  unfold batch_witness. intros Hk Hw Hb. rewrite Hb in Hw.
  destruct (sort_intentions o intentions) as [l| |]; [|done..]. cbn in Hw.
  destruct (batch_redeemer_into_pd l) as [rdmr| |] eqn:Er; [|done..]. cbn in Hw. injection Hw as <-.
  eexists l, rdmr, _. split_and!; [done|done|eapply sorted_witnesses_elem, lookup_insert_eq| |done].
  cbn. destruct (witness_scripts b !! dv_hash wit) as [[v x]|] eqn:E; [|done]. by apply (Hk _ _ E).
Qed.

(** C11: Redeemers and intentions are placed as the ledger will read them.  The
    ledger numbers the inputs of a transaction by reference.  In a projected
    transaction whose inputs are distinct, every script input is present with
    its output, the redeemer computed from the ledger's numbering and its
    execution units filed under its ledger number; the redeemer of the batch
    witness lists exactly the batch's intentions, in the ledger order of their
    accounts. *)
Theorem projection_aligned b n a f interest reserve t fio :
  witnesses_keyed b ->
  project_onto_builder b constant_tx_builder n a f interest reserve = Ok (t, fio) ->
  let refs := bi_reference <$> tb_inputs t in
  NoDup refs ->
  exists o : TxInputsOrdering,
    (forall r, r ∈ refs -> o !! r = Some (ledger_index refs r)) /\
    (forall i out, (i, out) ∈ script_io b ->
       let k := ledger_index refs (si_reference i) in
       exists rdmr, compute_redeemer (si_redeemer i) o = Ok rdmr /\
         mkBuilderInput (si_reference i) (si_utxo i) (PlutusRef (si_hash i) rdmr (si_signers i)) ∈ tb_inputs t /\
         out ∈ tb_outputs t /\ (Spend, k, compute_cost (si_cost i) k) ∈ tb_exunits t) /\
    (forall wit intentions, aleph_batch_witness b = Some (wit, intentions) ->
       exists sorted rdmr, sorted ≡ₚ intentions /\
         StronglySorted (fun x y => ledger_index refs x.1 <= ledger_index refs y.1) sorted /\
         batch_redeemer_into_pd sorted.*2 = Ok rdmr /\ mkWithdrawal n (dv_hash wit) rdmr ∈ tb_withdrawals t).
Proof.
  intros Hk (operator & w & _ & Hw & Hp & I & O & _ & W & U)%project_fields refs Hn.
  set (l := sort_io _ _ _) in *. set (o := spend_indexes l) in *. exists o.
  assert (refs = omap io_reference l) as Er by (unfold refs; rewrite I; by apply projected_references).
  assert (forall r, r ∈ refs -> o !! r = Some (ledger_index refs r)) as Ho.
  { intros r Hr. rewrite Er in Hr, Hn |- *. by apply sorted_refs_lookup. }
  split; [done|]. split.
  - intros i out Hin. cbn.
    assert (inl (i, out) ∈ l) as Hl.
    { subst l. unfold sort_io. rewrite merge_sort_Permutation. apply elem_of_app. left. by apply list_elem_of_fmap_2. }
    rewrite Forall_forall in Hp. destruct (Hp _ Hl) as [[x Hx] _].
    assert (x ∈ tb_inputs t) as Hxt by (rewrite I; apply list_elem_of_omap; by exists (inl (i, out))).
    unfold script_input in Hx. destruct (compute_redeemer (si_redeemer i) o) as [rdmr| |] eqn:Ec; [|done..].
    injection Hx as <-. exists rdmr. split_and!; [done|done|..].
    + rewrite O. apply list_elem_of_fmap. by exists (inl (i, out)).
    + rewrite U. apply elem_of_app. left. apply list_elem_of_omap. exists (inl (i, out)). split; [done|].
      cbn. rewrite Ho; [done|]. unfold refs. apply list_elem_of_fmap. by eexists; split; [|exact Hxt].
  - intros wit intentions Hb.
    destruct (batch_witness_Ok _ _ _ _ _ Hk Hw Hb) as (li & rdmr & v & Hs & Hr & Hv & Eh & Ev).
    apply sort_intentions_Ok in Hs as (sorted & Hperm & -> & Hf & Hso). exists sorted, rdmr.
    split_and!; [done| |done|].
    + assert (Forall (fun ri : OutputRef * AlephAuthorizedIntention => o !! ri.1 = Some (ledger_index refs ri.1)) sorted) as Hf'.
      { eapply Forall_impl; [exact Hf|]. intros ri [k Hk']. apply Ho. rewrite Er.
        apply positions_elem in Hk'. by rewrite (merge_sort_Permutation ref_le) in Hk'. }
      clear -Hso Hf'. induction Hso as [|x sorted _ IH Hx]; [constructor|].
      apply Forall_cons in Hf' as [Ex Hf']. constructor; [by apply IH|].
      rewrite Forall_forall in Hx, Hf' |- *. intros y Hy. specialize (Hx y Hy). by rewrite Ex, (Hf' y Hy) in Hx.
    + rewrite W. apply list_elem_of_fmap. exists v. split; [|done]. unfold witness_withdrawal. by rewrite Eh, Ev.
Qed.

(** ** Balance *)

#[local] Arguments amount : simpl never.
#[local] Arguments lovelace_only : simpl never.

Definition output_amount (a : AssetClass) (o : TransactionOutput) : Z := amount (out_value o) a.

(** What the inputs of a transaction hold beyond its outputs. *)
Definition tx_surplus (t : TransactionBuilder) (a : AssetClass) : Z :=
  zsum ((fun i => output_amount a (bi_utxo i)) <$> tb_inputs t) - zsum (output_amount a <$> tb_outputs t).

Definition io_input_amount (a : AssetClass) (io : TxIO) : Z :=
  match io with
  | inl (i, _) => output_amount a (si_utxo i)
  | inr (Some f, _) => output_amount a (fin_output f)
  | inr (None, _) => 0
  end.
Definition io_surplus (a : AssetClass) (io : TxIO) : Z := io_input_amount a io - output_amount a (io_output io).

Definition script_surplus (b : TxBlueprint) (a : AssetClass) : Z := zsum (io_surplus a <$> (inl <$> script_io b)).

Lemma zsum_diff {A} (f g : A -> Z) l : zsum ((fun x => f x - g x)%Z <$> l) = (zsum (f <$> l) - zsum (g <$> l))%Z.
Proof. induction l as [|x l IH]; [done|]. rewrite !fmap_cons. unfold zsum in *. cbn [foldr]. lia. Qed.

Lemma projected_inputs_sum o l a : Forall (io_projected o) l ->
  zsum ((fun i => output_amount a (bi_utxo i)) <$> omap (io_input o) l) = zsum (io_input_amount a <$> l).
Proof.
  induction 1 as [|io l Hp _ IH]; [done|]. rewrite fmap_cons. unfold zsum in *. cbn [foldr].
  rewrite <- IH. destruct io as [[i out]|[[f|] out]]; cbn; [|done..].
  destruct Hp as [[x Hx] _]. rewrite Hx. cbn. f_equal.
  unfold script_input in Hx. destruct (compute_redeemer _ _); by simplify_eq.
Qed.

Lemma sub_unsafe_native {E} v amt v' a : sub_unsafe (E:=E) v Native amt = Ok v' ->
  amount v' a = (amount v a - if decide (a = Native) then amt else 0)%Z.
Proof.
  unfold sub_unsafe. destruct (_ <=? _)%Z; [|done]. intros [= <-]. unfold amount.
  destruct a; cbn; [done|]. rewrite decide_False by done. lia.
Qed.

Lemma add_unsafe_native {E} v amt v' a : add_unsafe (E:=E) v Native amt = Ok v' ->
  amount v' a = (amount v a + if decide (a = Native) then amt else 0)%Z.
Proof.
  unfold add_unsafe, checked_add. destruct (_ <=? _)%Z; [|done]. cbn. intros [= <-]. unfold amount.
  destruct a; cbn; [done|]. rewrite decide_False by done. lia.
Qed.

Lemma lovelace_only_amount amt a : amount (lovelace_only amt) a = if decide (a = Native) then amt else 0%Z.
Proof. by destruct a. Qed.

Lemma reserve_fee_amount reserve o o' a : (0 <= reserve)%Z -> reserve_fee reserve o = Ok o' ->
  output_amount a o' = (output_amount a o - if decide (a = Native) then reserve else 0)%Z.
Proof.
  unfold reserve_fee. intros Hr. destruct (Z.ltb_spec 0 reserve) as [Hlt|Hle].
  - destruct (sub_unsafe _ _ _) as [v| |] eqn:E; [|done..]. cbn. intros [= <-].
    by apply (sub_unsafe_native _ _ _ a) in E.
  - intros [= <-]. assert (reserve = 0%Z) as -> by lia. destruct (decide _); lia.
Qed.

#[local] Ltac open_surplus := unfold io_surplus; cbn; unfold output_amount in *; cbn.

(** The operator takes the interest out of the transaction and leaves the
    reserve in it. *)
Lemma operator_io_surplus forced addr f interest reserve ops fio a :
  (0 <= interest)%Z -> (0 <= reserve)%Z -> operator_io forced addr f interest reserve = Ok (ops, fio) ->
  zsum (io_surplus a <$> (inr <$> ops)) =
  if decide (a = Native) then ((if forced then reserve else 0) - interest)%Z else 0%Z.
Proof.
  intros Hi Hr. unfold operator_io. destruct (Z.ltb_spec 0 interest) as [Hpos|Hzero].
  - destruct ((MIN_SAFE_LOVELACE_VALUE <=? interest)%Z && negb forced) eqn:E1.
    { destruct forced; [by rewrite andb_false_r in E1|]. intros [= <- _]. cbn. open_surplus.
      rewrite lovelace_only_amount. destruct (decide _); lia. }
    destruct forced.
    + destruct (reserve_fee reserve (fin_output f)) as [o1| |] eqn:Er; [|done..]. cbn [mbind outcome_bind].
      apply (reserve_fee_amount _ _ _ a Hr) in Er.
      destruct (Z.ltb_spec interest MIN_SAFE_LOVELACE_VALUE) as [Hs|Hl].
      * destruct (add_unsafe _ _ _) as [v| |] eqn:Ea; [|done..]. cbn. intros [= <- _].
        apply (add_unsafe_native _ _ _ a) in Ea. cbn.
        destruct (Z.leb_spec MIN_SAFE_LOVELACE_VALUE interest); [lia|]. cbn.
        open_surplus. rewrite Ea, Er. destruct (decide _); lia.
      * cbn. intros [= <- _]. destruct (Z.leb_spec MIN_SAFE_LOVELACE_VALUE interest); [|lia]. cbn.
        open_surplus. rewrite Er, lovelace_only_amount. destruct (decide _); lia.
    + destruct (add_unsafe _ _ _) as [v| |] eqn:Ea; [|done..]. cbn. intros [= <- _].
      apply (add_unsafe_native _ _ _ a) in Ea. cbn. open_surplus. rewrite Ea. destruct (decide _); lia.
  - assert (interest = 0%Z) as -> by lia. destruct forced.
    + destruct (reserve_fee reserve (fin_output f)) as [o1| |] eqn:Er; [|done..]. cbn. intros [= <- _].
      apply (reserve_fee_amount _ _ _ a Hr) in Er. cbn. open_surplus. rewrite Er. destruct (decide _); lia.
    + intros [= <- _]. cbn. by destruct (decide _).
Qed.

(** The surplus of a projected transaction is that of its scripts, less what
    the operator takes, plus what it reserves. *)
Lemma project_surplus b n addr f interest reserve t fio a :
  (0 <= interest)%Z -> (0 <= reserve)%Z ->
  project_onto_builder b constant_tx_builder n addr f interest reserve = Ok (t, fio) ->
  tx_surplus t a = (script_surplus b a +
    if decide (a = Native) then (if forces_operator_funding_input b then reserve else 0) - interest else 0)%Z.
Proof.
  intros Hi Hr (ops & w & Ho & _ & Hp & I & O & _)%project_fields.
  set (l := sort_io _ _ _) in *. unfold tx_surplus. rewrite I, O, projected_inputs_sum by done.
  rewrite <- list_fmap_compose.
  change (output_amount a ∘ io_output) with (fun x => output_amount a (io_output x)).
  rewrite <- zsum_diff. change (fun x => io_input_amount a x - output_amount a (io_output x))%Z with (io_surplus a).
  assert (l ≡ₚ (inl <$> script_io b) ++ (inr <$> ops)) as -> by apply merge_sort_Permutation.
  rewrite fmap_app, zsum_app. f_equal. by eapply operator_io_surplus.
Qed.

End Projection.
