(* ===== verification/Interpreter.v ===== *)
(** * The interpreter of recipes

    [bloom-offchain-cardano/src/execution_engine/interpreter.rs]: a linked recipe
    is executed instruction by instruction into a blueprint, projected onto the
    transaction builder, and rebuilt until the fee it reserves is the fee the
    builder asks for.

    An order or a pool is executed through class [BatchExec]; the instances of
    the green agent are in [GreenExec.v].  The source bounds the attempts of
    some of its corrections only; here [fuel] bounds them all, and [OutOfFuel]
    is not a result of the source. *)

From stdpp Require Import base gmap list.
From Stdlib Require Import ZArith Lia Strings.Byte.
From S2P Require Import Prelude Mpf LbTypes Assets PlutusData Intention GreenOrder LbCore AccountStore.
From S2P Require Import AccountIndex Containers Redeemers TxBlueprint StateIndex Engine.

Definition MAX_FEE_CORRECTION_ATTEMPTS : Z := 24.
Definition ADDITIONAL_FEE : Z := 40000.

(** [EffectPreview<T>]: consumed states are on the ledger, produced ones not yet. *)
Notation EffectPreview T := (ExecutionEff (Bundled T TransactionOutput) (Bundled T FinalizedTxOut)).

(** [BatchExec] of a take or a make. *)
Class BatchExec (X Eff Ctx : Type) := exec : X -> ExecutionState -> Ctx -> panics (ExecutionState * Eff * Ctx).

(** What the interpreter reads of its context. *)
Class InterpreterCtx (Ctx : Type) := {
  ctx_collateral : Ctx -> FinalizedTxOut;
  ctx_network_id : Ctx -> Z;
  ctx_reward_address : Ctx -> Address;
}.

Inductive FeeCorrection :=
| RebuildSameRecipe (take_residual_fee : bool) (updated_accumulated_residue : Z)
| RebuildRebalancedRecipe (take_residual_fee : bool) (accumulated_residue : Z)
| Complete.

Inductive ExecuteRecipeError :=
| NoProgress (estimated_fee reserved_tx_fee updated_tx_fee accumulated_residue fee_mismatch : Z)
| RetryLimitExceeded (attempt estimated_fee reserved_tx_fee updated_tx_fee accumulated_residue fee_mismatch : Z)
| FeeEstimationFailed
| OutOfFuel.

Definition operator_payout_after_network_fee (reserved_tx_fee gross_operator_interest estimated_fee : Z) : Z :=
  if (reserved_tx_fee =? 0)%Z then saturating_sub gross_operator_interest estimated_fee
  else gross_operator_interest.

Definition decide_fee_correction (take_residual_fee : bool) (fee_mismatch reserved_tx_fee accumulated_residue : Z)
    : FeeCorrection :=
  if (fee_mismatch =? 0)%Z then Complete
  else if (reserved_tx_fee =? 0)%Z then Complete
  else if take_residual_fee && (0 <? fee_mismatch)%Z then
    RebuildSameRecipe true (wrap_u64 (accumulated_residue + Z.abs fee_mismatch))
  else if (fee_mismatch <? 0)%Z && (0 <? accumulated_residue)%Z then
    RebuildSameRecipe take_residual_fee
      (accumulated_residue - Z.min (Z.abs fee_mismatch) accumulated_residue)
  else RebuildRebalancedRecipe false accumulated_residue.

Section Interpreter.
Context {T U M Ctx : Type} `{TK : MarketTaker T U} `{TB : TakerBehaviour T} `{RL : RatioLib}.
Context `{TL : TxBuilderLib} `{CD : CborDecodeLib} `{IC : InterpreterCtx Ctx}.

Notation Take := (Trans (T * FinalizedTxOut) T TerminalTake).
Notation Make := (Trans (M * FinalizedTxOut) M Empty_set).
Notation Ex := (Execution T M FinalizedTxOut).

Context `{ET : !BatchExec Take (EffectPreview T) Ctx} `{EM : !BatchExec Make (EffectPreview M) Ctx}.

(** ** Execution *)

Definition map_bundled {A A' B} (f : A -> A') (x : Bundled A B) : Bundled A' B :=
  mkBundled (f (bundled x)) (bearer x).

Definition exec_one (x : Ex) (state : ExecutionState) (ctx : Ctx)
    : panics (ExecutionState * EffectPreview (T + M) * Ctx) :=
  match x with
  | TakeE t r =>
    '(state, eff, ctx) ← exec (mkTrans t r : Take) state ctx;
    eff ← eff_bimap (fun u => Ok (map_bundled inl u)) (fun e => Ok (map_bundled inl e)) eff;
    Ok (state, eff, ctx)
  | MakeE t r =>
    '(state, eff, ctx) ← exec (mkTrans t r : Make) state ctx;
    eff ← eff_bimap (fun u => Ok (map_bundled inr u)) (fun e => Ok (map_bundled inr e)) eff;
    Ok (state, eff, ctx)
  end.

Fixpoint execute (ctx : Ctx) (state : ExecutionState) (effects : list (EffectPreview (T + M))) (l : list Ex)
    : panics (ExecutionState * list (EffectPreview (T + M)) * Ctx) :=
  match l with
  | [] => Ok (state, effects, ctx)
  | x :: l =>
    '(state, eff, ctx) ← exec_one x state ctx;
    execute ctx state (effects ++ [eff]) l
  end.

(** ** Rebalancing of the takers' budgets *)

Fixpoint fee_balance_state (l : list Ex) : panics (list (bool * Z * Z)) :=
  match l with
  | [] => Ok []
  | TakeE t r :: l =>
    let '(is_terminal, remaining_budget) :=
      match r with Succ next => (false, budget next) | Term term => (true, remaining_budget term) end in
    consumed ← consumed_budget (mkTrans t r : Take);
    rest ← fee_balance_state l;
    Ok ((is_terminal, consumed, remaining_budget) :: rest)
  | MakeE _ _ :: l => fee_balance_state l
  end.

Fixpoint scale_budgets (fee_mismatch : Z) (rescale_factor : Ratio) (l : list Ex) : panics (Z * list Ex) :=
  match l with
  | [] => Ok (fee_mismatch, [])
  | TakeE t r :: l =>
    '(delta, take) ← scale_consumed_budget (mkTrans t r : Take) rescale_factor;
    '(fee_mismatch, l) ← scale_budgets (wrap_i64 (fee_mismatch + delta)) rescale_factor l;
    Ok (fee_mismatch, TakeE (target take) (result take) :: l)
  | x :: l => '(fee_mismatch, l) ← scale_budgets fee_mismatch rescale_factor l; Ok (fee_mismatch, x :: l)
  end.

Fixpoint correct_budgets (fee_mismatch : Z) (l : list Ex) : list Ex :=
  match l with
  | [] => []
  | TakeE t r :: l' =>
    if (fee_mismatch =? 0)%Z then l
    else
      let '(delta, take) := correct_consumed_budget (mkTrans t r : Take) (wrap_i64 (- fee_mismatch)) in
      TakeE (target take) (result take) :: correct_budgets (wrap_i64 (fee_mismatch + delta)) l'
  | x :: l' => x :: correct_budgets fee_mismatch l'
  end.

Definition balance_fee (fee_mismatch : Z) (rescale_factor : Ratio) (l : list Ex) : panics (list Ex) :=
  '(fee_mismatch, l) ← scale_budgets fee_mismatch rescale_factor l;
  Ok (correct_budgets fee_mismatch l).

(** ** One build, and the corrections *)

Record Build := mkBuild {
  bd_builder : TransactionBuilder;
  bd_effects : list (EffectPreview (T + M));
  bd_funding : FundingPreview;
  bd_ctx : Ctx;
  bd_forced : bool;
  bd_reserved : Z;
  bd_gross : Z;
  bd_estimated : Z;
}.

(** The recipe executed, projected and priced. *)
Definition build_recipe (funding : FinalizedTxOut) (ctx : Ctx) (l : list Ex)
    (accumulated_residue operator_fee_paid_from_interest operator_funding_fee_reserve : Z)
    : outcome ExecuteRecipeError Build :=
  '(state, effects, ctx) ← expect (execute ctx execution_state_new [] l);
  let reserved := reserved_tx_fee state in
  let gross := wrap_u64 (operator_interest state + accumulated_residue) in
  let projected := operator_payout_after_network_fee reserved gross operator_fee_paid_from_interest in
  '(t, funding_io) ← expect (project_onto_builder (tx_blueprint state) constant_tx_builder (ctx_network_id ctx)
                               (ctx_reward_address ctx) funding projected operator_funding_fee_reserve);
  t ← expect (tb_add_collateral t (ctx_collateral ctx));
  fee ← ok_or (min_fee t) FeeEstimationFailed;
  Ok (mkBuild t effects funding_io ctx (forces_operator_funding_input (tx_blueprint state)) reserved gross
        (wrap_u64 (fee + ADDITIONAL_FEE))).

Definition expected_fee_paid (b : Build) : Z :=
  if (bd_reserved b =? 0)%Z then Z.min (bd_estimated b) (bd_gross b) else 0.

Definition desired_reserve (b : Build) (updated_tx_fee paid : Z) : Z :=
  if bd_forced b then saturating_sub (saturating_sub (bd_estimated b) updated_tx_fee) paid else 0.

Definition next_attempt (attempt : Z) : Z := (attempt + 1) mod 256.

Fixpoint execute_recipe (fuel : nat) (funding : FinalizedTxOut) (take_residual_fee : bool) (ctx : Ctx) (l : list Ex)
    (accumulated_residue paid reserve attempt : Z) : outcome ExecuteRecipeError Build :=
  match fuel with
  | O => Err OutOfFuel
  | S fuel =>
    b ← build_recipe funding ctx l accumulated_residue paid reserve;
    let updated_tx_fee := wrap_u64 (bd_reserved b - accumulated_residue) in
    let fee_mismatch := wrap_i64 (u64_as_i64 updated_tx_fee - u64_as_i64 (bd_estimated b)) in
    if negb (expected_fee_paid b =? paid)%Z then
      execute_recipe fuel funding take_residual_fee (bd_ctx b) l accumulated_residue (expected_fee_paid b) reserve
        (next_attempt attempt)
    else if negb (desired_reserve b updated_tx_fee paid =? reserve)%Z then
      execute_recipe fuel funding take_residual_fee (bd_ctx b) l accumulated_residue paid
        (desired_reserve b updated_tx_fee paid) (next_attempt attempt)
    else if negb (fee_mismatch =? 0)%Z && (MAX_FEE_CORRECTION_ATTEMPTS <=? attempt)%Z then
      Err (RetryLimitExceeded attempt (bd_estimated b) (bd_reserved b) updated_tx_fee accumulated_residue fee_mismatch)
    else
      match decide_fee_correction take_residual_fee fee_mismatch (bd_reserved b) accumulated_residue with
      | Complete => Ok b
      | RebuildSameRecipe take_residual_fee accumulated_residue =>
        execute_recipe fuel funding take_residual_fee (bd_ctx b) l accumulated_residue paid reserve
          (next_attempt attempt)
      | RebuildRebalancedRecipe take_residual_fee accumulated_residue =>
        original ← expect (fee_balance_state l);
        if (bd_reserved b =? 0)%Z then Panic
        else
          l' ← expect (balance_fee fee_mismatch (ratio_new (bd_estimated b) (bd_reserved b)) l);
          corrected ← expect (fee_balance_state l');
          if bool_decide (corrected = original)
          then Err (NoProgress (bd_estimated b) (bd_reserved b) updated_tx_fee accumulated_residue fee_mismatch)
          else execute_recipe fuel funding take_residual_fee (bd_ctx b) l' accumulated_residue paid reserve
                 (next_attempt attempt)
      end
  end.

(** ** The finished transaction *)

Definition consumed_state {A B} (x : ExecutionEff A B) : B :=
  match x with EffUpdated e _ => e | EffEliminated e => e end.

(** [iter().position(|x| f x)]. *)
Definition position {A} (P : A -> Prop) `{!forall x, Decision (P x)} (l : list A) : panics nat :=
  match list_find P l with Some (ix, _) => Ok ix | None => Panic end.

(** The takers' inputs with their place in the execution. *)
Fixpoint order_of_execution (t : TransactionBuilder) (seq : nat) (effects : list (EffectPreview (T + M)))
    : panics (list (nat * nat)) :=
  match effects with
  | [] => Ok []
  | eff :: effects =>
    let c := consumed_state eff in
    match bundled c with
    | inl _ =>
      ix ← position (fun i => bi_utxo i = fin_output (bearer c)) (tb_inputs t);
      rest ← order_of_execution t (S seq) effects;
      Ok ((ix, seq) :: rest)
    | inr _ => order_of_execution t (S seq) effects
    end
  end.

Definition with_metadata (t : TransactionBuilder) (order : list (nat * nat)) : TransactionBuilder :=
  tb_set_metadata t (concat ((fun p => [as_u8 p.1; as_u8 p.2]) <$> order)).

Definition finalized_output_of (body : TxBody) (o : TransactionOutput) : panics FinalizedTxOut :=
  ix ← position (fun out => out = o) (body_outputs body);
  Ok (mkFinalized o (body_hash body, Z.of_nat ix)).

Definition bake (r : OutputRef) (e : T + M) : Baked T OutputRef + Baked M OutputRef :=
  match e with inl t => inl (mkBaked t r) | inr m => inr (mkBaked m r) end.

Notation Entity := (Bundled (Baked T OutputRef + Baked M OutputRef) FinalizedTxOut).

Definition finalize_effect (body : TxBody) (eff : EffectPreview (T + M)) : panics (ExecutionEff Entity Entity) :=
  eff_bimap
    (fun p => out ← finalized_output_of body (bearer p); Ok (mkBundled (bake (reference out) (bundled p)) out))
    (fun c => Ok (mkBundled (bake (reference (bearer c)) (bundled c)) (bearer c)))
    eff.

(** [CardanoRecipeInterpreter::run]. *)
Definition run (fuel : nat) (take_residual_fee : bool) (l : list Ex) (funding : FinalizedTxOut) (ctx : Ctx)
    : panics (TxBody * list (ExecutionEff Entity Entity) * FundingIO FinalizedTxOut FinalizedTxOut) :=
  b ← expect (execute_recipe fuel funding take_residual_fee ctx l 0 0 0 0);
  order ← order_of_execution (bd_builder b) 0 (bd_effects b);
  body ← match build_tx (with_metadata (bd_builder b) order) (ctx_reward_address (bd_ctx b)) with
         | Some body => Ok body | None => Panic
         end;
  effects ← map_outcome (finalize_effect body) (bd_effects b);
  funding_io ← map_output (finalized_output_of body) (bd_funding b);
  Ok (body, effects, funding_io).

End Interpreter.
