(* ===== verification/InterpreterProofs.v ===== *)
(** * The interpreter's transactions balance

    Theorems about [Interpreter.v] for orders that reserve no budget for the
    network fee, as green orders: what the executions of a recipe free, the
    operator's share and the fee the builder asks for add up; the corrections
    of the fee come to an end when the fee does not depend on the operator's
    payout, and may go on for ever when it does. *)

From stdpp Require Import base gmap list.
From Stdlib Require Import ZArith Lia Strings.Byte.
From S2P Require Import Prelude Mpf LbTypes Assets PlutusData Intention GreenOrder LbCore AccountStore.
From S2P Require Import LbCoreProofs AccountIndex Containers Redeemers TxBlueprint TxBlueprintProofs.
From S2P Require Import StateIndex Engine Interpreter.

Section Balance.
Context {T U M Ctx : Type} `{TK : MarketTaker T U} `{TB : TakerBehaviour T} `{RL : RatioLib}.
Context `{TL : TxBuilderLib} `{CD : CborDecodeLib} `{IC : InterpreterCtx Ctx}.
Context `{ET : !BatchExec (Trans (T * FinalizedTxOut) T TerminalTake) (EffectPreview T) Ctx}.
Context `{EM : !BatchExec (Trans (M * FinalizedTxOut) M Empty_set) (EffectPreview M) Ctx}.

Notation Ex := (Execution T M FinalizedTxOut).

(** What an instruction promises the interpreter: the amount of every asset it
    frees ([ex_flow]), and the fee it leaves to the operator on top of that; a
    well-formed instruction ([ex_wf]) names assets with padded names. *)
Class ExecLaws := {
  ex_wf : Ex -> Prop;
  ex_flow : Ex -> AssetClass -> Z;
  ex_fee : Ex -> Z;
  ex_fee_nonneg : forall x, (0 <= ex_fee x)%Z;
  exec_one_law : forall x s c s' eff c', exec_one x s c = Ok (s', eff, c') ->
    ex_wf x -> is_u64 (operator_interest s) -> reserved_tx_fee s = 0%Z ->
    (forall a, asset_wf a -> script_surplus (tx_blueprint s') a =
       (script_surplus (tx_blueprint s) a + ex_flow x a + if decide (a = Native) then ex_fee x else 0)%Z) /\
    reserved_tx_fee s' = 0%Z /\ operator_interest s' = wrap_u64 (operator_interest s + ex_fee x);
}.
Context `{EL : ExecLaws}.

(** The instructions of a recipe exchange among themselves. *)
Definition recipe_balanced (l : list Ex) : Prop :=
  Forall ex_wf l /\ forall a, asset_wf a -> zsum ((fun x => ex_flow x a) <$> l) = 0%Z.
Definition recipe_fees (l : list Ex) : Z := zsum (ex_fee <$> l).

Lemma recipe_fees_nonneg l : (0 <= recipe_fees l)%Z.
Proof.
  unfold recipe_fees, zsum. induction l as [|x l IH]; cbn; [done|]. pose proof (ex_fee_nonneg x). lia.
Qed.

Lemma execute_law l : forall s c effs s' effs' c', execute c s effs l = Ok (s', effs', c') ->
  Forall ex_wf l -> (0 <= operator_interest s)%Z -> (operator_interest s + recipe_fees l <= u64_max)%Z -> reserved_tx_fee s = 0%Z ->
  reserved_tx_fee s' = 0%Z /\ operator_interest s' = (operator_interest s + recipe_fees l)%Z /\
  forall a, asset_wf a -> script_surplus (tx_blueprint s') a =
    (script_surplus (tx_blueprint s) a + zsum ((fun x => ex_flow x a) <$> l) +
     if decide (a = Native) then recipe_fees l else 0)%Z.
Proof.
  induction l as [|x l IH]; intros s c effs s' effs' c'.
  - cbn. intros [= <- _ _] _ _ _ Hr. unfold recipe_fees. cbn. split_and!; [done|lia|].
    intros a _. destruct (decide _); lia.
  - cbn [execute]. destruct (exec_one x s c) as [[[s1 eff] c1]| |] eqn:Ex; [|done..]. cbn [mbind outcome_bind].
    intros Hl [Hw Hwl]%Forall_cons Hi Hb Hr. pose proof (recipe_fees_nonneg l) as Hn. pose proof (ex_fee_nonneg x) as Hx.
    assert (recipe_fees (x :: l) = ex_fee x + recipe_fees l)%Z as Ef by done. rewrite Ef in *.
    destruct (exec_one_law _ _ _ _ _ _ Ex) as (Hs & Hr1 & Hi1); [done|unfold is_u64; lia|done|].
    assert (operator_interest s1 = operator_interest s + ex_fee x)%Z as Ei.
    { rewrite Hi1. apply Z.mod_small. unfold u64_max in *. lia. }
    destruct (IH _ _ _ _ _ _ Hl) as (Hr' & Hi' & Hs'); [done|lia|lia|done|].
    split_and!; [done|lia|]. intros a Ha. rewrite Hs', Hs by done. rewrite fmap_cons. unfold zsum. cbn [foldr].
    destruct (decide _); lia.
Qed.

(** A single build, with nothing carried over from the takers' budgets. *)
Lemma build_law f c l paid reserve b : (0 <= paid)%Z -> (0 <= reserve)%Z ->
  recipe_balanced l -> (recipe_fees l <= u64_max)%Z -> build_recipe f c l 0 paid reserve = Ok b ->
  bd_reserved b = 0%Z /\ bd_gross b = recipe_fees l /\ is_u64 (bd_estimated b) /\
  (exists fee, min_fee (bd_builder b) = Some fee /\ bd_estimated b = wrap_u64 (fee + ADDITIONAL_FEE)) /\
  forall a, asset_wf a -> tx_surplus (bd_builder b) a =
    if decide (a = Native)
    then (recipe_fees l + (if bd_forced b then reserve else 0) - Z.max (recipe_fees l - paid) 0)%Z else 0%Z.
Proof.
  intros Hp Hr [Hwf Hbal] Hfees. unfold build_recipe.
  destruct (execute c execution_state_new [] l) as [[[s effs] c']| |] eqn:Ee; [|done..].
  cbn [expect mbind outcome_bind]. pose proof (recipe_fees_nonneg l) as Hn.
  apply execute_law in Ee as (Hres & Hint & Hsur); [|done|done|cbn; lia|done].
  cbn in Hint. rewrite Hres, Hint, Z.add_0_l, Z.add_0_r.
  replace (wrap_u64 (recipe_fees l)) with (recipe_fees l)
    by (symmetry; apply Z.mod_small; unfold u64_max in *; lia).
  unfold operator_payout_after_network_fee, saturating_sub. cbn [Z.eqb].
  destruct (project_onto_builder _ _ _ _ _ _ _) as [[t fio]| |] eqn:Epr; [|done..]. cbn [expect mbind outcome_bind].
  unfold tb_add_collateral. destruct (collateral_accepted t _); [|done]. cbn [expect mbind outcome_bind].
  set (t' := mkTxb _ _ _ _ _ _ _ _). destruct (min_fee t') as [fee|] eqn:Em; [|done]. cbn [ok_or mbind outcome_bind].
  intros [= <-]. cbn [bd_reserved bd_gross bd_estimated bd_builder bd_forced].
  do 2 (split; [done|]). split; [|split; [by exists fee|]].
  - unfold is_u64, wrap_u64, u64_max. pose proof (Z.mod_pos_bound (fee + ADDITIONAL_FEE) (2 ^ 64)). lia.
  - intros a Ha. change (tx_surplus t' a) with (tx_surplus t a).
    rewrite (project_surplus _ _ _ _ _ _ _ _ a (Z.le_max_r _ _) Hr Epr), Hsur, Hbal by done. cbn.
    destruct (decide _); lia.
Qed.

(** Takers that reserved no budget have none to correct. *)
Lemma decide_without_reserve r mismatch residue : decide_fee_correction r mismatch 0 residue = Complete.
Proof. unfold decide_fee_correction. cbn [Z.eqb]. by destruct (mismatch =? 0)%Z. Qed.

(** For a balanced recipe of instructions that reserve no budget and force the
    operator's funding input, whatever corrections of the fee were made on the
    way, the returned transaction balances. *)
Lemma interpreted_tx_balances fuel f residual c l b :
  recipe_balanced l -> (recipe_fees l <= u64_max)%Z ->
  execute_recipe fuel f residual c l 0 0 0 0 = Ok b ->
  (exists c' paid reserve, build_recipe f c' l 0 paid reserve = Ok b) /\
  (exists fee, min_fee (bd_builder b) = Some fee /\ bd_estimated b = wrap_u64 (fee + ADDITIONAL_FEE)) /\
  (bd_forced b = true -> forall a, asset_wf a ->
     tx_surplus (bd_builder b) a = if decide (a = Native) then bd_estimated b else 0%Z).
Proof.
  intros Hbal Hfees. enough (forall paid reserve attempt, (0 <= paid)%Z -> (0 <= reserve)%Z ->
    execute_recipe fuel f residual c l 0 paid reserve attempt = Ok b ->
    (exists c' paid reserve, build_recipe f c' l 0 paid reserve = Ok b) /\
    (exists fee, min_fee (bd_builder b) = Some fee /\ bd_estimated b = wrap_u64 (fee + ADDITIONAL_FEE)) /\
    (bd_forced b = true -> forall a, asset_wf a ->
       tx_surplus (bd_builder b) a = if decide (a = Native) then bd_estimated b else 0%Z)) as Hall by by apply Hall.
  revert c.
  induction fuel as [|fuel IH]; intros c paid reserve attempt Hp Hr; [done|]. cbn [execute_recipe].
  destruct (build_recipe f c l 0 paid reserve) as [b1| |] eqn:Eb; [|done..]. cbn [mbind outcome_bind].
  pose proof Eb as Eb'. apply build_law in Eb as (Hres & Hg & He & Hfee & Hs); [|done..].
  pose proof (recipe_fees_nonneg l) as Hn. unfold is_u64 in He.
  rewrite Hres. change (wrap_u64 (0 - 0)) with 0%Z.
  destruct (Z.eqb_spec (expected_fee_paid b1) paid) as [Ep|_]; cbn [negb].
  2:{ apply IH; [|done]. unfold expected_fee_paid. rewrite Hres, Hg. cbn. lia. }
  destruct (Z.eqb_spec (desired_reserve b1 0 paid) reserve) as [Er|_]; cbn [negb].
  2:{ apply IH; [done|]. unfold desired_reserve, saturating_sub. destruct (bd_forced b1); lia. }
  destruct (negb _ && _); [done|]. rewrite decide_without_reserve. intros [= <-].
  split; [by exists c, paid, reserve|]. split; [done|]. intros Hforced a Ha. rewrite Hs by done. rewrite Hforced.
  unfold expected_fee_paid in Ep. rewrite Hres, Hg in Ep. cbn in Ep.
  unfold desired_reserve, saturating_sub in Er. rewrite Hforced in Er. destruct (decide _); lia.
Qed.

End Balance.

(** ** Do the corrections come to an end? *)

Section Corrections.
Context {T U M Ctx : Type} `{TK : MarketTaker T U} `{TB : TakerBehaviour T} `{RL : RatioLib}.
Context `{TL : TxBuilderLib} `{CD : CborDecodeLib} `{IC : InterpreterCtx Ctx}.
Context `{ET : !BatchExec (Trans (T * FinalizedTxOut) T TerminalTake) (EffectPreview T) Ctx}.
Context `{EM : !BatchExec (Trans (M * FinalizedTxOut) M Empty_set) (EffectPreview M) Ctx}.

(** In every context of [P], a build of the recipe with the operator paying
    [paid] and the funding box reserving [reserve] leaves [gross] to the
    operator and is priced at [fee]; the takers reserve nothing. *)
Definition priced (P : Ctx -> Prop) (f : FinalizedTxOut) (l : list (Execution T M FinalizedTxOut))
    (gross paid reserve fee : Z) : Prop :=
  forall c, P c -> exists b, build_recipe f c l 0 paid reserve = Ok b /\ P (bd_ctx b) /\
    bd_reserved b = 0%Z /\ bd_gross b = gross /\ bd_estimated b = fee /\ bd_forced b = true.

(** A round that does not pay from the interest what the builder asks for is
    repeated with that payment, whatever the number of the attempt. *)
Lemma round_repays P f l gross paid reserve fee fuel residual c attempt :
  priced P f l gross paid reserve fee -> P c -> Z.min fee gross <> paid ->
  exists c', P c' /\ execute_recipe (S fuel) f residual c l 0 paid reserve attempt =
    execute_recipe fuel f residual c' l 0 (Z.min fee gross) reserve (next_attempt attempt).
Proof.
  intros Hp Hc Hne. destruct (Hp c Hc) as (b & Eb & Hb & Er & Eg & Ee & _). exists (bd_ctx b). split; [done|].
  cbn [execute_recipe]. rewrite Eb. cbn [mbind outcome_bind]. unfold expected_fee_paid. rewrite Er, Eg, Ee. cbn [Z.eqb].
  by destruct (Z.eqb_spec (Z.min fee gross) paid).
Qed.

(** A round that does goes on to the reserve of the funding box. *)
Lemma round_reserves P f l gross reserve fee fuel residual c attempt : let paid := Z.min fee gross in
  priced P f l gross paid reserve fee -> P c -> (0 <= fee)%Z -> (attempt < MAX_FEE_CORRECTION_ATTEMPTS)%Z ->
  exists b, P (bd_ctx b) /\ execute_recipe (S fuel) f residual c l 0 paid reserve attempt =
    if (fee - paid =? reserve)%Z then Ok b
    else execute_recipe fuel f residual (bd_ctx b) l 0 paid (fee - paid) (next_attempt attempt).
Proof.
  intros paid Hp Hc Hf Ha. destruct (Hp c Hc) as (b & Eb & Hb & Er & Eg & Ee & Ef). exists b. split; [done|].
  cbn [execute_recipe]. rewrite Eb. cbn [mbind outcome_bind]. unfold expected_fee_paid, desired_reserve.
  rewrite Er, Eg, Ee, Ef. cbn [Z.eqb]. change (wrap_u64 (0 - 0)) with 0%Z. fold paid. rewrite Z.eqb_refl. cbn [negb].
  assert (saturating_sub (saturating_sub fee 0) paid = (fee - paid)%Z) as -> by (unfold saturating_sub; lia).
  destruct (fee - paid =? reserve)%Z; [|done]. cbn [negb].
  replace (MAX_FEE_CORRECTION_ATTEMPTS <=? attempt)%Z with false by (symmetry; by apply Z.leb_gt).
  rewrite andb_false_r. by rewrite decide_without_reserve.
Qed.

(** Fee correction ends when the fee does not depend on who pays it.  If the
    builds of a recipe with Aleph intentions are priced alike whether or not
    the fee is taken from the operator's interest and the rest reserved from
    the funding box, the interpreter returns a transaction within three
    builds. *)
Theorem fee_correction_converges (P : Ctx -> Prop) f l gross fee residual c :
  (0 <= fee)%Z -> (0 <= gross)%Z -> P c -> let paid := Z.min fee gross in
  priced P f l gross 0 0 fee -> priced P f l gross paid 0 fee -> priced P f l gross paid (fee - paid) fee ->
  exists b, execute_recipe 3 f residual c l 0 0 0 0 = Ok b /\ P (bd_ctx b).
Proof.
  intros Hf Hg Hc paid H1 H2 H3.
  assert (forall fuel c attempt, P c -> (0 <= attempt < 10)%Z ->
    exists b, execute_recipe (S (S fuel)) f residual c l 0 paid 0 attempt = Ok b /\ P (bd_ctx b)) as Hend.
  { intros fuel c0 attempt Hc0 Ha. unfold MAX_FEE_CORRECTION_ATTEMPTS in *.
    destruct (round_reserves P f l gross 0 fee (S fuel) residual c0 attempt H2 Hc0 Hf) as (b & Hb & E);
      [unfold MAX_FEE_CORRECTION_ATTEMPTS; lia|].
    fold paid in E. rewrite E. destruct (_ =? _)%Z; [by exists b|].
    destruct (round_reserves P f l gross (fee - paid) fee fuel residual (bd_ctx b) (next_attempt attempt) H3 Hb Hf)
      as (b' & Hb' & E').
    { unfold MAX_FEE_CORRECTION_ATTEMPTS, next_attempt. rewrite Z.mod_small; lia. }
    fold paid in E'. rewrite E', Z.eqb_refl. by exists b'. }
  destruct (Z.eq_dec paid 0) as [E0|Hne].
  - rewrite E0 in Hend. by apply Hend.
  - destruct (round_repays P f l gross 0 0 fee 2 residual c 0 H1 Hc) as (c' & Hc' & ->); [done|]. by apply Hend.
Qed.

(** Fee correction need not end.  If paying the fee of one build from the
    operator's interest makes the next build cheaper, and paying the cheaper
    fee makes it dear again (as when the interest left after the dear fee no
    longer fills an output of its own), the interpreter builds for ever: the
    limit on attempts is only looked at once the payment has settled. *)
Theorem fee_correction_oscillates (P : Ctx -> Prop) f l gross dear cheap residual c :
  (0 < dear <= gross)%Z -> (0 < cheap <= gross)%Z -> dear <> cheap -> P c ->
  priced P f l gross 0 0 dear -> priced P f l gross dear 0 cheap -> priced P f l gross cheap 0 dear ->
  forall fuel, execute_recipe fuel f residual c l 0 0 0 0 = Err OutOfFuel.
Proof.
  intros Hd Hch Hne Hc H0 H1 H2 fuel.
  assert (forall fuel c attempt paid, P c -> paid ∈ [dear; cheap] ->
    execute_recipe fuel f residual c l 0 paid 0 attempt = Err OutOfFuel) as Hloop.
  { clear c Hc fuel. induction fuel as [|fuel IH]; intros c attempt paid Hc Hp; [done|].
    apply elem_of_cons in Hp as [->| ->%list_elem_of_singleton].
    - destruct (round_repays P f l gross dear 0 cheap fuel residual c attempt H1 Hc) as (c' & Hc' & ->); [lia|].
      rewrite Z.min_l by lia. apply IH; [done|]. set_solver.
    - destruct (round_repays P f l gross cheap 0 dear fuel residual c attempt H2 Hc) as (c' & Hc' & ->); [lia|].
      rewrite Z.min_l by lia. apply IH; [done|]. set_solver. }
  destruct fuel as [|fuel]; [done|].
  destruct (round_repays P f l gross 0 0 dear fuel residual c 0 H0 Hc) as (c' & Hc' & ->); [lia|].
  rewrite Z.min_l by lia. apply Hloop; [done|]. by left.
Qed.

End Corrections.
