(* ===== verification/GreenExec.v ===== *)
(** * Execution of green orders and royalty pools

    [bloom-offchain-cardano/src/execution_engine/instances.rs]: what the take of
    a green order and the make of a royalty pool add to the transaction, in the
    context of [green-order-cardano-agent/src/context.rs].

    The context shares the index of accounts with the rest of the agent: the
    plans an execution makes stay in it. *)

From stdpp Require Import base gmap list.
From Stdlib Require Import ZArith Lia Strings.Byte.
From S2P Require Import Prelude Mpf LbTypes Assets PlutusData Intention GreenOrder LbCore AccountStore.
From S2P Require Import AccountIndex RoyaltyPool Containers Redeemers TxBlueprint StateIndex Engine Interpreter.

#[local] Notation delete := base.delete.
#[local] Notation insert := base.insert.

(** ** The context *)

Section Exec.
Context `{Hh : Hashing} `{CL : CborLib} `{SL : SerdeLib} `{BI : BigIntLib} `{VL : ValueLib} `{RL : RatioLib}.

Record ExecutionContext := mkContext {
  ec_index : AccountIndex;
  ec_operator : bytes;
  ec_allow_partial : bool;
  ec_account_validator : DeployedValidatorErased;
  ec_batch_witness : DeployedValidatorErased;
  ec_royalty_v1 : DeployedValidatorErased;
  ec_royalty_v1_fixed : DeployedValidatorErased;
  ec_collateral : FinalizedTxOut;
  ec_network_id : Z;
  ec_reward_address : Address;
}.

Definition set_account_index (c : ExecutionContext) (i : AccountIndex) : ExecutionContext :=
  mkContext i (ec_operator c) (ec_allow_partial c) (ec_account_validator c) (ec_batch_witness c)
    (ec_royalty_v1 c) (ec_royalty_v1_fixed c) (ec_collateral c) (ec_network_id c) (ec_reward_address c).

Global Instance execution_context : InterpreterCtx ExecutionContext := {|
  ctx_collateral := ec_collateral;
  ctx_network_id := ec_network_id;
  ctx_reward_address := ec_reward_address;
|}.

Definition current_account (c : ExecutionContext) (a : AccountId) : option FinalizedTxOut :=
  current_or_pending_base (ec_index c) a.

(** [expect]. *)
Definition unwrap_option {A} (o : option A) : panics A := match o with Some a => Ok a | None => Panic end.

(** [aleph_delegate_index_for_witness]. *)
Definition aleph_delegate_index_for_witness (allowlist : list bytes) (witness_hash : bytes) : panics Z :=
  ix ← position (fun h => h = witness_hash) allowlist; Ok (Z.of_nat ix).

(** ** Green orders *)

Notation GreenTake := (Trans (GreenOrder * FinalizedTxOut) GreenOrder TerminalTake).

Definition leaving_remainder (r : Next GreenOrder TerminalTake) : Z :=
  match r with Term _ => 0 | Succ next => current_remainder next end.

(** The conditions under which the execution goes on; each of them panics. *)
Definition green_guards (c : ExecutionContext) (ord : GreenOrder) (removed added budget remainder : Z) : bool :=
  (budget =? 0)%Z &&
  bool_decide (input_asset (intention ord) = Native) &&
  bool_decide (operator_key_hash (intention ord) = ec_operator c) &&
  negb (gi_leaving_amount (intention ord) <? removed)%Z &&
  negb ((remainder =? 0)%Z && (added <? gi_expected_arriving_amount (intention ord))%Z) &&
  negb ((0 <? remainder)%Z && negb (ec_allow_partial c)).

(** The signed intention, in the account's ABI. *)
Definition account_intention (ord : GreenOrder) (abi : AlephAccountAbi) : AlephIntention :=
  let i := aleph_intention ord in
  mkIntention abi (target_nonce_index i) (target_nonce_value i) (leaving_asset i) (leaving_amount i)
    (arriving_asset i) (expected_arriving_amount i) (fee_lovelace i) (operator i).

Definition is_path (a : GreenAuth) : bool := match a with Path _ => true | Sig _ _ _ _ => false end.

(** The plan of the account's store: the new root (if it changes) and the
    authorisation with the proof of the change. *)
Definition plan_store (c : ExecutionContext) (ord : GreenOrder) (account : AlephAccountUtxo)
    (removed added remainder : Z) : panics (ExecutionContext * option bytes * GreenAuth) :=
  let it := account_intention ord (abi (acc_state account)) in
  if (0 <? remainder)%Z then
    updated ← unwrap_option (remaining_after_fill it removed added);
    match auth ord with
    | Sig prefix postfix signature _ =>
      let '(i, planned) := plan_sig_insert (go_account_id ord) (acc_output_ref account) (go_id ord)
                             (intent_key it) updated (ec_index c) in
      planned ← expect planned;
      Ok (set_account_index c i, Some (planned_new_root planned), Sig prefix postfix signature (planned_proof planned))
    | Path _ =>
      let '(i, planned) := plan_path_update (go_account_id ord) (acc_output_ref account)
                             (intent_key it) (digest it) updated (ec_index c) in
      planned ← expect planned;
      Ok (set_account_index c i, Some (planned_new_root planned), Path (planned_proof planned))
    end
  else if is_path (auth ord) then
    let '(i, planned) := plan_path_completion (go_account_id ord) (acc_output_ref account)
                           (intent_key it) (digest it) (ec_index c) in
    planned ← expect planned;
    Ok (set_account_index c i, Some (planned_root planned), Path (planned_completion_proof planned))
  else Ok (c, None, auth ord).

(** The state of the account before the store root is replaced. *)
Definition next_account_state (ord : GreenOrder) (s : AlephAccountState) : panics AlephAccountState :=
  if is_path (auth ord) then Ok s
  else unwrap_option (with_sig_full_fill_nonce s (target_nonce_slot (intention ord))
                        (gi_target_nonce_value (intention ord))).

(** The account's output after the fill. *)
Definition filled_output (account : AlephAccountUtxo) (ord : GreenOrder) (removed added fee : Z)
    (next_state : AlephAccountState) : panics TransactionOutput :=
  let o := acc_output account in
  v ← expect (apply_full_fill_to_account_output (out_value o) ord removed added fee);
  _ ← unwrap_option (out_datum o);
  datum ← account_into_pd next_state;
  Ok (mkTxOut (out_address o) v (Some datum) (out_script_ref o)).

Definition marginal_script_cost (v : DeployedValidatorErased) : DelayedScriptCost :=
  DelayedCost (fun self_index => ex_add (dv_ex_budget v) (ex_scale (dv_marginal_cost v) (Z.of_nat self_index))).

Definition green_exec (trans : GreenTake) (state : ExecutionState) (c : ExecutionContext)
    : panics (ExecutionState * EffectPreview GreenOrder * ExecutionContext) :=
  removed ← linked_removed_input trans;
  added ← linked_added_output trans;
  consumed_bdg ← consumed_budget trans;
  fee ← consumed_fee trans;
  let ord := (target trans).1 in
  let remainder := leaving_remainder (result trans) in
  if negb (green_guards c ord removed added consumed_bdg remainder) then Panic
  else
    bearer ← unwrap_option (current_account c (go_account_id ord));
    account ← unwrap_option (try_parse (dv_hash (ec_account_validator c)) (reference bearer) (fin_output bearer));
    next_state ← next_account_state ord (acc_state account);
    delegate_index ←
      (if bool_decide (abi (acc_state account) = Current)
       then aleph_delegate_index_for_witness (allowlist (acc_state account)) (dv_hash (ec_batch_witness c))
       else Ok 0%Z);
    '(c, new_root, authorized) ← plan_store c ord account removed added remainder;
    let next_state := match new_root with Some r => set_store_root next_state r | None => next_state end in
    account_output ← filled_output account ord removed added fee next_state;
    let action := match abi (acc_state account) with Legacy => Direct | Current => Delegate delegate_index end in
    let v := ec_account_validator c in
    let input := mkScriptInput (acc_output_ref account) (acc_output account) (dv_hash v) (marginal_script_cost v)
                   (ReadyRedeemer (action_into_pd action)) [ec_operator c] in
    let state := add_operator_interest (add_tx_fee state consumed_bdg) fee in
    let b := add_account_io (tx_blueprint state) input account_output in
    let b := add_ref_input b (ref_input v) (ref_output v) in
    b ← add_aleph_batch_intention b (ec_batch_witness c) (acc_output_ref account)
          (mkAuthorized (account_intention ord (abi (acc_state account))) remainder authorized);
    Ok (set_blueprint state b, EffEliminated (mkBundled ord (finalized_output account)), c).

Global Instance green_batch_exec : BatchExec GreenTake (EffectPreview GreenOrder) ExecutionContext := green_exec.

End Exec.
