(* ===== verification/RoyaltyDatum.v ===== *)
(** * Royalty pools on the ledger

    The datum of a royalty pool of either version ([royalty_pool.rs]: its fields,
    its parser and its update after a trade), the pool an output carries
    ([royalty_pool.rs] and, for the agent, [pools/royalty_v1.rs]) and the make of a pool in a transaction
    ([instances.rs], [cfmm_pool.rs]).

    [BigInteger::as_u64] and the byte-length checks of [ScriptHash],
    [PolicyId] and [Ed25519PublicKey] are library functions; class [BigUintLib]
    states the first, the others are length checks. *)

From stdpp Require Import base gmap list.
From Stdlib Require Import ZArith Lia Strings.Byte.
From S2P Require Import Prelude Mpf LbTypes Assets PlutusData Intention GreenOrder LbCore AccountStore.
From S2P Require Import AccountIndex RoyaltyPool Containers Redeemers TxBlueprint StateIndex Engine Interpreter.
From S2P Require Import GreenExec.

#[local] Notation delete := base.delete.
#[local] Notation insert := base.insert.

Class BigUintLib := as_u64 : Z -> option Z.
Class BigUintLaws `{BigUintLib} : Prop := as_u64_spec : forall z w, as_u64 z = Some w <-> is_u64 z /\ w = z.

Definition FEE_DEN : Z := 100000.
Definition MAX_LQ_CAP : Z := 2 ^ 63 - 1.

(** ** Plutus forms *)

(** [self.fields[index] = value]. *)
Definition set_field (c : ConstrPlutusData) (index : nat) (value : PlutusData) : panics ConstrPlutusData :=
  if bool_decide (index < length (fields c)) then Ok (mkConstr (alternative c) (<[index := value]> (fields c)))
  else Panic.

Definition set_fields (c : ConstrPlutusData) (l : list (nat * PlutusData)) : panics ConstrPlutusData :=
  foldl (fun c iv => c ← c; set_field c iv.1 iv.2) (Ok c) l.

Definition cred_try_from_pd (data : PlutusData) : option Credential :=
  cpd ← into_constr_pd data;
  '(f0, _) ← take_field cpd 0;
  f0 ← into_bytes f0;
  if (alternative cpd =? 0)%Z then PubKeyCred <$> try_array 28 f0
  else if (alternative cpd =? 1)%Z then ScriptCred <$> try_array 28 f0
  else None.

Definition cred_into_pd (c : Credential) : PlutusData :=
  match c with
  | PubKeyCred h => PdConstr 0 [PdBytes h]
  | ScriptCred h => PdConstr 1 [PdBytes h]
  end.

(** [InlineCredential]: a credential inside constructor 0. *)
Definition inline_try_from_pd (data : PlutusData) : option Credential :=
  cpd ← into_constr_pd data;
  if (alternative cpd =? 0)%Z then '(f0, _) ← take_field cpd 0; cred_try_from_pd f0 else None.
Definition inline_into_pd (c : Credential) : PlutusData := PdConstr 0 [cred_into_pd c].
Definition inline_script_hash (c : Credential) : option bytes :=
  match c with ScriptCred h => Some h | PubKeyCred _ => None end.

Definition asset_try_from_pd (data : PlutusData) : option AssetClass :=
  cpd ← into_constr_pd data;
  '(policy_pd, cpd) ← take_field cpd 0;
  policy_bytes ← into_bytes policy_pd;
  if bool_decide (policy_bytes = []) then Some Native
  else
    policy_id ← try_array 28 policy_bytes;
    '(name_pd, _) ← take_field cpd 1;
    name ← into_bytes name_pd;
    an ← asset_name_try_from name;
    Some (TokenAsset (mkToken policy_id an)).

Section Datum.
Context `{BU : BigUintLib}.

Definition into_u64 (d : PlutusData) : option Z := match d with PdInteger z => as_u64 z | _ => None end.

(** ** The datum of a pool *)

Record RoyaltyPoolConfig := mkPoolConfig {
  cf_pool_nft : AssetClass;
  cf_asset_x : AssetClass;
  cf_asset_y : AssetClass;
  cf_asset_lq : AssetClass;
  cf_lp_fee_num : Z;
  cf_treasury_fee_num : Z;
  cf_royalty_fee_num : Z;
  cf_treasury_x : Z;
  cf_treasury_y : Z;
  cf_royalty_x : Z;
  cf_royalty_y : Z;
  cf_admin_address : bytes;
  cf_treasury_address : bytes;
  cf_royalty_pub_key : bytes;
  cf_nonce : Z;
}.

(** The fields are taken out one after the other ([ROYALTY_DATUM_MAPPING]
    numbers them from 0 in this order, the admins at 11). *)
Definition config_try_from_pd (data : PlutusData) : option RoyaltyPoolConfig :=
  cpd ← into_constr_pd data;
  '(admins, _) ← take_field cpd 11;
  creds ← into_vec admins ≫= collect_option inline_try_from_pd;
  admin ← head creds ≫= inline_script_hash;
  '(f0, cpd) ← take_field cpd 0; pool_nft ← asset_try_from_pd f0;
  '(f1, cpd) ← take_field cpd 1; ax ← asset_try_from_pd f1;
  '(f2, cpd) ← take_field cpd 2; ay ← asset_try_from_pd f2;
  '(f3, cpd) ← take_field cpd 3; alq ← asset_try_from_pd f3;
  '(f4, cpd) ← take_field cpd 4; lp_fee_num ← into_u64 f4;
  '(f5, cpd) ← take_field cpd 5; treasury_fee_num ← into_u64 f5;
  '(f6, cpd) ← take_field cpd 6; royalty_fee_num ← into_u64 f6;
  '(f7, cpd) ← take_field cpd 7; tx ← into_u64 f7;
  '(f8, cpd) ← take_field cpd 8; ty ← into_u64 f8;
  '(f9, cpd) ← take_field cpd 9; rx ← into_u64 f9;
  '(f10, cpd) ← take_field cpd 10; ry ← into_u64 f10;
  '(f12, cpd) ← take_field cpd 12; treasury_addr ← into_bytes f12;
  '(f13, cpd) ← take_field cpd 13; pub_key ← into_bytes f13;
  '(f14, _) ← take_field cpd 14; n ← into_u64 f14;
  Some (mkPoolConfig pool_nft ax ay alq lp_fee_num treasury_fee_num royalty_fee_num tx ty rx ry admin
          treasury_addr pub_key n).

(** [unsafe_update_pd_royalty] with the fields of a pool. *)
Definition update_pd_royalty (data : PlutusData) (p : RoyaltyPool) : panics PlutusData :=
  match into_constr_pd data with
  | None => Panic
  | Some cpd =>
    cpd ← set_fields cpd
      [(4, int_into_pd (numer (lp_fee p))); (5, int_into_pd (numer (treasury_fee p)));
       (6, int_into_pd (numer (first_royalty_fee p)));
       (7, int_into_pd (treasury_x p)); (8, int_into_pd (treasury_y p));
       (9, int_into_pd (first_royalty_x p)); (10, int_into_pd (first_royalty_y p));
       (11, PdList [inline_into_pd (ScriptCred (admin_address p))]);
       (12, bytes_into_pd (treasury_address p)); (14, int_into_pd (rp_nonce p))];
    Ok (PdConstr (alternative cpd) (fields cpd))
  end.

(** [unsafe_update_pd_royalty_v2]. *)
Definition update_pd_royalty_v2 (data : PlutusData) (p : RoyaltyPool) : panics PlutusData :=
  match into_constr_pd data with
  | None => Panic
  | Some cpd =>
    cpd ← set_fields cpd
      [(4, int_into_pd (numer (lp_fee p))); (5, int_into_pd (numer (treasury_fee p)));
       (6, int_into_pd (numer (first_royalty_fee p))); (7, int_into_pd (numer (second_royalty_fee p)));
       (8, int_into_pd (treasury_x p)); (9, int_into_pd (treasury_y p));
       (10, int_into_pd (first_royalty_x p)); (11, int_into_pd (first_royalty_y p));
       (12, int_into_pd (second_royalty_x p)); (13, int_into_pd (second_royalty_y p));
       (14, PdList [inline_into_pd (ScriptCred (admin_address p))]);
       (15, bytes_into_pd (treasury_address p)); (18, int_into_pd (rp_nonce p))];
    Ok (PdConstr (alternative cpd) (fields cpd))
  end.

Record RoyaltyPoolV2Config := mkPoolV2Config {
  cf2_pool_nft : AssetClass;
  cf2_asset_x : AssetClass;
  cf2_asset_y : AssetClass;
  cf2_asset_lq : AssetClass;
  cf2_lp_fee_num : Z;
  cf2_treasury_fee_num : Z;
  cf2_first_royalty_fee_num : Z;
  cf2_second_royalty_fee_num : Z;
  cf2_treasury_x : Z;
  cf2_treasury_y : Z;
  cf2_first_royalty_x : Z;
  cf2_first_royalty_y : Z;
  cf2_second_royalty_x : Z;
  cf2_second_royalty_y : Z;
  cf2_admin_address : bytes;
  cf2_treasury_address : bytes;
  cf2_first_royalty_pub_key : bytes;
  cf2_second_royalty_pub_key : bytes;
  cf2_nonce : Z;
}.

(** [ROYALTY_V2_DATUM_MAPPING] numbers the fields in this order, the admins
    at 14. *)
Definition config_v2_try_from_pd (data : PlutusData) : option RoyaltyPoolV2Config :=
  cpd ← into_constr_pd data;
  '(admins, _) ← take_field cpd 14;
  creds ← into_vec admins ≫= collect_option inline_try_from_pd;
  admin ← head creds ≫= inline_script_hash;
  '(f0, cpd) ← take_field cpd 0; pool_nft ← asset_try_from_pd f0;
  '(f1, cpd) ← take_field cpd 1; ax ← asset_try_from_pd f1;
  '(f2, cpd) ← take_field cpd 2; ay ← asset_try_from_pd f2;
  '(f3, cpd) ← take_field cpd 3; alq ← asset_try_from_pd f3;
  '(f4, cpd) ← take_field cpd 4; lp_fee_num ← into_u64 f4;
  '(f5, cpd) ← take_field cpd 5; treasury_fee_num ← into_u64 f5;
  '(f6, cpd) ← take_field cpd 6; first_fee_num ← into_u64 f6;
  '(f7, cpd) ← take_field cpd 7; second_fee_num ← into_u64 f7;
  '(f8, cpd) ← take_field cpd 8; tx ← into_u64 f8;
  '(f9, cpd) ← take_field cpd 9; ty ← into_u64 f9;
  '(f10, cpd) ← take_field cpd 10; rx ← into_u64 f10;
  '(f11, cpd) ← take_field cpd 11; ry ← into_u64 f11;
  '(f12, cpd) ← take_field cpd 12; sx ← into_u64 f12;
  '(f13, cpd) ← take_field cpd 13; sy ← into_u64 f13;
  '(f15, cpd) ← take_field cpd 15; treasury_addr ← into_bytes f15;
  '(f16, cpd) ← take_field cpd 16; first_key ← into_bytes f16;
  '(f17, cpd) ← take_field cpd 17; second_key ← into_bytes f17;
  '(f18, _) ← take_field cpd 18; n ← into_u64 f18;
  Some (mkPoolV2Config pool_nft ax ay alq lp_fee_num treasury_fee_num first_fee_num second_fee_num tx ty rx ry sx sy
          admin treasury_addr first_key second_key n).

(** ** The pool in an output *)

Record ScriptInfo := mkScriptInfo { script_hash : bytes; info_marginal_cost : ExUnits }.

Record PoolContext := mkPoolContext {
  pc_royalty_v1 : ScriptInfo;
  pc_royalty_v1_fixed : ScriptInfo;
  pc_bounds : PoolValidation;
}.

Definition try_pool_ver_from_address (c : PoolContext) (o : TransactionOutput) : option (RoyaltyPoolVer * ScriptInfo) :=
  h ← out_script_hash o;
  if bool_decide (script_hash (pc_royalty_v1 c) = h) then Some (V1, pc_royalty_v1 c)
  else if bool_decide (script_hash (pc_royalty_v1_fixed c) = h) then Some (V1LedgerFixed, pc_royalty_v1_fixed c)
  else None.

Definition into_token (a : AssetClass) : option Token := match a with TokenAsset t => Some t | Native => None end.

Definition stake_script_hash (a : Address) : option bytes :=
  match staking_cred a with Some (ScriptCred h) => Some h | _ => None end.

Definition v1_try_from_ledger (c : PoolContext) (o : TransactionOutput) : option RoyaltyV1PoolOnly :=
  '(pool_ver, info) ← try_pool_ver_from_address c o;
  pd ← out_datum o;
  conf ← config_try_from_pd pd;
  let value := out_value o in
  liquidity_neg ← amount_of value (cf_asset_lq conf);
  lov ← amount_of value Native;
  rx ← amount_of value (cf_asset_x conf);
  ry ← amount_of value (cf_asset_y conf);
  pure_x ← checked_sub rx (wrap_u64 (cf_treasury_x conf + cf_royalty_x conf));
  pure_y ← checked_sub ry (wrap_u64 (cf_treasury_y conf + cf_royalty_y conf));
  let sufficient_lovelace :=
    is_native (cf_asset_x conf) || is_native (cf_asset_y conf) || (min_t2t_lovelace (pc_bounds c) <=? lov)%Z in
  if (pure_x =? 0)%Z || (pure_y =? 0)%Z || negb sufficient_lovelace then None
  else
    id ← into_token (cf_pool_nft conf);
    treasury_addr ← try_array 28 (cf_treasury_address conf);
    pub_key ← try_array 32 (cf_royalty_pub_key conf);
    Some (mkV1Only (mkRoyaltyPool id rx ry (wrap_u64 (MAX_LQ_CAP - liquidity_neg)) (cf_asset_x conf)
      (cf_asset_y conf) (cf_asset_lq conf) (mkRatio (cf_lp_fee_num conf) FEE_DEN)
      (mkRatio (cf_treasury_fee_num conf) FEE_DEN) (cf_treasury_x conf) (cf_treasury_y conf)
      (mkRatio (cf_royalty_fee_num conf) FEE_DEN) (mkRatio 0 100) (cf_royalty_x conf) (cf_royalty_y conf) 0 0 0
      (cf_admin_address conf) treasury_addr pub_key (replicate 32 x00) pool_ver (info_marginal_cost info)
      (pc_bounds c) (cf_nonce conf) (stake_script_hash (out_address o)))).

(** [RoyaltyPoolVer::try_from_address]: every version of the pool; [v2] is the
    deployed second version. *)
Definition ver_try_from_address (c : PoolContext) (v2 : ScriptInfo) (o : TransactionOutput) : option (RoyaltyPoolVer * ScriptInfo) :=
  h ← out_script_hash o;
  if bool_decide (script_hash (pc_royalty_v1 c) = h) then Some (V1, pc_royalty_v1 c)
  else if bool_decide (script_hash (pc_royalty_v1_fixed c) = h) then Some (V1LedgerFixed, pc_royalty_v1_fixed c)
  else if bool_decide (script_hash v2 = h) then Some (V2, v2)
  else None.

(** The checks of [RoyaltyPool::try_from_ledger]; [others] are the treasury and
    the royalties held in an asset. *)
Definition wrapping_sub_all (r : Z) (others : list Z) : Z := foldl (fun a b => wrap_u64 (a - b)) r others.
Definition wrapping_sum (l : list Z) : Z := foldl (fun a b => wrap_u64 (a + b)) 0%Z l.
Definition reserves_accepted (ax ay : AssetClass) (rx ry lov : Z) (others_x others_y : list Z) (b : PoolValidation) : bool :=
  let non_empty_reserves := (0 <? wrapping_sub_all rx others_x)%Z && (0 <? wrapping_sub_all ry others_y)%Z in
  let sufficient_lovelace := is_native ax || is_native ay || (min_t2t_lovelace b <=? lov)%Z in
  let enough_reserves := (wrapping_sum others_x <? rx)%Z && (wrapping_sum others_y <? ry)%Z in
  non_empty_reserves && sufficient_lovelace && enough_reserves.

Definition royalty_try_from_ledger (c : PoolContext) (v2 : ScriptInfo) (o : TransactionOutput) : option RoyaltyPool :=
  '(pool_ver, info) ← ver_try_from_address c v2 o;
  pd ← out_datum o;
  let value := out_value o in
  match pool_ver with
  | V2 =>
    conf ← config_v2_try_from_pd pd;
    liquidity_neg ← amount_of value (cf2_asset_lq conf);
    lov ← amount_of value Native;
    rx ← amount_of value (cf2_asset_x conf);
    ry ← amount_of value (cf2_asset_y conf);
    if reserves_accepted (cf2_asset_x conf) (cf2_asset_y conf) rx ry lov
         [cf2_treasury_x conf; cf2_first_royalty_x conf; cf2_second_royalty_x conf]
         [cf2_treasury_y conf; cf2_first_royalty_y conf; cf2_second_royalty_y conf] (pc_bounds c) then
      id ← into_token (cf2_pool_nft conf);
      treasury_addr ← try_array 28 (cf2_treasury_address conf);
      first_key ← try_array 32 (cf2_first_royalty_pub_key conf);
      second_key ← try_array 32 (cf2_second_royalty_pub_key conf);
      Some (mkRoyaltyPool id rx ry (wrap_u64 (MAX_LQ_CAP - liquidity_neg)) (cf2_asset_x conf)
        (cf2_asset_y conf) (cf2_asset_lq conf) (mkRatio (cf2_lp_fee_num conf) FEE_DEN)
        (mkRatio (cf2_treasury_fee_num conf) FEE_DEN) (cf2_treasury_x conf) (cf2_treasury_y conf)
        (mkRatio (cf2_first_royalty_fee_num conf) FEE_DEN) (mkRatio (cf2_second_royalty_fee_num conf) FEE_DEN)
        (cf2_first_royalty_x conf) (cf2_first_royalty_y conf) (cf2_second_royalty_x conf) (cf2_second_royalty_y conf) 0
        (cf2_admin_address conf) treasury_addr first_key second_key pool_ver (info_marginal_cost info)
        (pc_bounds c) (cf2_nonce conf) (stake_script_hash (out_address o)))
    else None
  | _ =>
    conf ← config_try_from_pd pd;
    liquidity_neg ← amount_of value (cf_asset_lq conf);
    lov ← amount_of value Native;
    rx ← amount_of value (cf_asset_x conf);
    ry ← amount_of value (cf_asset_y conf);
    if reserves_accepted (cf_asset_x conf) (cf_asset_y conf) rx ry lov [cf_treasury_x conf; cf_royalty_x conf]
         [cf_treasury_y conf; cf_royalty_y conf] (pc_bounds c) then
      id ← into_token (cf_pool_nft conf);
      treasury_addr ← try_array 28 (cf_treasury_address conf);
      pub_key ← try_array 32 (cf_royalty_pub_key conf);
      Some (mkRoyaltyPool id rx ry (wrap_u64 (MAX_LQ_CAP - liquidity_neg)) (cf_asset_x conf)
        (cf_asset_y conf) (cf_asset_lq conf) (mkRatio (cf_lp_fee_num conf) FEE_DEN)
        (mkRatio (cf_treasury_fee_num conf) FEE_DEN) (cf_treasury_x conf) (cf_treasury_y conf)
        (mkRatio (cf_royalty_fee_num conf) FEE_DEN) (mkRatio 0 100) (cf_royalty_x conf) (cf_royalty_y conf) 0 0 0
        (cf_admin_address conf) treasury_addr pub_key (replicate 32 x00) pool_ver (info_marginal_cost info)
        (pc_bounds c) (cf_nonce conf) (stake_script_hash (out_address o)))
    else None
  end.

End Datum.

(** ** The make of a pool *)

Record PoolAssetMapping := mkMapping { asset_to_deduct_from : AssetClass; asset_to_add_to : AssetClass }.

Definition asset_mapping (p : RoyaltyPool) (side : Side) : PoolAssetMapping :=
  let x := asset_x p in
  let y := asset_y p in
  if bool_decide ((order_canonical x y).1 = x) then
    match side with Bid => mkMapping x y | Ask => mkMapping y x end
  else
    match side with Bid => mkMapping y x | Ask => mkMapping x y end.

(** [CFMMPoolRedeemer] with [CFMMPoolAction::Swap]. *)
Definition pool_swap_redeemer (pool_input_index : nat) : PlutusData :=
  PdConstr 0 [PdInteger 2; PdInteger (Z.of_nat pool_input_index)].

Section PoolExec.
Context `{FL : FeeLib} `{BN : BigNumberLib} `{VL : ValueLib} `{Hh : Hashing} `{CL : CborLib} `{SL : SerdeLib}.

Notation PoolMake := (Trans (RoyaltyV1PoolOnly * FinalizedTxOut) RoyaltyV1PoolOnly Empty_set).

(** The make without its bearer: [Make] and [MakeInProgress] have the same
    [trade_side], [loss] and [gain]. *)
Definition unlinked (t : PoolMake) : MakeInProgress RoyaltyV1PoolOnly := mkTrans (target t).1 (result t).

(** A [RoyaltyV1PoolOnly] is never of version 2. *)
Definition v1_validator (c : ExecutionContext) (p : RoyaltyV1PoolOnly) : panics DeployedValidatorErased :=
  match ver (inner p) with V1 => Ok (ec_royalty_v1 c) | V1LedgerFixed => Ok (ec_royalty_v1_fixed c) | V2 => Panic end.

Definition pool_datum (datum : option PlutusData) (p : RoyaltyPool) : panics (option PlutusData) :=
  match datum, ver p with
  | None, _ => Ok None
  | Some d, V2 => d ← update_pd_royalty_v2 d p; Ok (Some d)
  | Some d, _ => d ← update_pd_royalty d p; Ok (Some d)
  end.

Definition pool_output (o : TransactionOutput) (m : PoolAssetMapping) (removed added : Z) (p : RoyaltyPool)
    : panics TransactionOutput :=
  v ← sub_asset (out_value o) (asset_to_deduct_from m) removed;
  v ← add_asset v (asset_to_add_to m) added;
  datum ← pool_datum (out_datum o) p;
  Ok (mkTxOut (out_address o) v datum (out_script_ref o)).

Definition royalty_exec (t : PoolMake) (state : ExecutionState) (c : ExecutionContext)
    : panics (ExecutionState * EffectPreview RoyaltyV1PoolOnly * ExecutionContext) :=
  side ← unwrap_option (make_trade_side (unlinked t));
  removed ← unwrap_option (unwrap <$> make_loss (unlinked t));
  added ← unwrap_option (unwrap <$> make_gain (unlinked t));
  let '(pool, bearer) := target t in
  let consumed_out := fin_output bearer in
  let in_ref := reference bearer in
  let transition := make_result (unlinked t) in
  v ← v1_validator c pool;
  produced_out ← pool_output consumed_out (asset_mapping (inner pool) side) removed added (inner transition);
  let input := mkScriptInput in_ref consumed_out (dv_hash v) (marginal_script_cost v)
                 (DelayedR (fun o => ix ← index_of o in_ref; Ok (pool_swap_redeemer ix))) [] in
  let b := add_io (tx_blueprint state) input produced_out in
  let b := add_ref_input b (ref_input v) (ref_output v) in
  Ok (set_blueprint state b, EffUpdated (mkBundled pool bearer) (mkBundled transition produced_out), c).

Global Instance royalty_batch_exec : BatchExec PoolMake (EffectPreview RoyaltyV1PoolOnly) ExecutionContext := royalty_exec.

End PoolExec.
