(* ===== verification/Graduation.v ===== *)
(** * Graduated pools

    [bloom-offchain-cardano/src/graduation.rs]: pools of the launchpad are
    recognised in outputs and followed through the chain; a transaction that
    spends one of them and creates exactly one pool of the exchange marks that
    pool as graduated.  Every observation is kept in a journal, so that a
    rollback can undo it.  Locks are taken for one operation at a time and the
    mirror in a database is left out. *)

From stdpp Require Import base gmap list.
From Stdlib Require Import ZArith Lia Strings.Byte.
From S2P Require Import Prelude LbTypes Assets PlutusData AccountIndex RoyaltyDatum.

#[local] Notation delete := base.delete.
#[local] Notation insert := base.insert.

(** ** Launchpad pools ([quadratic_pool.rs]) *)

Record QuadraticPoolConfig := mkQuadConfig {
  qc_pool_nft : AssetClass;
  qc_asset_x : AssetClass;
  qc_asset_y : AssetClass;
  qc_a_num : Z;
  qc_b_num : Z;
  qc_operator_pkh : bytes;
  qc_x_cap_thr : Z;
}.

Record QuadraticPoolT2TConfig := mkQuadT2TConfig {
  qt_pool_nft : AssetClass;
  qt_asset_x : AssetClass;
  qt_asset_y : AssetClass;
  qt_a_num : Z;
  qt_b_num : Z;
  qt_operator_pkh : bytes;
  qt_x_cap_thr : Z;
  qt_accumulated_x_fee : Z;
}.

Inductive SnekQuadraticPoolVersion := SnekV1 | SnekV1T2T.

Record SnekPoolScriptHashes := mkSnekHashes {
  quadratic_pool_v1_script_hash : option bytes;
  quadratic_pool_v1_t2t_script_hash : option bytes;
}.

Section Identity.
Context `{BU : BigUintLib}.

Definition quad_config_try_from_pd (data : PlutusData) : option QuadraticPoolConfig :=
  cpd ← into_constr_pd data;
  '(f0, cpd) ← take_field cpd 0; pool_nft ← asset_try_from_pd f0;
  '(f1, cpd) ← take_field cpd 1; ax ← asset_try_from_pd f1;
  '(f2, cpd) ← take_field cpd 2; ay ← asset_try_from_pd f2;
  '(f3, cpd) ← take_field cpd 3; a_num ← into_u64 f3;
  '(f4, cpd) ← take_field cpd 4; b_num ← into_u64 f4;
  '(f5, cpd) ← take_field cpd 5; pkh ← into_bytes f5 ≫= try_array 28;
  '(f6, _) ← take_field cpd 6; thr ← into_u64 f6;
  Some (mkQuadConfig pool_nft ax ay a_num b_num pkh thr).

Definition quad_t2t_config_try_from_pd (data : PlutusData) : option QuadraticPoolT2TConfig :=
  cpd ← into_constr_pd data;
  '(f0, cpd) ← take_field cpd 0; pool_nft ← asset_try_from_pd f0;
  '(f1, cpd) ← take_field cpd 1; ax ← asset_try_from_pd f1;
  '(f2, cpd) ← take_field cpd 2; ay ← asset_try_from_pd f2;
  '(f3, cpd) ← take_field cpd 3; a_num ← into_u64 f3;
  '(f4, cpd) ← take_field cpd 4; b_num ← into_u64 f4;
  '(f5, cpd) ← take_field cpd 5; pkh ← into_bytes f5 ≫= try_array 28;
  '(f6, cpd) ← take_field cpd 6; thr ← into_u64 f6;
  '(f7, _) ← take_field cpd 7; fee ← into_u64 f7;
  Some (mkQuadT2TConfig pool_nft ax ay a_num b_num pkh thr fee).

Definition pool_version (h : SnekPoolScriptHashes) (o : TransactionOutput) : option SnekQuadraticPoolVersion :=
  hash ← out_script_hash o;
  if bool_decide (quadratic_pool_v1_script_hash h = Some hash) then Some SnekV1
  else if bool_decide (quadratic_pool_v1_t2t_script_hash h = Some hash) then Some SnekV1T2T
  else None.

Definition snek_identity (o : TransactionOutput) (h : SnekPoolScriptHashes) : option Token :=
  ver ← pool_version h o;
  pd ← out_datum o;
  match ver with
  | SnekV1 => conf ← quad_config_try_from_pd pd; into_token (qc_pool_nft conf)
  | SnekV1T2T => conf ← quad_t2t_config_try_from_pd pd; into_token (qt_pool_nft conf)
  end.

End Identity.

(** ** The journal *)

Record GraduationJournalEntry := mkJournalEntry {
  consumed_snek_refs : list (OutputRef * Token);
  produced_snek_refs : list (OutputRef * Token);
  graduated_splash_ids : list Token;
}.

(** [GraduatedSplashPoolStore] and [SnekPoolInputTracker], which the handlers
    share. *)
Record GraduationState := mkGraduation {
  graduated : gset Token;
  journal : gmap bytes GraduationJournalEntry;
  tracker : gmap OutputRef Token;
}.

Definition graduation_default : GraduationState := mkGraduation ∅ ∅ ∅.

(** [for .. { tracker.remove(..) }] and [for .. { tracker.insert(..) }]. *)
Definition tracker_remove_all (m : gmap OutputRef Token) (l : list (OutputRef * Token)) : gmap OutputRef Token :=
  foldl (fun m rt => delete rt.1 m) m l.
Definition tracker_insert_all (m : gmap OutputRef Token) (l : list (OutputRef * Token)) : gmap OutputRef Token :=
  foldl (fun m rt => <[rt.1 := rt.2]> m) m l.

Definition apply_observation_entry (g : GraduationState) (tx_hash : bytes) (e : GraduationJournalEntry) : GraduationState :=
  mkGraduation (graduated g ∪ list_to_set (graduated_splash_ids e)) (<[tx_hash := e]> (journal g))
    (tracker_insert_all (tracker_remove_all (tracker g) (consumed_snek_refs e)) (produced_snek_refs e)).

(** [SnekPoolInputTracker::rollback_tx]. *)
Definition tracker_rollback (g : GraduationState) (e : GraduationJournalEntry) : GraduationState :=
  mkGraduation (graduated g ∖ list_to_set (graduated_splash_ids e)) (journal g)
    (tracker_insert_all (tracker_remove_all (tracker g) (produced_snek_refs e)) (consumed_snek_refs e)).

Definition rollback_tx (g : GraduationState) (tx_hash : bytes) : GraduationState * option GraduationJournalEntry :=
  match journal g !! tx_hash with
  | None => (g, None)
  | Some e => (tracker_rollback (mkGraduation (graduated g) (delete tx_hash (journal g)) (tracker g)) e, Some e)
  end.

(** [GraduationTracking]: what the handlers of events ask of their context. *)
Class GraduationTracking (G : Type) := {
  rollback_graduation : G -> bytes -> G;
  tracked_consumed : G -> list OutputRef -> list (OutputRef * Token);
  observe_snek_output : G -> OutputRef -> TransactionOutput -> option (OutputRef * Token);
  journal_graduated_splash_pools : G -> bytes -> list (OutputRef * Token) -> list (OutputRef * Token) -> list Token -> G;
}.

Definition graduation_tracking `{BigUintLib} (h : SnekPoolScriptHashes) : GraduationTracking GraduationState := {|
  rollback_graduation := fun g tx_hash => (rollback_tx g tx_hash).1;
  tracked_consumed := fun g refs => omap (fun r => (fun id => (r, id)) <$> tracker g !! r) refs;
  observe_snek_output := fun _ r o => (fun id => (r, id)) <$> snek_identity o h;
  journal_graduated_splash_pools := fun g tx_hash c p ids => apply_observation_entry g tx_hash (mkJournalEntry c p ids);
|}.

(** ** Undoing an observation *)

Lemma tracker_remove_all_lookup m l r :
  tracker_remove_all m l !! r = if bool_decide (r ∈ l.*1) then None else m !! r.
Proof.
  unfold tracker_remove_all. revert m. induction l as [|[r' t] l IH]; intros m; cbn [foldl fmap list_fmap fst]; [done|].
  rewrite IH. cbn. destruct (decide (r = r')) as [->|Hne].
  - rewrite lookup_delete_eq, (bool_decide_eq_true_2 (r' ∈ r' :: _)) by by left. by destruct (bool_decide _).
  - rewrite lookup_delete_ne by done. rewrite (bool_decide_ext (r ∈ r' :: l.*1) (r ∈ l.*1)); [done|].
    set_solver.
Qed.

Lemma tracker_insert_all_outside m l r : r ∉ l.*1 -> tracker_insert_all m l !! r = m !! r.
Proof.
  unfold tracker_insert_all. revert m. induction l as [|[r' t] l IH]; intros m Hr; cbn [foldl fst snd]; [done|].
  rewrite IH by set_solver. apply lookup_insert_ne. set_solver.
Qed.

Lemma tracker_insert_all_agree m l (f : OutputRef -> option Token) r :
  Forall (fun rt => f rt.1 = Some rt.2) l -> r ∈ l.*1 -> tracker_insert_all m l !! r = f r.
Proof.
  unfold tracker_insert_all. revert m. induction l as [|[r' t] l IH]; intros m Hf Hr; cbn [foldl fst snd]; [set_solver|].
  apply Forall_cons in Hf as [Ht Hf]. cbn in Ht.
  destruct (decide (r ∈ l.*1)) as [Hin|Hout]; [by apply IH|].
  change (foldl _ _ l) with (tracker_insert_all (<[r' := t]> m) l). rewrite tracker_insert_all_outside by done.
  assert (r = r') as -> by set_solver. by rewrite lookup_insert_eq.
Qed.

(** An observation of a transaction seen for the first time, whose consumed
    pools were tracked and whose produced pools and graduates are new, is undone
    exactly by the rollback of the transaction. *)
Lemma observation_undone g tx_hash e :
  journal g !! tx_hash = None ->
  Forall (fun rt => tracker g !! rt.1 = Some rt.2) (consumed_snek_refs e) ->
  Forall (fun rt => tracker g !! rt.1 = None) (produced_snek_refs e) ->
  Forall (fun id => id ∉ graduated g) (graduated_splash_ids e) ->
  rollback_tx (apply_observation_entry g tx_hash e) tx_hash = (g, Some e).
Proof.
  intros Hj Hc Hp Hg. unfold rollback_tx, apply_observation_entry. cbn [journal]. rewrite lookup_insert_eq.
  f_equal. unfold tracker_rollback. cbn [graduated journal tracker]. destruct g as [gr jo tr]. cbn in *. f_equal.
  - rewrite Forall_forall in Hg. set_solver.
  - rewrite delete_insert_id; done.
  - apply map_eq. intros r. rewrite Forall_forall in Hp. destruct (decide (r ∈ (consumed_snek_refs e).*1)) as [Hr|Hr].
    + by apply (tracker_insert_all_agree _ _ (fun r => tr !! r)).
    + rewrite tracker_insert_all_outside by done. rewrite tracker_remove_all_lookup. case_bool_decide as Hb.
      * apply list_elem_of_fmap in Hb as ([r' t] & -> & Hin). symmetry. by apply (Hp _ Hin).
      * rewrite tracker_insert_all_outside by done. rewrite tracker_remove_all_lookup. by rewrite bool_decide_eq_false_2.
Qed.
