(* ===== verification/GreenTx.v ===== *)
(** * Transactions of green orders

    The take of a green order and the make of a royalty pool keep the promise
    the interpreter relies on ([InterpreterProofs.ExecLaws]), and a recipe the
    matchmaker accepts is balanced in the interpreter's sense: a batch that
    becomes a transaction moves exactly the network fee out of its inputs. *)

From stdpp Require Import base gmap list.
From Stdlib Require Import ZArith Lia Strings.Byte.
From S2P Require Import Prelude Mpf LbTypes Assets PlutusData Intention GreenOrder LbCore AccountStore.
From S2P Require Import LbCoreProofs AccountIndex RoyaltyPool RoyaltyPoolProofs LbGreen Containers Redeemers.
From S2P Require Import TxBlueprint TxBlueprintProofs StateIndex Engine Interpreter InterpreterProofs GreenExec RoyaltyDatum.

Section Flow.
Context `{Hh : Hashing} `{CL : CborLib} `{SL : SerdeLib} `{BI : BigIntLib} `{RL : RatioLib} `{VLaws : ValueLaws}.
Context `{FL : FeeLib} `{BN : BigNumberLib} `{TL : TxBuilderLib} `{CD : CborDecodeLib}.

Notation Ex := (Execution GreenOrder RoyaltyV1PoolOnly FinalizedTxOut).

(** An amount of one asset. *)
Definition of_asset (a : AssetClass) (z : Z) (b : AssetClass) : Z := if decide (a = b) then z else 0%Z.

Definition ok_or_zero {E} (o : outcome E Z) : Z := match o with Ok z => z | _ => 0%Z end.

Definition green_fee (x : Ex) : Z :=
  match x with TakeE t r => Z.max 0 (ok_or_zero (consumed_fee (mkTrans t r))) | MakeE _ _ => 0%Z end.

(** What an instruction frees: the traded input of an order less its output,
    the loss of a pool less its gain.  An output in ADA for an input in ADA
    would pay the fee twice. *)
Definition green_flow (x : Ex) (a : AssetClass) : Z :=
  match x with
  | TakeE t r =>
    let i := intention t.1 in
    (of_asset (input_asset i) (taker_input t.1 - rest_input r) a -
     of_asset (output_asset i) (rest_output r - taker_output t.1 -
       (if decide (input_asset i = output_asset i) then green_fee x else 0)) a)%Z
  | MakeE m r =>
    let d : MakeInProgress RoyaltyV1PoolOnly := mkTrans m.1 r in
    (- of_asset (base_of (inner m.1)) (make_base d) a - of_asset (quote_of (inner m.1)) (make_quote d) a)%Z
  end.

Definition green_wf (x : Ex) : Prop :=
  match x with
  | TakeE t _ => asset_wf (output_asset (intention t.1))
  | MakeE m _ => asset_wf (asset_x (inner m.1)) /\ asset_wf (asset_y (inner m.1))
  end.

Lemma checked_sub_Ok {E} a b z :
  match checked_sub a b with Some z => Ok z | None => Panic end = (Ok z : outcome E Z) -> z = (a - b)%Z /\ (0 <= z)%Z.
Proof. unfold checked_sub. destruct (Z.leb_spec b a); [|done]. intros [= <-]. lia. Qed.

Lemma script_surplus_snoc b i o ar ri ws w a :
  script_surplus (mkBlueprint (script_io b ++ [(i, o)]) ar ri ws w) a =
  (script_surplus b a + (output_amount a (si_utxo i) - output_amount a o))%Z.
Proof.
  unfold script_surplus. cbn [script_io]. rewrite !fmap_app, zsum_app. f_equal. cbn. unfold io_surplus. cbn. lia.
Qed.

Lemma batch_intention_fields b w r i b' : add_aleph_batch_intention b w r i = Ok b' ->
  script_io b' = script_io b /\ is_Some (aleph_batch_witness b').
Proof.
  unfold add_aleph_batch_intention. destruct (aleph_batch_witness b) as [[e l]|]; [case_bool_decide; [|done]|];
    intros [= <-]; cbn; eauto.
Qed.

#[local] Arguments amount : simpl never.
#[local] Opaque linked_removed_input linked_added_output consumed_budget consumed_fee.

(** ** Orders *)

(** The parts of a successful execution of an order. *)
Lemma green_exec_Ok (t : Trans (GreenOrder * FinalizedTxOut) GreenOrder TerminalTake) s c s' eff c' :
  green_exec t s c = Ok (s', eff, c') ->
  exists removed added fee account next_state o,
    linked_removed_input t = Ok removed /\ linked_added_output t = Ok added /\
    consumed_budget t = Ok 0%Z /\ consumed_fee t = Ok fee /\
    input_asset (intention (target t).1) = Native /\
    filled_output account (target t).1 removed added fee next_state = Ok o /\
    (forall a, script_surplus (tx_blueprint s') a =
       (script_surplus (tx_blueprint s) a + (output_amount a (acc_output account) - output_amount a o))%Z) /\
    is_Some (aleph_batch_witness (tx_blueprint s')) /\
    reserved_tx_fee s' = wrap_u64 (reserved_tx_fee s + 0) /\
    operator_interest s' = wrap_u64 (operator_interest s + fee).
Proof.
  unfold green_exec. destruct (linked_removed_input t) as [removed| |]; [|done..]. cbn [mbind outcome_bind].
  destruct (linked_added_output t) as [added| |]; [|done..]. cbn [mbind outcome_bind].
  destruct (consumed_budget t) as [bdg| |]; [|done..]. cbn [mbind outcome_bind].
  destruct (consumed_fee t) as [fee| |]; [|done..]. cbn [mbind outcome_bind].
  destruct (green_guards _ _ _ _ _ _) eqn:Eg; [|done]. cbn [negb].
  unfold green_guards in Eg. rewrite !andb_true_iff, Z.eqb_eq, !bool_decide_eq_true in Eg.
  destruct Eg as (((((-> & Hin) & _) & _) & _) & _).
  destruct (unwrap_option _) as [bearer| |]; [|done..]. cbn [mbind outcome_bind].
  destruct (unwrap_option _) as [account| |]; [|done..]. cbn [mbind outcome_bind].
  destruct (next_account_state _ _) as [next_state| |]; [|done..]. cbn [mbind outcome_bind].
  destruct (if bool_decide _ then _ else _) as [d| |]; [|done..]. cbn [mbind outcome_bind].
  destruct (plan_store _ _ _ _ _ _) as [[[c1 new_root] authorized]| |]; [|done..]. cbn [mbind outcome_bind].
  destruct (filled_output _ _ _ _ _ _) as [o| |] eqn:Eo; [|done..]. cbn [mbind outcome_bind].
  destruct (add_aleph_batch_intention _ _ _ _) as [b| |] eqn:Eb; [|done..]. cbn [mbind outcome_bind].
  intros [= <- <- <-]. apply batch_intention_fields in Eb as [Es Ew].
  eexists removed, added, fee, account, _, o. do 5 (split; [done|]). split; [exact Eo|].
  split; [|split; [exact Ew|split; reflexivity]].
  intros a. cbn [tx_blueprint set_blueprint]. unfold script_surplus at 1. rewrite Es.
  exact (script_surplus_snoc (tx_blueprint s) _ _ ∅ [] ∅ None a).
Qed.

#[local] Transparent linked_removed_input linked_added_output consumed_budget consumed_fee.

Lemma filled_output_amount account ord removed added fee next o a :
  asset_wf (output_asset (intention ord)) -> asset_wf a -> input_asset (intention ord) = Native ->
  filled_output account ord removed added fee next = Ok o ->
  (output_amount a (acc_output account) - output_amount a o =
   of_asset Native removed a - of_asset (output_asset (intention ord))
     (added - if decide (input_asset (intention ord) = output_asset (intention ord)) then fee else 0) a +
   if decide (a = Native) then fee else 0)%Z.
Proof.
  intros Hw Ha Hin. unfold filled_output.
  destruct (apply_full_fill_to_account_output _ _ _ _ _) as [v| |] eqn:Ev; [|done..]. cbn [expect mbind outcome_bind].
  destruct (unwrap_option _) as [?| |]; [|done..]. cbn [mbind outcome_bind].
  destruct (account_into_pd _) as [datum| |]; [|done..]. cbn [mbind outcome_bind].
  intros [= <-]. unfold output_amount. cbn [out_value].
  rewrite (full_fill_amounts _ _ _ _ _ _ a Hw Ha Ev). unfold of_asset. rewrite Hin.
  repeat destruct (decide _); subst; try congruence; lia.
Qed.

(** ** Pools *)

Lemma canonical_mapping p side :
  asset_mapping p side = match side with
                         | Bid => mkMapping (base_of p) (quote_of p) | Ask => mkMapping (quote_of p) (base_of p)
                         end.
Proof.
  unfold asset_mapping, base_of, quote_of, order_canonical. destruct (asset_cmp _ _); cbn; case_bool_decide;
    destruct side; congruence.
Qed.

Lemma pool_output_amount o m removed added p o' a :
  asset_wf (asset_to_deduct_from m) -> asset_wf (asset_to_add_to m) -> asset_wf a ->
  pool_output o m removed added p = Ok o' ->
  (output_amount a o - output_amount a o' =
   of_asset (asset_to_deduct_from m) removed a - of_asset (asset_to_add_to m) added a)%Z.
Proof.
  intros Hd Hp Ha. unfold pool_output, sub_asset, add_asset.
  destruct (value_checked_sub _ _) as [v1|] eqn:E1; [|done]. cbn [mbind outcome_bind].
  destruct (value_checked_add _ _) as [v2|] eqn:E2; [|done]. cbn [mbind outcome_bind].
  destruct (pool_datum _ _) as [d| |]; [|done..]. cbn [mbind outcome_bind]. intros [= <-].
  unfold output_amount. cbn [out_value].
  rewrite (value_add_amount _ _ _ a E2), (value_sub_amount _ _ _ a E1), !into_value_amount by done.
  unfold of_asset. lia.
Qed.

(** The side of a make, its loss and its gain are the changes of its reserves. *)
Lemma make_sides (d : MakeInProgress RoyaltyV1PoolOnly) side removed added :
  make_trade_side d = Some side -> unwrap <$> make_loss d = Some removed -> unwrap <$> make_gain d = Some added ->
  match side with
  | Bid => removed = (- make_base d)%Z /\ added = make_quote d
  | Ask => removed = (- make_quote d)%Z /\ added = make_base d
  end.
Proof.
  unfold make_trade_side, make_loss, make_gain, make_base, make_quote, checked_sub.
  generalize (liquidity (make_result d)), (liquidity (target d)). intros [sb sq] [ib iq]. cbn.
  destruct (Z.ltb_spec sb ib), (Z.ltb_spec iq sq), (Z.ltb_spec ib sb), (Z.ltb_spec sq iq); cbn; try done;
    intros [= <-]; repeat match goal with |- context [(?x <=? ?y)%Z] => destruct (Z.leb_spec x y); try lia end;
    cbn; intros [= <-] [= <-]; lia.
Qed.

Lemma pool_assets_wf p : asset_wf (asset_x p) -> asset_wf (asset_y p) ->
  asset_wf (base_of p) /\ asset_wf (quote_of p).
Proof. unfold base_of, quote_of, order_canonical. by destruct (asset_cmp _ _). Qed.

Lemma royalty_exec_Ok (t : Trans (RoyaltyV1PoolOnly * FinalizedTxOut) RoyaltyV1PoolOnly Empty_set) s c s' eff c' :
  royalty_exec t s c = Ok (s', eff, c') ->
  reserved_tx_fee s' = reserved_tx_fee s /\ operator_interest s' = operator_interest s /\
  aleph_batch_witness (tx_blueprint s') = aleph_batch_witness (tx_blueprint s) /\
  (asset_wf (asset_x (inner (target t).1)) -> asset_wf (asset_y (inner (target t).1)) ->
   forall a, asset_wf a -> script_surplus (tx_blueprint s') a =
    (script_surplus (tx_blueprint s) a + green_flow (MakeE (target t) (result t)) a)%Z).
Proof.
  unfold royalty_exec. destruct t as [[pool bearer] r]. cbn [target result fst].
  destruct (make_trade_side _) as [side|] eqn:E1; [|done]. cbn [unwrap_option mbind outcome_bind].
  destruct (unwrap <$> make_loss _) as [removed|] eqn:E2; [|done]. cbn [unwrap_option mbind outcome_bind].
  destruct (unwrap <$> make_gain _) as [added|] eqn:E3; [|done]. cbn [unwrap_option mbind outcome_bind].
  destruct (v1_validator _ _) as [v| |]; [|done..]. cbn [mbind outcome_bind].
  destruct (pool_output _ _ _ _ _) as [o| |] eqn:Eo; [|done..]. cbn [mbind outcome_bind].
  intros [= <- <- <-]. do 3 (split; [done|]). intros Hx Hy a Ha.
  destruct (pool_assets_wf _ Hx Hy) as [Hb Hq]. rewrite canonical_mapping in Eo.
  pose proof (make_sides _ _ _ _ E1 E2 E3) as Hs.
  apply (pool_output_amount _ _ _ _ _ _ a) in Eo; [|by destruct side..|done]. cbn [tx_blueprint set_blueprint].
  unfold add_ref_input, add_io. cbn [script_io reference_inputs account_script_refs witness_scripts aleph_batch_witness].
  rewrite script_surplus_snoc. cbn [si_utxo]. rewrite Eo. f_equal. unfold green_flow, of_asset, unlinked in *. cbn in *.
  destruct side; destruct Hs as [-> ->]; cbn; repeat destruct (decide _); lia.
Qed.

(** ** The promise to the interpreter *)

Lemma green_fee_nonneg x : (0 <= green_fee x)%Z.
Proof. destruct x; cbn; lia. Qed.

Lemma green_take_law t r s c s' eff c' : exec_one (TakeE t r : Ex) s c = Ok (s', eff, c') ->
  green_wf (TakeE t r) -> reserved_tx_fee s = 0%Z ->
  (forall a, asset_wf a -> script_surplus (tx_blueprint s') a =
     (script_surplus (tx_blueprint s) a + green_flow (TakeE t r) a +
      if decide (a = Native) then green_fee (TakeE t r) else 0)%Z) /\
  reserved_tx_fee s' = 0%Z /\ operator_interest s' = wrap_u64 (operator_interest s + green_fee (TakeE t r)).
Proof.
  cbn [exec_one]. unfold exec, green_batch_exec.
  destruct (green_exec _ s c) as [[[s1 eff1] c1]| |] eqn:E; [|done..]. cbn [mbind outcome_bind].
  destruct (eff_bimap _ _ _) as [eff2| |]; [|done..]. cbn [mbind outcome_bind]. intros [= -> _ _] Hwf Hr.
  apply green_exec_Ok in E as (removed & added & fee & account & next & o & Er & Ea & _ & Ef & Hin & Eo & Hs & _ & Hr' & Hi).
  assert (green_fee (TakeE t r) = fee) as Hfee.
  { cbn. rewrite Ef. cbn. apply checked_sub_Ok in Ef as [_ ?]. lia. }
  cbn [target] in Hin, Eo. rewrite Hfee, Hr', Hr, Hi. split; [|done]. intros a Ha. rewrite Hs, (filled_output_amount _ _ _ _ _ _ _ a Hwf Ha Hin Eo).
  apply checked_sub_Ok in Er as [-> _], Ea as [-> _]. cbn [green_flow]. rewrite Hfee, Hin. cbn [target result]. lia.
Qed.

Global Instance green_exec_laws : ExecLaws (T := GreenOrder) (M := RoyaltyV1PoolOnly) (Ctx := ExecutionContext).
Proof.
  refine {| ex_wf := green_wf; ex_flow := green_flow; ex_fee := green_fee; ex_fee_nonneg := green_fee_nonneg |}.
  intros [t r|m r] s c s' eff c' E Hwf Hi Hr; [by eapply green_take_law|].
  cbn [exec_one] in E. unfold exec, royalty_batch_exec in E.
  destruct (royalty_exec _ s c) as [[[s1 eff1] c1]| |] eqn:Ee; [|done..]. cbn [mbind outcome_bind] in E.
  destruct (eff_bimap _ _ _) as [eff2| |]; [|done..]. cbn [mbind outcome_bind] in E. injection E as -> _ _.
  destruct Hwf as [Hx Hy]. apply royalty_exec_Ok in Ee as (-> & -> & _ & Hs). specialize (Hs Hx Hy).
  split_and!; [|done|].
  - intros a Ha. rewrite (Hs a Ha). cbn [target result green_fee]. destruct (decide _); lia.
  - cbn. rewrite Z.add_0_r. symmetry. by apply wrap_u64_small.
Defined.

(** An order in the recipe forces the operator's funding input. *)
Lemma execute_forced l : forall s c effs s' effs' c', execute c s effs (l : list Ex) = Ok (s', effs', c') ->
  (exists t r, TakeE t r ∈ l) \/ is_Some (aleph_batch_witness (tx_blueprint s)) ->
  is_Some (aleph_batch_witness (tx_blueprint s')).
Proof.
  induction l as [|x l IH]; intros s c effs s' effs' c'.
  - cbn. intros [= <- _ _] [(t & r & Hin)|]; [by apply elem_of_nil in Hin|done].
  - cbn [execute]. destruct (exec_one x s c) as [[[s1 eff] c1]| |] eqn:Ex; [|done..]. cbn [mbind outcome_bind].
    intros Hl Hw. apply (IH _ _ _ _ _ _ Hl). destruct x as [t r|m r]; cbn [exec_one] in Ex; unfold exec in Ex.
    + unfold green_batch_exec in Ex. destruct (green_exec _ s c) as [[[s2 e2] c2]| |] eqn:E; [|done..].
      cbn [mbind outcome_bind] in Ex. destruct (eff_bimap _ _ _); [|done..]. injection Ex as -> _ _.
      right. by apply green_exec_Ok in E as (? & ? & ? & ? & ? & ? & _ & _ & _ & _ & _ & _ & _ & Hw1 & _).
    + unfold royalty_batch_exec in Ex. destruct (royalty_exec _ s c) as [[[s2 e2] c2]| |] eqn:E; [|done..].
      cbn [mbind outcome_bind] in Ex. destruct (eff_bimap _ _ _); [|done..]. injection Ex as -> _ _.
      destruct Hw as [(t' & r' & [Hw|Hw]%elem_of_cons)|Hw]; [done|left; by eauto|right].
      apply royalty_exec_Ok in E as (_ & _ & -> & _). exact Hw.
Qed.


Lemma build_forced f c l residue paid reserve b : build_recipe f c (l : list Ex) residue paid reserve = Ok b ->
  (exists t r, TakeE t r ∈ l) -> bd_forced b = true.
Proof.
  unfold build_recipe. destruct (execute c execution_state_new [] l) as [[[s effs] c']| |] eqn:Ee; [|done..].
  cbn [expect mbind outcome_bind]. destruct (project_onto_builder _ _ _ _ _ _ _) as [[t fio]| |]; [|done..].
  cbn [expect mbind outcome_bind]. destruct (tb_add_collateral _ _) as [t'| |]; [|done..]. cbn [expect mbind outcome_bind].
  destruct (min_fee t'); [|done]. cbn. intros [= <-] Hin. cbn. apply bool_decide_eq_true.
  eapply execute_forced; [exact Ee|by left].
Qed.

(** ** From the book to the transaction *)

Notation Instr := (Instruction GreenOrder RoyaltyV1PoolOnly).

(** An instruction of the book of a pair. *)
Definition on_pair (p : PairId) (i : Instr) : Prop :=
  match i with
  | TakeI t => pair_id (target t) = p /\ asset_wf (output_asset (intention (target t)))
  | MakeI m => v1_pair_id (target m) = p /\ asset_wf (asset_x (inner (target m))) /\ asset_wf (asset_y (inner (target m)))
  end.

Definition linked_as (i : Instr) (x : Ex) : Prop :=
  match i with
  | TakeI t => exists b, x = TakeE (target t, b) (result t)
  | MakeI m => exists b, x = MakeE (target m, b) (result m)
  end.

Lemma link_loop_as {V} `{Countable V} (link : Token -> option (V * FinalizedTxOut)) instrs consumed l cs l' :
  link_loop link instrs consumed l [] = (cs, l', []) -> exists m, l' = l ++ m /\ Forall2 linked_as instrs m.
Proof.
  revert consumed l. induction instrs as [|i instrs IH]; intros consumed l; cbn.
  - intros [= _ <-]. exists []. by rewrite app_nil_r.
  - destruct (link_step link i) as [[ver x]|o] eqn:El.
    + intros (m & -> & Hm)%IH. exists (x :: m). rewrite <- (assoc_L (++)). split; [done|]. constructor; [|done].
      destruct i; cbn in *; destruct (link _) as [[? ?]|]; simplify_eq; by eexists.
    + assert (forall cs0 l0 orphans, orphans <> [] -> (link_loop link instrs cs0 l0 orphans).2 <> []) as Ho.
      { clear. induction instrs as [|i instrs IH]; intros cs0 l0 orphans Hne; [done|]. cbn.
        destruct (link_step link i) as [[? ?]|]; apply IH; [done|]. by destruct orphans. }
      intros E. exfalso. apply (Ho consumed l [o]); [done|]. by rewrite E.
Qed.

(** Linked instructions of one pair free what the book's instructions pay. *)
Lemma linked_flow p i x a : pair_base p <> pair_quote p -> on_pair p i -> linked_as i x ->
  green_wf x /\ green_flow x a = (- of_asset (pair_base p) (instr_base i) a - of_asset (pair_quote p) (instr_quote i) a)%Z.
Proof.
  intros Hne. destruct i as [t|m].
  - intros [Ep Hw] [b ->]. split; [done|]. subst p. cbn [green_flow instr_base instr_quote fst].
    unfold pair_id, take_base, take_quote, canonical in *. cbn [pair_base pair_quote] in *.
    change (taker_side (target t)) with (side_of (input_asset (intention (target t))) (output_asset (intention (target t)))).
    unfold side_of, order_canonical in *.
    destruct (asset_cmp (input_asset (intention (target t))) (output_asset (intention (target t)))); cbn [fst snd] in *;
      case_bool_decide; try congruence; rewrite (decide_False (P := input_asset _ = output_asset _)) by congruence;
      unfold of_asset; repeat destruct (decide _); subst; try congruence; lia.
  - intros [Ep Hw] [b ->]. split; [done|]. subst p. cbn [green_flow instr_base instr_quote fst].
    destruct m as [m r]. done.
Qed.

Lemma linked_balanced p instrs l : pair_base p <> pair_quote p -> Forall (on_pair p) instrs -> Forall2 linked_as instrs l ->
  zsum (instr_base <$> instrs) = 0%Z -> zsum (instr_quote <$> instrs) = 0%Z -> recipe_balanced l.
Proof.
  intros Hne Hp Hl Hb Hq.
  assert (Forall green_wf l /\ forall a, zsum ((fun x => green_flow x a) <$> l) =
    (- of_asset (pair_base p) (zsum (instr_base <$> instrs)) a -
       of_asset (pair_quote p) (zsum (instr_quote <$> instrs)) a)%Z) as [Hw Hs].
  { clear Hb Hq. revert Hp. induction Hl as [|i x instrs l Hi _ IH]; intros Hp.
    - split; [constructor|]. intros a. unfold of_asset. cbn. by repeat destruct (decide _).
    - apply Forall_cons in Hp as [Hpi Hp]. destruct (IH Hp) as [Hw Hs]. split.
      { constructor; [|done]. by apply (linked_flow p i x Native). }
      intros a. destruct (linked_flow p i x a Hne Hpi Hi) as [_ Hf]. rewrite !fmap_cons.
      unfold zsum in *. cbn [foldr]. rewrite Hs, Hf. unfold of_asset. repeat destruct (decide _); lia. }
  split; [done|]. intros a _. cbn [ex_flow green_exec_laws]. rewrite Hs, Hb, Hq. unfold of_asset.
  by repeat destruct (decide _).
Qed.

Context `{FLaws : !FeeLaws} `{TO : !HashOrder Token} `{TOL : !HashOrderLaws Token}.

(** C10: A batch that becomes a transaction balances.  For every batch the
    matchmaker builds over one pair, with at least one order: if its accepted
    recipe links to the ledger and the interpreter returns a transaction for it
    (whatever corrections of the fee it made on the way), then the inputs of
    the transaction hold exactly the estimated network fee (the builder's fee
    plus a fixed margin) more than its outputs in ADA, and exactly as much as
    its outputs in every other asset: nothing is lost and nothing made up
    between the orders, the pools, the operator and the network. *)
Theorem green_batch_balances (a : MatchmakingAttempt GreenOrder RoyaltyV1PoolOnly ExUnits Token Token) p step_budget
    instrs V (EV : EqDecision V) (CV : Countable V) (link : Token -> option (V * FinalizedTxOut))
    l consumed fuel f residual c b :
  Built (fun m i => royalty_swap_ok (inner m) i) a -> fits (fun m i => royalty_swap_ok (inner m) i) a ->
  recipe_try_from a step_budget = Ok instrs -> pair_base p <> pair_quote p -> Forall (on_pair p) instrs ->
  recipe_link instrs link = inl (l, consumed) -> ordering a <> [] -> (recipe_fees l <= u64_max)%Z ->
  execute_recipe fuel f residual c l 0 0 0 0 = Ok b ->
  (exists fee, min_fee (bd_builder b) = Some fee /\ bd_estimated b = wrap_u64 (fee + ADDITIONAL_FEE)) /\
  forall x, asset_wf x -> tx_surplus (bd_builder b) x = if decide (x = Native) then bd_estimated b else 0%Z.
Proof.
  intros Hb Hf Ei Hne Hp El Ho Hfees Ex.
  pose proof (recipe_conserves (TL := green_trade_laws) _ a step_budget Hb Hf) as Hc. rewrite Ei in Hc.
  destruct Hc as (Sb & Sq & Et & _).
  assert (Forall2 linked_as instrs l) as Hl.
  { unfold recipe_link in El. destruct (link_loop link instrs [] [] []) as [[cs l'] [|]] eqn:E; [|done].
    injection El as <- _. by apply link_loop_as in E as (m & -> & Hm). }
  destruct (interpreted_tx_balances fuel f residual c l b (linked_balanced p _ _ Hne Hp Hl Sb Sq) Hfees Ex)
    as ((c' & paid & reserve & Eb) & Hfee & Hbal).
  split; [done|]. apply Hbal. apply build_forced in Eb; [done|].
  destruct (omap instr_taker instrs) as [|id ids] eqn:Eo; [by rewrite <- Et in Ho|].
  assert (id ∈ omap instr_taker instrs) as (i & Hi & Hid)%list_elem_of_omap by (rewrite Eo; by left).
  destruct i as [t|]; [|done]. apply list_elem_of_lookup in Hi as [n Hn].
  destruct (Forall2_lookup_l _ _ _ _ _ Hl Hn) as (x & Hx & [bx ->]). eexists _, _. by eapply list_elem_of_lookup_2.
Qed.

End Flow.
