(* ===== verification/RoyaltyDatumProofs.v ===== *)
(** * A traded pool reads back

    Theorems about [RoyaltyDatum.v]: the output a trade produces for a pool is
    parsed, datum and value, as exactly the pool the book predicted. *)

From stdpp Require Import base gmap list.
From Stdlib Require Import ZArith Lia Strings.Byte.
From S2P Require Import Prelude Mpf LbTypes Assets PlutusData Intention GreenOrder LbCore AccountStore.
From S2P Require Import LbCoreProofs AccountIndex RoyaltyPool RoyaltyPoolProofs LbGreen Containers Redeemers.
From S2P Require Import TxBlueprint TxBlueprintProofs StateIndex Engine Interpreter InterpreterProofs GreenExec RoyaltyDatum GreenTx.

#[local] Notation delete := base.delete.
#[local] Notation insert := base.insert.

(** Reading fields out of a datum and rebuilding its parser's result. *)
Ltac read_field fs i :=
  let d := fresh "d" in let E := fresh "E" in
  cbn [fields alternative mbind option_bind];
  rewrite ?list_lookup_insert_ne by done; destruct (fs !! i) as [d|] eqn:E; [|done];
  cbn [fields alternative mbind option_bind].
Ltac read_as e := let x := fresh "x" in let E := fresh "P" in destruct e as [x|] eqn:E; [|done]; cbn [mbind option_bind].

Ltac put_field E P := cbn [fields alternative mbind option_bind]; rewrite ?list_lookup_insert_ne by done;
  rewrite E; cbn [mbind option_bind]; rewrite P; cbn [mbind option_bind].

Section Datum.
Context `{BU : BigUintLib} `{BUL : !BigUintLaws}.

(** The fields in the datum of a pool. *)
Record config_fields (fs : list PlutusData) (conf : RoyaltyPoolConfig) : Prop := {
  cf_f0 : exists d, fs !! 0 = Some d /\ asset_try_from_pd d = Some (cf_pool_nft conf);
  cf_f1 : exists d, fs !! 1 = Some d /\ asset_try_from_pd d = Some (cf_asset_x conf);
  cf_f2 : exists d, fs !! 2 = Some d /\ asset_try_from_pd d = Some (cf_asset_y conf);
  cf_f3 : exists d, fs !! 3 = Some d /\ asset_try_from_pd d = Some (cf_asset_lq conf);
  cf_f4 : exists d, fs !! 4 = Some d /\ into_u64 d = Some (cf_lp_fee_num conf);
  cf_f5 : exists d, fs !! 5 = Some d /\ into_u64 d = Some (cf_treasury_fee_num conf);
  cf_f6 : exists d, fs !! 6 = Some d /\ into_u64 d = Some (cf_royalty_fee_num conf);
  cf_f7 : exists d, fs !! 7 = Some d /\ into_u64 d = Some (cf_treasury_x conf);
  cf_f8 : exists d, fs !! 8 = Some d /\ into_u64 d = Some (cf_treasury_y conf);
  cf_f9 : exists d, fs !! 9 = Some d /\ into_u64 d = Some (cf_royalty_x conf);
  cf_f10 : exists d, fs !! 10 = Some d /\ into_u64 d = Some (cf_royalty_y conf);
  cf_f11 : exists d creds, fs !! 11 = Some d /\ into_vec d ≫= collect_option inline_try_from_pd = Some creds /\
             head creds ≫= inline_script_hash = Some (cf_admin_address conf);
  cf_f12 : exists d, fs !! 12 = Some d /\ into_bytes d = Some (cf_treasury_address conf);
  cf_f13 : exists d, fs !! 13 = Some d /\ into_bytes d = Some (cf_royalty_pub_key conf);
  cf_f14 : exists d, fs !! 14 = Some d /\ into_u64 d = Some (cf_nonce conf);
}.

Lemma config_fields_of data conf : config_try_from_pd data = Some conf ->
  exists alt fs, data = PdConstr alt fs /\ config_fields fs conf.
Proof.
  unfold config_try_from_pd. destruct data as [alt fs| | | |]; try done. cbn [into_constr_pd mbind option_bind].
  unfold take_field.
  read_field fs 11. read_as (into_vec d ≫= collect_option inline_try_from_pd). read_as (head x ≫= inline_script_hash).
  read_field fs 0. read_as (asset_try_from_pd d0). read_field fs 1. read_as (asset_try_from_pd d1).
  read_field fs 2. read_as (asset_try_from_pd d2). read_field fs 3. read_as (asset_try_from_pd d3).
  read_field fs 4. read_as (into_u64 d4). read_field fs 5. read_as (into_u64 d5).
  read_field fs 6. read_as (into_u64 d6). read_field fs 7. read_as (into_u64 d7).
  read_field fs 8. read_as (into_u64 d8). read_field fs 9. read_as (into_u64 d9).
  read_field fs 10. read_as (into_u64 d10). read_field fs 12. read_as (into_bytes d11).
  read_field fs 13. read_as (into_bytes d12). read_field fs 14. read_as (into_u64 d13).
  intros [= <-]. exists alt, fs. split; [done|]. split; cbn; eauto 6.
Qed.

Lemma config_of_fields alt fs conf : config_fields fs conf -> config_try_from_pd (PdConstr alt fs) = Some conf.
Proof.
  intros [(d0 & E0 & P0) (d1 & E1 & P1) (d2 & E2 & P2) (d3 & E3 & P3) (d4 & E4 & P4) (d5 & E5 & P5) (d6 & E6 & P6)
    (d7 & E7 & P7) (d8 & E8 & P8) (d9 & E9 & P9) (d10 & E10 & P10) (d11 & creds & E11 & P11 & P11') (d12 & E12 & P12)
    (d13 & E13 & P13) (d14 & E14 & P14)].
  unfold config_try_from_pd. cbn [into_constr_pd mbind option_bind]. unfold take_field.
  put_field E11 P11. rewrite P11'. cbn [mbind option_bind].
  put_field E0 P0. put_field E1 P1. put_field E2 P2. put_field E3 P3. put_field E4 P4. put_field E5 P5.
  put_field E6 P6. put_field E7 P7. put_field E8 P8. put_field E9 P9. put_field E10 P10. put_field E12 P12.
  put_field E13 P13. put_field E14 P14. by destruct conf.
Qed.

(** The configuration of a pool after a trade. *)
Definition traded_config (conf : RoyaltyPoolConfig) (p : RoyaltyPool) : RoyaltyPoolConfig :=
  mkPoolConfig (cf_pool_nft conf) (cf_asset_x conf) (cf_asset_y conf) (cf_asset_lq conf)
    (numer (lp_fee p)) (numer (treasury_fee p)) (numer (first_royalty_fee p))
    (treasury_x p) (treasury_y p) (first_royalty_x p) (first_royalty_y p)
    (admin_address p) (treasury_address p) (cf_royalty_pub_key conf) (rp_nonce p).

(** The written fields fit their types. *)
Record writable (p : RoyaltyPool) : Prop := {
  wr_lp : is_u64 (numer (lp_fee p));
  wr_treasury : is_u64 (numer (treasury_fee p));
  wr_first : is_u64 (numer (first_royalty_fee p));
  wr_tx : is_u64 (treasury_x p);
  wr_ty : is_u64 (treasury_y p);
  wr_rx : is_u64 (first_royalty_x p);
  wr_ry : is_u64 (first_royalty_y p);
  wr_nonce : is_u64 (rp_nonce p);
  wr_admin : length (admin_address p) = 28;
}.

Lemma into_u64_int z : is_u64 z -> into_u64 (int_into_pd z) = Some z.
Proof. intros Hz. cbn. by apply as_u64_spec. Qed.

Lemma into_u64_range d z : into_u64 d = Some z -> is_u64 z.
Proof. destruct d; try done. cbn. by intros [? ->]%as_u64_spec. Qed.

Lemma set_field_Ok alt fs i d : i < length fs -> set_field (mkConstr alt fs) i d = Ok (mkConstr alt (<[i := d]> fs)).
Proof. intros Hi. unfold set_field. cbn. by rewrite bool_decide_eq_true_2. Qed.

Lemma update_config data conf p : config_try_from_pd data = Some conf -> writable p ->
  exists data', update_pd_royalty data p = Ok data' /\ config_try_from_pd data' = Some (traded_config conf p).
Proof.
  intros (alt & fs & -> & Hc)%config_fields_of [W1 W2 W3 W4 W5 W6 W7 W8 W9].
  assert (14 < length fs) as Hlen by (destruct (cf_f14 _ _ Hc) as (d & Hd & _); by eapply lookup_lt_Some).
  unfold update_pd_royalty. cbn [into_constr_pd]. unfold set_fields. cbn [foldl fst snd mbind outcome_bind].
  rewrite !set_field_Ok by (rewrite ?length_insert; lia). cbn [mbind outcome_bind].
  repeat (rewrite set_field_Ok by (rewrite ?length_insert; lia); cbn [mbind outcome_bind]).
  eexists. split; [reflexivity|]. cbn [alternative fields]. apply config_of_fields.
  destruct Hc as [H0 H1 H2 H3 _ _ _ _ _ _ _ _ _ H13 _].
  split; cbn [cf_pool_nft cf_asset_x cf_asset_y cf_asset_lq cf_lp_fee_num cf_treasury_fee_num cf_royalty_fee_num
    cf_treasury_x cf_treasury_y cf_royalty_x cf_royalty_y cf_admin_address cf_treasury_address cf_royalty_pub_key
    cf_nonce traded_config]; repeat rewrite list_lookup_insert_ne by done; try done;
    rewrite list_lookup_insert_eq by (rewrite ?length_insert; lia); try (eexists; split; [reflexivity|by apply into_u64_int]).
  - eexists _, [ScriptCred (admin_address p)]. split; [reflexivity|]. split; [|done].
    cbn. by rewrite try_array_Some by done.
  - by eexists.
Qed.

(** The two readings of a pool's reserves agree. *)
Lemma wrapping_sub_all_eq l r a : wrapping_sub_all (wrap_u64 (r - a)) l = wrap_u64 (r - foldl (fun a b => wrap_u64 (a + b)) a l).
Proof.
  revert a. induction l as [|b l IH]; intros a; [done|]. cbn [wrapping_sub_all foldl].
  replace (wrap_u64 (wrap_u64 (r - a) - b)) with (wrap_u64 (r - wrap_u64 (a + b))); [apply IH|].
  unfold wrap_u64. by rewrite Zminus_mod_idemp_r, Zminus_mod_idemp_l, Z.sub_add_distr.
Qed.

Lemma enough_is_non_empty r l : is_u64 r ->
  (0 <? wrapping_sub_all r l)%Z && (wrapping_sum l <? r)%Z = (wrapping_sum l <? r)%Z.
Proof.
  intros Hr. destruct (Z.ltb_spec (wrapping_sum l) r) as [Hl|]; [|apply andb_false_r]. rewrite andb_true_r. apply Z.ltb_lt.
  assert (0 <= wrapping_sum l)%Z as H0.
  { unfold wrapping_sum. destruct l as [|b l] using rev_ind; [done|]. rewrite foldl_app. cbn. by apply Z.mod_pos_bound. }
  unfold is_u64 in Hr. assert (wrap_u64 (r - 0) = r) as Er by (rewrite wrap_u64_small; unfold is_u64; lia).
  rewrite <- Er, wrapping_sub_all_eq. change (foldl _ _ _) with (wrapping_sum l). rewrite wrap_u64_small by (unfold is_u64; lia). lia.
Qed.

Lemma wrapping_sum_two a b : wrapping_sum [a; b] = wrap_u64 (a + b).
Proof. cbn. unfold wrap_u64. by rewrite Zplus_mod_idemp_l. Qed.

Lemma reserves_accepted_two ax ay rx ry lov t r t' r' b : is_u64 rx -> is_u64 ry ->
  reserves_accepted ax ay rx ry lov [t; r] [t'; r'] b =
  (is_native ax || is_native ay || (min_t2t_lovelace b <=? lov)%Z) &&
  ((wrap_u64 (t + r) <? rx)%Z && (wrap_u64 (t' + r') <? ry)%Z).
Proof.
  intros Hx Hy. unfold reserves_accepted. rewrite <- !wrapping_sum_two.
  rewrite <- (enough_is_non_empty rx [t; r] Hx), <- (enough_is_non_empty ry [t'; r'] Hy).
  destruct (0 <? wrapping_sub_all rx _)%Z, (0 <? wrapping_sub_all ry _)%Z, (is_native ax || _); cbn; try done; by rewrite ?andb_false_r.
Qed.

(** Checked subtractions followed by tests for zero are strict comparisons. *)
Lemma checked_sub_positive {A} rx ry tx ty s (k : option A) :
  (px ← checked_sub rx tx; py ← checked_sub ry ty;
   if (px =? 0)%Z || (py =? 0)%Z || negb s then None else k) =
  if s && ((tx <? rx)%Z && (ty <? ry)%Z) then k else None.
Proof.
  unfold checked_sub. destruct (Z.leb_spec tx rx), (Z.ltb_spec tx rx); try lia; cbn; [| |by rewrite andb_false_r].
  2:{ rewrite andb_false_r. destruct (ty <=? ry)%Z; cbn; [|done]. by replace (rx - tx)%Z with 0%Z by lia. }
  destruct (Z.eqb_spec (rx - tx) 0); [lia|]. destruct (Z.leb_spec ty ry), (Z.ltb_spec ty ry); try lia; cbn; [| |by rewrite andb_false_r].
  - destruct (Z.eqb_spec (ry - ty) 0); [lia|]. by destruct s.
  - replace (ry - ty)%Z with 0%Z by lia. by rewrite andb_false_r.
Qed.

(** The agent reads V1 pools as the whole system does.  On an output whose
    amounts are machine integers, the reader of V1 pools (which computes the
    free reserves with one checked subtraction) accepts exactly the pools of
    version 1 that the reader of all royalty pools (which wraps around and
    compares) accepts, and reads the same pool. *)
Theorem v1_reader_agrees c v2 o : (forall a x, amount_of (out_value o) a = Some x -> is_u64 x) ->
  v1_try_from_ledger c o = royalty_try_from_ledger c v2 o ≫= try_from_royalty_pool.
Proof.
  intros Hu. unfold v1_try_from_ledger, royalty_try_from_ledger, try_pool_ver_from_address, ver_try_from_address.
  destruct (out_script_hash o) as [h|]; [|done]. cbn [mbind option_bind].
  destruct (bool_decide (script_hash (pc_royalty_v1 c) = h)); [|destruct (bool_decide (script_hash (pc_royalty_v1_fixed c) = h))].
  3:{ destruct (bool_decide (script_hash v2 = h)); [|done]. cbn [mbind option_bind].
      destruct (out_datum o) as [d|]; [|done]. cbn [mbind option_bind].
      destruct (config_v2_try_from_pd d) as [conf|]; [|done]. cbn [mbind option_bind].
      destruct (amount_of _ (cf2_asset_lq conf)), (amount_of _ Native), (amount_of _ (cf2_asset_x conf)),
        (amount_of _ (cf2_asset_y conf)); try done. cbn [mbind option_bind].
      destruct (reserves_accepted _ _ _ _ _ _ _ _); [|done].
      by destruct (into_token _), (try_array 28 _), (try_array 32 (cf2_first_royalty_pub_key conf)),
        (try_array 32 (cf2_second_royalty_pub_key conf)). }
  all: cbn [mbind option_bind]; destruct (out_datum o) as [d|]; [|done]; cbn [mbind option_bind].
  all: destruct (config_try_from_pd d) as [conf|]; [|done]; cbn [mbind option_bind].
  all: destruct (amount_of (out_value o) (cf_asset_lq conf)) as [lq|]; [|done].
  all: destruct (amount_of (out_value o) Native) as [lov|]; [|done]; cbn [mbind option_bind].
  all: destruct (amount_of (out_value o) (cf_asset_x conf)) as [rx|] eqn:Ex; [|done]; apply Hu in Ex.
  all: destruct (amount_of (out_value o) (cf_asset_y conf)) as [ry|] eqn:Ey; [|done]; apply Hu in Ey; cbn [mbind option_bind].
  all: rewrite reserves_accepted_two, checked_sub_positive by done; destruct (_ && _); [|done].
  all: by destruct (into_token _), (try_array 28 _), (try_array 32 _).
Qed.

End Datum.

Section Traded.
Context `{BU : BigUintLib} `{BUL : !BigUintLaws} `{FLaws : FeeLaws} `{BN : BigNumberLib} `{VLaws : ValueLaws}.
Context `{Hh : Hashing} `{CL : CborLib} `{SL : SerdeLib}.

#[local] Arguments amount : simpl never.
#[local] Arguments amount_of : simpl never.

Lemma amount_Some v a z : amount_of v a = Some z -> amount v a = z.
Proof. unfold amount. by intros ->. Qed.

Lemma amount_positive v a z : amount v a = z -> (0 < z)%Z -> amount_of v a = Some z.
Proof. unfold amount. destruct (amount_of v a) as [w|]; cbn; [by intros ->|lia]. Qed.

(** What reading a pool from an output establishes. *)
Record reads (c : PoolContext) (o : TransactionOutput) (p : RoyaltyPool) : Prop := {
  rd_script : exists info, try_pool_ver_from_address c o = Some (ver p, info) /\ marginal_cost p = info_marginal_cost info;
  rd_datum : exists d conf lq, out_datum o = Some d /\ config_try_from_pd d = Some conf /\
    amount_of (out_value o) (asset_lq p) = Some lq /\
    p = mkRoyaltyPool (rp_id p) (reserves_x p) (reserves_y p) (wrap_u64 (MAX_LQ_CAP - lq)) (cf_asset_x conf)
          (cf_asset_y conf) (cf_asset_lq conf) (mkRatio (cf_lp_fee_num conf) FEE_DEN)
          (mkRatio (cf_treasury_fee_num conf) FEE_DEN) (cf_treasury_x conf) (cf_treasury_y conf)
          (mkRatio (cf_royalty_fee_num conf) FEE_DEN) (mkRatio 0 100) (cf_royalty_x conf) (cf_royalty_y conf) 0 0 0
          (cf_admin_address conf) (cf_treasury_address conf) (cf_royalty_pub_key conf) (replicate 32 x00) (ver p)
          (marginal_cost p) (pc_bounds c) (cf_nonce conf) (stake_script_hash (out_address o)) /\
    into_token (cf_pool_nft conf) = Some (rp_id p);
  rd_lengths : length (treasury_address p) = 28 /\ length (first_royalty_pub_key p) = 32;
  rd_x : amount_of (out_value o) (asset_x p) = Some (reserves_x p);
  rd_y : amount_of (out_value o) (asset_y p) = Some (reserves_y p);
  rd_pure : (wrap_u64 (treasury_x p + first_royalty_x p) < reserves_x p)%Z /\
            (wrap_u64 (treasury_y p + first_royalty_y p) < reserves_y p)%Z;
  rd_lovelace : is_native (asset_x p) || is_native (asset_y p) ||
    (min_t2t_lovelace (pc_bounds c) <=? coin (out_value o))%Z = true;
}.

Lemma v1_reads c o p : v1_try_from_ledger c o = Some p <-> reads c o (inner p).
Proof.
  unfold v1_try_from_ledger. split.
  - destruct (try_pool_ver_from_address c o) as [[v info]|] eqn:Ev; [|done]. cbn.
    destruct (out_datum o) as [d|] eqn:Ed; [|done]. cbn. destruct (config_try_from_pd d) as [conf|] eqn:Ec; [|done]. cbn.
    destruct (amount_of (out_value o) (cf_asset_lq conf)) as [lq|] eqn:El; [|done]. cbn.
    change (amount_of (out_value o) Native) with (Some (coin (out_value o))). cbn.
    destruct (amount_of (out_value o) (cf_asset_x conf)) as [rx|] eqn:Ex; [|done]. cbn.
    destruct (amount_of (out_value o) (cf_asset_y conf)) as [ry|] eqn:Ey; [|done]. cbn.
    unfold checked_sub. destruct (Z.leb_spec (wrap_u64 (cf_treasury_x conf + cf_royalty_x conf)) rx) as [Lx|]; [|done]. cbn.
    destruct (Z.leb_spec (wrap_u64 (cf_treasury_y conf + cf_royalty_y conf)) ry) as [Ly|]; [|done]. cbn.
    destruct (Z.eqb_spec (rx - wrap_u64 (cf_treasury_x conf + cf_royalty_x conf)) 0) as [|Nx]; [done|].
    destruct (Z.eqb_spec (ry - wrap_u64 (cf_treasury_y conf + cf_royalty_y conf)) 0) as [|Ny]; [done|]. cbn.
    destruct (is_native _ || is_native _ || _) eqn:Es; [|done]. cbn.
    destruct (into_token (cf_pool_nft conf)) as [id|] eqn:Ei; [|done]. cbn.
    unfold try_array. destruct (Nat.eqb_spec (length (cf_treasury_address conf)) 28); [|done]. cbn.
    destruct (Nat.eqb_spec (length (cf_royalty_pub_key conf)) 32); [|done]. cbn. intros [= <-]. cbn.
    split; cbn; [by exists info|by exists d, conf, lq|done|done|done|lia|done].
  - destruct p as [p]. cbn. intros [(info & Ev & Em) (d & conf & lq & Ed & Ec & El & Ep & Ei) [L1 L2] Ex Ey [Px Py] Es].
    rewrite Ev, Ed. cbn. rewrite Ec. cbn. rewrite Ep in El, L1, L2, Ex, Ey, Px, Py, Es. cbn in *.
    rewrite El. cbn. change (amount_of (out_value o) Native) with (Some (coin (out_value o))). cbn.
    rewrite Ex, Ey. cbn. unfold checked_sub.
    destruct (Z.leb_spec (wrap_u64 (cf_treasury_x conf + cf_royalty_x conf)) (reserves_x p)); [|lia]. cbn.
    destruct (Z.leb_spec (wrap_u64 (cf_treasury_y conf + cf_royalty_y conf)) (reserves_y p)); [|lia]. cbn.
    destruct (Z.eqb_spec (reserves_x p - wrap_u64 (cf_treasury_x conf + cf_royalty_x conf)) 0); [lia|].
    destruct (Z.eqb_spec (reserves_y p - wrap_u64 (cf_treasury_y conf + cf_royalty_y conf)) 0); [lia|]. cbn.
    rewrite Es. cbn. rewrite Ei. cbn. rewrite !try_array_Some by done. cbn. rewrite <- Em. do 2 f_equal. symmetry. exact Ep.
Qed.
Lemma inline_script_length d h : inline_try_from_pd d = Some (ScriptCred h) -> length h = 28.
Proof.
  unfold inline_try_from_pd. destruct (into_constr_pd d) as [cpd|]; [|done]. cbn. destruct (_ =? _)%Z; [|done].
  destruct (take_field cpd 0) as [[f0 ?]|]; [|done]. cbn. unfold cred_try_from_pd.
  destruct (into_constr_pd f0) as [cpd'|]; [|done]. cbn. destruct (take_field cpd' 0) as [[g ?]|]; [|done]. cbn.
  destruct (into_bytes g) as [bs|]; [|done]. cbn. unfold try_array.
  destruct (_ =? _)%Z; [destruct (Nat.eqb_spec (length bs) 28); by intros [=]|].
  destruct (_ =? _)%Z; [|done]. destruct (Nat.eqb_spec (length bs) 28); [|done]. by intros [= <-].
Qed.

Lemma config_ranges d conf : config_try_from_pd d = Some conf ->
  is_u64 (cf_lp_fee_num conf) /\ is_u64 (cf_treasury_fee_num conf) /\ is_u64 (cf_royalty_fee_num conf) /\
  is_u64 (cf_nonce conf) /\ length (cf_admin_address conf) = 28.
Proof.
  intros (alt & fs & -> & Hc)%config_fields_of.
  destruct Hc as [_ _ _ _ (? & _ & H4) (? & _ & H5) (? & _ & H6) _ _ _ _ (d11 & creds & _ & Hcr & Hh') _ _ (? & _ & H14)].
  split_and!; try (by eapply into_u64_range).
  destruct creds as [|cr creds]; [done|]. cbn in Hh'. destruct cr as [|h]; [done|]. injection Hh' as ->.
  destruct (into_vec d11) as [[|e l]|]; try done. cbn in Hcr.
  destruct (inline_try_from_pd e) as [cr|] eqn:Ee; [|done]. cbn in Hcr.
  destruct (collect_option inline_try_from_pd l); [|done]. injection Hcr as -> _. by eapply inline_script_length.
Qed.

(** A pool read from an output, with other balances, is read from the output
    with its datum updated and the amounts of the balances. *)
Lemma traded_reads c o p x y o' d' :
  reads c o p -> balances_wf x -> balances_wf y -> b_second x = 0%Z -> b_second y = 0%Z ->
  out_address o' = out_address o -> out_datum o' = Some d' ->
  (out_datum o ≫= fun d => match update_pd_royalty d (set_balances p x y) with Ok d' => Some d' | _ => None end) = Some d' ->
  amount (out_value o') (asset_x p) = b_reserves x -> amount (out_value o') (asset_y p) = b_reserves y ->
  amount (out_value o') (asset_lq p) = amount (out_value o) (asset_lq p) -> (0 < amount (out_value o) (asset_lq p))%Z ->
  (is_native (asset_x p) || is_native (asset_y p) = false ->
   amount (out_value o') Native = amount (out_value o) Native) ->
  reads c o' (set_balances p x y).
Proof.
  intros [(info & Ev & Em) (d & conf & lq & Ed & Ec & El & Ep & Ei) Hlen Ex Ey _ Es] Wx Wy Sx Sy Ea Ed' Hd Ax Ay Alq Plq An.
  rewrite Ed in Hd. cbn in Hd. destruct (config_ranges _ _ Ec) as (R1 & R2 & R3 & R4 & R5).
  unfold balances_wf in Wx, Wy.
  destruct (update_config d conf (set_balances p x y) Ec) as (d'' & Eu & Ec').
  { rewrite Ep. split; cbn; try done; unfold is_u64; lia. }
  rewrite Eu in Hd. injection Hd as ->.
  assert (forall z, (0 <= z <= u64_max)%Z -> wrap_u64 z = z) as Hw by (intros; by apply wrap_u64_small).
  split; cbn [set_balances ver marginal_cost asset_lq asset_x asset_y rp_id reserves_x reserves_y treasury_address
    first_royalty_pub_key treasury_x treasury_y first_royalty_x first_royalty_y].
  - exists info. split; [|done]. unfold try_pool_ver_from_address, out_script_hash in *. by rewrite Ea.
  - exists d', (traded_config conf (set_balances p x y)), lq. split; [done|]. split; [done|].
    apply amount_Some in El as El'. split; [apply amount_positive; congruence|]. split; [|done].
    rewrite Ea. unfold set_balances. rewrite Ep. cbn. by rewrite Sx, Sy.
  - done.
  - apply amount_positive; [done|lia].
  - apply amount_positive; [done|lia].
  - rewrite !Hw by lia. lia.
  - destruct (is_native (asset_x p) || is_native (asset_y p)) eqn:En; [done|]. cbn in *.
    specialize (An eq_refl). unfold amount, amount_of in An. cbn in An. by rewrite An.
Qed.

(** A pool without a second royalty has none after a swap. *)
Lemma swap_second p i p' : royalty_swap p i = Ok p' -> numer (second_royalty_fee p) = 0%Z ->
  second_royalty_x p = 0%Z -> second_royalty_y p = 0%Z -> second_royalty_x p' = 0%Z /\ second_royalty_y p' = 0%Z.
Proof.
  intros E Hf Hx Hy. revert E. unfold royalty_swap. destruct (output_on_side p i) as [o| |]; [|done..].
  assert (forall b x b', b_second b = 0%Z -> balances_in p b x = Ok b' -> b_second b' = 0%Z) as Hin.
  { intros b x b' Hb. unfold balances_in, fee_share. destruct (denom (treasury_fee p) =? 0)%Z; [done|].
    destruct (denom (first_royalty_fee p) =? 0)%Z; [done|]. destruct (denom (second_royalty_fee p) =? 0)%Z; [done|].
    cbn. intros [= <-]. cbn. by rewrite Hf, Hb, Z.mul_0_r, Zdiv_0_l. }
  cbn [mbind outcome_bind]. case_bool_decide; destruct i as [x|x];
    (destruct (balances_in p _ x) as [b| |] eqn:Eb; [|done..]); apply Hin in Eb; try done; by intros [= <-].
Qed.

Lemma pool_datum_Some d p o : ver p <> V2 -> pool_datum (Some d) p = Ok o ->
  exists d', update_pd_royalty d p = Ok d' /\ o = Some d'.
Proof.
  unfold pool_datum. destruct (ver p); [| |done]; destruct (update_pd_royalty d p); cbn; try done; intros _ [= <-]; by eexists.
Qed.

Lemma pool_output_fields o m removed added p o' : pool_output o m removed added p = Ok o' ->
  out_address o' = out_address o /\ pool_datum (out_datum o) p = Ok (out_datum o').
Proof.
  unfold pool_output. destruct (sub_asset _ _ _) as [v1| |]; [|done..]. cbn [mbind outcome_bind].
  destruct (add_asset _ _ _) as [v2| |]; [|done..]. cbn [mbind outcome_bind].
  destruct (pool_datum _ _) as [d| |]; [|done..]. cbn [mbind outcome_bind]. by intros [= <-].
Qed.

(** The output a make adds: at the pool's address, with the datum updated, and
    the pool's amounts changed as its balances are. *)
Lemma royalty_exec_output p x y bearer s c s' eff c' :
  asset_wf (asset_x p) -> asset_wf (asset_y p) -> asset_x p <> asset_y p ->
  royalty_exec (mkTrans (mkV1Only p, bearer) (Succ (mkV1Only (set_balances p x y)))) s c = Ok (s', eff, c') ->
  exists o', eff = EffUpdated (mkBundled (mkV1Only p) bearer) (mkBundled (mkV1Only (set_balances p x y)) o') /\
    out_address o' = out_address (fin_output bearer) /\
    pool_datum (out_datum (fin_output bearer)) (set_balances p x y) = Ok (out_datum o') /\
    forall a, asset_wf a -> amount (out_value o') a = (amount (out_value (fin_output bearer)) a +
      of_asset (asset_x p) (b_reserves x - reserves_x p) a + of_asset (asset_y p) (b_reserves y - reserves_y p) a)%Z.
Proof.
  intros Wx Wy Hne. unfold royalty_exec.
  destruct (make_trade_side _) as [side|] eqn:E1; [|done]. cbn [unwrap_option mbind outcome_bind].
  destruct (unwrap <$> make_loss _) as [removed|] eqn:E2; [|done]. cbn [unwrap_option mbind outcome_bind].
  destruct (unwrap <$> make_gain _) as [added|] eqn:E3; [|done]. cbn [unwrap_option mbind outcome_bind target].
  destruct (v1_validator _ _) as [v| |]; [|done..]. cbn [mbind outcome_bind].
  destruct (pool_output _ _ _ _ _) as [o'| |] eqn:Eo; [|done..]. cbn [mbind outcome_bind make_result unlinked result].
  intros [= _ <- _]. exists o'. split; [done|].
  destruct (pool_output_fields _ _ _ _ _ _ Eo) as [Eadr Edat]. split; [done|]. split; [done|].
  pose proof (make_sides _ _ _ _ E1 E2 E3) as Hs. rewrite canonical_mapping in Eo. cbn [inner] in Eo.
  destruct (pool_assets_wf p Wx Wy) as [Wb Wq].
  intros a Wa. transitivity (amount (out_value (fin_output bearer)) a +
    of_asset (base_of p) (b_reserves (base_balances (set_balances p x y)) - b_reserves (base_balances p)) a +
    of_asset (quote_of p) (b_reserves (quote_balances (set_balances p x y)) - b_reserves (quote_balances p)) a)%Z.
  { apply (pool_output_amount _ _ _ _ _ _ a) in Eo; [|by destruct side..|done].
    unfold output_amount, make_base, make_quote in *.
    cbn [make_result unlinked target result liquidity v1_market_maker royalty_market_maker inner fst] in Hs.
    rewrite !royalty_liquidity_sides in Hs. cbn [base_reserve quote_reserve] in Hs. unfold of_asset in *.
    destruct side; destruct Hs as [-> ->]; cbn [asset_to_deduct_from asset_to_add_to] in Eo;
      repeat destruct (decide _); lia. }
  unfold base_balances, quote_balances.
  change (base_of (set_balances p x y)) with (base_of p). change (asset_x (set_balances p x y)) with (asset_x p).
  destruct (canonical_cases p Hne) as [[-> ->]|[-> ->]];
    [rewrite bool_decide_eq_true_2 by done|rewrite bool_decide_eq_false_2 by done]; cbn; lia.
Qed.

(** C12: A traded pool reads back.  If a pool was read from a ledger output and the
    trade applied to it is a swap within the pool's bounds, then the output the
    execution of that trade adds to the transaction is read as exactly the pool
    the book predicted: reserves, treasury and royalties in value and datum
    agree with the swap, and everything else is kept. *)
Theorem traded_pool_reads_back pc (p p' : RoyaltyV1PoolOnly) i bearer s c s' eff c' :
  v1_try_from_ledger pc (fin_output bearer) = Some p ->
  royalty_swap_ok (inner p) i -> royalty_swap (inner p) i = Ok (inner p') ->
  asset_wf (asset_x (inner p)) -> asset_wf (asset_y (inner p)) -> asset_wf (asset_lq (inner p)) ->
  asset_lq (inner p) <> asset_x (inner p) -> asset_lq (inner p) <> asset_y (inner p) ->
  (0 < amount (out_value (fin_output bearer)) (asset_lq (inner p)))%Z ->
  royalty_exec (mkTrans (p, bearer) (Succ p')) s c = Ok (s', eff, c') ->
  exists o', eff = EffUpdated (mkBundled p bearer) (mkBundled p' o') /\ v1_try_from_ledger pc o' = Some p'.
Proof.
  intros Hp [Hwf0 Hfit] Hsw.
  destruct (royalty_swap_succeeds _ _ Hwf0 Hfit) as (q & o & E & _ & Hwf & (x & y & Eb) & _).
  rewrite Hsw in E. injection E as <-. intros Wx Wy Wl Nx Ny Pl. destruct p as [p], p' as [p']. cbn [inner] in *. subst p'.
  apply v1_reads in Hp as Hr. cbn [inner] in Hr. pose proof (wf_assets _ Hwf) as Hne.
  intros (o' & -> & Eadr & Edat & Hxy)%royalty_exec_output; [|done..]. exists o'. split; [done|]. apply v1_reads. cbn [inner].
  destruct (rd_datum _ _ _ Hr) as (d & conf & lq & Ed & Ec & El & Ep & _). rewrite Ed in Edat.
  destruct (swap_second p i _ Hsw) as [Sx Sy]; [by rewrite Ep..|].
  assert (exists d', update_pd_royalty d (set_balances p x y) = Ok d' /\ out_datum o' = Some d') as (d' & Eu & Ed').
  { destruct (rd_script _ _ _ Hr) as (info & Ev & _). unfold try_pool_ver_from_address in Ev.
    destruct (out_script_hash _) as [h|]; [|done]. cbn in Ev.
    apply pool_datum_Some in Edat; [done|]. cbn. intros E. rewrite E in Ev. repeat case_bool_decide; simplify_eq. }
  apply (traded_reads pc (fin_output bearer) p x y o' d' Hr); try done.
  - apply (wf_x _ Hwf).
  - apply (wf_y _ Hwf).
  - rewrite Ed. cbn. by rewrite Eu.
  - rewrite Hxy by done. rewrite (amount_Some _ _ _ (rd_x _ _ _ Hr)). unfold of_asset. cbn in Hne.
    repeat destruct (decide _); try congruence; lia.
  - rewrite Hxy by done. rewrite (amount_Some _ _ _ (rd_y _ _ _ Hr)). unfold of_asset. cbn in Hne.
    repeat destruct (decide _); try congruence; lia.
  - rewrite Hxy by done. unfold of_asset. repeat destruct (decide _); try congruence; lia.
  - intros Hn%orb_false_elim. rewrite Hxy by done. unfold of_asset, is_native in *.
    rewrite !bool_decide_eq_false in Hn. destruct Hn. repeat destruct (decide _); try congruence; lia.
Qed.

End Traded.
