(* ===== verification/Admission.v ===== *)
(** * Admission of intents

    [green-order-cardano-agent/src/intent_source.rs]: the wire form of an intent,
    its admission against the index of accounts, and the event an admitted
    order enters the engine with.

    [hex::decode] is a library function (class [HexLib]). *)

From stdpp Require Import base gmap list strings.
From Stdlib Require Import ZArith Lia Strings.Byte Strings.String.
From S2P Require Import Prelude Mpf LbTypes Assets PlutusData Intention GreenOrder LbCore AccountStore.
From S2P Require Import AccountIndex Containers StateIndex Engine.

Class HexLib := hex_decode : string -> option bytes.

Record RawGreenIntent := mkRaw {
  raw_account_id : AccountId;
  raw_original_intent_digest : bytes;
  raw_intention : GreenIntention;
  raw_auth : GreenAuth;
}.

Record GreenOrdersConfig := mkGreenConfig { allow_partial : bool; auto_submit_continuations : bool }.
Definition green_config_default : GreenOrdersConfig := mkGreenConfig false true.

Inductive AdmissionError :=
| PartialNotAllowed | MissingAccount | AccountParseFailed | StaleNonce | NonAdaLeavingAsset_
| InsufficientAccountBalance.

Section Admission.
Context `{Hh : Hashing} `{CL : CborLib} `{SL : SerdeLib} `{BI : BigIntLib}.

Definition order_of_intent (raw : RawGreenIntent) : GreenOrder :=
  mkGreenOrder
    (mkGreenOrderId (raw_account_id raw) (target_nonce_slot (raw_intention raw))
       (gi_target_nonce_value (raw_intention raw)) (raw_original_intent_digest raw))
    (raw_account_id raw) (raw_intention raw) 0 (gi_leaving_amount (raw_intention raw)) (raw_auth raw).

(** [script_hash] is the deployed account validator of the context. *)
Definition admit_green_intent (raw : RawGreenIntent) (index : AccountIndex) (script_hash : bytes)
    (config : GreenOrdersConfig) : outcome AdmissionError (Bundled GreenOrder FinalizedTxOut) :=
  let i := raw_intention raw in
  if (match raw_auth raw with Path _ => true | Sig _ _ _ _ => false end) && negb (allow_partial config)
  then Err PartialNotAllowed
  else if bool_decide (input_asset i <> Native) then Err NonAdaLeavingAsset_
  else
    account_bearer ← ok_or (current index (raw_account_id raw)) MissingAccount;
    account ← ok_or (try_parse script_hash (reference account_bearer) (fin_output account_bearer)) AccountParseFailed;
    current_nonce ← ok_or (nonce (acc_state account) !! Z.to_nat (target_nonce_slot i)) StaleNonce;
    if (u64_as_i64 (gi_target_nonce_value i) <? current_nonce)%Z then Err StaleNonce
    else
      required_lovelace ← ok_or (checked_add (gi_leaving_amount i) (gi_fee_lovelace i)) InsufficientAccountBalance;
      if (default 0 (amount_of (out_value (acc_output account)) Native) <? required_lovelace)%Z
      then Err InsufficientAccountBalance
      else Ok (mkBundled (order_of_intent raw) (finalized_output account)).

(** The pair of the order, and its arrival as a local submission. *)
Definition admitted_intent_to_event {M} (admitted : Bundled GreenOrder FinalizedTxOut)
    : PairId * Channel (Transition (Bundled (Baked GreenOrder OutputRef + Baked M OutputRef) FinalizedTxOut)) :=
  let ord := bundled admitted in
  let v := reference (bearer admitted) in
  (pair_id ord, LocalTxSubmit (Forward (IorRight (mkBundled (inl (mkBaked ord v)) (bearer admitted))))).

End Admission.

(** ** The wire form *)

Inductive WireGreenAuth :=
| WireSig (prefix postfix signature update_proof : string)
| WirePath (proof : string).

Record WireGreenIntent := mkWire {
  w_account_id : string;
  w_original_intent_digest : string;
  w_input_asset : AssetClass;
  w_output_asset : AssetClass;
  w_leaving_amount : Z;
  w_expected_arriving_amount : Z;
  w_fee_lovelace : Z;
  w_target_nonce_slot : Z;
  w_target_nonce_value : Z;
  w_operator_key_hash : string;
  w_auth : WireGreenAuth;
}.

Section Wire.
Context `{HX : HexLib}.

(** [map_err(|_| ())]. *)
Definition ok_only {E A} (o : outcome E A) : option A := match o with Ok a => Some a | _ => None end.

Definition wire_auth (a : WireGreenAuth) : option GreenAuth :=
  match a with
  | WireSig prefix postfix signature update_proof =>
    p ← hex_decode prefix; q ← hex_decode postfix; s ← hex_decode signature; u ← hex_decode update_proof;
    ok_only (new_sig p q s u)
  | WirePath proof => Path <$> hex_decode proof
  end.

Definition raw_try_from (w : WireGreenIntent) : option RawGreenIntent :=
  account_bytes ← hex_decode (w_account_id w);
  account_id ← ok_only (account_id_try_from_slice account_bytes);
  digest_bytes ← hex_decode (w_original_intent_digest w);
  digest ← try_array 32 digest_bytes;
  operator_bytes ← hex_decode (w_operator_key_hash w);
  operator ← ok_only (try_operator_key_hash operator_bytes);
  a ← wire_auth (w_auth w);
  Some (mkRaw account_id digest
    (mkGreenIntention (w_input_asset w) (w_output_asset w) (w_leaving_amount w) (w_expected_arriving_amount w)
       (w_fee_lovelace w) (w_target_nonce_slot w) (w_target_nonce_value w) operator) a).

End Wire.
