(* ===== verification/AdmissionProofs.v ===== *)
(** * Admitted intents can be filled

    Theorems about [Admission.v] and [GreenExec.v]: an order the agent admits for
    an account it may act for is executed without a panic when it is filled in
    full, and the account comes out with the nonce of the order; the nonce
    check lets the same intent in again. *)

From stdpp Require Import base gmap list strings.
From Stdlib Require Import ZArith Lia Strings.Byte Strings.String.
From S2P Require Import Prelude Mpf ToyHash LbTypes Assets PlutusData Intention GreenOrder LbCore AccountStore.
From S2P Require Import LbCoreProofs AccountIndex RoyaltyPool RoyaltyPoolProofs LbGreen Containers Redeemers.
From S2P Require Import TxBlueprint TxBlueprintProofs StateIndex Engine Interpreter InterpreterProofs GreenExec RoyaltyDatum GreenTx.
From S2P Require Import Admission.

(** The checked operations of values succeed within the range of a [u64]. *)
Class ValueTotal `{ValueLib} : Prop := {
  value_sub_total : forall v a amt, (0 <= amt <= amount v a)%Z -> is_Some (value_checked_sub v (into_value a amt));
  value_add_total : forall v a amt, (0 <= amt)%Z -> (amount v a + amt <= u64_max)%Z ->
    is_Some (value_checked_add v (into_value a amt));
}.

Section Filled.
Context `{Hh : Hashing} `{CL : CborLib} `{SL : SerdeLib} `{BILaws : BigIntLaws} `{RL : RatioLib} `{VLaws : ValueLaws}.
Context `{VT : !ValueTotal}.

#[local] Arguments amount : simpl never.

(** What admission has checked. *)
Lemma admitted_inv raw index h config ord bearer :
  admit_green_intent raw index h config = Ok (mkBundled ord bearer) ->
  ord = order_of_intent raw /\ input_asset (raw_intention raw) = Native /\
  current index (raw_account_id raw) = Some bearer /\
  exists account n, try_parse h (reference bearer) (fin_output bearer) = Some account /\
    finalized_output account = bearer /\
    nonce (acc_state account) !! Z.to_nat (target_nonce_slot (raw_intention raw)) = Some n /\
    (n <= u64_as_i64 (gi_target_nonce_value (raw_intention raw)))%Z /\
    (gi_leaving_amount (raw_intention raw) + gi_fee_lovelace (raw_intention raw) <= u64_max)%Z /\
    (gi_leaving_amount (raw_intention raw) + gi_fee_lovelace (raw_intention raw) <= coin (out_value (fin_output bearer)))%Z.
Proof.
  unfold admit_green_intent. destruct (_ && _); [done|]. case_bool_decide as Hin; [done|].
  destruct (current index _) as [b|]; [|done]. cbn [ok_or mbind outcome_bind].
  destruct (try_parse h (reference b) (fin_output b)) as [account|] eqn:Ep; [|done]. cbn [ok_or mbind outcome_bind].
  assert (finalized_output account = b) as Ef.
  { unfold try_parse in Ep. destruct (negb _); [done|]. destruct (out_datum _); [|done]. cbn in Ep.
    destruct (account_try_from_pd _); [|done]. injection Ep as <-. by destruct b. }
  destruct (nonce _ !! _) as [n|] eqn:En; [|done]. cbn [ok_or mbind outcome_bind].
  destruct (Z.ltb_spec (u64_as_i64 (gi_target_nonce_value (raw_intention raw))) n); [done|].
  unfold checked_add. destruct (Z.leb_spec (gi_leaving_amount (raw_intention raw) + gi_fee_lovelace (raw_intention raw)) u64_max);
    [|done]. cbn [ok_or mbind outcome_bind].
  destruct (Z.ltb_spec (default 0%Z (amount_of (out_value (acc_output account)) Native))
    (gi_leaving_amount (raw_intention raw) + gi_fee_lovelace (raw_intention raw))) as [|Hle]; [done|].
  intros [= <- <-]. rewrite Ef. split; [done|]. split; [done|]. split; [done|].
  exists account, n. do 5 (split; [done|]). rewrite <- Ef. exact Hle.
Qed.

(** The state of the account after a signed order. *)
Definition filled_state (s : AlephAccountState) (i : GreenIntention) : AlephAccountState :=
  set_nonce s (<[Z.to_nat (target_nonce_slot i) := u64_as_i64 (gi_target_nonce_value i)]> (nonce s)).

Lemma filled_state_wf s i : account_state_wf s -> abi s = Current -> is_u64 (gi_target_nonce_value i) -> account_state_wf (filled_state s i).
Proof.
  intros (Hk & Hr & Hn & Habi) Hc Hv. unfold filled_state, account_state_wf. cbn. rewrite Hc in *.
  split_and!; try done; try apply Habi. apply Forall_insert; [done|].
  unfold is_u64, u64_max in Hv. unfold u64_as_i64, i64_min, i64_max. destruct (Z.leb_spec (gi_target_nonce_value i) (2 ^ 63 - 1)); lia.
Qed.

(** A full fill of an order: nothing of its input is left, it has received what
    it asked for, and the operator has taken at most its fee. *)
Record full_fill (i : GreenIntention) (term : TerminalTake) : Prop := {
  ff_input : remaining_input term = 0%Z;
  ff_output : (0 <= gi_expected_arriving_amount i <= accumulated_output term)%Z;
  ff_fee : (0 <= remaining_fee term <= gi_fee_lovelace i)%Z;
  ff_budget : remaining_budget term = 0%Z;
}.

(** The agent may act for the account: it is the order's operator and the
    account delegates to the batch witness. *)
Record may_act (c : ExecutionContext) (raw : RawGreenIntent) (s : AlephAccountState) : Prop := {
  ma_sig : is_path (raw_auth raw) = false;
  ma_abi : abi s = Current;
  ma_operator : operator_key_hash (raw_intention raw) = ec_operator c;
  ma_witness : dv_hash (ec_batch_witness c) ∈ allowlist s;
}.

Definition same_batch (b : TxBlueprint) (c : ExecutionContext) : Prop :=
  match aleph_batch_witness b with None => True | Some (w, _) => dv_hash w = dv_hash (ec_batch_witness c) end.

Lemma fill_value v (i : GreenIntention) ord leaving added fee : intention ord = i -> input_asset i = Native ->
  output_asset i <> Native -> asset_wf (output_asset i) ->
  (0 <= leaving)%Z -> (0 <= fee)%Z -> (leaving + fee <= u64_max)%Z -> (leaving + fee <= amount v Native)%Z ->
  (0 <= added)%Z -> (amount v (output_asset i) + added <= u64_max)%Z ->
  exists v', apply_full_fill_to_account_output v ord leaving added fee = Ok v'.
Proof.
  intros Ei Hin Hout Hwf Hl Hf Hs Hn Ha Hm. unfold apply_full_fill_to_account_output. rewrite Ei.
  rewrite bool_decide_eq_false_2 by (intros E; by apply E). unfold checked_add.
  rewrite (proj2 (Z.leb_le _ _) Hs). cbn [mbind outcome_bind]. unfold sub_asset.
  destruct (value_sub_total v Native (leaving + fee)) as [v1 E1]; [lia|]. rewrite E1. cbn [mbind outcome_bind].
  rewrite bool_decide_eq_false_2 by done. unfold add_asset.
  apply (value_sub_amount _ _ _ (output_asset i)) in E1. rewrite into_value_amount, decide_False in E1 by (done || congruence).
  destruct (value_add_total v1 (output_asset i) added) as [v2 E2]; [done|lia|]. rewrite E2. by eexists.
Qed.

Lemma elem_position (w : bytes) l : w ∈ l -> exists ix, aleph_delegate_index_for_witness l w = Ok ix.
Proof.
  intros Hin. unfold aleph_delegate_index_for_witness, position.
  destruct (list_find (fun h => h = w) l) as [[ix x]|] eqn:E; [by eexists|].
  apply list_find_None in E. rewrite Forall_forall in E. by destruct (E w Hin).
Qed.

Lemma batch_accepted b w r x : match aleph_batch_witness b with None => True | Some (v, _) => dv_hash v = dv_hash w end ->
  exists b', add_aleph_batch_intention b w r x = Ok b' /\ script_io b' = script_io b.
Proof.
  unfold add_aleph_batch_intention. destruct (aleph_batch_witness b) as [[v l]|]; [|by eexists].
  intros Hw. rewrite bool_decide_eq_true_2 by done. by eexists.
Qed.

(** What a full fill takes from the order and gives to it. *)
Lemma full_fill_take raw (bearer : FinalizedTxOut) term : full_fill (raw_intention raw) term ->
  (0 <= gi_leaving_amount (raw_intention raw))%Z ->
  let t : Trans (GreenOrder * FinalizedTxOut) GreenOrder TerminalTake := mkTrans (order_of_intent raw, bearer) (Term term) in
  linked_removed_input t = Ok (gi_leaving_amount (raw_intention raw)) /\
  linked_added_output t = Ok (accumulated_output term) /\ consumed_budget t = Ok 0%Z /\
  consumed_fee t = Ok (gi_fee_lovelace (raw_intention raw) - remaining_fee term)%Z.
Proof.
  intros [Fin Fout Ffee Fbud] Hl t.
  unfold linked_removed_input, linked_added_output, consumed_budget, consumed_fee. cbn. rewrite Fin, Fbud.
  rewrite !checked_sub_Some by lia. by rewrite !Z.sub_0_r.
Qed.

Lemma admitted_fill raw index config ord bearer c s term account :
  admit_green_intent raw index (dv_hash (ec_account_validator c)) config = Ok (mkBundled ord bearer) ->
  current_account c (raw_account_id raw) = Some bearer ->
  try_parse (dv_hash (ec_account_validator c)) (reference bearer) (fin_output bearer) = Some account ->
  may_act c raw (acc_state account) -> full_fill (raw_intention raw) term -> same_batch (tx_blueprint s) c ->
  output_asset (raw_intention raw) <> Native -> asset_wf (output_asset (raw_intention raw)) ->
  (0 <= gi_leaving_amount (raw_intention raw))%Z -> is_u64 (gi_target_nonce_value (raw_intention raw)) ->
  (amount (out_value (fin_output bearer)) (output_asset (raw_intention raw)) + accumulated_output term <= u64_max)%Z ->
  exists s' input o,
    green_exec (mkTrans (ord, bearer) (Term term)) s c = Ok (s', EffEliminated (mkBundled ord bearer), c) /\
    script_io (tx_blueprint s') = script_io (tx_blueprint s) ++ [(input, o)] /\ si_reference input = reference bearer /\
    (forall r, try_parse (dv_hash (ec_account_validator c)) r o =
       Some (mkAccountUtxo r o (filled_state (acc_state account) (raw_intention raw)))) /\
    amount (out_value o) Native = (amount (out_value (fin_output bearer)) Native - gi_leaving_amount (raw_intention raw) -
       (gi_fee_lovelace (raw_intention raw) - remaining_fee term))%Z /\
    amount (out_value o) (output_asset (raw_intention raw)) =
      (amount (out_value (fin_output bearer)) (output_asset (raw_intention raw)) + accumulated_output term)%Z.
Proof.
  intros Had Hcur Hparse [Msig Mabi Mop Mwit] [Fin [Fexp Fout] [Ffee0 Ffee] Fbud] Hbatch Hout Hwf Hleave Hnonce Hroom.
  apply admitted_inv in Had as (-> & Hin & _ & account' & n & Hp' & Hfin & Hn & Hnle & Hu & Hcoin).
  rewrite Hparse in Hp'. injection Hp' as <-. set (i := raw_intention raw) in *.
  pose proof Hparse as Hst. unfold try_parse in Hst. destruct (negb (test_address _ _)) eqn:Etest; [done|].
  destruct (out_datum (fin_output bearer)) as [d|] eqn:Ed; [|done]. cbn in Hst.
  destruct (account_try_from_pd d) as [st|] eqn:Est; [|done]. cbn in Hst. injection Hst as <-. cbn in *.
  apply account_parsed_wf in Est as Hwfs.
  destruct (account_state_reads Empty_set (filled_state st i)) as (d' & Ed' & Hd'); [by apply filled_state_wf|].
  destruct (fill_value (out_value (fin_output bearer)) i (order_of_intent raw) (gi_leaving_amount i)
    (accumulated_output term) (gi_fee_lovelace i - remaining_fee term)) as [v' Ev']; try done; try lia.
  { change (amount (out_value (fin_output bearer)) Native) with (coin (out_value (fin_output bearer))). lia. }
  destruct (elem_position _ _ Mwit) as [ix Eix].
  assert (with_sig_full_fill_nonce st (target_nonce_slot i) (gi_target_nonce_value i) = Some (filled_state st i)) as Ens.
  { unfold with_sig_full_fill_nonce. rewrite bool_decide_eq_false_2 by congruence. rewrite Hn. cbn.
    by destruct (Z.ltb_spec (u64_as_i64 (gi_target_nonce_value i)) n); [lia|]. }
  set (t := mkTrans (order_of_intent raw, bearer) (Term term) : Trans (GreenOrder * FinalizedTxOut) GreenOrder TerminalTake).
  destruct (full_fill_take raw bearer term) as (E1 & E2 & E3 & E4); [done|done|]. fold i t in E1, E2, E3, E4.
  unfold green_exec. rewrite E1, E2, E3, E4. cbn [mbind outcome_bind].
  assert (green_guards c (target t).1 (gi_leaving_amount i) (accumulated_output term) 0 (leaving_remainder (result t)) = true) as ->.
  { unfold green_guards. cbn. fold i. rewrite Hin, Mop, Z.ltb_irrefl, !bool_decide_eq_true_2 by done. cbn.
    by destruct (Z.ltb_spec (accumulated_output term) (gi_expected_arriving_amount i)); [lia|]. }
  cbn [negb]. cbn [target t fst order_of_intent go_account_id]. rewrite Hcur. cbn [unwrap_option mbind outcome_bind].
  rewrite Hparse. cbn [unwrap_option mbind outcome_bind acc_state acc_output acc_output_ref].
  set (ord := order_of_intent raw) in *. assert (intention ord = i) as Eint by done.
  assert (is_path (auth ord) = false) as Eauth by done. clearbody ord.
  unfold next_account_state. rewrite Eauth, Eint, Ens. cbn [unwrap_option mbind outcome_bind].
  rewrite bool_decide_eq_true_2 by done. rewrite Eix. cbn [mbind outcome_bind].
  unfold plan_store. cbn [leaving_remainder result t Z.ltb Z.compare]. rewrite Eauth. cbn [mbind outcome_bind].
  unfold filled_output. cbn [acc_output]. rewrite Ev'. cbn [expect mbind outcome_bind]. rewrite Ed. cbn [unwrap_option mbind outcome_bind].
  rewrite Ed'. cbn [mbind outcome_bind].
  match goal with |- context [add_aleph_batch_intention ?b ?w ?r ?x] =>
    destruct (batch_accepted b w r x) as (b' & Eb & Eio); [exact Hbatch|rewrite Eb] end.
  cbn [mbind outcome_bind]. rewrite Hfin. eexists _, _, _. split; [reflexivity|]. cbn [tx_blueprint set_blueprint].
  rewrite Eio. split; [reflexivity|]. split; [done|]. split; [|split].
  - intros r. unfold try_parse. change (test_address (dv_hash (ec_account_validator c)) (mkTxOut _ _ _ _))
      with (test_address (dv_hash (ec_account_validator c)) (fin_output bearer)). rewrite Etest. cbn. by rewrite Hd'.
  - cbn [out_value]. assert (asset_wf (output_asset (intention ord))) as Hw by by rewrite Eint.
    rewrite (full_fill_amounts _ _ _ _ _ _ Native Hw I Ev'), Eint.
    rewrite decide_True, decide_False by done. lia.
  - cbn [out_value]. assert (asset_wf (output_asset (intention ord))) as Hw by by rewrite Eint.
    rewrite (full_fill_amounts _ _ _ _ _ _ (output_asset i) Hw Hwf Ev'), Eint.
    rewrite (decide_False (P := Native = _)), decide_True, decide_False by congruence. lia.
Qed.


(** C29: The nonce check does not stop a second fill.  After the fill of an
    admitted intent the account carries the intent's own nonce, which both the
    admission and the execution accept: once the account's new output is
    observed and still holds the ADA, the same signed intent is admitted
    again. *)
Theorem filled_intent_readmitted raw index config ord bearer c s term account s' eff c' input o index' r :
  admit_green_intent raw index (dv_hash (ec_account_validator c)) config = Ok (mkBundled ord bearer) ->
  current_account c (raw_account_id raw) = Some bearer ->
  try_parse (dv_hash (ec_account_validator c)) (reference bearer) (fin_output bearer) = Some account ->
  may_act c raw (acc_state account) -> full_fill (raw_intention raw) term -> same_batch (tx_blueprint s) c ->
  output_asset (raw_intention raw) <> Native -> asset_wf (output_asset (raw_intention raw)) ->
  (0 <= gi_leaving_amount (raw_intention raw))%Z -> is_u64 (gi_target_nonce_value (raw_intention raw)) ->
  (amount (out_value (fin_output bearer)) (output_asset (raw_intention raw)) + accumulated_output term <= u64_max)%Z ->
  green_exec (mkTrans (ord, bearer) (Term term)) s c = Ok (s', eff, c') ->
  script_io (tx_blueprint s') = script_io (tx_blueprint s) ++ [(input, o)] ->
  current index' (raw_account_id raw) = Some (mkFinalized o r) ->
  (gi_leaving_amount (raw_intention raw) + gi_fee_lovelace (raw_intention raw) <= coin (out_value o))%Z ->
  admit_green_intent raw index' (dv_hash (ec_account_validator c)) config = Ok (mkBundled ord (mkFinalized o r)).
Proof.
  intros Had Hcur Hp Hma Hff Hsb Hout Hwf Hl Hn Hroom Hex Hio Hcur' Hcoin.
  destruct (admitted_fill raw index config ord bearer c s term account) as (s1 & i1 & o1 & Hex1 & Hio1 & _ & Hpo & _);
    try assumption.
  rewrite Hex in Hex1. injection Hex1 as <- _ _. rewrite Hio in Hio1. apply app_inj_tail in Hio1 as [_ Eio].
  injection Eio as <- <-.
  apply admitted_inv in Had as (-> & Hin & _ & account' & n & Hp' & _ & Hnl & Hnle & Hu & _).
  rewrite Hp in Hp'. injection Hp' as <-. destruct Hma as [Msig _ _ _].
  unfold admit_green_intent. assert (match raw_auth raw with Path _ => true | Sig _ _ _ _ => false end = false) as ->
    by by destruct (raw_auth raw). cbn [andb].
  rewrite bool_decide_eq_false_2 by (intros E; by apply E). rewrite Hcur'. cbn [ok_or mbind outcome_bind reference fin_output].
  rewrite Hpo. cbn [ok_or mbind outcome_bind acc_state filled_state nonce set_nonce].
  rewrite list_lookup_insert_eq by by eapply lookup_lt_Some. cbn [ok_or mbind outcome_bind].
  rewrite Z.ltb_irrefl. unfold checked_add. rewrite (proj2 (Z.leb_le _ _) Hu). cbn [ok_or mbind outcome_bind acc_output].
  change (default 0%Z (amount_of (out_value o) Native)) with (coin (out_value o)).
  by rewrite (proj2 (Z.ltb_ge _ _) Hcoin).
Qed.
End Filled.
