(* ===== verification/Backlog.v ===== *)
(** * The backlog of specialised orders

    [spectrum-offchain/src/backlog.rs]: [HotPriorityBacklog], the bounded buffer
    of orders that are executed one by one, best weight first.

    [PriorityQueue] is a library: class [PriorityQueueLib] holds the operations
    the backlog uses, [PriorityQueueLaws] their documented behaviour (a push
    replaces the priority of an item that is present; a pop removes an item of
    the highest priority). *)

From stdpp Require Import base gmap list.
From Stdlib Require Import ZArith Lia.
From S2P Require Import Prelude LbTypes Containers Engine.

Definition wrap_u32 (z : Z) : Z := (z mod 2 ^ 32)%Z.

Class PriorityQueueLib (Q K : Type) := {
  pq_new : Q;
  pq_push : Q -> K -> Ratio -> Q;
  pq_pop : Q -> option (K * Ratio * Q);
  pq_len : Q -> nat;
}.

Class PriorityQueueLaws (Q K : Type) `{Countable K} `{PriorityQueueLib Q K} := {
  pq_items : Q -> gmap K Ratio;
  pq_new_items : pq_items pq_new = ∅;
  pq_push_items : forall q k w, pq_items (pq_push q k w) = <[k := w]> (pq_items q);
  pq_len_items : forall q, pq_len q = size (pq_items q);
  pq_pop_none : forall q, pq_pop q = None -> pq_items q = ∅;
  pq_pop_some : forall q k w q', pq_pop q = Some (k, w, q') ->
    pq_items q !! k = Some w /\ pq_items q' = delete k (pq_items q) /\
    ((forall k w, pq_items q !! k = Some w -> (0 < denom w)%Z) ->
     forall k' w', pq_items q !! k' = Some w' -> ratio_le w' w);
}.

(** [UniqueOrder] and [Weighted]. *)
Class UniqueOrder (O K : Type) := { get_self_ref : O -> K; weight : O -> Ratio }.
(** [Ratio<u128>]: a denominator is positive. *)
Class WeightLaws (O K : Type) `{UniqueOrder O K} : Prop := weight_positive : forall o, (0 < denom (weight o))%Z.

Section Backlog.
Context {O K Q R : Type} `{Countable K} `{PQ : !PriorityQueueLib Q K} `{RB : !RingLib R K} `{UO : !UniqueOrder O K}.

Record HotPriorityBacklog := mkBacklog {
  bl_queue : Q;
  bl_store : gmap K O;
  soft_evicted_orders : CircularFilter R K;
  capacity : Z;
}.

Definition backlog_new (capacity : Z) : HotPriorityBacklog := mkBacklog pq_new ∅ filter_new capacity.

Definition hot_put (b : HotPriorityBacklog) (ord : O) : HotPriorityBacklog :=
  let id := get_self_ref ord in
  if (0 <? capacity b)%Z && negb (bool_decide (is_Some (bl_store b !! id))) &&
     negb (filter_contains (soft_evicted_orders b) id)
  then mkBacklog (pq_push (bl_queue b) id (weight ord)) (<[id := ord]> (bl_store b)) (soft_evicted_orders b)
         (capacity b - 1)
  else b.

(** The loop ends because every round pops an item. *)
Fixpoint pop_loop (fuel : nat) (b : HotPriorityBacklog) : option O * HotPriorityBacklog :=
  match fuel with
  | 0 => (None, b)
  | S fuel =>
    match pq_pop (bl_queue b) with
    | None => (None, b)
    | Some (oid, _, q) =>
      match bl_store b !! oid with
      | Some ord =>
        (Some ord, mkBacklog q (base.delete oid (bl_store b)) (soft_evicted_orders b) (wrap_u32 (capacity b + 1)))
      | None => pop_loop fuel (mkBacklog q (bl_store b) (soft_evicted_orders b) (capacity b))
      end
    end
  end.
Definition hot_try_pop (b : HotPriorityBacklog) : option O * HotPriorityBacklog := pop_loop (S (pq_len (bl_queue b))) b.

Definition hot_exists (b : HotPriorityBacklog) (id : K) : bool := bool_decide (is_Some (bl_store b !! id)).

Definition hot_remove (b : HotPriorityBacklog) (id : K) : HotPriorityBacklog :=
  mkBacklog (bl_queue b) (base.delete id (bl_store b)) (filter_remove (soft_evicted_orders b) id).1
    (match bl_store b !! id with Some _ => wrap_u32 (capacity b + 1) | None => capacity b end).

Definition hot_soft_evict (b : HotPriorityBacklog) (id : K) : HotPriorityBacklog :=
  mkBacklog (bl_queue b) (bl_store b) (filter_add (soft_evicted_orders b) id).1 (capacity b).

(** The backlog of the executor, made with a fixed capacity. *)
Definition hot_backlog {PR} (cap : Z) : HotBacklog HotPriorityBacklog O K PR := {|
  backlog_make := fun _ => backlog_new cap;
  backlog_put := hot_put;
  backlog_try_pop := hot_try_pop;
  backlog_remove := hot_remove;
  backlog_soft_evict := hot_soft_evict;
|}.

(** ** Invariant *)

Context `{QL : !PriorityQueueLaws Q K} `{WL : !WeightLaws O K}.

(** Every stored order is queued under its own weight, and what is stored and
    what is free make up the capacity. *)
Record backlog_ok (cap : Z) (b : HotPriorityBacklog) : Prop := {
  ok_queued : forall id ord, bl_store b !! id = Some ord ->
    get_self_ref ord = id /\ pq_items (bl_queue b) !! id = Some (weight ord);
  ok_weights : forall id w, pq_items (bl_queue b) !! id = Some w -> (0 < denom w)%Z;
  ok_free : (0 <= capacity b)%Z;
  ok_capacity : (capacity b + Z.of_nat (size (bl_store b)) = cap)%Z;
}.

Inductive BacklogOp := Put (ord : O) | TryPop | Remove (id : K) | SoftEvict (id : K).
Definition run_backlog_op (b : HotPriorityBacklog) (op : BacklogOp) : HotPriorityBacklog :=
  match op with
  | Put ord => hot_put b ord
  | TryPop => (hot_try_pop b).2
  | Remove id => hot_remove b id
  | SoftEvict id => hot_soft_evict b id
  end.

Lemma size_delete_some (m : gmap K O) id x : m !! id = Some x -> size m = S (size (base.delete id m)).
Proof.
  intros Hx. rewrite <- (insert_delete_id m id x Hx) at 1. apply map_size_insert_None, lookup_delete_eq.
Qed.

Lemma hot_put_ok cap b ord : backlog_ok cap b -> backlog_ok cap (hot_put b ord).
Proof.
  intros [Hq Hw Hf Hc]. unfold hot_put. destruct (_ && _) eqn:E; [|by split].
  rewrite !andb_true_iff, !negb_true_iff, bool_decide_eq_false in E. destruct E as [[Hpos%Z.ltb_lt Hn] _].
  apply eq_None_not_Some in Hn. split; cbn; [| |lia|rewrite map_size_insert_None by done; lia].
  - intros id o. rewrite pq_push_items. destruct (decide (get_self_ref ord = id)) as [<-|Hne].
    + rewrite !lookup_insert_eq. by intros [= <-].
    + rewrite !lookup_insert_ne by done. apply Hq.
  - intros id w. rewrite pq_push_items. intros [[_ <-]|[_ Hid]]%lookup_insert_Some; [apply weight_positive|by apply (Hw id)].
Qed.

Lemma freed_ok cap b q id ord : backlog_ok cap b -> (cap < 2 ^ 32)%Z -> bl_store b !! id = Some ord ->
  (forall k, k <> id -> pq_items q !! k = pq_items (bl_queue b) !! k) ->
  (forall k w, pq_items q !! k = Some w -> pq_items (bl_queue b) !! k = Some w) -> forall f,
  backlog_ok cap (mkBacklog q (base.delete id (bl_store b)) f (wrap_u32 (capacity b + 1))).
Proof.
  intros [Hq Hw Hf Hc] Hcap Hid Hk Hsub f. pose proof (size_delete_some _ _ _ Hid) as Hs.
  assert (wrap_u32 (capacity b + 1) = capacity b + 1)%Z as Ew by (apply Z.mod_small; lia).
  split; cbn; rewrite ?Ew; [|by intros k w Hk'%Hsub; apply (Hw k)|lia|lia]. intros k o [Hne Ho]%lookup_delete_Some. rewrite Hk by done. by apply Hq.
Qed.

Lemma pop_loop_spec cap fuel b : backlog_ok cap b -> (cap < 2 ^ 32)%Z -> size (pq_items (bl_queue b)) < fuel ->
  backlog_ok cap (pop_loop fuel b).2 /\
  match (pop_loop fuel b).1 with
  | None => bl_store b = ∅
  | Some o => bl_store b !! get_self_ref o = Some o /\
      bl_store (pop_loop fuel b).2 = base.delete (get_self_ref o) (bl_store b) /\
      forall id o', bl_store b !! id = Some o' -> ratio_le (weight o') (weight o)
  end.
Proof.
  revert b. induction fuel as [|fuel IH]; intros b Hok Hcap Hfuel; [lia|]. cbn [pop_loop].
  destruct (pq_pop (bl_queue b)) as [[[oid w] q]|] eqn:Ep.
  - apply pq_pop_some in Ep as (Hw & Hi & Hmax). destruct (bl_store b !! oid) as [ord|] eqn:Eo; cbn.
    + destruct (ok_queued _ _ Hok _ _ Eo) as [Eid Hwo]. rewrite Eid. split; [|split; [done|split; [done|]]].
      * apply (freed_ok cap b q oid ord Hok Hcap Eo).
        -- intros k Hk. by rewrite Hi, lookup_delete_ne.
        -- intros k x. rewrite Hi. by intros [_ ?]%lookup_delete_Some.
      * intros id o' Ho'. rewrite Hw in Hwo. injection Hwo as ->. apply (Hmax (ok_weights _ _ Hok) id). by apply (ok_queued _ _ Hok).
    + specialize (IH (mkBacklog q (bl_store b) (soft_evicted_orders b) (capacity b))). cbn in IH. apply IH; [|done|].
      * destruct Hok as [Hq Hpos Hf Hc]. split; cbn; [| |done|done].
        2:{ intros id x. rewrite Hi. intros [_ Hx]%lookup_delete_Some. by apply (Hpos id). }
        intros id o Ho. rewrite Hi, lookup_delete_ne by congruence.
        by apply Hq.
      * rewrite Hi. assert (S (size (base.delete oid (pq_items (bl_queue b)))) = size (pq_items (bl_queue b))); [|lia].
        rewrite <- (insert_delete_id _ _ _ Hw) at 2. symmetry. apply map_size_insert_None, lookup_delete_eq.
  - apply pq_pop_none in Ep. split; [done|]. apply map_empty. intros id.
    destruct (bl_store b !! id) as [o|] eqn:Eo; [|done].
    apply (ok_queued _ _ Hok) in Eo as [_ Eo]. by rewrite Ep, lookup_empty in Eo.
Qed.

(** C30: The backlog serves the best order.  In a backlog reached from the empty
    one by any sequence of operations, at most [cap] orders are stored and what
    is stored and what is free make up [cap]; a pop returns an order of the
    highest weight among all stored ones and removes exactly it, and returns
    nothing only when nothing is stored. *)
Theorem backlog_pops_best cap ops : (0 <= cap < 2 ^ 32)%Z ->
  let b := fold_left run_backlog_op ops (backlog_new cap) in
  (0 <= capacity b)%Z /\ (capacity b + Z.of_nat (size (bl_store b)) = cap)%Z /\
  match (hot_try_pop b).1 with
  | None => bl_store b = ∅
  | Some o => bl_store b !! get_self_ref o = Some o /\
      bl_store (hot_try_pop b).2 = base.delete (get_self_ref o) (bl_store b) /\
      forall id o', bl_store b !! id = Some o' -> ratio_le (weight o') (weight o)
  end.
Proof.
  intros Hcap. assert (forall b, backlog_ok cap b -> backlog_ok cap (fold_left run_backlog_op ops b)) as Hrun.
  { induction ops as [|op ops IH]; intros b Hb; [done|]. cbn. apply IH. destruct op as [ord| |id|id]; cbn [run_backlog_op].
    - by apply hot_put_ok.
    - apply pop_loop_spec; [done|lia|rewrite pq_len_items; lia].
    - unfold hot_remove. destruct (bl_store b !! id) as [o|] eqn:Eo.
      + apply (freed_ok cap b _ id o Hb); [lia|done|done|done].
      + destruct Hb as [Hq Hw Hf Hc]. split; cbn; [|done|done|]; rewrite delete_id by done; done.
    - destruct Hb as [Hq Hw Hf Hc]. by split. }
  intros b. assert (backlog_ok cap b) as Hok.
  { apply Hrun. split; cbn; [by intros id ord; rewrite lookup_empty|by intros id w; rewrite pq_new_items, lookup_empty|lia|rewrite map_size_empty; lia]. }
  split; [apply Hok|]. split; [apply Hok|]. apply (pop_loop_spec cap); [done|lia|rewrite pq_len_items; lia].
Qed.

End Backlog.

(** ** A queue that is a map *)

Section SampleBacklog.

Definition better (x y : nat * Ratio) : bool := (numer x.2 * denom y.2 <=? numer y.2 * denom x.2)%Z.
Fixpoint best (l : list (nat * Ratio)) : option (nat * Ratio) :=
  match l with
  | [] => None
  | x :: l => match best l with None => Some x | Some y => Some (if better x y then y else x) end
  end.

Lemma best_spec l : match best l with
  | None => l = []
  | Some x => x ∈ l /\ (Forall (fun y => 0 < denom y.2)%Z l -> Forall (fun y => ratio_le y.2 x.2) l)
  end.
Proof.
  induction l as [|x l IH]; [done|]. cbn. destruct (best l) as [y|].
  - destruct IH as [Hy Hmax]. unfold better. destruct (Z.leb_spec (numer x.2 * denom y.2) (numer y.2 * denom x.2)) as [Hle|Hlt].
    + cbn. split; [by right|]. intros [_ Hl]%Forall_cons. constructor; [exact Hle|by apply Hmax].
    + cbn. split; [by left|]. intros [Hx Hl]%Forall_cons. constructor; [unfold ratio_le; lia|].
      specialize (Hmax Hl). rewrite Forall_forall in *. intros z Hz.
      pose proof (Hmax z Hz) as Hzy. pose proof (Hl z Hz). pose proof (Hl y Hy). unfold ratio_le in *. nia.
  - subst l. split; [by left|]. intros _. constructor; [unfold ratio_le; lia|constructor].
Qed.

#[local] Instance map_queue : PriorityQueueLib (gmap nat Ratio) nat := {|
  pq_new := ∅;
  pq_push := fun q k w => <[k := w]> q;
  pq_pop := fun q => (fun x => (x.1, x.2, base.delete x.1 q)) <$> best (map_to_list q);
  pq_len := fun q => size q;
|}.
#[local] Instance map_queue_laws : PriorityQueueLaws (gmap nat Ratio) nat.
Proof.
  refine {| pq_items := fun q => q |}; try done.
  - intros q. pose proof (best_spec (map_to_list q)) as Hb. cbn. destruct (best _); [done|]. intros _.
    by apply map_to_list_empty_iff.
  - intros q k w q'. pose proof (best_spec (map_to_list q)) as Hb. cbn. destruct (best _) as [[k0 w0]|]; [|done].
    cbn. intros [= <- <- <-]. destruct Hb as [Hin Hmax]. split; [by apply elem_of_map_to_list|]. split; [done|].
    intros Hpos k' w' Hk'. assert (Forall (fun y : nat * Ratio => 0 < denom y.2)%Z (map_to_list q)) as Hf.
    { apply Forall_forall. intros [k1 w1] H1%elem_of_map_to_list. by apply (Hpos k1). }
    specialize (Hmax Hf). rewrite Forall_forall in Hmax. by apply (Hmax (k', w')), elem_of_map_to_list.
Defined.

#[local] Instance weighted_nat : UniqueOrder nat nat := {| get_self_ref := fun n => n; weight := fun n => mkRatio (Z.of_nat n) 1 |}.
#[local] Instance weighted_nat_laws : WeightLaws nat nat.
Proof. by intros o. Qed.
#[local] Instance evicted_ring : RingLib (list nat) nat := list_ring 256 nat.

(** Room for two: 3 and 9 are stored, 5 is not; 9 comes first. *)
Lemma backlog_pops_best_witness :
  let b := fold_left run_backlog_op [Put 3; Put 9; Put 5] (backlog_new (Q := gmap nat Ratio) (R := list nat) 2) in
  (hot_try_pop b).1 = Some 9 /\ bl_store b !! 5 = None /\ forall id o, bl_store b !! id = Some o -> ratio_le (weight o) (weight 9).
Proof.
  intros b. assert ((hot_try_pop b).1 = Some 9) as Hp by (vm_compute; reflexivity).
  destruct (backlog_pops_best (Q := gmap nat Ratio) (R := list nat) 2 [Put 3; Put 9; Put 5]) as (_ & _ & Hb); [lia|].
  fold b in Hb. rewrite Hp in Hb. split; [exact Hp|]. split; [vm_compute; reflexivity|]. apply Hb.
Defined.

End SampleBacklog.
