(* ===== verification/GreenTxExamples.v ===== *)
(** * A transaction of one green order and one pool

    One order sells ten ADA to a royalty pool.  The matchmaker's batch, the
    recipe, the outputs on the ledger, the account index and the interpreter
    are the modelled ones; the hash, the values, the CBOR form and the fee of
    the builder are concrete stand-ins. *)

From stdpp Require Import base gmap list.
From Stdlib Require Import ZArith Lia Strings.Byte.
From S2P Require Import Prelude Mpf ToyHash LbTypes Assets PlutusData Intention GreenOrder LbCore AccountStore.
From S2P Require Import LbCoreProofs AccountIndex RoyaltyPool RoyaltyPoolProofs LbGreen Containers Redeemers.
From S2P Require Import TxBlueprint TxBlueprintProofs StateIndex Engine Interpreter InterpreterProofs GreenExec RoyaltyDatum GreenTx.
From S2P Require Import RoyaltyDatumProofs Admission AdmissionProofs.

Section SampleTx.
#[local] Existing Instance exact_ratio.
#[local] Existing Instance exact_fee.
#[local] Existing Instance exact_fee_laws.
#[local] Existing Instance no_bignum.
#[local] Existing Instance toy.
#[local] Existing Instance list_order.
#[local] Existing Instance list_order_laws.
#[local] Existing Instance green_trade_laws.
#[local] Existing Instance as_int_any.
#[local] Existing Instance as_int_any_laws.
#[local] Existing Instance pointwise_value.
#[local] Existing Instance pointwise_value_laws.
#[local] Instance sample_cbor : CborLib := fun _ => [].
#[local] Instance sample_cbor_decode : CborDecodeLib := fun _ => None.
#[local] Instance sample_biguint : BigUintLib := fun z => if (0 <=? z)%Z && (z <=? u64_max)%Z then Some z else None.
#[local] Instance sample_serde : SerdeLib := {|
  file := PersistedAccountStores; to_json := fun p => p; from_json := Some |}.

(** A builder that accepts everything and asks for a fee per output. *)
#[local] Instance sample_builder : TxBuilderLib := {|
  input_accepted := fun _ _ => true;
  output_accepted := fun _ _ => true;
  collateral_accepted := fun _ _ => true;
  min_fee := fun t => Some (100000 + 20000 * Z.of_nat (length (tb_outputs t)))%Z;
  build_tx := fun t _ => Some (mkBody (tb_outputs t) (replicate 32 x0c));
|}.

(** ** The account *)

Definition s_account_hash : bytes := replicate 28 x0a.
Definition s_witness_hash : bytes := replicate 28 x02.
Definition s_account_id : AccountId := replicate 32 x01.
Definition s_account_ref : OutputRef := (replicate 32 x10, 0%Z).
Definition s_account_output : TransactionOutput :=
  mkTxOut (mkAddress (Some (ScriptCred s_account_hash)) None []) (mkValue 50000000 ∅)
    (match account_into_pd (E:=unit) (set_store_root sample_account EMPTY_ROOT) with Ok d => Some d | _ => None end) None.
Definition s_account : AlephAccountUtxo :=
  mkAccountUtxo s_account_ref s_account_output (set_store_root sample_account EMPTY_ROOT).
Definition s_index : AccountIndex :=
  (bind_external_account_id_once s_account_id s_account_ref
     (observe_created_or_updated s_account (with_persistence_path None))).1.

(** Ten ADA for at least nineteen million tokens. *)
Definition s_order (fee : Z) : GreenOrder :=
  mkGreenOrder (mkGreenOrderId s_account_id 1 9 (replicate 32 x02)) s_account_id
    (mkGreenIntention Native sample_token 10000000 19000000 fee 1 9 (replicate 28 x07)) 0 10000000
    (Sig [] [] (replicate 64 x00) []).

(** ** The pool *)

Definition s_pool_hash : bytes := replicate 28 x0b.
Definition s_nft : Token := mkToken (replicate 28 x08) (mkAssetName 2 (replicate 32 x00)).
Definition s_lq : Token := mkToken (replicate 28 x06) (mkAssetName 2 (replicate 32 x00)).
Definition asset_pd (t : Token) : PlutusData := PdConstr 0 [PdBytes (policy t); PdBytes (cml_name (asset_name t))].
Definition s_pool_datum : PlutusData :=
  PdConstr 0
    [asset_pd s_nft; PdConstr 0 [PdBytes []; PdBytes []];
     match sample_token with TokenAsset t => asset_pd t | Native => PdBytes [] end; asset_pd s_lq;
     PdInteger 99700; PdInteger 100; PdInteger 50; PdInteger 5000000; PdInteger 7000000; PdInteger 1000000;
     PdInteger 1000000; PdList [inline_into_pd (ScriptCred (replicate 28 x0e))]; PdBytes (replicate 28 x0f);
     PdBytes (replicate 32 x1f); PdInteger 0].
Definition s_pool_output : TransactionOutput :=
  mkTxOut (mkAddress (Some (ScriptCred s_pool_hash)) None [])
    (mkValue 10000000000
       {[ replicate 28 x09 := {[ [x00; x00] := 20000000000%Z ]};
          replicate 28 x08 := {[ [x00; x00] := 1%Z ]};
          replicate 28 x06 := {[ [x00; x00] := 9000000000000000000%Z ]} ]})
    (Some s_pool_datum) None.
Definition s_pool_ref : OutputRef := (replicate 32 x05, 1%Z).
Definition s_bounds : PoolValidation := mkPoolValidation 10000000 0.
Definition s_pool_context : PoolContext :=
  mkPoolContext (mkScriptInfo s_pool_hash (mkExUnits 0 0)) (mkScriptInfo (replicate 28 x2b) (mkExUnits 0 0)) s_bounds.
Definition s_pool : RoyaltyV1PoolOnly :=
  match v1_try_from_ledger s_pool_context s_pool_output with Some p => p | None => mkV1Only sample_pool end.

(** ** The batch, the recipe and the context *)

Definition ok_list {A E} (o : outcome E (list A)) : list A := match o with Ok l => l | _ => [] end.
Definition sum_or {A B C} (f : A -> C) (d : C) (x : A + B) : C := match x with inl a => f a | inr _ => d end.

Definition s_swap (fee : Z) := default_swap_with_taker (s_order fee) s_pool (OnAsk 10000000%Z).
Definition s_batch (fee : Z) : MatchmakingAttempt GreenOrder RoyaltyV1PoolOnly ExUnits Token Token :=
  add_take (add_make attempt_empty (s_swap fee).2) (s_swap fee).1.
Definition s_instrs (fee : Z) : list (Instruction GreenOrder RoyaltyV1PoolOnly) :=
  ok_list (recipe_try_from (s_batch fee) 1).
Definition s_link (fee : Z) (id : Token) : option (OutputRef * FinalizedTxOut) :=
  if bool_decide (id = stable_id s_pool) then Some (s_pool_ref, mkFinalized s_pool_output s_pool_ref)
  else if bool_decide (id = stable_id (s_order fee)) then Some (s_account_ref, mkFinalized s_account_output s_account_ref)
  else None.
Definition s_linkage (fee : Z)
    : (list (Execution GreenOrder RoyaltyV1PoolOnly FinalizedTxOut) * gset OutputRef) + list (Orphan GreenOrder RoyaltyV1PoolOnly) :=
  recipe_link (I := Token) (s_instrs fee) (s_link fee).
Definition s_recipe (fee : Z) : list (Execution GreenOrder RoyaltyV1PoolOnly FinalizedTxOut) :=
  sum_or (fun r => r.1) [] (s_linkage fee).

Definition s_validator (n : byte) (h : bytes) : DeployedValidatorErased :=
  mkValidator (replicate 32 n, 0%Z) (mkTxOut (mkAddress None None []) (mkValue 1000000 ∅) None None) h
    (mkExUnits 100 200) (mkExUnits 3 4).
Definition s_funding : FinalizedTxOut :=
  mkFinalized (mkTxOut (mkAddress (Some (PubKeyCred (replicate 28 x07))) None []) (mkValue 20000000 ∅) None None)
    (replicate 32 x20, 2%Z).
Definition s_context : ExecutionContext :=
  mkContext s_index (replicate 28 x07) false (s_validator x30 s_account_hash) (s_validator x31 s_witness_hash)
    (s_validator x32 s_pool_hash) (s_validator x33 (replicate 28 x2b)) s_funding 1
    (mkAddress (Some (PubKeyCred (replicate 28 x17))) None []).

(** ** The batch balances *)

Lemma s_batch_built : Built (fun m i => royalty_swap_ok (inner m) i) (s_batch 500000).
Proof.
  unfold s_batch.
  apply (built_swap (fun m i => royalty_swap_ok (inner m) i) attempt_empty (s_order 500000) s_pool 10000000%Z).
  - constructor.
  - vm_compute; exact I.
  - vm_compute; exact I.
  - zfacts.
  - split; [split; zfacts|split; zfacts].
  - zfacts.
  - apply surjective_pairing.
Qed.

Lemma s_batch_fits : fits (fun m i => royalty_swap_ok (inner m) i) (s_batch 500000).
Proof.
  split.
  - zfacts.
  - zfacts.
  - assert (forallb (fun p => bool_decide (0 <= rest_output (result p.2) /\
        rest_output (result p.2) + msum next_base (makes (s_batch 500000)) <= u64_max /\
        rest_output (result p.2) + msum next_quote (makes (s_batch 500000)) <= u64_max)%Z)
        (map_to_list (takes (s_batch 500000))) = true) as Hl by (vm_compute; reflexivity).
    apply map_Forall_to_list, Forall_forall. intros [k t] Hin. rewrite forallb_forall in Hl.
    by apply list_elem_of_In, Hl, bool_decide_eq_true in Hin.
  - apply map_Forall_to_list.
    assert (map_to_list (makes (s_batch 500000)) =
              [(rp_id (inner s_pool), mkTrans s_pool (result (s_swap 500000).2))]) as -> by (vm_compute; reflexivity).
    constructor; [|constructor]. unfold uncurry, rebalance_ok. cbv beta zeta iota.
    match goal with |- context [checked_sub ?a ?b] =>
      assert (checked_sub a b = Some 10000000%Z) as -> by (vm_compute; reflexivity) end.
    split; [split; zfacts|split; zfacts].
Qed.

Definition s_pair : PairId := canonical Native sample_token.

Definition s_consumed : gset OutputRef := sum_or (fun r => r.2) ∅ (s_linkage 500000).

Lemma s_linked : s_linkage 500000 = inl (s_recipe 500000, s_consumed).
Proof.
  assert (match s_linkage 500000 with inl _ => True | inr _ => False end) as L by (vm_compute; exact I).
  unfold s_recipe, s_consumed. revert L. generalize (s_linkage 500000). intros [[l cs]|o]; [reflexivity|intros []].
Qed.

Definition s_run (fee : Z) (fuel : nat) := execute_recipe fuel s_funding false s_context (s_recipe fee) 0 0 0 0.

Lemma s_run_estimate : match s_run 500000 3 with Ok b => bd_estimated b = 200000%Z | _ => False end.
Proof. vm_compute. reflexivity. Qed.

Lemma green_batch_balances_witness :
  exists b, s_run 500000 3 = Ok b /\
    tx_surplus (bd_builder b) Native = 200000%Z /\ tx_surplus (bd_builder b) sample_token = 0%Z.
Proof.
  pose proof s_run_estimate as Ee. destruct (s_run 500000 3) as [b| |] eqn:Ex; [|destruct Ee..].
  exists b. split; [reflexivity|].
  destruct (green_batch_balances (s_batch 500000) s_pair 1 (s_instrs 500000) OutputRef _ _ (s_link 500000)
    (s_recipe 500000) s_consumed 3 s_funding false s_context b) as [_ Hbal].
  - exact s_batch_built.
  - exact s_batch_fits.
  - vm_compute. reflexivity.
  - vm_compute. discriminate.
  - vm_compute. repeat constructor; discriminate.
  - exact s_linked.
  - vm_compute. discriminate.
  - vm_compute. discriminate.
  - exact Ex.
  - rewrite !Hbal; [split; [exact Ee|reflexivity]|vm_compute; repeat constructor; discriminate|exact I].
Defined.

(** ** Fee correction *)

(** The context does not change: the order is filled with its signature. *)
Definition s_built (fee paid reserve estimate : Z) : Prop :=
  match build_recipe s_funding s_context (s_recipe fee) 0 paid reserve with
  | Ok b => bd_ctx b = s_context /\ (bd_reserved b, bd_gross b, bd_estimated b, bd_forced b) = (0%Z, fee, estimate, true)
  | _ => False
  end.

Lemma s_priced fee paid reserve estimate : s_built fee paid reserve estimate ->
  priced (eq s_context) s_funding (s_recipe fee) fee paid reserve estimate.
Proof.
  unfold s_built. intros Hb c <-. destruct (build_recipe _ _ _ _ _ _) as [b| |]; [|done..].
  exists b. destruct Hb as [Hc Hb]. by simplify_eq.
Qed.

(** Evaluates a build on the virtual machine. *)
Ltac s_build :=
  lazymatch goal with |- s_built ?fee _ _ ?estimate =>
    vm_cast_no_check (conj (eq_refl s_context) (eq_refl (0%Z, fee, estimate, true))) end.

Lemma s_even_start : s_built 500000 0 0 200000.
Proof. s_build. Qed.
Lemma s_even_paid : s_built 500000 200000 0 200000.
Proof. s_build. Qed.
Lemma s_odd_start : s_built 1210000 0 0 220000.
Proof. s_build. Qed.
Lemma s_odd_cheap : s_built 1210000 220000 0 200000.
Proof. s_build. Qed.
Lemma s_odd_dear : s_built 1210000 200000 0 220000.
Proof. s_build. Qed.

Lemma fee_correction_converges_witness :
  exists b, execute_recipe 3 s_funding false s_context (s_recipe 500000) 0 0 0 0 = Ok b /\ s_context = bd_ctx b.
Proof.
  apply (fee_correction_converges (eq s_context) s_funding (s_recipe 500000) 500000 200000 false s_context);
    [lia|lia|reflexivity|apply s_priced, s_even_start|apply s_priced, s_even_paid|apply s_priced, s_even_paid].
Defined.

(** An order that pays 1.21 ADA: after the dear fee (220,000) less than one ADA
    is left, which goes to the funding box and saves an output; after the cheap
    fee (200,000) an ADA is left for an output of its own. *)
Lemma fee_correction_oscillates_witness :
  execute_recipe 1000 s_funding false s_context (s_recipe 1210000) 0 0 0 0 = Err OutOfFuel.
Proof.
  apply (fee_correction_oscillates (eq s_context) s_funding (s_recipe 1210000) 1210000 220000 200000 false s_context);
    [lia|lia|discriminate|reflexivity|apply s_priced, s_odd_start|apply s_priced, s_odd_cheap|apply s_priced, s_odd_dear].
Defined.

(** ** The projection is aligned *)

Definition s_blueprint : TxBlueprint :=
  match execute s_context execution_state_new [] (s_recipe 500000) with
  | Ok (s, _, _) => tx_blueprint s | _ => blueprint_new
  end.
Definition s_projected : panics (TransactionBuilder * FundingPreview) :=
  project_onto_builder s_blueprint constant_tx_builder 1 (ec_reward_address s_context) s_funding 300000 0.

(** The pool's input comes first on the ledger, the account's second. *)
Lemma projection_aligned_witness :
  exists t fio (o : TxInputsOrdering), s_projected = Ok (t, fio) /\
    o !! s_pool_ref = Some 0 /\ o !! s_account_ref = Some 1 /\ o !! reference s_funding = Some 2.
Proof.
  assert (match s_projected with
          | Ok (t, _) => (bi_reference <$> tb_inputs t) = [s_account_ref; reference s_funding; s_pool_ref]
          | _ => False end) as L by (vm_compute; reflexivity).
  destruct s_projected as [[t fio]| |] eqn:E; [|destruct L..]. exists t, fio.
  destruct (projection_aligned s_blueprint 1 (ec_reward_address s_context) s_funding 300000 0 t fio)
    as (o & Ho & _).
  - assert (witness_scripts s_blueprint = ∅) as W by (vm_compute; reflexivity).
    unfold witnesses_keyed. rewrite W. apply map_Forall_empty.
  - exact E.
  - rewrite L. apply (bool_decide_unpack _). vm_compute. exact I.
  - exists o. split; [reflexivity|]. rewrite !Ho; rewrite L.
    + vm_compute. repeat split.
    + do 1 right. by left.
    + by left.
    + do 2 right. by left.
Defined.

(** ** The pool reads back *)

#[local] Instance sample_biguint_laws : BigUintLaws.
Proof.
  intros z w. unfold as_u64, sample_biguint, is_u64.
  destruct (Z.leb_spec 0 z), (Z.leb_spec z u64_max); cbn; split; intros E; simplify_eq; try lia; try (by split); destruct E as [? ->]; done || lia.
Qed.

Definition s_pool' : RoyaltyV1PoolOnly := next_or s_pool (result (s_swap 500000).2).
#[local] Notation s_pool_exec :=
  (royalty_exec (mkTrans (s_pool, mkFinalized s_pool_output s_pool_ref) (Succ s_pool')) execution_state_new s_context).

Lemma traded_pool_reads_back_witness :
  exists s' o' c', s_pool_exec = Ok (s', EffUpdated (mkBundled s_pool (mkFinalized s_pool_output s_pool_ref)) (mkBundled s_pool' o'), c') /\
    v1_try_from_ledger s_pool_context o' = Some s_pool'.
Proof.
  assert (match s_pool_exec with Ok _ => True | _ => False end) as L by (vm_compute; exact I).
  destruct s_pool_exec as [[[s' eff] c']| |] eqn:E; [|destruct L..].
  destruct (traded_pool_reads_back s_pool_context s_pool s_pool' (OnAsk 10000000%Z) (mkFinalized s_pool_output s_pool_ref)
    execution_state_new s_context s' eff c') as (o' & -> & Hr); [..|exists s', o', c'; exact (conj eq_refl Hr)].
  - vm_compute. reflexivity.
  - split; [split; zfacts|split; zfacts].
  - vm_compute. reflexivity.
  - exact I.
  - vm_compute. repeat constructor; discriminate.
  - vm_compute. repeat constructor; discriminate.
  - vm_compute. discriminate.
  - vm_compute. discriminate.
  - vm_compute. reflexivity.
  - exact E.
Defined.

Lemma v1_reader_agrees_witness :
  royalty_try_from_ledger s_pool_context (mkScriptInfo (replicate 28 x3b) (mkExUnits 0 0)) s_pool_output
    ≫= try_from_royalty_pool = Some s_pool.
Proof.
  assert (v1_try_from_ledger s_pool_context s_pool_output = Some s_pool) as <- by (vm_compute; reflexivity).
  symmetry. apply v1_reader_agrees.
  intros [|t] x; unfold amount_of; cbn [out_value s_pool_output coin multiasset]; [by intros [= <-]|].
  intros (b & Hb & Hx)%bind_Some. rewrite !lookup_insert_Some, lookup_singleton_Some in Hb.
  destruct Hb as [[_ <-]|[_ [[_ <-]|[_ [_ <-]]]]]; by apply lookup_singleton_Some in Hx as [_ <-].
Defined.

(** ** Admission *)

#[local] Instance pointwise_total : ValueTotal.
Proof. split; intros; by eexists. Qed.

Definition s_raw : RawGreenIntent :=
  mkRaw s_account_id (replicate 32 x02) (intention (s_order 500000)) (auth (s_order 500000)).
Definition s_bearer : FinalizedTxOut := mkFinalized s_account_output s_account_ref.
Definition s_term : TerminalTake := mkTerminalTake 0 19900000 0 0.
#[local] Notation s_admission ix := (admit_green_intent s_raw ix s_account_hash green_config_default).
#[local] Notation s_fill :=
  (green_exec (mkTrans (order_of_intent s_raw, s_bearer) (Term s_term)) execution_state_new s_context).

Lemma s_may_act : may_act s_context s_raw (acc_state s_account).
Proof. split; [reflexivity..|]. vm_compute. left. Qed.

Lemma s_full_fill : full_fill (raw_intention s_raw) s_term.
Proof. split; zfacts. Qed.

Ltac s_admitted :=
  first [vm_compute; reflexivity | vm_compute; discriminate
        | vm_compute; repeat constructor; discriminate | zfacts].


(** The account after the fill, at a new output. *)
Definition s_after : list (ScriptInputBlueprint * TransactionOutput) * ExecutionState :=
  match s_fill with Ok (s, _, _) => (script_io (tx_blueprint s), s) | _ => ([], execution_state_new) end.
Definition s_index' (o : TransactionOutput) (r : OutputRef) : AccountIndex :=
  observe_transaction [s_account_ref] (option_list (try_parse s_account_hash r o)) s_index.
Definition s_after_ref : OutputRef := (replicate 32 x11, 0%Z).

Lemma s_after_observed : exists input o, s_after.1 = [(input, o)] /\
  current (s_index' o s_after_ref) s_account_id = Some (mkFinalized o s_after_ref) /\ coin (out_value o) = 39500000%Z.
Proof.
  assert (match s_after.1 with
          | [(_, o)] => current (s_index' o s_after_ref) s_account_id = Some (mkFinalized o s_after_ref) /\
                        coin (out_value o) = 39500000%Z
          | _ => False end) as L by (vm_compute; split; reflexivity).
  destruct s_after.1 as [|[input o] [|]]; [destruct L| |destruct L]. exists input, o. exact (conj eq_refl L).
Qed.

Lemma filled_intent_readmitted_witness : exists ix b, s_admission ix = Ok b /\ ix <> s_index.
Proof.
  destruct s_after_observed as (input & o & Ha & Hc & Hl).
  assert (match s_fill with Ok _ => True | _ => False end) as L by (vm_compute; exact I).
  unfold s_after in Ha. destruct s_fill as [[[s' eff] c']| |] eqn:E; [|destruct L..].
  exists (s_index' o s_after_ref), (mkBundled (order_of_intent s_raw) (mkFinalized o s_after_ref)). split.
  - apply (filled_intent_readmitted s_raw s_index green_config_default (order_of_intent s_raw) s_bearer s_context
      execution_state_new s_term s_account s' eff c' input o (s_index' o s_after_ref) s_after_ref);
      [s_admitted|s_admitted|s_admitted|exact s_may_act|exact s_full_fill|exact I|s_admitted|s_admitted|zfacts|zfacts|zfacts
      |exact E|exact Ha|exact Hc|rewrite Hl; vm_compute; discriminate].
  - intros Ei. rewrite Ei in Hc.
    assert (current s_index s_account_id = Some s_bearer) as Hb by (vm_compute; reflexivity).
    rewrite Hb in Hc. discriminate.
Defined.
End SampleTx.
