(* ===== verification/EventSink.v ===== *)
(** * The event sink

    From transactions to events.  [bloom-offchain-cardano/src/event_sink]: the
    indexes of live entities and funding boxes ([entity_index.rs],
    [order_index.rs]) and the handlers that find entities, specialised orders and
    funding boxes in transactions of the ledger and the mempool ([handler.rs]);
    the chain of handlers ([spectrum-offchain/src/event_sink]) as the agent
    builds it ([main.rs]).

    A handler is a function from its state and an event to its new state, the
    messages it sends and what it leaves of the event.  [clock 0] is the time at
    which a call runs the eviction, [clock (S n)] that of its [n]-th transition.  The slot and the hash of the block,
    which the executor does not look at, are dropped from the messages. *)

From stdpp Require Import base gmap list.
From Stdlib Require Import ZArith Lia Strings.Byte.
From S2P Require Import Prelude Mpf LbTypes Assets PlutusData AccountStore AccountIndex StateIndex Containers Engine Graduation.

#[local] Notation delete := base.delete.
#[local] Notation insert := base.insert.

(** ** Data *)

(** [SmallVec]: at most 32 items. *)
Definition small_vec {A} (l : list A) : list A := take 32 l.

(** [TxViewMut]; metadata and mints are passed on unread. *)
Record TxViewMut (MD MI : Type) := mkTxView {
  tv_hash : bytes;
  tv_inputs : list OutputRef;
  tv_outputs : list (Z * TransactionOutput);
  tv_metadata : option MD;
  tv_mints : option MI;
  tv_signers : list bytes;
}.
Arguments mkTxView {MD MI} _ _ _ _ _ _.
Arguments tv_hash {MD MI} _.
Arguments tv_inputs {MD MI} _.
Arguments tv_outputs {MD MI} _.
Arguments tv_metadata {MD MI} _.
Arguments tv_mints {MD MI} _.
Arguments tv_signers {MD MI} _.

Definition set_outputs {MD MI} (l : list (Z * TransactionOutput)) (tx : TxViewMut MD MI) : TxViewMut MD MI :=
  mkTxView (tv_hash tx) (tv_inputs tx) l (tv_metadata tx) (tv_mints tx) (tv_signers tx).

Inductive LedgerTxEvent (Tx : Type) :=
| TxApplied (tx : Tx) (slot block_number : Z) (block_hash : bytes)
| TxUnapplied (tx : Tx) (slot block_number : Z) (block_hash : bytes).
Arguments TxApplied {Tx} _ _ _ _.
Arguments TxUnapplied {Tx} _ _ _ _.

Inductive MempoolUpdate (Tx : Type) := TxAccepted (tx : Tx) | TxDropped (tx : Tx).
Arguments TxAccepted {Tx} _.
Arguments TxDropped {Tx} _.

Definition ior_swap {A B} (i : Ior A B) : Ior B A :=
  match i with IorLeft a => IorRight a | IorRight b => IorLeft b | IorBoth a b => IorBoth b a end.

(** [Ior::try_from((l, r))]. *)
Definition ior_try_from {A B} (l : option A) (r : option B) : option (Ior A B) :=
  match l, r with
  | Some l, Some r => Some (IorBoth l r)
  | Some l, None => Some (IorLeft l)
  | None, Some r => Some (IorRight r)
  | None, None => None
  end.

(** The keys of a [HashMap] and the [HashMap] of pending messages by key. *)
Definition hash_keys {K V} `{HashOrder K} (m : gmap K V) : list K := (hash_iter m).*1.
Definition push_by {K A} `{Countable K} (m : gmap K (list A)) (k : K) (a : A) : gmap K (list A) :=
  <[k := default [] (m !! k) ++ [a]]> m.

(** [Partitioned::get_mut]: [DefaultHasher] is the standard library's. *)
Class KeyHash (K : Type) := hash_partitioning_key : K -> Z.
Definition partition_of {K} `{KeyHash K} (n : nat) (k : K) : nat := Z.to_nat (hash_partitioning_key k mod Z.of_nat n).

(** [for (key, items) in pending { topics.get_mut(key).batch_send(..) }]. *)
Definition send_all {K A} `{HashOrder K} (topic : K -> nat) (pending : gmap K (list A)) : list (nat * (K * A)) :=
  hash_iter pending ≫= fun ki => (fun a => (topic ki.1, (ki.1, a))) <$> ki.2.

(** ** Indexes with delayed eviction *)

(** The loop of [run_eviction]. *)
Fixpoint evict {K A} `{Countable K} (now : Z) (queue : list (Z * K)) (store : gmap K A) : list (Z * K) * gmap K A :=
  match queue with
  | [] => ([], store)
  | (ts, k) :: q => if (ts <=? now)%Z then evict now q (delete k store) else (queue, store)
  end.

Class Tradable (T PR : Type) := pair_of_entity : T -> PR.
#[export] Hint Mode Tradable ! - : typeclass_instances.

Section EntityIndex.
Context {T SID V PR : Type}.
Context `{Countable V} `{Countable SID} `{TS : Stable T SID} `{SN : Snapshot T V} `{TP : Tradable T PR}.

Record InMemoryEntityIndex := mkEntityIndex {
  ei_store : gmap V T;
  permanent_pairs : gmap SID PR;
  ei_queue : list (Z * V);
  ei_delay : Z;
}.

Definition entity_index_new (eviction_delay : Z) : InMemoryEntityIndex := mkEntityIndex ∅ ∅ [] eviction_delay.

Definition put_state (ix : InMemoryEntityIndex) (st : T) : InMemoryEntityIndex :=
  mkEntityIndex (<[version st := st]> (ei_store ix))
    (if is_quasi_permanent st then <[stable_id st := pair_of_entity st]> (permanent_pairs ix) else permanent_pairs ix)
    (ei_queue ix) (ei_delay ix).
Definition entity_get (ix : InMemoryEntityIndex) (ver : V) : option T := ei_store ix !! ver.
Definition pair_of (ix : InMemoryEntityIndex) (id : SID) : option PR := permanent_pairs ix !! id.
Definition entity_exists (ix : InMemoryEntityIndex) (ver : V) : bool := bool_decide (is_Some (ei_store ix !! ver)).
Definition entity_register (now : Z) (ix : InMemoryEntityIndex) (ver : V) : InMemoryEntityIndex :=
  mkEntityIndex (ei_store ix) (permanent_pairs ix) (ei_queue ix ++ [((now + ei_delay ix)%Z, ver)]) (ei_delay ix).
Definition entity_evict (now : Z) (ix : InMemoryEntityIndex) : InMemoryEntityIndex :=
  let '(q, s) := evict now (ei_queue ix) (ei_store ix) in mkEntityIndex s (permanent_pairs ix) q (ei_delay ix).

End EntityIndex.
Arguments InMemoryEntityIndex T SID V PR {_ _ _ _}.

Section KvIndex.
Context {K A : Type} `{Countable K}.

Record InMemoryKvIndex := mkKvIndex { kv_store : gmap K A; kv_queue : list (Z * K); kv_delay : Z }.

Definition kv_new (eviction_delay : Z) : InMemoryKvIndex := mkKvIndex ∅ [] eviction_delay.
Definition kv_put (ix : InMemoryKvIndex) (id : K) (value : A) : InMemoryKvIndex :=
  mkKvIndex (<[id := value]> (kv_store ix)) (kv_queue ix) (kv_delay ix).
Definition kv_get (ix : InMemoryKvIndex) (id : K) : option A := kv_store ix !! id.
Definition kv_exists (ix : InMemoryKvIndex) (id : K) : bool := bool_decide (is_Some (kv_store ix !! id)).
Definition kv_register (now : Z) (ix : InMemoryKvIndex) (id : K) : InMemoryKvIndex :=
  mkKvIndex (kv_store ix) (kv_queue ix ++ [((now + kv_delay ix)%Z, id)]) (kv_delay ix).
Definition kv_evict (now : Z) (ix : InMemoryKvIndex) : InMemoryKvIndex :=
  let '(q, s) := evict now (kv_queue ix) (kv_store ix) in mkKvIndex s q (kv_delay ix).

End KvIndex.
Arguments InMemoryKvIndex K A {_ _}.

(** ** Entities in transactions *)

(** [EventContext]. *)
Record EventContext (SID MD MI : Type) := mkEventContext {
  cx_output_ref : OutputRef;
  cx_metadata : option MD;
  cx_consumed_utxos : list OutputRef;
  cx_consumed_identifiers : list SID;
  cx_produced_identifiers : list SID;
  cx_added_payment_destinations : list bytes;
  cx_mints : option MI;
}.
Arguments mkEventContext {SID MD MI} _ _ _ _ _ _ _.
Arguments cx_output_ref {SID MD MI} _.

(** [TryFromLedger] in the context made of the handler's own ([G]) and the
    transaction's. *)
Class TryFromLedger (G T SID MD MI : Type) :=
  try_from_ledger : G -> EventContext SID MD MI -> TransactionOutput -> option T.

(** [Entity::Version: From<OutputRef>]. *)
Class FromRef (V : Type) := from_ref : OutputRef -> V.
Class MaybeGraduatedSplashId (SID : Type) := maybe_graduated_splash_id : SID -> option Token.
(** Which of the address forms of the ledger it is: base and enterprise
    addresses carry a payment key of interest. *)
Class AddressForm := is_base_or_enterprise : Address -> bool.

Inductive GraduationAction := GrApply | GrRollback | GrIgnore.

Section PairUpdates.
Context {T SID V PR G MD MI : Type}.
Context `{CV : Countable V} `{CS : Countable SID} `{CP : Countable PR} `{SO : !HashOrder SID} `{PO : !HashOrder PR}.
Context `{TS : Stable T SID} `{SN : Snapshot T V} `{TP : Tradable T PR} `{TL : TryFromLedger G T SID MD MI}.
Context `{FR : FromRef V} `{MG : MaybeGraduatedSplashId SID} `{GT : GraduationTracking G} `{AF : AddressForm}.
Context `{KH : KeyHash PR} (n_topics : nat).

Notation Index := (InMemoryEntityIndex T SID V PR).
Notation Tx := (TxViewMut MD MI).

Definition consumed_entities (ix : Index) (inputs : list OutputRef) : gmap SID T :=
  foldl (fun m r => match entity_get ix (from_ref r) with Some e => <[stable_id e := e]> m | None => m end) ∅ inputs.

Definition outbound_key (a : Address) : option bytes :=
  if is_base_or_enterprise a then match payment_cred a with Some (PubKeyCred h) => Some h | _ => None end else None.
Definition added_destinations (tx : Tx) : list bytes :=
  small_vec (filter (fun h => h ∉ tv_signers tx) (omap (fun io => outbound_key (out_address io.2)) (tv_outputs tx))).

(** One round of the loop over the outputs, which are taken from the end. *)
Record Scan := mkScan { sc_produced : gmap SID T; sc_unprocessed : list (Z * TransactionOutput); sc_snek : list (OutputRef * Token) }.

Definition scan_output (g : G) (tx : Tx) (consumed : gmap SID T) (added : list bytes) (action : GraduationAction)
    (s : Scan) (io : Z * TransactionOutput) : Scan :=
  let o_ref := (tv_hash tx, io.1) in
  let snek := match action with
              | GrApply => match observe_snek_output g o_ref io.2 with Some r => sc_snek s ++ [r] | None => sc_snek s end
              | _ => sc_snek s
              end in
  let cx := mkEventContext o_ref (tv_metadata tx) (small_vec (tv_inputs tx)) (small_vec (hash_keys consumed))
              (small_vec (hash_keys (sc_produced s))) added (tv_mints tx) in
  match try_from_ledger g cx io.2 with
  | Some e => mkScan (<[stable_id e := e]> (sc_produced s)) (sc_unprocessed s) snek
  | None => mkScan (sc_produced s) (io :: sc_unprocessed s) snek
  end.

Definition scan_outputs (g : G) (tx : Tx) (consumed : gmap SID T) (action : GraduationAction) : Scan :=
  foldl (scan_output g tx consumed (added_destinations tx) action) (mkScan ∅ [] []) (reverse (tv_outputs tx)).

Definition graduated_ids (consumed_snek produced_snek : list (OutputRef * Token)) (produced : gmap SID T) : list Token :=
  let ids := omap maybe_graduated_splash_id (hash_keys produced) in
  if bool_decide (consumed_snek <> []) && bool_decide (produced_snek = []) && (length ids =? 1) then ids else [].

Definition journal_scan (g : G) (tx : Tx) (action : GraduationAction) (consumed_snek : list (OutputRef * Token)) (s : Scan) : G :=
  match action with
  | GrApply =>
    if bool_decide (consumed_snek <> []) || bool_decide (sc_snek s <> [])
    then journal_graduated_splash_pools g (tv_hash tx) consumed_snek (sc_snek s)
           (graduated_ids consumed_snek (sc_snek s) (sc_produced s))
    else g
  | _ => g
  end.

(** Consumed versions matched with produced ones, in the order in which the
    set of their identifiers is iterated. *)
Definition match_versions (consumed produced : gmap SID T) : list (Ior T T) :=
  omap (fun k => ior_try_from (consumed !! k) (produced !! k)) (set_iter (dom consumed ∪ dom produced)).

Definition extract_continuous_transitions (ix : Index) (g : G) (tx : Tx) (action : GraduationAction)
    : G * (list (Ior T T) * Tx + Tx) :=
  if length (tv_outputs tx) =? 0 then (g, inr tx)
  else
    let g := match action with GrRollback => rollback_graduation g (tv_hash tx) | _ => g end in
    let consumed := consumed_entities ix (tv_inputs tx) in
    let consumed_snek := tracked_consumed g (tv_inputs tx) in
    let s := scan_outputs g tx consumed action in
    let g := journal_scan g tx action consumed_snek s in
    let tx := set_outputs (sc_unprocessed s) tx in
    let transitions := match_versions consumed (sc_produced s) in
    (g, if length transitions =? 0 then inr tx else inl (transitions, tx)).

Definition pair_id_of (xa : Ior T T) : PR :=
  match xa with IorLeft o | IorRight o | IorBoth o _ => pair_of_entity o end.

Definition index_transition (now : Z) (ix : Index) (tr : Ior T T) : Index :=
  match tr with
  | IorLeft consumed => entity_register now ix (version consumed)
  | IorRight produced => put_state ix produced
  | IorBoth consumed produced => put_state (entity_register now ix (version consumed)) produced
  end.

(** The loop over the transitions: [indexed] is what the index is told, [sent]
    what is sent. *)
Fixpoint commit_transitions (clock : nat -> Z) (n : nat) (indexed sent : Ior T T -> Ior T T)
    (msg : Ior T T -> Channel (Transition T)) (ix : Index) (updates : gmap PR (list (Channel (Transition T))))
    (trs : list (Ior T T)) : Index * gmap PR (list (Channel (Transition T))) :=
  match trs with
  | [] => (ix, updates)
  | tr :: trs =>
    commit_transitions clock (S n) indexed sent msg (index_transition (clock n) ix (indexed tr))
      (push_by updates (pair_id_of (sent tr)) (msg (sent tr))) trs
  end.

Notation Msg := (nat * (PR * Channel (Transition T)))%type.

(** What every branch of the two handlers does. *)
Definition handle_tx (clock : nat -> Z) (ix : Index) (g : G) (tx : Tx) (action : GraduationAction)
    (indexed sent : Ior T T -> Ior T T) (msg : Ior T T -> Channel (Transition T)) : Index * G * list Msg * Tx :=
  match extract_continuous_transitions ix g tx action with
  | (g, inl (trs, tx)) =>
    let '(ix, updates) := commit_transitions clock 1 indexed sent msg (entity_evict (clock 0) ix) ∅ trs in
    (ix, g, send_all (partition_of n_topics) updates, tx)
  | (g, inr tx) => (ix, g, [], tx)
  end.

(** [PairUpdateHandler] on events of the ledger. *)
Definition pair_handle_ledger (clock : nat -> Z) (ix : Index) (g : G) (ev : LedgerTxEvent Tx)
    : Index * G * list Msg * option (LedgerTxEvent Tx) :=
  match ev with
  | TxApplied tx slot block_number block_hash =>
    let '(ix, g, msgs, tx) := handle_tx clock ix g tx GrApply id id (fun tr => Ledger (Forward tr)) in
    (ix, g, msgs, Some (TxApplied tx slot block_number block_hash))
  | TxUnapplied tx slot block_number block_hash =>
    let '(ix, g, msgs, tx) := handle_tx clock ix g tx GrRollback ior_swap ior_swap (fun tr => Ledger (Backward tr)) in
    (ix, g, msgs, Some (TxUnapplied tx slot block_number block_hash))
  end.

(** [PairUpdateHandler] on updates of the mempool: a dropped transaction is
    indexed as it was, and sent inverted. *)
Definition pair_handle_mempool (clock : nat -> Z) (ix : Index) (g : G) (ev : MempoolUpdate Tx)
    : Index * G * list Msg * option (MempoolUpdate Tx) :=
  match ev with
  | TxAccepted tx =>
    let '(ix, g, msgs, tx) := handle_tx clock ix g tx GrIgnore id id (fun tr => Mempool (Forward tr)) in
    (ix, g, msgs, Some (TxAccepted tx))
  | TxDropped tx =>
    let '(ix, g, msgs, tx) := handle_tx clock ix g tx GrIgnore id ior_swap (fun tr => Mempool (Backward tr)) in
    (ix, g, msgs, Some (TxDropped tx))
  end.

End PairUpdates.
Arguments Scan T SID {_ _}.

(** ** Specialised orders in transactions *)

Section SpecialOrders.
Context {T SID V PR SO OID G MD MI : Type}.
Context `{CV : Countable V} `{CS : Countable SID} `{CP : Countable PR} `{CO : Countable OID}.
Context `{OO : !HashOrder OID} `{PO : !HashOrder PR}.
Context `{SP : SpecializedOrder SO SID OID} `{TL : TryFromLedger G SO OID MD MI} `{FR : FromRef OID}.
Context `{KH : KeyHash PR} (n_topics : nat).

Notation Tx := (TxViewMut MD MI).

Definition consumed_orders (ix : InMemoryKvIndex OID SO) (inputs : list OutputRef) : gmap OID SO :=
  foldl (fun m r => match kv_get ix (from_ref r) with Some o => <[self_ref o := o]> m | None => m end) ∅ inputs.

Definition scan_order (g : G) (tx : Tx) (s : gmap OID SO * list (Z * TransactionOutput)) (io : Z * TransactionOutput)
    : gmap OID SO * list (Z * TransactionOutput) :=
  let cx := mkEventContext (tv_hash tx, io.1) (tv_metadata tx) (small_vec (tv_inputs tx)) [] [] [] (tv_mints tx) in
  match try_from_ledger g cx io.2 with
  | Some o => (<[self_ref o := o]> s.1, s.2)
  | None => (s.1, io :: s.2)
  end.

(** Left: consumed, right: produced. *)
Definition match_orders (consumed produced : gmap OID SO) : list (SO + SO) :=
  omap (fun k => match consumed !! k with
                 | Some c => Some (inl c)
                 | None => inr <$> produced !! k
                 end) (set_iter (dom consumed ∪ dom produced)).

Definition extract_atomic_transitions (ix : InMemoryKvIndex OID SO) (g : G) (tx : Tx) : list (SO + SO) * Tx + Tx :=
  if length (tv_outputs tx) =? 0 then inr tx
  else
    let consumed := consumed_orders ix (tv_inputs tx) in
    let '(produced, rest) := foldl (scan_order g tx) (∅, []) (reverse (tv_outputs tx)) in
    let tx := set_outputs rest tx in
    let transitions := match_orders consumed produced in
    if length transitions =? 0 then inr tx else inl (transitions, tx).

Definition pool_ref_of (tr : SO + SO) : SID := match tr with inl o | inr o => pool_ref o end.
Definition flip (tr : SO + SO) : SO + SO := match tr with inl o => inr o | inr o => inl o end.

Definition index_atomic_transition (now : Z) (ix : InMemoryKvIndex OID SO) (tr : SO + SO) : InMemoryKvIndex OID SO :=
  match tr with
  | inl consumed => kv_register now ix (self_ref consumed)
  | inr produced => kv_put ix (self_ref produced) produced
  end.

(** [Either::into] an order update. *)
Definition order_update (tr : SO + SO) : OrderUpdate SO SO := match tr with inl o => Eliminated o | inr o => Created o end.

Fixpoint commit_orders (clock : nat -> Z) (n : nat) (pool_pair : SID -> option PR) (view : SO + SO -> SO + SO)
    (msg : OrderUpdate SO SO -> Channel (OrderUpdate SO SO)) (ix : InMemoryKvIndex OID SO)
    (updates : gmap PR (list (Channel (OrderUpdate SO SO)))) (trs : list (SO + SO))
    : InMemoryKvIndex OID SO * gmap PR (list (Channel (OrderUpdate SO SO))) :=
  match trs with
  | [] => (ix, updates)
  | tr :: trs =>
    match pool_pair (pool_ref_of tr) with
    | Some pr =>
      commit_orders clock (S n) pool_pair view msg (index_atomic_transition (clock n) ix (view tr))
        (push_by updates pr (msg (order_update (view tr)))) trs
    | None => commit_orders clock (S n) pool_pair view msg ix updates trs
    end
  end.

Notation Msg := (nat * (PR * Channel (OrderUpdate SO SO)))%type.

Definition handle_order_tx (clock : nat -> Z) (pool_pair : SID -> option PR) (ix : InMemoryKvIndex OID SO) (g : G) (tx : Tx)
    (view : SO + SO -> SO + SO) (msg : OrderUpdate SO SO -> Channel (OrderUpdate SO SO))
    : InMemoryKvIndex OID SO * list Msg * Tx :=
  match extract_atomic_transitions ix g tx with
  | inl (trs, tx) =>
    let '(ix, updates) := commit_orders clock 1 pool_pair view msg (kv_evict (clock 0) ix) ∅ trs in
    (ix, send_all (partition_of n_topics) updates, tx)
  | inr tx => (ix, [], tx)
  end.

Definition order_handle_ledger (clock : nat -> Z) (pool_pair : SID -> option PR) (ix : InMemoryKvIndex OID SO) (g : G)
    (ev : LedgerTxEvent Tx) : InMemoryKvIndex OID SO * list Msg * option (LedgerTxEvent Tx) :=
  match ev with
  | TxApplied tx slot block_number block_hash =>
    let '(ix, msgs, tx) := handle_order_tx clock pool_pair ix g tx id Ledger in
    (ix, msgs, Some (TxApplied tx slot block_number block_hash))
  | TxUnapplied tx slot block_number block_hash =>
    let '(ix, msgs, tx) := handle_order_tx clock pool_pair ix g tx flip Ledger in
    (ix, msgs, Some (TxUnapplied tx slot block_number block_hash))
  end.

Definition order_handle_mempool (clock : nat -> Z) (pool_pair : SID -> option PR) (ix : InMemoryKvIndex OID SO) (g : G)
    (ev : MempoolUpdate Tx) : InMemoryKvIndex OID SO * list Msg * option (MempoolUpdate Tx) :=
  match ev with
  | TxAccepted tx =>
    let '(ix, msgs, tx) := handle_order_tx clock pool_pair ix g tx id Mempool in (ix, msgs, Some (TxAccepted tx))
  | TxDropped tx =>
    let '(ix, msgs, tx) := handle_order_tx clock pool_pair ix g tx flip Mempool in (ix, msgs, Some (TxDropped tx))
  end.

End SpecialOrders.

(** ** Funding boxes in transactions *)

Section Funding.
Context {MD MI : Type} `{NO : !HashOrder nat}.
Context (funding_addresses : list Address) (skip_set : OutputRef).

Notation Tx := (TxViewMut MD MI).
Notation Index := (InMemoryKvIndex OutputRef (nat * FinalizedTxOut)).
Notation Ev := (FundingEvent FinalizedTxOut).

Definition partition_by_address (a : Address) : option nat := fst <$> list_find (fun e => e = a) funding_addresses.

Definition scan_funding (tx : Tx) (s : list (nat * FinalizedTxOut) * list (Z * TransactionOutput))
    (io : Z * TransactionOutput) : list (nat * FinalizedTxOut) * list (Z * TransactionOutput) :=
  let o_ref := (tv_hash tx, io.1) in
  match partition_by_address (out_address io.2) with
  | Some part => if bool_decide (o_ref = skip_set) then s else (s.1 ++ [(part, mkFinalized io.2 o_ref)], s.2)
  | None => (s.1, io :: s.2)
  end.

Definition extract_funding_events (ix : Index) (tx : Tx) : list (nat * Ev) * Tx + Tx :=
  if length (tv_outputs tx) =? 0 then inr tx
  else
    let consumed := omap (fun r => kv_get ix r) (tv_inputs tx) in
    let '(produced, rest) := foldl (scan_funding tx) ([], []) (reverse (tv_outputs tx)) in
    let tx := set_outputs rest tx in
    let events := (prod_map id FundingConsumed <$> consumed) ++ (prod_map id FundingProduced <$> produced) in
    if length events =? 0 then inr tx else inl (events, tx).

Definition index_funding_event (now : Z) (ix : Index) (part : nat) (ev : Ev) : Index :=
  match ev with
  | FundingConsumed consumed => kv_register now ix (reference consumed)
  | FundingProduced produced => kv_put ix (reference produced) (part, produced)
  end.

Fixpoint commit_funding (clock : nat -> Z) (n : nat) (view : Ev -> Ev) (ix : Index) (by_part : gmap nat (list Ev))
    (evs : list (nat * Ev)) : Index * gmap nat (list Ev) :=
  match evs with
  | [] => (ix, by_part)
  | (pt, ev) :: evs =>
    commit_funding clock (S n) view (index_funding_event (clock n) ix pt (view ev)) (push_by by_part pt (view ev)) evs
  end.

(** Topics are taken by number, modulo how many there are. *)
Definition handle_funding_tx (clock : nat -> Z) (ix : Index) (tx : Tx) (view : Ev -> Ev)
    : Index * list (nat * (nat * Ev)) * Tx :=
  match extract_funding_events ix tx with
  | inl (evs, tx) =>
    let '(ix, by_part) := commit_funding clock 1 view (kv_evict (clock 0) ix) ∅ evs in
    (ix, send_all (fun pt => pt mod length funding_addresses) by_part, tx)
  | inr tx => (ix, [], tx)
  end.

Definition funding_handle_ledger (clock : nat -> Z) (ix : Index) (ev : LedgerTxEvent Tx)
    : Index * list (nat * (nat * Ev)) * option (LedgerTxEvent Tx) :=
  match ev with
  | TxApplied tx slot block_number block_hash =>
    let '(ix, msgs, tx) := handle_funding_tx clock ix tx id in
    (ix, msgs, Some (TxApplied tx slot block_number block_hash))
  | TxUnapplied tx slot block_number block_hash =>
    let '(ix, msgs, tx) := handle_funding_tx clock ix tx funding_inverse in
    (ix, msgs, Some (TxUnapplied tx slot block_number block_hash))
  end.

Definition funding_handle_mempool (clock : nat -> Z) (ix : Index) (ev : MempoolUpdate Tx)
    : Index * list (nat * (nat * Ev)) * option (MempoolUpdate Tx) :=
  match ev with
  | TxAccepted tx => let '(ix, msgs, tx) := handle_funding_tx clock ix tx id in (ix, msgs, Some (TxAccepted tx))
  | TxDropped tx => let '(ix, msgs, tx) := handle_funding_tx clock ix tx funding_inverse in (ix, msgs, Some (TxDropped tx))
  end.

End Funding.

(** ** The chain of handlers *)

(** A handler over the state all handlers share, with messages of one type. *)
Definition Handler (S M Ev : Type) := S -> Ev -> S * list M * option Ev.

(** [process_events] for one event: handlers are tried until one keeps it. *)
Fixpoint process_event {S M Ev} (handlers : list (Handler S M Ev)) (s : S) (ev : Ev) : S * list M :=
  match handlers with
  | [] => (s, [])
  | h :: hs =>
    match h s ev with
    | (s, msgs, Some ev) => let '(s, more) := process_event hs s ev in (s, msgs ++ more)
    | (s, msgs, None) => (s, msgs)
    end
  end.

Section Agent.
Context {T SID V PR G MD MI : Type}.
Context `{CV : Countable V} `{CS : Countable SID} `{CP : Countable PR} `{SO : !HashOrder SID} `{PO : !HashOrder PR}.
Context `{TS : Stable T SID} `{SN : Snapshot T V} `{TP : Tradable T PR} `{TL : TryFromLedger G T SID MD MI}.
Context `{FR : FromRef V} `{MG : MaybeGraduatedSplashId SID} `{GT : GraduationTracking G} `{AF : AddressForm}.
Context `{KH : KeyHash PR} `{NO : !HashOrder nat}.
Context `{Hh : Hashing} `{SL : SerdeLib} `{BL : BigIntLib}.
Context (account_script_hash : bytes) (funding_addresses : list Address) (collateral : OutputRef).

Notation Tx := (TxViewMut MD MI).

Record SinkState := mkSink {
  sk_accounts : AccountIndex;
  sk_entities : InMemoryEntityIndex T SID V PR;
  sk_graduation : G;
  sk_funding : InMemoryKvIndex OutputRef (nat * FinalizedTxOut);
}.

Inductive SinkMsg :=
| PairMsg (topic : nat) (pr : PR) (c : Channel (Transition T))
| FundingMsg (topic : nat) (ev : FundingEvent FinalizedTxOut)
| ConfirmedTx (tx_hash : bytes) (block_number : Z).

Definition account_view (tx : Tx) : TxView := mkTx (tv_hash tx) (tv_inputs tx) (tv_outputs tx).

(** [AccountEventHandler]: driven by the ledger only, takes nothing away. *)
Definition account_handle_ledger : Handler SinkState SinkMsg (LedgerTxEvent Tx) := fun s ev =>
  let ix := match ev with
            | TxApplied tx _ _ _ => apply_account_events (scan_account_events account_script_hash (account_view tx)) (sk_accounts s)
            | TxUnapplied tx _ _ _ => revert_account_events (scan_account_events account_script_hash (account_view tx)) (sk_accounts s)
            end in
  (mkSink ix (sk_entities s) (sk_graduation s) (sk_funding s), [], Some ev).
Definition account_handle_mempool : Handler SinkState SinkMsg (MempoolUpdate Tx) := fun s ev => (s, [], Some ev).

Definition pair_msgs (l : list (nat * (PR * Channel (Transition T)))) : list SinkMsg :=
  (fun m => PairMsg m.1 m.2.1 m.2.2) <$> l.
Definition funding_msgs (l : list (nat * (nat * FundingEvent FinalizedTxOut))) : list SinkMsg :=
  (fun m => FundingMsg m.1 m.2.2) <$> l.

(** The agent runs four partitions. *)
Definition PARTITIONS : nat := 4.

Definition general_handle_ledger (clock : nat -> Z) : Handler SinkState SinkMsg (LedgerTxEvent Tx) := fun s ev =>
  let '(ix, g, msgs, ev) := pair_handle_ledger PARTITIONS clock (sk_entities s) (sk_graduation s) ev in
  (mkSink (sk_accounts s) ix g (sk_funding s), pair_msgs msgs, ev).
Definition general_handle_mempool (clock : nat -> Z) : Handler SinkState SinkMsg (MempoolUpdate Tx) := fun s ev =>
  let '(ix, g, msgs, ev) := pair_handle_mempool PARTITIONS clock (sk_entities s) (sk_graduation s) ev in
  (mkSink (sk_accounts s) ix g (sk_funding s), pair_msgs msgs, ev).

Definition funding_ledger (clock : nat -> Z) : Handler SinkState SinkMsg (LedgerTxEvent Tx) := fun s ev =>
  let '(ix, msgs, ev) := funding_handle_ledger funding_addresses collateral clock (sk_funding s) ev in
  (mkSink (sk_accounts s) (sk_entities s) (sk_graduation s) ix, funding_msgs msgs, ev).
Definition funding_mempool (clock : nat -> Z) : Handler SinkState SinkMsg (MempoolUpdate Tx) := fun s ev =>
  let '(ix, msgs, ev) := funding_handle_mempool funding_addresses collateral clock (sk_funding s) ev in
  (mkSink (sk_accounts s) (sk_entities s) (sk_graduation s) ix, funding_msgs msgs, ev).

(** Applied and unapplied alike. *)
Definition succinct_tx (ev : LedgerTxEvent Tx) : bytes * Z :=
  match ev with TxApplied tx _ block_number _ | TxUnapplied tx _ block_number _ => (tv_hash tx, block_number) end.
Definition forward_confirmed : Handler SinkState SinkMsg (LedgerTxEvent Tx) := fun s ev =>
  (s, [ConfirmedTx (succinct_tx ev).1 (succinct_tx ev).2], None).

Definition sink_ledger (clock : nat -> nat -> Z) : SinkState -> LedgerTxEvent Tx -> SinkState * list SinkMsg :=
  process_event [account_handle_ledger; general_handle_ledger (clock 0); funding_ledger (clock 1); forward_confirmed].
Definition sink_mempool (clock : nat -> nat -> Z) : SinkState -> MempoolUpdate Tx -> SinkState * list SinkMsg :=
  process_event [account_handle_mempool; general_handle_mempool (clock 0); funding_mempool (clock 1)].

End Agent.
