(* ===== verification/EventSinkProofs.v ===== *)
(** * Events and the ledger

    Theorems about [EventSink.v]: the funding boxes an executor is told of are
    the unspent ones of its address; undoing a transaction sends the inverse of
    what its application sent and restores the index of entities, until the
    delayed eviction that the application scheduled forgets a revived entity; a
    transaction dropped from the mempool leaves its outputs in the index. *)

From stdpp Require Import base gmap list.
From Stdlib Require Import ZArith Lia Strings.Byte.
From S2P Require Import Prelude Mpf LbTypes Assets PlutusData AccountStore AccountIndex LbState LbStateProofs.
From S2P Require Import StateIndex Containers Engine TxBlueprint TxBlueprintProofs Graduation EventSink.

#[local] Notation delete := base.delete.
#[local] Notation insert := base.insert.

(** ** Eviction *)

Section Evict.
Context {K A : Type} `{Countable K}.
Implicit Types (q : list (Z * K)) (s : gmap K A).

(** What is due is a prefix of the queue and leaves the store. *)
Lemma evict_spec now q s : exists due, q = due ++ (evict now q s).1 /\ Forall (fun tk => tk.1 <= now)%Z due /\
  (forall k, (evict now q s).2 !! k = if bool_decide (k ∈ due.*2) then None else s !! k) /\
  (forall tk, head (evict now q s).1 = Some tk -> now < tk.1)%Z.
Proof.
  revert s. induction q as [|[ts k] q IH]; intros s; cbn [evict].
  - exists []. split; [done|]. split; [constructor|]. split; [|done]. intros k. by rewrite bool_decide_eq_false_2 by set_solver.
  - destruct (Z.leb_spec ts now) as [Hle|Hgt].
    + destruct (IH (delete k s)) as (due & Eq & Hd & Hs & Hh). exists ((ts, k) :: due). split; [by rewrite Eq at 1|].
      split; [by constructor|]. split; [|done]. intros k'. rewrite Hs. cbn [fmap list_fmap snd].
      destruct (decide (k' = k)) as [->|Hne].
      * rewrite lookup_delete_eq, (bool_decide_eq_true_2 (k ∈ k :: _)) by by left. by destruct (bool_decide _).
      * rewrite lookup_delete_ne by done. rewrite (bool_decide_ext (k' ∈ k :: due.*2) (k' ∈ due.*2)); [done|rewrite elem_of_cons; naive_solver].
    + exists []. split; [done|]. split; [constructor|]. split; [|by intros tk [= <-]].
      intros k'. by rewrite bool_decide_eq_false_2 by set_solver.
Qed.

Lemma evict_keeps now q s k : k ∉ q.*2 -> (evict now q s).2 !! k = s !! k.
Proof.
  intros Hk. destruct (evict_spec now q s) as (due & Eq & _ & Hs & _). rewrite Hs, bool_decide_eq_false_2; [done|].
  intros Hin. apply Hk. rewrite Eq, fmap_app. apply elem_of_app. by left.
Qed.

Lemma evict_some now q s k a : (evict now q s).2 !! k = Some a -> s !! k = Some a.
Proof. destruct (evict_spec now q s) as (due & _ & _ & -> & _). by destruct (bool_decide _). Qed.

Lemma evict_queue now q s tk : tk ∈ (evict now q s).1 -> tk ∈ q.
Proof. destruct (evict_spec now q s) as (due & Eq & _). intros Hin. rewrite Eq. apply elem_of_app. by right. Qed.

End Evict.

(** ** Messages by key *)

Section Messages.
Context {K A : Type} `{Countable K} `{HO : !HashOrder K} `{HL : !HashOrderLaws K}.

Lemma push_by_lookup (m : gmap K (list A)) k a k' :
  default [] (push_by m k a !! k') = default [] (m !! k') ++ (if decide (k' = k) then [a] else []).
Proof.
  unfold push_by. destruct (decide (k' = k)) as [->|Hne]; [by rewrite lookup_insert_eq|].
  rewrite lookup_insert_ne by done. by rewrite app_nil_r.
Qed.

(** What reaches a topic that only one key uses. *)
Lemma sent_to (topic : K -> nat) (pending : gmap K (list A)) k :
  (forall k', is_Some (pending !! k') -> topic k' = topic k -> k' = k) ->
  omap (fun m : nat * (K * A) => if decide (m.1 = topic k) then Some m.2.2 else None) (send_all topic pending) =
  default [] (pending !! k).
Proof.
  intros Hk. unfold send_all.
  assert (forall l : list (K * list A), NoDup l.*1 -> (forall k' a, (k', a) ∈ l -> topic k' = topic k -> k' = k) ->
    omap (fun m : nat * (K * A) => if decide (m.1 = topic k) then Some m.2.2 else None)
      (l ≫= fun ki => (fun a => (topic ki.1, (ki.1, a))) <$> ki.2) =
    default [] ((list_to_map l : gmap K (list A)) !! k)) as Hl.
  { induction l as [|[k' a] l IH]; intros Hn Hu; [done|]. cbn [mbind list_bind]. rewrite omap_app.
    cbn in Hn. apply NoDup_cons in Hn as [Hk' Hn]. cbn [list_to_map fst snd foldr].
    rewrite IH; [|done|]. 2:{ intros k2 a2 Hin. apply (Hu k2 a2). by right. }
    destruct (decide (k' = k)) as [->|Hne].
    - rewrite lookup_insert_eq, not_elem_of_list_to_map_1 by done. cbn [default]. rewrite app_nil_r.
      clear. cbn [fst snd]. induction a as [|x a IHa]; [done|]. cbn. destruct (decide _); [|done]. by rewrite IHa.
    - rewrite lookup_insert_ne by done. replace (omap _ _) with (@nil A); [done|].
      assert (topic k' <> topic k) as Ht by (intros E; apply Hne, (Hu k' a); [by left|done]). clear -Ht.
      cbn [fst snd]. induction a as [|x a IHa]; [done|]. cbn. destruct (decide _); [done|]. exact IHa. }
  rewrite Hl; [|apply hash_iter_nodup|].
  - f_equal. apply option_eq. intros a. rewrite <- (hash_iter_lookup pending k a).
    symmetry. apply elem_of_list_to_map, hash_iter_nodup.
  - intros k' a Ha%hash_iter_lookup. apply Hk. by eexists.
Qed.

End Messages.

(** ** Funding boxes *)

(** [FinalizedTxOut] is ordered by reference. *)
Global Instance finalized_ord : TakerOrd FinalizedTxOut := fun a b => ref_cmp (reference a) (reference b).
Global Instance finalized_ord_laws : TakerOrdLaws FinalizedTxOut.
Proof.
  split; unfold taker_cmp, finalized_ord.
  - intros a b. apply ref_cmp_opp.
  - intros a b c. apply ref_cmp_lt_trans.
  - by intros a b c ->%ref_cmp_eq.
Qed.

Lemma finalized_cmp_eq a b : taker_cmp a b = Eq <-> reference a = reference b.
Proof. unfold taker_cmp, finalized_ord. split; [apply ref_cmp_eq|]. intros ->. apply ref_cmp_refl. Qed.

Section Funding.
Context {MD MI : Type} `{NO : !HashOrder nat} `{NL : !HashOrderLaws nat}.
Context (funding_addresses : list Address) (skip_set : OutputRef).

Notation Tx := (TxViewMut MD MI).
Notation Index := (InMemoryKvIndex OutputRef (nat * FinalizedTxOut)).
Notation Ev := (FundingEvent FinalizedTxOut).
Notation part_of := (partition_by_address funding_addresses).
Implicit Types (ix : Index) (tx : Tx) (u : gmap OutputRef TransactionOutput).

(** The ledger: a transaction spends its inputs and adds its outputs. *)
Definition output_refs tx : list OutputRef := (fun io => (tv_hash tx, io.1)) <$> tv_outputs tx.
Definition ledger_apply u tx : gmap OutputRef TransactionOutput :=
  foldl (fun u io => <[(tv_hash tx, io.1) := io.2]> u) (foldl (fun u r => delete r u) u (tv_inputs tx)) (tv_outputs tx).

(** The executor's pool of boxes under the events it receives ([on_funding_event]). *)
Definition pool_step (pool : list FinalizedTxOut) (ev : Ev) : list FinalizedTxOut :=
  match ev with FundingConsumed b => bt_remove b pool | FundingProduced b => bt_insert b pool end.

(** The events sent to the topic of a partition. *)
Definition received (part : nat) (msgs : list (nat * (nat * Ev))) : list Ev :=
  omap (fun m : nat * (nat * Ev) => if decide (m.1 = part) then Some m.2.2 else None) msgs.

(** A ledger that only grows, and the handler that follows it; [used] are the
    references that were ever created. *)
Inductive follows (delay : Z) : gmap OutputRef TransactionOutput -> gset OutputRef -> Index -> list (nat * (nat * Ev)) -> Prop :=
| follows_new : follows delay ∅ ∅ (kv_new delay) []
| follows_tx u used ix msgs tx slot block_number block_hash clock ix' sent rest :
    follows delay u used ix msgs ->
    Forall (fun r => is_Some (u !! r)) (tv_inputs tx) -> NoDup (tv_inputs tx) ->
    Forall (fun r => r ∉ used) (output_refs tx) -> NoDup (output_refs tx) -> tv_outputs tx <> [] ->
    funding_handle_ledger funding_addresses skip_set clock ix (TxApplied tx slot block_number block_hash) = (ix', sent, rest) ->
    follows delay (ledger_apply u tx) (used ∪ list_to_set (output_refs tx)) ix' (msgs ++ sent).

(** An unspent box of a partition. *)
Definition unspent_box u (part : nat) (b : FinalizedTxOut) : Prop :=
  u !! reference b = Some (fin_output b) /\ part_of (out_address (fin_output b)) = Some part /\ reference b <> skip_set.

Record funding_inv u (used : gset OutputRef) ix : Prop := {
  fi_used : forall r, is_Some (u !! r) -> r ∈ used;
  fi_indexed : forall part b, unspent_box u part b -> kv_store ix !! reference b = Some (part, b);
  fi_entries : forall r part b, kv_store ix !! r = Some (part, b) ->
    reference b = r /\ r ∈ used /\ part_of (out_address (fin_output b)) = Some part /\ r <> skip_set /\
    (forall o, u !! r = Some o -> o = fin_output b);
  fi_queue : forall r, r ∈ (kv_queue ix).*2 -> r ∈ used /\ u !! r = None;
}.

(** *** One transaction *)

Definition box_of tx (io : Z * TransactionOutput) : option (nat * FinalizedTxOut) :=
  part ← part_of (out_address io.2);
  if bool_decide ((tv_hash tx, io.1) = skip_set) then None else Some (part, mkFinalized io.2 (tv_hash tx, io.1)).

Lemma scan_funding_spec tx l boxes rest :
  foldl (scan_funding funding_addresses skip_set tx) (boxes, rest) l =
  (boxes ++ omap (box_of tx) l, reverse (filter (fun io => part_of (out_address io.2) = None) l) ++ rest).
Proof.
  revert boxes rest. induction l as [|io l IH]; intros boxes rest; cbn [foldl]; [by rewrite app_nil_r|].
  unfold scan_funding at 2. cbn [fst snd omap list_omap]. unfold box_of at 1.
  destruct (part_of (out_address io.2)) as [part|] eqn:Ep; cbn [mbind option_bind].
  - rewrite filter_cons_False by congruence. case_bool_decide; rewrite IH; [done|]. by rewrite <- app_assoc.
  - rewrite filter_cons_True by done. rewrite IH, reverse_cons. by rewrite <- app_assoc.
Qed.

Lemma box_of_elem tx part b : (part, b) ∈ omap (box_of tx) (tv_outputs tx) <->
  (exists i, reference b = (tv_hash tx, i) /\ (i, fin_output b) ∈ tv_outputs tx) /\
  part_of (out_address (fin_output b)) = Some part /\ reference b <> skip_set.
Proof.
  rewrite list_elem_of_omap. unfold box_of. split.
  - intros ([ix o] & Hin & E). cbn in E. destruct (part_of (out_address o)) as [p|] eqn:Ep; [|done]. cbn in E.
    case_bool_decide; [done|]. injection E as <- <-. cbn. naive_solver.
  - intros ((ix & Er & Hin) & Ep & Hs). exists (ix, fin_output b). split; [done|]. cbn. rewrite Ep. cbn.
    rewrite bool_decide_eq_false_2 by congruence. destruct b as [o r]. cbn in *. by subst r.
Qed.

Definition produced_in (m : gmap OutputRef (nat * FinalizedTxOut)) (pe : nat * Ev) : gmap OutputRef (nat * FinalizedTxOut) :=
  match pe.2 with FundingProduced b => <[reference b := (pe.1, b)]> m | FundingConsumed _ => m end.
Definition consumed_ref (pe : nat * Ev) : option OutputRef :=
  match pe.2 with FundingConsumed b => Some (reference b) | FundingProduced _ => None end.
Definition to_part (part : nat) (pe : nat * Ev) : option Ev := if decide (part = pe.1) then Some pe.2 else None.

Lemma commit_funding_spec clock n ix by_part evs :
  let r := commit_funding clock n id ix by_part evs in
  kv_store r.1 = foldl produced_in (kv_store ix) evs /\
  (kv_queue r.1).*2 = (kv_queue ix).*2 ++ omap consumed_ref evs /\
  (forall part, default [] (r.2 !! part) = default [] (by_part !! part) ++ omap (to_part part) evs) /\
  (forall part, is_Some (r.2 !! part) -> is_Some (by_part !! part) \/ part ∈ evs.*1).
Proof.
  revert n ix by_part. induction evs as [|[pt ev] evs IH]; intros n ix by_part; cbn [commit_funding].
  - cbn. split; [done|]. split; [by rewrite app_nil_r|]. split; [intros part; by rewrite app_nil_r|]. by left.
  - cbn zeta. destruct (IH (S n) (index_funding_event (clock n) ix pt ev) (push_by by_part pt ev)) as (Es & Eq & Eb & Ek).
    change (id ev) with ev. split; [rewrite Es; by destruct ev|]. split.
    { rewrite Eq. destruct ev; cbn; [|done]. by rewrite fmap_app, <- app_assoc. }
    split.
    + intros part. rewrite Eb, push_by_lookup, <- app_assoc. f_equal. cbn. unfold to_part at 2. cbn.
      by destruct (decide (part = pt)).
    + intros part Hp. apply Ek in Hp as [Hp|Hp]; [|right; by right]. unfold push_by in Hp.
      destruct (decide (part = pt)) as [->|Hne]; [right; by left|]. rewrite lookup_insert_ne in Hp by done. by left.
Qed.

(** *** The ledger *)

Lemma ledger_outputs_outside u tx l r : r ∉ (fun io => (tv_hash tx, io.1)) <$> l ->
  foldl (fun u io => <[(tv_hash tx, io.1) := io.2]> u) u l !! r = u !! r.
Proof.
  revert u. induction l as [|io l IH]; intros u Hr; cbn; [done|]. rewrite IH by set_solver.
  apply lookup_insert_ne. set_solver.
Qed.

Lemma ledger_outputs_inside u tx l io : NoDup ((fun io => (tv_hash tx, io.1)) <$> l) -> io ∈ l ->
  foldl (fun u io => <[(tv_hash tx, io.1) := io.2]> u) u l !! (tv_hash tx, io.1) = Some io.2.
Proof.
  revert u. induction l as [|io' l IH]; intros u Hn Hin; cbn; [by apply elem_of_nil in Hin|].
  cbn in Hn. apply NoDup_cons in Hn as [Hf Hn]. apply elem_of_cons in Hin as [->|Hin]; [|by apply IH].
  rewrite ledger_outputs_outside by done. by apply lookup_insert_eq.
Qed.

Lemma ledger_inputs u (l : list OutputRef) r : foldl (fun u r => delete r u) u l !! r = if decide (r ∈ l) then None else u !! r.
Proof.
  revert u. induction l as [|r' l IH]; intros u; cbn; [done|]. rewrite IH.
  destruct (decide (r ∈ l)), (decide (r ∈ r' :: l)); try set_solver.
  - assert (r = r') as -> by set_solver. apply lookup_delete_eq.
  - apply lookup_delete_ne. set_solver.
Qed.

Lemma ledger_apply_lookup u tx r o : NoDup (output_refs tx) -> Forall (fun r => u !! r = None) (output_refs tx) ->
  ledger_apply u tx !! r = Some o <->
  (u !! r = Some o /\ r ∉ tv_inputs tx) \/ (exists i, r = (tv_hash tx, i) /\ (i, o) ∈ tv_outputs tx).
Proof.
  intros Hn Hf. rewrite Forall_forall in Hf. unfold ledger_apply. destruct (decide (r ∈ output_refs tx)) as [Hr|Hr].
  - specialize (Hf r Hr). apply list_elem_of_fmap in Hr as (io & -> & Hio). rewrite (ledger_outputs_inside _ _ _ io) by done.
    split; [|].
    + intros [= <-]. right. exists io.1. split; [done|]. by destruct io.
    + intros [[? _]|(ix & [= <-] & Hin)]; [congruence|]. f_equal.
      pose proof (ledger_outputs_inside u tx _ (io.1, o) Hn Hin) as E. cbn in E.
      rewrite (ledger_outputs_inside _ _ _ io) in E by done. congruence.
  - rewrite ledger_outputs_outside by done. rewrite ledger_inputs. destruct (decide (r ∈ tv_inputs tx)).
    + split; [done|]. intros [[_ ?]|(ix & -> & Hin)]; [done|]. destruct Hr. apply list_elem_of_fmap. by exists (ix, o).
    + split; [naive_solver|]. intros [[? _]|(ix & -> & Hin)]; [done|]. destruct Hr. apply list_elem_of_fmap. by exists (ix, o).
Qed.

(** *** The pool *)

Lemma pool_remove_all pool l : sorted pool ->
  sorted (foldl pool_step pool (FundingConsumed <$> l)) /\
  forall b, b ∈ foldl pool_step pool (FundingConsumed <$> l) <-> b ∈ pool /\ Forall (fun c => reference c <> reference b) l.
Proof.
  revert pool. induction l as [|c l IH]; intros pool Hs; cbn; [naive_solver|].
  destruct (IH (bt_remove c pool)) as [Hs' Hb]; [by apply bt_remove_sorted|]. split; [done|].
  intros b. rewrite Hb, bt_remove_elem, Forall_cons, finalized_cmp_eq by done. naive_solver.
Qed.

Lemma pool_insert_all pool l : sorted pool -> NoDup (reference <$> l) ->
  Forall (fun b => Forall (fun c => reference b <> reference c) pool) l ->
  sorted (foldl pool_step pool (FundingProduced <$> l)) /\
  forall b, b ∈ foldl pool_step pool (FundingProduced <$> l) <-> b ∈ pool \/ b ∈ l.
Proof.
  revert pool. induction l as [|c l IH]; intros pool Hs Hn Hf; cbn; [set_solver|].
  cbn in Hn. apply NoDup_cons in Hn as [Hc Hn]. apply Forall_cons in Hf as [Hfc Hf].
  assert (forall x, x ∈ bt_insert c pool <-> x ∈ pool \/ x = c) as Hi.
  { intros x. rewrite bt_insert_elem by done. split; [naive_solver|]. intros [?| ->]; [by left|right]. split; [done|].
    eapply Forall_impl; [exact Hfc|]. intros z Hz. by rewrite finalized_cmp_eq. }
  destruct (IH (bt_insert c pool)) as [Hs' Hb]; [by apply bt_insert_sorted|done| |].
  { rewrite Forall_forall in Hf |- *. intros b Hb. apply Forall_forall. intros x Hx%Hi. destruct Hx as [Hx| ->].
    - specialize (Hf b Hb). rewrite Forall_forall in Hf. by apply Hf.
    - intros E. apply Hc. rewrite <- E. by apply list_elem_of_fmap_2. }
  split; [done|]. intros b. rewrite Hb, Hi. set_solver.
Qed.

(** *** One applied transaction *)

Definition funding_events ix tx : list (nat * Ev) :=
  (prod_map id FundingConsumed <$> omap (fun r => kv_get ix r) (tv_inputs tx)) ++
  (prod_map id FundingProduced <$> omap (box_of tx) (reverse (tv_outputs tx))).

(** An index some of whose scheduled entries were evicted. *)
Record evicted ix ix0 : Prop := {
  ev_keeps : forall r, r ∉ (kv_queue ix).*2 -> kv_store ix0 !! r = kv_store ix !! r;
  ev_some : forall r a, kv_store ix0 !! r = Some a -> kv_store ix !! r = Some a;
  ev_queue : forall r, r ∈ (kv_queue ix0).*2 -> r ∈ (kv_queue ix).*2;
}.

Lemma kv_evict_evicted now ix : evicted ix (kv_evict now ix).
Proof.
  unfold kv_evict. destruct (evict now (kv_queue ix) (kv_store ix)) as [q s] eqn:E. split; cbn.
  - intros r Hr. pose proof (evict_keeps now _ (kv_store ix) r Hr) as Hk. by rewrite E in Hk.
  - intros r a Ha. apply (evict_some now (kv_queue ix)). by rewrite E.
  - intros r (tk & -> & Htk)%list_elem_of_fmap. apply list_elem_of_fmap_2, (evict_queue now _ (kv_store ix)). by rewrite E.
Qed.

Lemma funding_applied clock ix tx slot bn bh ix' sent rest : tv_outputs tx <> [] ->
  Forall (fun pe => pe.1 < length funding_addresses) (funding_events ix tx) ->
  funding_handle_ledger funding_addresses skip_set clock ix (TxApplied tx slot bn bh) = (ix', sent, rest) ->
  exists ix0, evicted ix ix0 /\ kv_store ix' = foldl produced_in (kv_store ix0) (funding_events ix tx) /\
    (kv_queue ix').*2 = (kv_queue ix0).*2 ++ omap consumed_ref (funding_events ix tx) /\
    forall part, part < length funding_addresses -> received part sent = omap (to_part part) (funding_events ix tx).
Proof.
  intros Ho Hlt. unfold funding_handle_ledger, handle_funding_tx, extract_funding_events.
  destruct (Nat.eqb_spec (length (tv_outputs tx)) 0) as [E%nil_length_inv|_]; [done|].
  rewrite scan_funding_spec. cbn [app]. fold (funding_events ix tx).
  destruct (Nat.eqb_spec (length (funding_events ix tx)) 0) as [E%nil_length_inv|_].
  - intros [= <- <- _]. exists ix. rewrite E. cbn. rewrite app_nil_r. split; [by split|done].
  - pose proof (commit_funding_spec clock 1 (kv_evict (clock 0) ix) ∅ (funding_events ix tx)) as Hc.
    destruct (commit_funding _ _ _ _ _ _) as [ix1 by_part]. cbn [fst snd] in Hc. destruct Hc as (Es & Eq & Eb & Ek).
    intros [= <- <- _]. exists (kv_evict (clock 0) ix). split; [apply kv_evict_evicted|]. split; [done|]. split; [done|].
    intros part Hp. specialize (Eb part). rewrite lookup_empty in Eb. cbn in Eb. rewrite <- Eb.
    unfold received. rewrite <- (sent_to (fun pt => pt mod length funding_addresses) by_part part).
    + by rewrite (Nat.mod_small part).
    + intros k' Hk' Em. apply Ek in Hk' as [Hk'|Hk']; [by destruct Hk'|].
      apply list_elem_of_fmap in Hk' as (pe & -> & Hpe). rewrite Forall_forall in Hlt. specialize (Hlt pe Hpe).
      by rewrite !Nat.mod_small in Em.
Qed.

Lemma received_app part l l' : received part (l ++ l') = received part l ++ received part l'.
Proof. apply omap_app. Qed.

Lemma part_of_lt a part : part_of a = Some part -> part < length funding_addresses.
Proof.
  unfold partition_by_address. destruct (list_find _ _) as [[i x]|] eqn:E; [|done]. intros [= <-].
  apply list_find_Some in E as (Hi & _). cbn. by eapply lookup_lt_Some.
Qed.

Definition in_part (part : nat) (pb : nat * FinalizedTxOut) : option FinalizedTxOut :=
  if decide (part = pb.1) then Some pb.2 else None.

Lemma to_part_events part (f : FinalizedTxOut -> Ev) (l : list (nat * FinalizedTxOut)) : omap (to_part part) (prod_map id f <$> l) = f <$> omap (in_part part) l.
Proof.
  induction l as [|[p b] l IH]; [done|]. rewrite fmap_cons. cbn [omap list_omap]. rewrite IH. unfold to_part, in_part. cbn.
  by destruct (decide (part = p)).
Qed.

Lemma in_part_elem part (l : list (nat * FinalizedTxOut)) b : b ∈ omap (in_part part) l <-> (part, b) ∈ l.
Proof.
  rewrite list_elem_of_omap. unfold in_part. split; [|intros Hin; exists (part, b); cbn; by rewrite decide_True].
  intros ([p c] & Hin & E). cbn in E. destruct (decide (part = p)); [|done]. congruence.
Qed.

Lemma boxes_nodup tx l : NoDup ((fun io : Z * TransactionOutput => (tv_hash tx, io.1)) <$> l) ->
  NoDup ((fun pb : nat * FinalizedTxOut => reference pb.2) <$> omap (box_of tx) l).
Proof.
  induction l as [|io l IH]; cbn; [constructor|]. intros [Hf Hn]%NoDup_cons.
  destruct (box_of tx io) as [[p b]|] eqn:E; [|by apply IH]. cbn. constructor; [|by apply IH].
  unfold box_of in E. destruct (part_of _); [|done]. cbn in E. case_bool_decide; [done|]. injection E as <- <-. cbn.
  intros ([p' b'] & Er & (io' & Hin & E')%list_elem_of_omap)%list_elem_of_fmap. unfold box_of in E'.
  destruct (part_of _); [|done]. cbn in E'. case_bool_decide; [done|]. injection E' as <- <-. cbn in Er.
  apply Hf. rewrite Er. apply list_elem_of_fmap. by exists io'.
Qed.

Lemma produced_consumed m l : foldl produced_in m (prod_map id FundingConsumed <$> l) = m.
Proof. revert m. induction l as [|[p b] l IH]; intros m; [done|]. cbn. by rewrite IH. Qed.

Lemma produced_outside m l r : r ∉ (fun pb : nat * FinalizedTxOut => reference pb.2) <$> l ->
  foldl produced_in m (prod_map id FundingProduced <$> l) !! r = m !! r.
Proof.
  revert m. induction l as [|[p b] l IH]; intros m Hr; [done|]. cbn. rewrite IH by set_solver.
  apply lookup_insert_ne. set_solver.
Qed.

Lemma produced_inside m l p b : NoDup ((fun pb : nat * FinalizedTxOut => reference pb.2) <$> l) -> (p, b) ∈ l ->
  foldl produced_in m (prod_map id FundingProduced <$> l) !! reference b = Some (p, b).
Proof.
  revert m. induction l as [|[p' b'] l IH]; intros m Hn Hin; [by apply elem_of_nil in Hin|]. cbn in *.
  apply NoDup_cons in Hn as [Hf Hn]. apply elem_of_cons in Hin as [[= -> ->]|Hin]; [|by apply IH].
  rewrite produced_outside by done. by apply lookup_insert_eq.
Qed.

Lemma consumed_refs_of (l : list (nat * FinalizedTxOut)) (l' : list (nat * FinalizedTxOut)) :
  omap consumed_ref ((prod_map id FundingConsumed <$> l) ++ (prod_map id FundingProduced <$> l')) =
  (fun pb => reference pb.2) <$> l.
Proof.
  rewrite omap_app. replace (omap consumed_ref (prod_map id FundingProduced <$> l')) with (@nil OutputRef).
  - rewrite app_nil_r. induction l as [|[p b] l IH]; [done|]. cbn. by rewrite IH.
  - induction l' as [|[p b] l' IH]; [done|]. cbn. exact IH.
Qed.

Section Step.
Context u used ix tx (Hinv : funding_inv u used ix).
Context (Hin : Forall (fun r => is_Some (u !! r)) (tv_inputs tx)) (Hfresh : Forall (fun r => r ∉ used) (output_refs tx)).
Context (Hnd : NoDup (output_refs tx)).
#[local] Notation boxes := (omap (box_of tx) (reverse (tv_outputs tx))).

Lemma outputs_unused : Forall (fun r => u !! r = None) (output_refs tx).
Proof.
  rewrite Forall_forall in Hfresh |- *. intros r Hr. destruct (u !! r) as [o|] eqn:E; [|done].
  destruct (Hfresh r Hr). apply (fi_used _ _ _ Hinv). by exists o.
Qed.

Lemma boxes_elem part b : (part, b) ∈ boxes <->
  (exists i, reference b = (tv_hash tx, i) /\ (i, fin_output b) ∈ tv_outputs tx) /\
  part_of (out_address (fin_output b)) = Some part /\ reference b <> skip_set.
Proof. rewrite <- box_of_elem, !list_elem_of_omap. by setoid_rewrite elem_of_reverse. Qed.

Lemma boxes_refs : NoDup ((fun pb : nat * FinalizedTxOut => reference pb.2) <$> boxes).
Proof. apply boxes_nodup. by rewrite reverse_Permutation. Qed.

Lemma box_ref_output part b : (part, b) ∈ boxes -> reference b ∈ output_refs tx.
Proof. intros [(i & -> & Hi) _]%boxes_elem. apply list_elem_of_fmap. by exists (i, fin_output b). Qed.

Lemma unspent_after part b : unspent_box (ledger_apply u tx) part b <->
  (unspent_box u part b /\ reference b ∉ tv_inputs tx) \/ (part, b) ∈ boxes.
Proof.
  unfold unspent_box. rewrite ledger_apply_lookup by (done || apply outputs_unused). rewrite boxes_elem. naive_solver.
Qed.

Lemma funding_events_parts : Forall (fun pe => pe.1 < length funding_addresses) (funding_events ix tx).
Proof.
  apply Forall_forall. intros pe [Hpe|Hpe]%elem_of_app; apply list_elem_of_fmap in Hpe as ([p b] & -> & Hpe); cbn.
  - apply list_elem_of_omap in Hpe as (r & _ & E). apply (fi_entries _ _ _ Hinv) in E as (_ & _ & E & _). by eapply part_of_lt.
  - apply boxes_elem in Hpe as (_ & E & _). by eapply part_of_lt.
Qed.

(** The boxes found spent are the unspent ones among the inputs. *)
Lemma consumed_elem part b : (part, b) ∈ omap (fun r => kv_get ix r) (tv_inputs tx) <->
  unspent_box u part b /\ reference b ∈ tv_inputs tx.
Proof.
  rewrite list_elem_of_omap. split.
  - intros (r & Hr & E). rewrite Forall_forall in Hin. destruct (Hin r Hr) as [o Ho].
    apply (fi_entries _ _ _ Hinv) in E as (<- & _ & Ep & Hs & Hu). split; [|done]. split; [|done]. by rewrite Ho, (Hu o Ho).
  - intros [Hb Hr]. exists (reference b). split; [done|]. by apply (fi_indexed _ _ _ Hinv).
Qed.

Lemma applied_inv ix0 ix' : evicted ix ix0 -> kv_store ix' = foldl produced_in (kv_store ix0) (funding_events ix tx) ->
  (kv_queue ix').*2 = (kv_queue ix0).*2 ++ omap consumed_ref (funding_events ix tx) ->
  funding_inv (ledger_apply u tx) (used ∪ list_to_set (output_refs tx)) ix'.
Proof.
  intros [Ek Es Eq] Est Equ. unfold funding_events in *. rewrite foldl_app, produced_consumed in Est.
  rewrite consumed_refs_of in Equ. pose proof outputs_unused as Hun. pose proof boxes_refs as Hbr.
  pose proof Hfresh as Hfr. rewrite Forall_forall in Hfr. split.
  - intros r [o Ho]. apply ledger_apply_lookup in Ho as [[Ho _]|(i & -> & Hi)]; [| |done|done].
    + apply elem_of_union. left. apply (fi_used _ _ _ Hinv). by exists o.
    + apply elem_of_union. right. apply elem_of_list_to_set, list_elem_of_fmap. by exists (i, o).
  - intros part b Hb. rewrite Est. apply unspent_after in Hb as [[Hb Hr]|Hb]; [|by apply produced_inside].
    pose proof Hb as [Hu _]. rewrite produced_outside, Ek.
    + by apply (fi_indexed _ _ _ Hinv).
    + intros Hq. apply (fi_queue _ _ _ Hinv) in Hq as [_ Hq]. congruence.
    + intros ([p c] & Er & Hc)%list_elem_of_fmap. apply box_ref_output in Hc. apply (Hfr (reference b)); [by rewrite Er|].
      apply (fi_used _ _ _ Hinv). by eexists.
  - intros r part b. rewrite Est. destruct (decide (r ∈ (fun pb : nat * FinalizedTxOut => reference pb.2) <$> boxes)) as [Hr|Hr].
    + apply list_elem_of_fmap in Hr as ([p c] & -> & Hc). cbn. rewrite (produced_inside _ _ p) by done. intros [= <- <-].
      split; [done|]. pose proof (box_ref_output _ _ Hc) as Ho. pose proof Hc as (_ & Ep & Hs)%boxes_elem.
      split; [apply elem_of_union; right; by apply elem_of_list_to_set|]. split; [done|]. split; [done|].
      intros o Eo. assert (unspent_box (ledger_apply u tx) p c) as [E _] by (apply unspent_after; by right). congruence.
    + rewrite produced_outside by done. intros E%Es. apply (fi_entries _ _ _ Hinv) in E as (Er & Hu & Ep & Hs & Ho).
      split; [done|]. split; [set_solver|]. split; [done|]. split; [done|]. intros o Eo.
      apply ledger_apply_lookup in Eo as [[Eo _]|(i & -> & Hi)]; [by apply Ho| |done|done].
      destruct (Hfr (tv_hash tx, i)); [|done]. apply list_elem_of_fmap. by exists (i, o).
  - intros r. rewrite Equ, elem_of_app. intros Hr. assert (r ∈ used /\ (u !! r = None \/ r ∈ tv_inputs tx)) as [Hru Hr'].
    { destruct Hr as [Hr%Eq|([p b] & -> & Hr)%list_elem_of_fmap].
      - apply (fi_queue _ _ _ Hinv) in Hr as [? ?]. auto.
      - apply consumed_elem in Hr as [[Hu _] ?]. split; [|by right]. apply (fi_used _ _ _ Hinv). by eexists. }
    split; [set_solver|]. destruct (ledger_apply u tx !! r) as [o|] eqn:Eo; [|done].
    apply ledger_apply_lookup in Eo as [[Eo Hn]|(i & -> & Hi)]; [destruct Hr'; congruence| |done|done].
    destruct (Hfr (tv_hash tx, i)); [|done]. apply list_elem_of_fmap. by exists (i, o).
Qed.

Lemma applied_pool part pool : sorted pool -> (forall b, b ∈ pool <-> unspent_box u part b) ->
  let pool' := foldl pool_step pool (omap (to_part part) (funding_events ix tx)) in
  sorted pool' /\ forall b, b ∈ pool' <-> unspent_box (ledger_apply u tx) part b.
Proof.
  intros Hs Hp. cbn. unfold funding_events. rewrite omap_app, !to_part_events, foldl_app.
  destruct (pool_remove_all pool (omap (in_part part) (omap (fun r => kv_get ix r) (tv_inputs tx))) Hs) as [Hs1 Hp1].
  set (pool1 := foldl pool_step pool _) in *.
  assert (forall b, b ∈ pool1 <-> unspent_box u part b /\ reference b ∉ tv_inputs tx) as Hp1'.
  { intros b. rewrite Hp1, Hp, Forall_forall. split; intros [Hb Hn]; (split; [done|]).
    - intros Hr. apply (Hn b); [|done]. by apply in_part_elem, consumed_elem.
    - intros c [_ Hc]%in_part_elem%consumed_elem E. apply Hn. by rewrite <- E. }
  destruct (pool_insert_all pool1 (omap (in_part part) boxes) Hs1) as [Hs2 Hp2].
  - pose proof boxes_refs as Hbr. revert Hbr. induction boxes as [|[p b] l IH]; cbn; [done|]. intros [Hf Hn]%NoDup_cons.
    unfold in_part at 1. cbn. destruct (decide (part = p)) as [<-|]; [|by apply IH]. cbn. constructor; [|by apply IH].
    intros (c & E & Hc%in_part_elem)%list_elem_of_fmap. apply Hf. apply list_elem_of_fmap. exists (part, c). done.
  - apply Forall_forall. intros b Hb%in_part_elem. apply Forall_forall. intros c [[Hc _] _]%Hp1' E.
    apply box_ref_output in Hb. pose proof outputs_unused as Hun. rewrite Forall_forall in Hun. specialize (Hun _ Hb).
    rewrite E in Hun. congruence.
  - split; [done|]. intros b. rewrite Hp2, Hp1', in_part_elem. symmetry. apply unspent_after.
Qed.
End Step.


End Funding.

(** ** Entities *)

Section Entities.
Context {T SID V PR G MD MI : Type}.
Context `{CV : Countable V} `{CS : Countable SID} `{CP : Countable PR} `{SO : !HashOrder SID} `{PO : !HashOrder PR}.
Context `{TS : Stable T SID} `{SN : Snapshot T V} `{TP : Tradable T PR} `{TL : TryFromLedger G T SID MD MI}.
Context `{FR : FromRef V} `{MG : MaybeGraduatedSplashId SID} `{GT : GraduationTracking G} `{AF : AddressForm}.
Context `{KH : KeyHash PR} (n_topics : nat).
Context `{SOL : !HashOrderLaws SID} `{POL : !HashOrderLaws PR}.

Notation Index := (InMemoryEntityIndex T SID V PR).
Notation Tx := (TxViewMut MD MI).
Implicit Types (ix : Index) (tx : Tx) (g : G).

(** What the handlers rely on: versions are references of outputs, and an
    entity does not change its pair. *)
Class EntityLaws : Prop := {
  from_ref_inj :: Inj (=) (=) (from_ref (V := V));
  read_version : forall (g : G) (cx : EventContext SID MD MI) o e, try_from_ledger g cx o = Some e ->
    version e = from_ref (cx_output_ref cx);
  same_pair : forall e e' : T, stable_id e = stable_id e' -> pair_of_entity e = pair_of_entity e';
}.
Context `{EL : EntityLaws}.

Definition ior_left {A B} (i : Ior A B) : option A := match i with IorLeft a | IorBoth a _ => Some a | IorRight _ => None end.
Definition ior_right {A B} (i : Ior A B) : option B := match i with IorRight b | IorBoth _ b => Some b | IorLeft _ => None end.

Lemma ior_swap_left {A B} (i : Ior A B) : ior_left (ior_swap i) = ior_right i.
Proof. by destruct i. Qed.
Lemma ior_swap_right {A B} (i : Ior A B) : ior_right (ior_swap i) = ior_left i.
Proof. by destruct i. Qed.

(** *** Eviction *)

Lemma entity_evict_delay now ix : ei_delay (entity_evict now ix) = ei_delay ix.
Proof. unfold entity_evict. by destruct (evict _ _ _). Qed.

Lemma entity_evict_queue now ix v : v ∈ (ei_queue (entity_evict now ix)).*2 -> v ∈ (ei_queue ix).*2.
Proof.
  unfold entity_evict. intros (tk & -> & Htk)%list_elem_of_fmap. apply list_elem_of_fmap_2, (evict_queue now _ (ei_store ix)).
  by destruct (evict _ _ _).
Qed.

Lemma entity_evict_keeps now ix v : v ∉ (ei_queue ix).*2 -> entity_get (entity_evict now ix) v = entity_get ix v.
Proof.
  intros Hv. unfold entity_evict, entity_get. pose proof (evict_keeps now _ (ei_store ix) v Hv) as Hk. by destruct (evict _ _ _).
Qed.

Lemma entity_evict_pending now ix t v : (now < t)%Z -> (t, v) ∈ ei_queue ix -> (t, v) ∈ ei_queue (entity_evict now ix).
Proof.
  intros Ht. unfold entity_evict. destruct (evict_spec now (ei_queue ix) (ei_store ix)) as (due & Eq & Hd & _).
  destruct (evict _ _ _) as [q s]. cbn in *. rewrite Eq, elem_of_app. intros [Hin|Hin]; [|done].
  rewrite Forall_forall in Hd. specialize (Hd _ Hin). cbn in Hd. lia.
Qed.

Lemma entity_evict_all now ix v : Forall (fun tk => tk.1 <= now)%Z (ei_queue ix) -> v ∈ (ei_queue ix).*2 ->
  entity_get (entity_evict now ix) v = None.
Proof.
  intros Hq Hv. unfold entity_evict, entity_get.
  destruct (evict_spec now (ei_queue ix) (ei_store ix)) as (due & Eq & _ & Hs & Hh). destruct (evict _ _ _) as [q s]. cbn in *.
  destruct q as [|tk q].
  - rewrite app_nil_r in Eq. rewrite Eq in Hv. by rewrite Hs, bool_decide_eq_true_2.
  - specialize (Hh _ eq_refl). rewrite Eq, Forall_app, Forall_cons in Hq. lia.
Qed.

(** *** Committing transitions *)

(** The index after a list of transitions: the new states are stored, the old
    ones scheduled. *)
Lemma index_transition_store now ix tr :
  ei_store (index_transition now ix tr) =
  match ior_right tr with Some e => <[version e := e]> (ei_store ix) | None => ei_store ix end.
Proof. by destruct tr. Qed.

Lemma index_transition_queue now ix tr :
  ei_queue (index_transition now ix tr) =
  ei_queue ix ++ match ior_left tr with Some e => [((now + ei_delay ix)%Z, version e)] | None => [] end.
Proof. destruct tr; cbn; by rewrite ?app_nil_r. Qed.

Lemma index_transition_delay now ix tr : ei_delay (index_transition now ix tr) = ei_delay ix.
Proof. by destruct tr. Qed.

Definition to_pair (pr : PR) (sent : Ior T T -> Ior T T) (msg : Ior T T -> Channel (Transition T)) (tr : Ior T T)
    : option (Channel (Transition T)) :=
  if decide (pr = pair_id_of (sent tr)) then Some (msg (sent tr)) else None.

Lemma commit_updates clock n indexed sent msg ix updates trs pr :
  default [] ((commit_transitions clock n indexed sent msg ix updates trs).2 !! pr) =
  default [] (updates !! pr) ++ omap (to_pair pr sent msg) trs.
Proof.
  revert n ix updates. induction trs as [|tr trs IH]; intros n ix updates; cbn [commit_transitions]; [by rewrite app_nil_r|].
  rewrite IH, push_by_lookup, <- app_assoc. f_equal. cbn. unfold to_pair at 2. by destruct (decide _).
Qed.

(** The states that are stored under [v] agree with [f]. *)
Lemma commit_store (f : option T) v clock n indexed sent msg ix updates trs :
  Forall (fun tr => forall e, ior_right (indexed tr) = Some e -> version e = v -> f = Some e) trs ->
  ei_store (commit_transitions clock n indexed sent msg ix updates trs).1 !! v =
    if bool_decide (v ∈ omap (fun tr => version <$> ior_right (indexed tr)) trs) then f else ei_store ix !! v.
Proof.
  revert n ix updates. induction trs as [|tr trs IH]; intros n ix updates Hf; cbn [commit_transitions].
  - by rewrite bool_decide_eq_false_2 by set_solver.
  - apply Forall_cons in Hf as [Ht Hf]. rewrite IH by done. rewrite index_transition_store. cbn [omap list_omap].
    destruct (ior_right (indexed tr)) as [e|]; cbn [fmap option_fmap option_map]; [|done].
    destruct (decide (v = version e)) as [->|Hne].
    + rewrite lookup_insert_eq, (bool_decide_eq_true_2 (version e ∈ version e :: _)) by by left.
      rewrite (Ht e eq_refl eq_refl). by destruct (bool_decide _).
    + rewrite lookup_insert_ne by done. erewrite (bool_decide_ext (v ∈ _ :: _)); [reflexivity|]. rewrite elem_of_cons. naive_solver.
Qed.

Lemma commit_store_outside clock n indexed sent msg ix updates trs v :
  (forall tr e, tr ∈ trs -> ior_right (indexed tr) = Some e -> version e <> v) ->
  ei_store (commit_transitions clock n indexed sent msg ix updates trs).1 !! v = ei_store ix !! v.
Proof.
  revert n ix updates. induction trs as [|tr trs IH]; intros n ix updates Hv; cbn [commit_transitions]; [done|].
  rewrite IH by (intros tr' e Htr; apply Hv; by right). rewrite index_transition_store.
  destruct (ior_right (indexed tr)) as [e|] eqn:E; [|done]. apply lookup_insert_ne. apply (Hv tr e); [by left|done].
Qed.

Lemma commit_delay clock n indexed sent msg ix updates trs :
  ei_delay (commit_transitions clock n indexed sent msg ix updates trs).1 = ei_delay ix.
Proof.
  revert n ix updates. induction trs as [|tr trs IH]; intros n ix updates; cbn [commit_transitions]; [done|].
  by rewrite IH, index_transition_delay.
Qed.

(** The queue grows by the old states, each with the delay from its reading of
    the clock. *)
Lemma commit_queue clock n indexed sent msg ix updates trs : exists l,
  ei_queue (commit_transitions clock n indexed sent msg ix updates trs).1 = ei_queue ix ++ l /\
  l.*2 = omap (fun tr => version <$> ior_left (indexed tr)) trs /\
  Forall (fun tk => exists i, tk.1 = clock i + ei_delay ix)%Z l.
Proof.
  revert n ix updates. induction trs as [|tr trs IH]; intros n ix updates; cbn [commit_transitions].
  - exists []. cbn. rewrite app_nil_r. split; [done|]. split; [done|constructor].
  - destruct (IH (S n) (index_transition (clock n) ix (indexed tr)) (push_by updates (pair_id_of (sent tr)) (msg (sent tr))))
      as (l & -> & El & Hl). rewrite index_transition_queue, index_transition_delay in *.
    eexists. rewrite <- app_assoc. split; [reflexivity|]. rewrite fmap_app, El. cbn [omap list_omap].
    destruct (ior_left (indexed tr)) as [e|]; cbn; (split; [done|]); [constructor; [by exists n|done]|done].
Qed.

(** *** What a transaction is read as *)

Lemma consumed_entities_ext ix ix' l : Forall (fun r => entity_get ix (from_ref r) = entity_get ix' (from_ref r)) l ->
  consumed_entities ix l = consumed_entities ix' l.
Proof.
  unfold consumed_entities. generalize (∅ : gmap SID T). induction l as [|r l IH]; intros m Hl; [done|]. cbn.
  apply Forall_cons in Hl as [-> Hl]. by rewrite IH.
Qed.

Lemma consumed_entities_some ix l k e : consumed_entities ix l !! k = Some e ->
  exists r, r ∈ l /\ entity_get ix (from_ref r) = Some e /\ stable_id e = k.
Proof.
  unfold consumed_entities.
  assert (forall m : gmap SID T, foldl (fun m r => match entity_get ix (from_ref r) with Some e => <[stable_id e := e]> m | None => m end) m l !! k
    = Some e -> m !! k = Some e \/ exists r, r ∈ l /\ entity_get ix (from_ref r) = Some e /\ stable_id e = k) as Hm.
  { induction l as [|r l IH]; intros m; cbn; [by left|]. intros [H1|(r' & Hr & H1)]%IH; [|right; exists r'; by split; [right|]].
    destruct (entity_get ix (from_ref r)) as [e'|] eqn:E; [|by left].
    apply lookup_insert_Some in H1 as [[<- ->]|[_ H1]]; [|by left]. right. exists r. by split; [left|]. }
  intros [H1|H1]%Hm; [by rewrite lookup_empty in H1|done].
Qed.

(** The inputs are different entities. *)
Definition distinct_ids ix (l : list OutputRef) : Prop := forall r r' e e', r ∈ l -> r' ∈ l ->
  entity_get ix (from_ref r) = Some e -> entity_get ix (from_ref r') = Some e' -> stable_id e = stable_id e' -> r = r'.

Lemma consumed_entities_all ix l r e : distinct_ids ix l -> r ∈ l -> entity_get ix (from_ref r) = Some e ->
  consumed_entities ix l !! stable_id e = Some e.
Proof.
  intros Hd Hr He. assert (exists e', consumed_entities ix l !! stable_id e = Some e') as [e' He'].
  { unfold consumed_entities. generalize (∅ : gmap SID T). clear Hd. induction l as [|r' l IH]; intros m; [by apply elem_of_nil in Hr|].
    cbn. apply elem_of_cons in Hr as [<-|Hr]; [|by apply IH]. rewrite He. clear IH.
    assert (is_Some ((<[stable_id e := e]> m) !! stable_id e)) as Hm by (rewrite lookup_insert_eq; by eexists).
    revert Hm. generalize (<[stable_id e := e]> m). induction l as [|r2 l IH]; intros m' Hm; cbn; [done|]. apply IH.
    destruct (entity_get ix (from_ref r2)) as [e2|]; [|done].
    destruct (decide (stable_id e2 = stable_id e)) as [->|Hne]; [rewrite lookup_insert_eq; by eexists|by rewrite lookup_insert_ne]. }
  destruct (consumed_entities_some _ _ _ _ He') as (r' & Hr' & Hg & Hk). rewrite He'.
  rewrite (Hd r r' e e' Hr Hr' He Hg (eq_sym Hk)) in He. congruence.
Qed.

(** Scanning with or without graduation reads the same entities. *)
Lemma scan_action g tx consumed a a' :
  sc_produced (scan_outputs g tx consumed a) = sc_produced (scan_outputs g tx consumed a') /\
  sc_unprocessed (scan_outputs g tx consumed a) = sc_unprocessed (scan_outputs g tx consumed a').
Proof.
  unfold scan_outputs. generalize (reverse (tv_outputs tx)).
  assert (forall l (s s' : Scan T SID), sc_produced s = sc_produced s' -> sc_unprocessed s = sc_unprocessed s' ->
    let f a := foldl (scan_output g tx consumed (added_destinations tx) a) in
    sc_produced (f a s l) = sc_produced (f a' s' l) /\ sc_unprocessed (f a s l) = sc_unprocessed (f a' s' l)) as Hl.
  { induction l as [|io l IH]; intros s s' Ep Eu; cbn zeta; cbn [foldl]; [done|]. apply IH; unfold scan_output; rewrite <- Ep, <- Eu;
      by destruct (try_from_ledger _ _ _). }
  intros l. by apply Hl.
Qed.

Lemma scan_produced g tx consumed a k e : sc_produced (scan_outputs g tx consumed a) !! k = Some e ->
  stable_id e = k /\ exists io, io ∈ tv_outputs tx /\ version e = from_ref (tv_hash tx, io.1).
Proof.
  unfold scan_outputs. setoid_rewrite <- elem_of_reverse. generalize (reverse (tv_outputs tx)).
  assert (forall l (s : Scan T SID) k e, sc_produced (foldl (scan_output g tx consumed (added_destinations tx) a) s l) !! k = Some e ->
    sc_produced s !! k = Some e \/ stable_id e = k /\ exists io, io ∈ l /\ version e = from_ref (tv_hash tx, io.1)) as Hl.
  { clear k e. induction l as [|io l IH]; intros s k e; cbn [foldl]; [by left|].
    intros [H1|(Hk & io' & Hio & Hv)]%IH; [|right; split; [done|]; exists io'; by split; [right|]].
    unfold scan_output in H1. destruct (try_from_ledger _ _ _) as [e'|] eqn:E; cbn in H1; [|by left].
    apply lookup_insert_Some in H1 as [[<- ->]|[_ H1]]; [|by left]. right. split; [done|]. exists io. split; [by left|].
    by apply read_version in E. }
  intros l H1. apply Hl in H1 as [H1|H1]; [cbn in H1; by rewrite lookup_empty in H1|done].
Qed.

(** Different entities of a transaction have different versions. *)
Definition versions_inj (m : gmap SID T) : Prop := forall k k' e e', m !! k = Some e -> m !! k' = Some e' -> version e = version e' -> e = e'.

Lemma scan_versions g tx consumed a : NoDup (tv_outputs tx).*1 -> versions_inj (sc_produced (scan_outputs g tx consumed a)).
Proof.
  intros Hn. assert (NoDup (reverse (tv_outputs tx)).*1) as Hr by by rewrite reverse_Permutation.
  revert Hr. unfold scan_outputs. generalize (reverse (tv_outputs tx)). clear Hn.
  assert (forall l (s : Scan T SID), NoDup l.*1 -> versions_inj (sc_produced s) ->
    (forall k e i, sc_produced s !! k = Some e -> version e = from_ref (tv_hash tx, i) -> i ∉ l.*1) ->
    versions_inj (sc_produced (foldl (scan_output g tx consumed (added_destinations tx) a) s l))) as Hl.
  { induction l as [|io l IH]; intros s Hn Hv Hi; cbn [foldl]; [done|]. cbn in Hn. apply NoDup_cons in Hn as [Hio Hn].
    unfold scan_output at 2. destruct (try_from_ledger _ _ _) as [e0|] eqn:E; cbn zeta.
    2:{ apply IH; [done|done|]. intros k e i Hk Hve Hin. apply (Hi k e i Hk Hve). by right. }
    apply read_version in E. cbn in E. assert (forall k e, sc_produced s !! k = Some e -> version e <> version e0) as Hne.
    { intros k e Hk Hve. apply (Hi k e io.1 Hk); [congruence|by left]. }
    apply IH; cbn [sc_produced]; [done| |].
    - intros k k' e e' [[_ <-]|[_ Hk]]%lookup_insert_Some [[_ <-]|[_ Hk']]%lookup_insert_Some Hee; [done| | |by eapply Hv].
      + by destruct (Hne _ _ Hk').
      + by destruct (Hne _ _ Hk).
    - intros k e i [[_ <-]|[_ Hk]]%lookup_insert_Some Hve Hin; [|apply (Hi k e i Hk Hve); by right].
      rewrite E in Hve. apply (inj from_ref) in Hve as [= <-]. done. }
  intros l Hn. apply Hl; [done| |]; intros k; cbn; [intros k' e e'|intros e i]; by rewrite lookup_empty.
Qed.

Lemma set_iter_elem (s : gset SID) k : k ∈ set_iter s <-> k ∈ s.
Proof.
  unfold set_iter. rewrite list_elem_of_fmap. split.
  - intros ([k' []] & -> & Hk%hash_iter_lookup). by apply lookup_gset_to_gmap_Some in Hk as [? _].
  - intros Hk. exists (k, tt). split; [done|]. apply hash_iter_lookup, lookup_gset_to_gmap_Some. done.
Qed.

Lemma match_versions_elem (consumed produced : gmap SID T) tr : tr ∈ match_versions consumed produced <->
  exists k, ior_left tr = consumed !! k /\ ior_right tr = produced !! k.
Proof.
  unfold match_versions. rewrite list_elem_of_omap. split.
  - intros (k & _ & E). exists k. unfold ior_try_from in E. destruct (consumed !! k), (produced !! k); by simplify_eq.
  - intros (k & El & Er). exists k. rewrite set_iter_elem, elem_of_union, !elem_of_dom, <- El, <- Er.
    destruct tr; cbn; (split; [|done]); [left|right|left]; by eexists.
Qed.

(** Messages of a transaction that is undone. *)
Definition inverse_update (c : Channel (Transition T)) : Channel (Transition T) :=
  match c with
  | Ledger (Forward tr) => Ledger (Backward (ior_swap tr))
  | Mempool (Forward tr) => Mempool (Backward (ior_swap tr))
  | c => c
  end.
Definition inverse_updates : list (Channel (Transition T)) -> list (Channel (Transition T)) := fmap inverse_update.
Definition undo_msg (m : nat * (PR * Channel (Transition T))) : nat * (PR * Channel (Transition T)) :=
  (m.1, (m.2.1, inverse_update m.2.2)).

Lemma commit_inverse c1 c2 n1 n2 f1 f2 msg1 msg2 ix1 ix2 (u : gmap PR (list (Channel (Transition T)))) trs :
  (forall tr, inverse_update (msg1 tr) = msg2 (ior_swap tr)) ->
  Forall (fun tr => pair_id_of (ior_swap tr) = pair_id_of tr) trs ->
  (commit_transitions c2 n2 f2 ior_swap msg2 ix2 (inverse_updates <$> u) trs).2 =
  inverse_updates <$> (commit_transitions c1 n1 f1 id msg1 ix1 u trs).2.
Proof.
  intros Hm. revert n1 n2 ix1 ix2 u. induction trs as [|tr trs IH]; intros n1 n2 ix1 ix2 u Hp; cbn [commit_transitions]; [done|].
  apply Forall_cons in Hp as [Hp Hps]. erewrite <- IH by done. f_equal. f_equal. unfold push_by.
  rewrite fmap_insert, Hp, lookup_fmap. f_equal.
  unfold inverse_updates. rewrite fmap_app. cbn. unfold id. rewrite Hm. f_equal.
  by destruct (u !! pair_id_of tr).
Qed.

Lemma send_inverse topic (u : gmap PR (list (Channel (Transition T)))) : send_all topic (inverse_updates <$> u) ≡ₚ undo_msg <$> send_all topic u.
Proof.
  unfold send_all. rewrite !hash_iter_perm, map_to_list_fmap.
  induction (map_to_list u) as [|[k l] ml IH]; [done|].
  cbn [mbind list_bind fmap list_fmap prod_map fst snd]. rewrite fmap_app. unfold inverse_updates. rewrite <- !list_fmap_compose. by f_equiv.
Qed.

Lemma transition_pair (consumed : gmap SID T) g tx a tr :
  map_Forall (fun k e => stable_id e = k) consumed ->
  tr ∈ match_versions consumed (sc_produced (scan_outputs g tx consumed a)) -> pair_id_of (ior_swap tr) = pair_id_of tr.
Proof.
  intros Hc (k & El & Er)%match_versions_elem. destruct tr as [e|e|e e']; [done|done|]. cbn in *. apply same_pair.
  symmetry in El, Er. apply Hc in El. apply scan_produced in Er as [Er _]. congruence.
Qed.

(** *** Undoing a transaction *)

Section Undo.
Context (c1 c2 : nat -> Z) (ix ix1 ix2 : Index) (g g1 g2 : G) (tx rest1 rest2 : Tx) (a1 a2 : GraduationAction).
Context (indexed : Ior T T -> Ior T T) (msg1 msg2 : Ior T T -> Channel (Transition T)).
Context (sent1 sent2 : list (nat * (PR * Channel (Transition T)))).
Context (Happly : handle_tx n_topics c1 ix g tx a1 id id msg1 = (ix1, g1, sent1, rest1)).
Context (Ha1 : a1 <> GrRollback).
Context (Hdue : Forall (fun tk => tk.1 <= c1 0 -> tk.2 ∉ (fun r => from_ref r) <$> tv_inputs tx)%Z (ei_queue ix)).
Context (Hown : forall io, io ∈ tv_outputs tx -> (tv_hash tx, io.1) ∉ tv_inputs tx).

#[local] Notation consumed := (consumed_entities ix (tv_inputs tx)).
#[local] Notation produced := (sc_produced (scan_outputs g tx consumed GrApply)).
#[local] Notation trs := (match_versions consumed produced).
#[local] Notation committed1 := (commit_transitions c1 1 id id msg1 (entity_evict (c1 0) ix) ∅ trs).
#[local] Notation committed2 := (commit_transitions c2 1 indexed ior_swap msg2 (entity_evict (c2 0) ix1) ∅ trs).

Lemma input_not_produced tr e r : tr ∈ trs -> ior_right tr = Some e -> r ∈ tv_inputs tx -> version e <> from_ref r.
Proof.
  intros (k & _ & Ep)%match_versions_elem Er Hr. rewrite Er in Ep.
  destruct (scan_produced _ _ _ _ _ _ (eq_sym Ep)) as (_ & io & Hio & ->). intros E%(inj from_ref).
  apply (Hown io Hio). by rewrite E.
Qed.

Lemma due_kept r : r ∈ tv_inputs tx -> ei_store (entity_evict (c1 0) ix) !! from_ref r = ei_store ix !! from_ref r.
Proof.
  intros Hr. unfold entity_evict. destruct (evict_spec (c1 0) (ei_queue ix) (ei_store ix)) as (due & Eq & Hd & Hs & _).
  destruct (evict _ _ _) as [q s]. cbn in *. rewrite Hs, bool_decide_eq_false_2; [done|].
  intros (tk & Ek & Htk)%list_elem_of_fmap. rewrite Forall_forall in Hdue, Hd.
  apply (Hdue tk); [rewrite Eq; apply elem_of_app; by left|by apply Hd|]. rewrite <- Ek. by apply (list_elem_of_fmap_2 (fun r => from_ref r)).
Qed.

(** The transaction moved no entity, or its transitions were committed. *)
Lemma applied_cases : (tv_outputs tx = [] \/ trs = []) /\ ix1 = ix /\ sent1 = [] \/
  tv_outputs tx <> [] /\ trs <> [] /\ ix1 = committed1.1 /\ sent1 = send_all (partition_of n_topics) committed1.2.
Proof.
  revert Happly. unfold handle_tx, extract_continuous_transitions.
  destruct (Nat.eqb_spec (length (tv_outputs tx)) 0) as [E%nil_length_inv|Hn].
  { intros [= <- _ <- _]. left. auto. }
  replace (match a1 with GrRollback => _ | _ => g end) with g by by destruct a1.
  destruct (scan_action g tx consumed a1 GrApply) as [-> ->].
  destruct (Nat.eqb_spec (length trs) 0) as [E%nil_length_inv|Hl].
  - intros [= <- _ <- _]. left. auto.
  - destruct committed1 as [ix' ups]. intros [= <- _ <- _]. right. split; [by intros E; rewrite E in Hn|].
    split; [by intros E; rewrite E in Hl|done].
Qed.

Lemma applied_inputs r : r ∈ tv_inputs tx -> entity_get ix1 (from_ref r) = entity_get ix (from_ref r).
Proof.
  intros Hr. destruct applied_cases as [(_ & -> & _)|(_ & _ & -> & _)]; [done|]. unfold entity_get.
  rewrite commit_store_outside; [by apply due_kept|]. intros tr e Htr Er. by apply (input_not_produced tr e r).
Qed.

(** The transitions that were sent. *)
Lemma sent_transition n pr tr : Inj (=) (=) msg1 -> (n, (pr, msg1 tr)) ∈ sent1 -> tr ∈ trs /\ tv_outputs tx <> [].
Proof.
  intros Hm. destruct applied_cases as [(_ & _ & ->)|(Ho & _ & _ & ->)]; [by intros ?%elem_of_nil|].
  intros Hin. split; [|done]. unfold send_all in Hin. apply list_elem_of_bind in Hin as ([k l] & Hin & Hk).
  apply list_elem_of_fmap in Hin as (a & [= -> -> <-] & Hin). cbn in Hin. apply hash_iter_lookup in Hk.
  pose proof (commit_updates c1 1 id id msg1 (entity_evict (c1 0) ix) ∅ trs k) as Hc. rewrite Hk in Hc. cbn in Hc. subst l.
  apply list_elem_of_omap in Hin as (tr' & Htr' & E). unfold to_pair in E. destruct (decide _); [|done].
  injection E as E. apply (inj msg1) in E. by subst.
Qed.

(** An input that is an entity takes part in a transition. *)
Lemma input_transition r e : distinct_ids ix (tv_inputs tx) -> r ∈ tv_inputs tx -> entity_get ix (from_ref r) = Some e ->
  exists tr, tr ∈ trs /\ ior_left tr = Some e.
Proof.
  intros Hd Hr Ee. pose proof (consumed_entities_all ix _ r e Hd Hr Ee) as Hc.
  destruct (produced !! stable_id e) as [e'|] eqn:Ep; [exists (IorBoth e e')|exists (IorLeft e)]; (split; [|done]);
    apply match_versions_elem; exists (stable_id e); cbn; by rewrite Hc, Ep.
Qed.

Context (Hundo : handle_tx n_topics c2 ix1 g1 tx a2 indexed ior_swap msg2 = (ix2, g2, sent2, rest2)).
Context (Hgrad : match a2 with GrRollback => rollback_graduation g1 (tv_hash tx) | _ => g1 end = g).

(** The second reading sees the same transitions. *)
Lemma undone_cases : (tv_outputs tx = [] \/ trs = []) /\ ix2 = ix1 /\ sent2 = [] \/
  tv_outputs tx <> [] /\ trs <> [] /\ ix2 = committed2.1 /\ sent2 = send_all (partition_of n_topics) committed2.2.
Proof.
  revert Hundo. unfold handle_tx, extract_continuous_transitions.
  destruct (Nat.eqb_spec (length (tv_outputs tx)) 0) as [E%nil_length_inv|Hn].
  { intros [= <- _ <- _]. left. auto. }
  rewrite Hgrad, (consumed_entities_ext ix1 ix) by (apply Forall_forall; apply applied_inputs).
  destruct (scan_action g tx consumed a2 GrApply) as [-> ->].
  destruct (Nat.eqb_spec (length trs) 0) as [E%nil_length_inv|Hl].
  - intros [= <- _ <- _]. left. auto.
  - destruct committed2 as [ix' ups]. intros [= <- _ <- _]. right. split; [by intros E; rewrite E in Hn|].
    split; [by intros E; rewrite E in Hl|done].
Qed.

Lemma undone_messages : (forall tr, inverse_update (msg1 tr) = msg2 (ior_swap tr)) -> sent2 ≡ₚ undo_msg <$> sent1.
Proof.
  intros Hm. pose proof undone_cases as Hu. destruct applied_cases as [([E|E] & _ & ->)|(Ho & Ht & _ & ->)];
    destruct Hu as [(Hn & _ & ->)|(Ho' & Ht' & _ & ->)]; [done|by destruct Ho'|done|by destruct Ht'|by destruct Hn|].
  rewrite <- send_inverse. rewrite <- (commit_inverse c1 c2 1 1 id indexed msg1 msg2 (entity_evict (c1 0) ix) (entity_evict (c2 0) ix1)).
  - by rewrite fmap_empty.
  - done.
  - apply Forall_forall. intros tr. apply transition_pair. intros k e Hk. by apply consumed_entities_some in Hk as (? & _ & _ & ?).
Qed.

Context (Hkeyed : map_Forall (fun v e => version e = v) (ei_store ix)) (Hd : distinct_ids ix (tv_inputs tx)).

Lemma undone_inputs r : (forall tr, indexed tr = ior_swap tr) -> r ∈ tv_inputs tx ->
  entity_get ix2 (from_ref r) = entity_get ix (from_ref r).
Proof.
  intros Hsw Hr. pose proof (applied_inputs r Hr) as Hi. destruct undone_cases as [(_ & E & _)|(_ & _ & E & _)]; rewrite E; [done|].
  unfold entity_get in *. rewrite (commit_store (ei_store ix !! from_ref r)).
  - case_bool_decide as Hv; [done|]. destruct (ei_store ix !! from_ref r) as [e|] eqn:Ee.
    + destruct Hv. destruct (input_transition r e Hd Hr Ee) as (tr & Htr & El). apply list_elem_of_omap.
      exists tr. split; [done|]. rewrite Hsw, ior_swap_right, El. cbn. f_equal. apply (Hkeyed _ _ Ee).
    + destruct (ei_store (entity_evict (c2 0) ix1) !! from_ref r) as [e|] eqn:E2; [|done].
      unfold entity_evict in E2. pose proof (evict_some (c2 0) (ei_queue ix1) (ei_store ix1) (from_ref r) e) as Hs.
      destruct (evict _ _ _) as [q s]. cbn in E2, Hs. apply Hs in E2. congruence.
  - apply Forall_forall. intros tr Htr e. rewrite Hsw, ior_swap_right. intros El <-.
    apply match_versions_elem in Htr as (k & Ek & _). rewrite El in Ek. symmetry in Ek.
    apply consumed_entities_some in Ek as (r' & _ & Hg & _). unfold entity_get in Hg. by rewrite (Hkeyed _ _ Hg).
Qed.

(** The application scheduled its inputs. *)
Lemma input_scheduled r e : tv_outputs tx <> [] -> r ∈ tv_inputs tx -> entity_get ix (from_ref r) = Some e ->
  exists i, (c1 i + ei_delay ix, from_ref r)%Z ∈ ei_queue ix1.
Proof.
  intros Ho Hr Ee. destruct (input_transition r e Hd Hr Ee) as (tr & Htr & El).
  destruct applied_cases as [([E|E] & _)|(_ & _ & -> & _)]; [done|rewrite E in Htr; by apply elem_of_nil in Htr|].
  destruct (commit_queue c1 1 id id msg1 (entity_evict (c1 0) ix) ∅ trs) as (l & -> & El2 & Hl).
  assert (from_ref r ∈ l.*2) as ([t k] & Ek & Hk)%list_elem_of_fmap.
  { rewrite El2. apply list_elem_of_omap. exists tr. split; [done|]. unfold id. rewrite El. cbn. f_equal. apply (Hkeyed _ _ Ee). }
  rewrite Forall_forall in Hl. destruct (Hl _ Hk) as (i & Ei). cbn in Ek, Ei. subst k. exists i.
  rewrite entity_evict_delay in Ei. rewrite <- Ei. apply elem_of_app. by right.
Qed.

(** What is scheduled and not yet due stays so. *)
Lemma schedule_kept t v : (c2 0%nat < t)%Z -> (t, v) ∈ ei_queue ix1 -> (t, v) ∈ ei_queue ix2.
Proof.
  intros Ht Hin. destruct undone_cases as [(_ & E & _)|(_ & _ & E & _)]; rewrite E; [done|].
  destruct (commit_queue c2 1 indexed ior_swap msg2 (entity_evict (c2 0) ix1) ∅ trs) as (l & -> & _).
  apply elem_of_app. left. by apply entity_evict_pending.
Qed.

(** A state the dropped transaction produced is stored and not scheduled. *)
Lemma dropped_kept tr e now : (forall tr, indexed tr = tr) -> NoDup (tv_outputs tx).*1 ->
  (forall io, io ∈ tv_outputs tx -> from_ref (tv_hash tx, io.1) ∉ (ei_queue ix).*2) ->
  tr ∈ trs -> ior_right tr = Some e -> entity_get (entity_evict now ix2) (version e) = Some e.
Proof.
  intros Hid Hn Hq Htr Er. pose proof Htr as (k & _ & Ek)%match_versions_elem. rewrite Er in Ek. symmetry in Ek.
  pose proof (scan_produced _ _ _ _ _ _ Ek) as (_ & io & Hio & Ev).
  assert (forall v, v ∈ omap (fun tr => version <$> ior_left tr) trs -> v <> version e) as Hin.
  { intros v (tr' & Htr' & El)%list_elem_of_omap. destruct (ior_left tr') as [c|] eqn:Ec; [|done]. injection El as <-.
    apply match_versions_elem in Htr' as (k' & Ek' & _). rewrite Ec in Ek'. symmetry in Ek'.
    apply consumed_entities_some in Ek' as (r & Hr & Hg & _). apply Hkeyed in Hg. rewrite Hg, Ev. intros E%(inj from_ref).
    apply (Hown io Hio). by rewrite <- E. }
  assert (version e ∉ (ei_queue ix1).*2) as Hq1.
  { destruct applied_cases as [(_ & -> & _)|(_ & _ & -> & _)]; [rewrite Ev; by apply Hq|].
    destruct (commit_queue c1 1 id id msg1 (entity_evict (c1 0) ix) ∅ trs) as (l & -> & El & _).
    rewrite fmap_app, elem_of_app, El. intros [H1|H1]; [|by apply Hin in H1].
    apply (Hq io Hio). rewrite <- Ev. by eapply entity_evict_queue. }
  destruct undone_cases as [([E|E] & _)|(_ & _ & E & _)]; [rewrite E in Hio; by apply elem_of_nil in Hio|rewrite E in Htr; by apply elem_of_nil in Htr|].
  rewrite E. rewrite entity_evict_keeps.
  - unfold entity_get. rewrite (commit_store (Some e)).
    + rewrite bool_decide_eq_true_2; [done|]. apply list_elem_of_omap. exists tr. by rewrite Hid, Er.
    + apply Forall_forall. intros tr' (k' & _ & Ek')%match_versions_elem e' He' Hve. rewrite Hid in He'. rewrite He' in Ek'.
      f_equal. by eapply (scan_versions g tx consumed GrApply Hn k k').
  - destruct (commit_queue c2 1 indexed ior_swap msg2 (entity_evict (c2 0) ix1) ∅ trs) as (l & -> & El & _).
    rewrite fmap_app, elem_of_app, El. intros [H1%entity_evict_queue|H1]; [done|].
    apply (Hin (version e)); [|done].
    apply list_elem_of_omap in H1 as (tr' & Htr' & E'). rewrite Hid in E'. apply list_elem_of_omap. by exists tr'.
Qed.

(** What the dropped transaction spends is scheduled once more. *)
Lemma dropped_scheduled tr e : (forall tr, indexed tr = tr) -> tr ∈ trs -> tv_outputs tx <> [] ->
  ior_left tr = Some e -> version e ∈ (ei_queue ix2).*2.
Proof.
  intros Hid Htr Ho El. destruct undone_cases as [([E|E] & _)|(_ & _ & E & _)]; [done|rewrite E in Htr; by apply elem_of_nil in Htr|].
  rewrite E. destruct (commit_queue c2 1 indexed ior_swap msg2 (entity_evict (c2 0) ix1) ∅ trs) as (l & -> & El2 & _).
  rewrite fmap_app, elem_of_app, El2. right. apply list_elem_of_omap. exists tr. by rewrite Hid, El.
Qed.

End Undo.

(** The branches of the handlers. *)
Lemma ledger_applied c ix g tx slot bn bh ix' g' sent rest :
  pair_handle_ledger n_topics c ix g (TxApplied tx slot bn bh) = (ix', g', sent, rest) ->
  exists tx', handle_tx n_topics c ix g tx GrApply id id (fun tr => Ledger (Forward tr)) = (ix', g', sent, tx').
Proof. cbn. destruct (handle_tx _ _ _ _ _ _ _ _ _) as [[[? ?] ?] tx']. intros [= <- <- <- _]. by exists tx'. Qed.
Lemma ledger_unapplied c ix g tx slot bn bh ix' g' sent rest :
  pair_handle_ledger n_topics c ix g (TxUnapplied tx slot bn bh) = (ix', g', sent, rest) ->
  exists tx', handle_tx n_topics c ix g tx GrRollback ior_swap ior_swap (fun tr => Ledger (Backward tr)) = (ix', g', sent, tx').
Proof. cbn. destruct (handle_tx _ _ _ _ _ _ _ _ _) as [[[? ?] ?] tx']. intros [= <- <- <- _]. by exists tx'. Qed.
Lemma mempool_accepted c ix g tx ix' g' sent rest :
  pair_handle_mempool n_topics c ix g (TxAccepted tx) = (ix', g', sent, rest) ->
  exists tx', handle_tx n_topics c ix g tx GrIgnore id id (fun tr => Mempool (Forward tr)) = (ix', g', sent, tx').
Proof. cbn. destruct (handle_tx _ _ _ _ _ _ _ _ _) as [[[? ?] ?] tx']. intros [= <- <- <- _]. by exists tx'. Qed.
Lemma mempool_dropped c ix g tx ix' g' sent rest :
  pair_handle_mempool n_topics c ix g (TxDropped tx) = (ix', g', sent, rest) ->
  exists tx', handle_tx n_topics c ix g tx GrIgnore id ior_swap (fun tr => Mempool (Backward tr)) = (ix', g', sent, tx').
Proof. cbn. destruct (handle_tx _ _ _ _ _ _ _ _ _) as [[[? ?] ?] tx']. intros [= <- <- <- _]. by exists tx'. Qed.

(** The mempool does not touch the graduations. *)
Lemma handle_ignored c ix g tx indexed sent msg ix' g' msgs tx' :
  handle_tx n_topics c ix g tx GrIgnore indexed sent msg = (ix', g', msgs, tx') -> g' = g.
Proof.
  unfold handle_tx, extract_continuous_transitions. cbn.
  destruct (_ =? _); [by intros [= _ <- _ _]|]. destruct (_ =? _); [by intros [= _ <- _ _]|].
  destruct (commit_transitions _ _ _ _ _ _ _ _). by intros [= _ <- _ _].
Qed.

(** A transaction whose inputs are live: the index is keyed by versions, no
    input is due for eviction, no output is an input, and the inputs are
    different entities. *)
Record spendable (now : Z) ix tx : Prop := {
  sp_keyed : map_Forall (fun v e => version e = v) (ei_store ix);
  sp_due : Forall (fun tk => tk.1 <= now -> tk.2 ∉ (fun r => from_ref r) <$> tv_inputs tx)%Z (ei_queue ix);
  sp_own : forall io, io ∈ tv_outputs tx -> (tv_hash tx, io.1) ∉ tv_inputs tx;
  sp_ids : distinct_ids ix (tv_inputs tx);
}.


(** An entity that a rollback revives is forgotten.  When the rollback
    comes before the eviction delay of the application has passed, the entity
    is in the index again, but the entry that its spending had scheduled is
    kept: once the pending entries are due, an eviction removes the entity,
    although nothing has spent it. *)
Theorem revived_entity_forgotten c1 c2 ix g tx slot bn bh ix1 g1 sent1 rest1 ix2 g2 sent2 rest2 r e :
  pair_handle_ledger n_topics c1 ix g (TxApplied tx slot bn bh) = (ix1, g1, sent1, rest1) ->
  pair_handle_ledger n_topics c2 ix1 g1 (TxUnapplied tx slot bn bh) = (ix2, g2, sent2, rest2) ->
  spendable (c1 0) ix tx -> rollback_graduation g1 (tv_hash tx) = g ->
  tv_outputs tx <> [] -> (forall i, c2 0%nat < c1 i + ei_delay ix)%Z ->
  r ∈ tv_inputs tx -> entity_get ix (from_ref r) = Some e ->
  entity_get ix2 (from_ref r) = Some e /\
  forall now, Forall (fun tk => tk.1 <= now)%Z (ei_queue ix2) -> entity_get (entity_evict now ix2) (from_ref r) = None.
Proof.
  intros (tx1 & Ha)%ledger_applied (tx2 & Hu)%ledger_unapplied [Hk Hdue Hown Hd] Hg Ho Hc Hr He. split.
  - rewrite <- He. by eapply undone_inputs; try exact Ha; try exact Hu.
  - intros now Hq. apply entity_evict_all; [done|].
    assert (exists i, (c1 i + ei_delay ix, from_ref r)%Z ∈ ei_queue ix1) as (i & Hi) by by eapply input_scheduled; try exact Ha.
    apply (list_elem_of_fmap_2 snd _ (c1 i + ei_delay ix, from_ref r)%Z).
    eapply schedule_kept; try exact Ha; try exact Hu; done.
Qed.

(** A transaction dropped from the mempool stays in the index.  The
    executors are sent the inverse of its transitions, but the index is told
    the transitions themselves once more: a state the transaction would have
    produced is found however late an eviction runs, and the states it would
    have spent are removed once the pending entries are due. *)
Theorem dropped_tx_stays_indexed c1 c2 ix g tx ix1 g1 sent1 rest1 ix2 g2 sent2 rest2 n pr tr :
  pair_handle_mempool n_topics c1 ix g (TxAccepted tx) = (ix1, g1, sent1, rest1) ->
  pair_handle_mempool n_topics c2 ix1 g1 (TxDropped tx) = (ix2, g2, sent2, rest2) ->
  spendable (c1 0) ix tx -> NoDup (tv_outputs tx).*1 ->
  (forall io, io ∈ tv_outputs tx -> from_ref (tv_hash tx, io.1) ∉ (ei_queue ix).*2) ->
  (n, (pr, Mempool (Forward tr))) ∈ sent1 ->
  (n, (pr, Mempool (Backward (ior_swap tr)))) ∈ sent2 /\
  (forall e now, ior_right tr = Some e -> entity_get (entity_evict now ix2) (version e) = Some e) /\
  (forall e now, ior_left tr = Some e -> Forall (fun tk => tk.1 <= now)%Z (ei_queue ix2) ->
    entity_get (entity_evict now ix2) (version e) = None).
Proof.
  intros (tx1 & Ha)%mempool_accepted (tx2 & Hu)%mempool_dropped [Hk Hdue Hown Hd] Hn Hq Hin.
  assert (g1 = g) as -> by by eapply handle_ignored.
  edestruct sent_transition as [Htr Ho]; try exact Ha; try exact Hin; try done; [by intros ? ? [=]|]. split; [|split].
  - assert (sent2 ≡ₚ undo_msg <$> sent1) as -> by by eapply undone_messages; try exact Ha; try exact Hu.
    apply (list_elem_of_fmap_2 undo_msg _ _ Hin).
  - intros e now Er. eapply dropped_kept; try exact Ha; try exact Hu; done.
  - intros e now El Hle. apply entity_evict_all; [done|]. by eapply dropped_scheduled; try exact Hu; try exact Ha.
Qed.

End Entities.
