(* ===== verification/EventSinkExamples.v ===== *)
(** * Events on concrete transactions

    The event sink on a small ledger, with the witnesses of the theorems of
    [EventSinkProofs.v].  An entity is an output at a script; its lovelace are
    its identity and their parity its pair. *)

From stdpp Require Import base gmap list.
From Stdlib Require Import ZArith Lia Strings.Byte.
From S2P Require Import Prelude Mpf LbTypes Assets PlutusData AccountStore AccountIndex LbGreen.
From S2P Require Import StateIndex Containers Engine Graduation EventSink EventSinkProofs.

#[local] Notation delete := base.delete.
#[local] Notation insert := base.insert.
#[local] Existing Instance list_order.
#[local] Existing Instance list_order_laws.

Module Demo.
Record Entity := mkEntity { e_id : Z; e_ref : OutputRef }.

#[export] Instance entity_stable : Stable Entity Z := e_id.
#[export] Instance entity_snapshot : Snapshot Entity OutputRef := {| version := e_ref; is_quasi_permanent := fun _ => true |}.
#[export] Instance entity_pair : Tradable Entity Z := fun e => (e_id e mod 2)%Z.
#[export] Instance entity_from_ref : FromRef OutputRef := id.
#[export] Instance entity_read : TryFromLedger unit Entity Z unit unit := fun _ cx o =>
  match payment_cred (out_address o) with
  | Some (ScriptCred _) => Some (mkEntity (coin (out_value o)) (cx_output_ref cx))
  | _ => None
  end.
#[export] Instance no_graduates : MaybeGraduatedSplashId Z := fun _ => None.
#[export] Instance no_tracking : GraduationTracking unit := {|
  rollback_graduation := fun g _ => g;
  tracked_consumed := fun _ _ => [];
  observe_snek_output := fun _ _ _ => None;
  journal_graduated_splash_pools := fun g _ _ _ _ => g;
|}.
#[export] Instance all_forms : AddressForm := fun _ => true.
#[export] Instance key_hash : KeyHash Z := id.

#[export] Instance entity_laws : EntityLaws (T := Entity) (V := OutputRef) (G := unit) (MD := unit) (MI := unit).
Proof.
  split.
  - by intros r r'.
  - intros g cx o e. unfold try_from_ledger, entity_read. destruct (payment_cred (out_address o)) as [[h|h]|]; [done| |done].
    by intros [= <-].
  - intros e e'. unfold stable_id, entity_stable, pair_of_entity, entity_pair. by intros ->.
Qed.

(** A pool and an order are traded with each other: the pool lives on, the
    order goes, and a new order appears, beside a payment to a key. *)
Definition at_script (id : Z) : TransactionOutput :=
  mkTxOut (mkAddress (Some (ScriptCred [x07])) None []) (mkValue id ∅) None None.
Definition at_key (k : byte) (amount : Z) : TransactionOutput :=
  mkTxOut (mkAddress (Some (PubKeyCred [k])) None []) (mkValue amount ∅) None None.

Definition pool_ref : OutputRef := ([x01], 0%Z).
Definition order_ref : OutputRef := ([x02], 3%Z).
Definition tx : TxViewMut unit unit :=
  mkTxView [x03] [pool_ref; order_ref; ([x04], 0%Z)] [(0%Z, at_script 10); (1%Z, at_key x09 5); (2%Z, at_script 7)] None None [].

Definition index : InMemoryEntityIndex Entity Z OutputRef Z :=
  put_state (put_state (entity_index_new 60) (mkEntity 10 pool_ref)) (mkEntity 20 order_ref).

Definition clock (start : Z) (n : nat) : Z := (start + Z.of_nat n)%Z.

Definition applied := pair_handle_ledger 4 (clock 100) index tt (TxApplied tx 0 0 []).
Definition unapplied := pair_handle_ledger 4 (clock 110) applied.1.1.1 tt (TxUnapplied tx 0 0 []).
Definition accepted := pair_handle_mempool 4 (clock 100) index tt (TxAccepted tx).
Definition dropped := pair_handle_mempool 4 (clock 110) accepted.1.1.1 tt (TxDropped tx).

Lemma index_entries v e : entity_get index v = Some e -> v = version e /\ (e = mkEntity 10 pool_ref \/ e = mkEntity 20 order_ref).
Proof.
  unfold entity_get, index, put_state, entity_index_new. cbn [ei_store]. rewrite !lookup_insert_Some, lookup_empty. naive_solver.
Qed.

Lemma tx_spendable : spendable 100 index tx.
Proof.
  split.
  - intros v e Hv. symmetry. by apply index_entries in Hv as [-> _].
  - constructor.
  - cbn. set_solver.
  - intros r r' e e' _ _ [Hr He]%index_entries [Hr' He']%index_entries E. unfold from_ref, entity_from_ref, id in *.
    subst. by destruct He as [-> | ->], He' as [-> | ->].
Qed.

Example applied_messages : applied.1.2 =
  [(1, (1%Z, Ledger (Forward (IorRight (mkEntity 7 ([x03], 2%Z))))));
   (0, (0%Z, Ledger (Forward (IorBoth (mkEntity 10 pool_ref) (mkEntity 10 ([x03], 0%Z))))));
   (0, (0%Z, Ledger (Forward (IorLeft (mkEntity 20 order_ref)))))].
Proof. vm_compute. reflexivity. Qed.

Lemma handled_parts {A B C} (p : A * unit * B * C) : p = (p.1.1.1, tt, p.1.2, p.2).
Proof. by destruct p as [[[a []] b] c]. Qed.


Lemma revived_entity_forgotten_witness :
  entity_get unapplied.1.1.1 (from_ref pool_ref) = Some (mkEntity 10 pool_ref) /\
  entity_get (entity_evict 1000 unapplied.1.1.1) (from_ref pool_ref) = None.
Proof.
  destruct (revived_entity_forgotten 4 (clock 100) (clock 110) index tt tx 0 0 [] applied.1.1.1 tt applied.1.2 applied.2
           unapplied.1.1.1 tt unapplied.1.2 unapplied.2 pool_ref (mkEntity 10 pool_ref)) as [H1 H2].
  - apply handled_parts.
  - apply handled_parts.
  - apply tx_spendable.
  - reflexivity.
  - discriminate.
  - intros i. unfold clock. cbn. lia.
  - left.
  - vm_compute. reflexivity.
  - split; [exact H1|]. apply H2. vm_compute. repeat constructor; discriminate.
Defined.

Lemma dropped_tx_stays_indexed_witness :
  (0, (0%Z, Mempool (Backward (IorBoth (mkEntity 10 ([x03], 0%Z)) (mkEntity 10 pool_ref))))) ∈ dropped.1.2 /\
  entity_get (entity_evict 1000 dropped.1.1.1) ([x03], 0%Z) = Some (mkEntity 10 ([x03], 0%Z)) /\
  entity_get (entity_evict 1000 dropped.1.1.1) pool_ref = None.
Proof.
  destruct (dropped_tx_stays_indexed 4 (clock 100) (clock 110) index tt tx accepted.1.1.1 tt accepted.1.2 accepted.2
           dropped.1.1.1 tt dropped.1.2 dropped.2 0 0%Z (IorBoth (mkEntity 10 pool_ref) (mkEntity 10 ([x03], 0%Z)))) as (H1 & H2 & H3).
  - apply handled_parts.
  - apply handled_parts.
  - apply tx_spendable.
  - apply (bool_decide_unpack _). vm_compute. exact I.
  - intros io _. apply not_elem_of_nil.
  - vm_compute. right. left.
  - split; [exact H1|]. split; [by apply (H2 (mkEntity 10 ([x03], 0%Z)))|].
    apply (H3 (mkEntity 10 pool_ref)); [done|]. vm_compute. repeat constructor; discriminate.
Defined.

(** Two executors are funded from two keys; a transaction pays both and the
    collateral, another spends a box of the first. *)
Definition addresses : list Address := [out_address (at_key x09 0); out_address (at_key x0a 0)].
Definition collateral : OutputRef := ([x11], 2%Z).
Definition pay : TxViewMut unit unit :=
  mkTxView [x11] [] [(0%Z, at_key x09 5); (1%Z, at_key x0a 6); (2%Z, at_key x09 7); (3%Z, at_key x09 8)] None None [].
Definition spend : TxViewMut unit unit := mkTxView [x12] [([x11], 0%Z)] [(0%Z, at_key x0a 4)] None None [].

Definition paid := funding_handle_ledger addresses collateral (clock 100) (kv_new 60) (TxApplied pay 0 0 []).
Definition spent := funding_handle_ledger addresses collateral (clock 200) paid.1.1 (TxApplied spend 0 0 []).


Example pool_of_first : foldl pool_step [] (received 0 (paid.1.2 ++ spent.1.2)) = [mkFinalized (at_key x09 8) ([x11], 3%Z)].
Proof. vm_compute. reflexivity. Qed.
End Demo.
