(* ===== verification/ChainSync.v ===== *)
(** * Synchronisation with the chain

    From blocks to transactions ([cardano-chain-sync]): the cache of blocks
    ([cache.rs]), the unpacking of a block's valid transactions, roll-forward,
    roll-back and replay ([event_source.rs]) and the flow that commits block by
    block ([atomic_flow.rs]).

    The database of the cache is the map from keys to linked blocks beside the
    tip; the two have different key prefixes.  A header carries its canonical
    hash.  The beacon that tells the executor of a roll-back in progress is not
    part of the streams. *)

From stdpp Require Import base gmap list sorting.
From Stdlib Require Import ZArith Lia Strings.Byte.
From S2P Require Import Prelude Mpf LbTypes Assets PlutusData AccountIndex StateIndex Containers Engine Graduation EventSink.

#[local] Notation delete := base.delete.
#[local] Notation insert := base.insert.

Section ChainSync.
Context {TB TW AD : Type}.

(** ** Blocks *)

Inductive Era := Babbage | Conway | EarlierEra.

Record MultiEraBlock := mkBlock {
  blk_era : Era;
  blk_slot : Z;
  blk_number : Z;
  blk_hash : bytes;
  transaction_bodies : list TB;
  transaction_witness_sets : list TW;
  auxiliary_data_set : gmap Z AD;
  invalid_transactions : list Z;
}.

(** Babbage or Conway transactions. *)
Record LedgerTx := mkLedgerTx { ltx_era : Era; ltx_body : TB; ltx_witness_set : TW; ltx_auxiliary : option AD }.

(** The iterator over bodies and witnesses: [ix as u16] selects the invalid
    ones and takes the auxiliary data out of the set. *)
Fixpoint unpack_from (era : Era) (invalid : gset Z) (ix : Z) (aux : gmap Z AD) (l : list (TB * TW)) : list LedgerTx :=
  match l with
  | [] => []
  | (tb, tw) :: l =>
    let tx_ix := (ix mod 2 ^ 16)%Z in
    if bool_decide (tx_ix ∈ invalid) then unpack_from era invalid (ix + 1)%Z aux l
    else mkLedgerTx era tb tw (aux !! tx_ix) :: unpack_from era invalid (ix + 1)%Z (delete tx_ix aux) l
  end.

Definition unpack_valid_transactions (block : MultiEraBlock) : list (LedgerTx * Z * Z * bytes) :=
  let unpacked := unpack_from (blk_era block) (list_to_set (invalid_transactions block)) 0 (auxiliary_data_set block)
                    (zip (transaction_bodies block) (transaction_witness_sets block)) in
  match blk_era block with
  | Babbage | Conway => (fun tx => (tx, blk_slot block, blk_number block, blk_hash block)) <$> unpacked
  | EarlierEra => []
  end.

(** [MultiEraBlock::from_cbor_bytes]. *)
Class BlockCodec := from_cbor_bytes : bytes -> option MultiEraBlock.

(** ** The cache *)

Inductive Point := Origin | Specific (slot : Z) (hash : bytes).
#[export] Instance point_eq_dec : EqDecision Point.
Proof. solve_decision. Defined.

Definition get_slot (p : Point) : Z := match p with Origin => 0%Z | Specific s _ => s end.

Record LinkedBlock := mkLinked { lb_bytes : bytes; lb_prev : Point }.

Record LedgerCache := mkCache { cache_tip : option Point; cache_blocks : gmap bytes LinkedBlock }.

Definition POINT_PREFIX : bytes := [x62; x3a].
Definition point_key (p : Point) : bytes :=
  match p with
  | Origin => POINT_PREFIX ++ to_be_bytes 8 0
  | Specific slot hash => POINT_PREFIX ++ to_be_bytes 8 slot ++ hash
  end.

Definition set_tip (c : LedgerCache) (p : Point) : LedgerCache := mkCache (Some p) (cache_blocks c).
Definition get_tip (c : LedgerCache) : option Point := cache_tip c.
Definition put_block (c : LedgerCache) (p : Point) (b : LinkedBlock) : LedgerCache :=
  mkCache (cache_tip c) (<[point_key p := b]> (cache_blocks c)).
Definition get_block (c : LedgerCache) (p : Point) : option LinkedBlock := cache_blocks c !! point_key p.
Definition cache_delete (c : LedgerCache) (p : Point) : LedgerCache :=
  mkCache (cache_tip c) (delete (point_key p) (cache_blocks c)).

(** The database iterates from a key in the order of keys. *)
Definition replay (c : LedgerCache) (from_point : Point) : list LinkedBlock :=
  (filter (fun kb => bytes_leb (point_key from_point) kb.1 = true) (btree_iter (cache_blocks c))).*2.

Definition point_of (b : MultiEraBlock) : Point := Specific (blk_slot b) (blk_hash b).

Definition cache_block (c : LedgerCache) (b : MultiEraBlock) (blk_bytes : bytes) : LedgerCache :=
  let prev_point := default Origin (get_tip c) in
  put_block (set_tip c (point_of b)) (point_of b) (mkLinked blk_bytes prev_point).
Definition cache_point (c : LedgerCache) (b : MultiEraBlock) : LedgerCache := set_tip c (point_of b).

(** ** Upgrades of the chain *)

Inductive ChainUpgrade :=
| RollForward (blk : MultiEraBlock) (blk_bytes : bytes) (replayed : bool)
| RollBackward (p : Point).

Inductive LedgerBlockEvent := BlockForward (b : MultiEraBlock) | BlockBackward (b : MultiEraBlock).

Notation TxEvent := (LedgerTxEvent LedgerTx).
Definition applied_of (t : LedgerTx * Z * Z * bytes) : TxEvent := TxApplied t.1.1.1 t.1.1.2 t.1.2 t.2.
Definition unapplied_of (t : LedgerTx * Z * Z * bytes) : TxEvent := TxUnapplied t.1.1.1 t.1.1.2 t.1.2 t.2.

Context `{BC : BlockCodec}.

(** The loop of [rollback], with its number of rounds; [Err tt] when it is
    used up, [Panic] on a block that does not decode. *)
Fixpoint rollback_loop (rounds : nat) (c : LedgerCache) (to_point : Point) : outcome unit (LedgerCache * list MultiEraBlock) :=
  match rounds with
  | O => Err tt
  | S rounds =>
    match get_tip c with
    | Some tip =>
      if bool_decide (tip = to_point) then Ok (c, [])
      else
        match get_block c tip with
        | Some (mkLinked block_bytes prev_point) =>
          match from_cbor_bytes block_bytes with
          | Some block =>
            match rollback_loop rounds (set_tip (cache_delete c tip) prev_point) to_point with
            | Ok (c, bs) => Ok (c, block :: bs)
            | Err e => Err e
            | Panic => Panic
            end
          | None => Panic
          end
        | None => Ok (c, [])
        end
    | None => Ok (c, [])
    end
  end.

(** Every round but the last deletes a block. *)
Definition rollback (c : LedgerCache) (to_point : Point) : outcome unit (LedgerCache * list MultiEraBlock) :=
  rollback_loop (S (size (cache_blocks c))) c to_point.

Definition remember (handle_rollbacks_after : Z) (c : LedgerCache) (blk : MultiEraBlock) (blk_bytes : bytes) (replayed : bool)
    : LedgerCache :=
  if replayed then c
  else if (handle_rollbacks_after <? blk_slot blk)%Z then cache_block c blk blk_bytes
  else cache_point c blk.

Definition process_upstream_by_txs (handle_rollbacks_after : Z) (c : LedgerCache) (upgrade : ChainUpgrade)
    : outcome unit (LedgerCache * list TxEvent) :=
  match upgrade with
  | RollForward blk blk_bytes replayed =>
    Ok (remember handle_rollbacks_after c blk blk_bytes replayed, applied_of <$> unpack_valid_transactions blk)
  | RollBackward point =>
    if (handle_rollbacks_after <? get_slot point)%Z then
      match rollback c point with
      | Ok (c, bs) => Ok (c, bs ≫= fun b => reverse (unapplied_of <$> unpack_valid_transactions b))
      | Err e => Err e
      | Panic => Panic
      end
    else Ok (c, [])
  end.

Definition process_upstream_by_blocks (handle_rollbacks_after : Z) (c : LedgerCache) (upgrade : ChainUpgrade)
    : outcome unit (LedgerCache * list LedgerBlockEvent) :=
  match upgrade with
  | RollForward blk blk_bytes replayed =>
    Ok (remember handle_rollbacks_after c blk blk_bytes replayed, [BlockForward blk])
  | RollBackward point =>
    if (handle_rollbacks_after <? get_slot point)%Z then
      match rollback c point with
      | Ok (c, bs) => Ok (c, BlockBackward <$> bs)
      | Err e => Err e
      | Panic => Panic
      end
    else Ok (c, [])
  end.

(** A stream of upgrades, processed one after the other. *)
Fixpoint process_upstream (handle_rollbacks_after : Z) (c : LedgerCache) (upgrades : list ChainUpgrade)
    : outcome unit (LedgerCache * list TxEvent) :=
  match upgrades with
  | [] => Ok (c, [])
  | u :: us =>
    '(c, evs) ← process_upstream_by_txs handle_rollbacks_after c u;
    '(c, more) ← process_upstream handle_rollbacks_after c us;
    Ok (c, evs ++ more)
  end.

Definition replayed_blocks (c : LedgerCache) (replay_from : option Point) : list ChainUpgrade :=
  match replay_from with
  | None => []
  | Some p => omap (fun lb => (fun blk => RollForward blk (lb_bytes lb) true) <$> from_cbor_bytes (lb_bytes lb)) (replay c p)
  end.

(** [ledger_transactions]: the blocks of the cache first, then the node's. *)
Definition ledger_transactions (c : LedgerCache) (upstream : list ChainUpgrade) (handle_rollbacks_after : Z)
    (replay_from : option Point) : outcome unit (LedgerCache * list TxEvent) :=
  process_upstream handle_rollbacks_after c (replayed_blocks c replay_from ++ upstream).

(** ** Block by block *)

Inductive BlockEvents :=
| BlockRollForward (events : list LedgerTx) (block_num block_slot : Z)
| BlockRollBackward (events : list LedgerTx) (block_num block_slot : Z).

Definition valid_transactions (b : MultiEraBlock) : list LedgerTx := (fun t => t.1.1.1) <$> unpack_valid_transactions b.

(** The downstream commits the events before the cache takes the block. *)
Definition flow_forward (c : LedgerCache) (blk : MultiEraBlock) (blk_bytes : bytes) : LedgerCache * BlockEvents :=
  (cache_block c blk blk_bytes, BlockRollForward (valid_transactions blk) (blk_number blk) (blk_slot blk)).

(** The first loop of [AtomicFlow::run]: replayed blocks are cached again. *)
Definition flow_replay (c : LedgerCache) (replay_from : option Point) : LedgerCache * list BlockEvents :=
  foldl (fun s u => match u with
                    | RollForward blk blk_bytes _ => let '(c, ev) := flow_forward s.1 blk blk_bytes in (c, s.2 ++ [ev])
                    | RollBackward _ => s
                    end) (c, []) (replayed_blocks c replay_from).

Definition flow_upgrade (c : LedgerCache) (upgrade : ChainUpgrade) : outcome unit (LedgerCache * list BlockEvents) :=
  match upgrade with
  | RollForward blk blk_bytes _ => let '(c, ev) := flow_forward c blk blk_bytes in Ok (c, [ev])
  | RollBackward point =>
    match rollback c point with
    | Ok (c, bs) => Ok (c, (fun b => BlockRollBackward (reverse (valid_transactions b)) (blk_number b) (blk_slot b)) <$> bs)
    | Err e => Err e
    | Panic => Panic
    end
  end.

End ChainSync.
Arguments MultiEraBlock TB TW AD : clear implicits.
Arguments LedgerTx TB TW AD : clear implicits.
Arguments ChainUpgrade TB TW AD : clear implicits.
Arguments BlockCodec TB TW AD : clear implicits.
