(* ===== verification/ChainSyncProofs.v ===== *)
(** * What the ledger stream says of the chain

    Theorems about [ChainSync.v]: the events follow the node's chain as a stack
    of transactions through every roll-forward and roll-back, and a restart
    replays exactly the blocks from its starting point on. *)

From stdpp Require Import base gmap list sorting.
From Stdlib Require Import ZArith Lia Strings.Byte.
From S2P Require Import Prelude Mpf LbTypes Assets PlutusData AccountIndex StateIndex Containers Engine Graduation EventSink ChainSync.

#[local] Notation delete := base.delete.
#[local] Notation insert := base.insert.

(** ** Keys of points *)

Lemma bytes_leb_refl a : bytes_leb a a = true.
Proof. induction a as [|x a IH]; cbn; [done|]. by rewrite Nat.eqb_refl. Qed.

Lemma bytes_leb_trans a : forall b c, bytes_leb a b = true -> bytes_leb b c = true -> bytes_leb a c = true.
Proof.
  induction a as [|x a IH]; intros [|y b] [|z c]; cbn [bytes_leb]; try done.
  destruct (Nat.eqb_spec (byte_val x) (byte_val y)), (Nat.eqb_spec (byte_val y) (byte_val z)),
    (Nat.eqb_spec (byte_val x) (byte_val z)); rewrite ?Nat.ltb_lt; intros; try lia; by eapply IH.
Qed.

Lemma bytes_leb_total a : forall b, bytes_leb a b = true \/ bytes_leb b a = true.
Proof.
  induction a as [|x a IH]; intros [|y b]; cbn [bytes_leb]; [by left|by left|by right|].
  destruct (Nat.eqb_spec (byte_val x) (byte_val y)), (Nat.eqb_spec (byte_val y) (byte_val x)); try lia; [apply IH|].
  rewrite !Nat.ltb_lt. lia.
Qed.

Lemma bytes_leb_antisym a : forall b, bytes_leb a b = true -> bytes_leb b a = true -> a = b.
Proof.
  induction a as [|x a IH]; intros [|y b]; cbn [bytes_leb]; try done.
  destruct (Nat.eqb_spec (byte_val x) (byte_val y)) as [E|], (Nat.eqb_spec (byte_val y) (byte_val x));
    rewrite ?Nat.ltb_lt; try lia. intros. f_equal; [by apply byte_val_inj|by apply IH].
Qed.

#[export] Instance key_le_total {V} : Total (@key_le V).
Proof. intros a b. apply bytes_leb_total. Qed.
#[export] Instance key_le_trans {V} : Transitive (@key_le V).
Proof. intros a b c. apply bytes_leb_trans. Qed.

(** Big-endian numbers are ordered as their bytes. *)
Lemma z_as_u8_val z : (0 <= z < 256)%Z -> Z.of_nat (byte_val (z_as_u8 z)) = z.
Proof.
  intros Hz. unfold z_as_u8. rewrite Z.mod_small by done. rewrite byte_val_as_u8 by lia. lia.
Qed.

Lemma to_be_bytes_mod n z : to_be_bytes n (z mod 256 ^ Z.of_nat n) = to_be_bytes n z.
Proof.
  assert (forall m k, (k >= Z.of_nat m)%Z -> to_be_bytes m (z mod 256 ^ k) = to_be_bytes m z) as H; [|apply H; lia].
  induction m as [|m IH]; intros k Hk; [done|]. cbn [to_be_bytes]. f_equal; [|apply IH; lia].
  unfold z_as_u8. f_equal. f_equal. rewrite (Z.mod_eq z) by (apply Z.pow_nonzero; lia).
  replace (256 ^ k)%Z with (256 ^ Z.of_nat m * (256 ^ (k - 1 - Z.of_nat m) * 256))%Z.
  2:{ rewrite <- (Z.pow_1_r 256) at 3. rewrite <- !Z.pow_add_r by lia. f_equal. lia. }
  set (p := (256 ^ Z.of_nat m)%Z). assert (0 < p)%Z by (apply Z.pow_pos_nonneg; lia).
  set (q := (256 ^ (k - 1 - Z.of_nat m))%Z).
  replace (z - p * (q * 256) * (z / (p * (q * 256))))%Z with (z + - (q * 256 * (z / (p * (q * 256)))) * p)%Z by ring.
  rewrite Z.div_add by lia. replace (- (q * 256 * (z / (p * (q * 256)))))%Z with (- (q * (z / (p * (q * 256)))) * 256)%Z by ring.
  by rewrite Z.mod_add by lia.
Qed.

Lemma be_bytes_lt n : forall a b x y, (0 <= a < b)%Z -> (b < 256 ^ Z.of_nat n)%Z ->
  bytes_leb (to_be_bytes n b ++ y) (to_be_bytes n a ++ x) = false.
Proof.
  induction n as [|n IH]; intros a b x y Ha Hb; [cbn in Hb; lia|]. cbn [to_be_bytes app bytes_leb].
  rewrite Nat2Z.inj_succ, Z.pow_succ_r in Hb by lia. set (p := (256 ^ Z.of_nat n)%Z) in *.
  assert (0 < p)%Z by (apply Z.pow_pos_nonneg; lia).
  assert (0 <= a / p < 256)%Z by (split; [apply Z.div_pos; lia|apply Z.div_lt_upper_bound; lia]).
  assert (0 <= b / p < 256)%Z by (split; [apply Z.div_pos; lia|apply Z.div_lt_upper_bound; lia]).
  pose proof (z_as_u8_val (a / p)) as Ea. pose proof (z_as_u8_val (b / p)) as Eb.
  assert (a / p <= b / p)%Z by (apply Z.div_le_mono; lia).
  destruct (Nat.eqb_spec (byte_val (z_as_u8 (b / p))) (byte_val (z_as_u8 (a / p)))) as [E|E].
  - rewrite <- (to_be_bytes_mod n a), <- (to_be_bytes_mod n b). apply IH; [|apply Z.mod_pos_bound; lia].
    assert (a / p = b / p)%Z as Hq by lia. pose proof (Z.div_mod a p) as Da. pose proof (Z.div_mod b p) as Db.
    pose proof (Z.mod_pos_bound a p). fold p. nia.
  - apply Nat.ltb_ge. lia.
Qed.

Lemma point_key_lt a b x y : (0 <= a < b)%Z -> (b < 2 ^ 64)%Z ->
  bytes_leb (point_key (Specific b y)) (point_key (Specific a x)) = false.
Proof. intros Ha Hb. cbn [point_key POINT_PREFIX app bytes_leb]. rewrite !Nat.eqb_refl. by apply be_bytes_lt. Qed.

(** ** The node's chain *)

Section Follow.
Context {TB TW AD : Type} `{BC : BlockCodec TB TW AD}.
(** Roll-backs are handled after slot [h]; the chain grows from [base]. *)
Context (h : Z) (base : Point).

Notation Blk := (MultiEraBlock TB TW AD).
Notation Tx4 := (LedgerTx TB TW AD * Z * Z * bytes)%type.
(** The newest block first, with its encoding. *)
Notation Chain := (list (Blk * bytes)).
Implicit Types (chain newer older : Chain) (c : LedgerCache).

Definition tip_point chain : Point := match chain with [] => base | (b, _) :: _ => point_of b end.

Fixpoint chain_ok chain : Prop :=
  match chain with
  | [] => (0 <= get_slot base)%Z
  | (b, raw) :: chain => (get_slot (tip_point chain) < blk_slot b < 2 ^ 64)%Z /\ from_cbor_bytes raw = Some b /\ chain_ok chain
  end.

(** The transactions of the chain, the newest first. *)
Definition chain_txs chain : list Tx4 := chain ≫= fun br => reverse (unpack_valid_transactions br.1).

(** The chain-sync protocol: the node extends its chain, or takes it back to
    one of its points. *)
Inductive node_step : Chain -> ChainUpgrade TB TW AD -> Chain -> Prop :=
| node_forward chain b raw : from_cbor_bytes raw = Some b -> (get_slot (tip_point chain) < blk_slot b < 2 ^ 64)%Z ->
    node_step chain (RollForward b raw false) ((b, raw) :: chain)
| node_backward newer older : (h < get_slot (tip_point older))%Z ->
    node_step (newer ++ older) (RollBackward (tip_point older)) older.

Inductive session : Chain -> list (ChainUpgrade TB TW AD) -> Chain -> Prop :=
| session_done chain : session chain [] chain
| session_step chain u chain' us chain'' : node_step chain u chain' -> session chain' us chain'' ->
    session chain (u :: us) chain''.

(** A reader of the events keeps a stack of transactions. *)
Inductive stack_run : list Tx4 -> list (LedgerTxEvent (LedgerTx TB TW AD)) -> list Tx4 -> Prop :=
| run_done s : stack_run s [] s
| run_apply s t evs s' : stack_run (t :: s) evs s' -> stack_run s (applied_of t :: evs) s'
| run_undo s t evs s' : stack_run s evs s' -> stack_run (t :: s) (unapplied_of t :: evs) s'.

Lemma stack_run_app s evs s' evs' s'' : stack_run s evs s' -> stack_run s' evs' s'' -> stack_run s (evs ++ evs') s''.
Proof. induction 1; intros; [done|constructor; auto..]. Qed.

Lemma stack_run_apply s l : stack_run s (applied_of <$> l) (reverse l ++ s).
Proof.
  revert s. induction l as [|t l IH]; intros s; [constructor|]. cbn [fmap list_fmap]. constructor.
  rewrite reverse_cons, <- app_assoc. apply IH.
Qed.

Lemma stack_run_undo s l : stack_run (reverse l ++ s) (reverse (unapplied_of <$> l)) s.
Proof.
  rewrite <- fmap_reverse. generalize (reverse l). clear l. intros l. induction l as [|t l IH]; [constructor|].
  cbn. by constructor.
Qed.

(** *** The cache of a chain *)

Fixpoint entries chain : list (bytes * LinkedBlock) :=
  match chain with
  | [] => []
  | (b, raw) :: chain =>
    (if (h <? blk_slot b)%Z then [(point_key (point_of b), mkLinked raw (tip_point chain))] else []) ++ entries chain
  end.

Record tracks c chain : Prop := {
  tr_tip : default Origin (cache_tip c) = tip_point chain;
  tr_blocks : cache_blocks c = list_to_map (entries chain);
}.

Lemma chain_ok_app newer older : chain_ok (newer ++ older) -> chain_ok older.
Proof. induction newer as [|[b raw] newer IH]; cbn; [done|]. naive_solver. Qed.

Lemma tip_slot chain : chain_ok chain -> (0 <= get_slot base <= get_slot (tip_point chain))%Z.
Proof. induction chain as [|[b raw] chain IH]; cbn; [lia|]. intros (Hs & _ & Hok). specialize (IH Hok). lia. Qed.

Lemma chain_slots chain b raw : chain_ok chain -> (b, raw) ∈ chain ->
  (get_slot base < blk_slot b <= get_slot (tip_point chain) /\ blk_slot b < 2 ^ 64)%Z.
Proof.
  induction chain as [|[b' raw'] chain IH]; intros Hok Hin; [by apply elem_of_nil in Hin|].
  destruct Hok as (Hs & _ & Hok). pose proof (tip_slot chain Hok). cbn.
  apply elem_of_cons in Hin as [[= -> ->]|Hin]; [|specialize (IH Hok Hin)]; lia.
Qed.

Lemma entries_elem chain k lb : (k, lb) ∈ entries chain -> exists b raw, (b, raw) ∈ chain /\ k = point_key (point_of b) /\ (h < blk_slot b)%Z.
Proof.
  induction chain as [|[b raw] chain IH]; cbn; [by intros ?%elem_of_nil|]. rewrite elem_of_app. intros [Hin|Hin].
  - destruct (Z.ltb_spec h (blk_slot b)); [|by apply elem_of_nil in Hin]. apply list_elem_of_singleton in Hin as [= -> _].
    exists b, raw. split; [by left|done].
  - destruct (IH Hin) as (b' & raw' & Hb & ?). exists b', raw'. split; [by right|done].
Qed.

(** Later blocks have larger keys. *)
Lemma entries_below chain b raw k lb : chain_ok ((b, raw) :: chain) -> (k, lb) ∈ entries chain ->
  bytes_leb (point_key (point_of b)) k = false.
Proof.
  intros (Hs & _ & Hok) (b' & raw' & Hb & -> & _)%entries_elem. pose proof (chain_slots _ _ _ Hok Hb). pose proof (tip_slot _ Hok).
  apply point_key_lt; lia.
Qed.

Lemma entries_fresh chain b raw : chain_ok ((b, raw) :: chain) -> point_key (point_of b) ∉ (entries chain).*1.
Proof.
  intros Hok ([k lb] & Ek & Hin)%list_elem_of_fmap. cbn in Ek. subst k. pose proof (entries_below _ _ _ _ _ Hok Hin) as E.
  by rewrite bytes_leb_refl in E.
Qed.

Lemma entries_nodup chain : chain_ok chain -> NoDup (entries chain).*1.
Proof.
  induction chain as [|[b raw] chain IH]; intros Hok; cbn [entries]; [constructor|]. rewrite fmap_app.
  pose proof (entries_fresh _ _ _ Hok) as Hf. destruct Hok as (_ & _ & Hok). specialize (IH Hok).
  destruct (h <? blk_slot b)%Z; [|done]. by constructor.
Qed.

(** *** Roll-back *)

Lemma rollback_exact newer older c rounds : chain_ok (newer ++ older) -> tracks c (newer ++ older) ->
  (h < get_slot (tip_point older))%Z -> length newer < rounds ->
  exists c', rollback_loop rounds c (tip_point older) = Ok (c', newer.*1) /\ tracks c' older.
Proof.
  revert c rounds. induction newer as [|[b raw] newer IH]; intros c [|rounds] Hok [Ht Hb] Hh Hr; try (cbn in Hr; lia); cbn [rollback_loop].
  - cbn in Ht. exists c. unfold get_tip. destruct (cache_tip c) as [tip|] eqn:E; [|by repeat split; rewrite ?E].
    cbn in Ht. subst tip. rewrite bool_decide_eq_true_2 by done. by repeat split; rewrite ?E.
  - assert (cache_tip c = Some (point_of b)) as Htip.
    { cbn in Ht. destruct (cache_tip c); [by cbn in Ht; subst|done]. }
    pose proof (entries_fresh _ _ _ Hok) as Hf. pose proof Hok as (Hs & Hd & Hok'). fold (app newer older) in *.
    assert (get_slot (tip_point older) <= get_slot (tip_point (newer ++ older)))%Z as Hle.
    { clear -Hok'. induction newer as [|[b raw] newer IH]; cbn in *; [lia|]. destruct Hok' as (? & _ & Hok). specialize (IH Hok). lia. }
    unfold get_tip. rewrite Htip, bool_decide_eq_false_2 by (intros E; rewrite <- E in Hle; cbn in Hle; lia).
    cbn [app entries] in Hb. destruct (Z.ltb_spec h (blk_slot b)) as [_|]; [|lia].
    unfold get_block. rewrite Hb. cbn [app list_to_map foldr fst snd]. rewrite lookup_insert_eq, Hd.
    destruct (IH (set_tip (cache_delete c (point_of b)) (tip_point (newer ++ older))) rounds) as (c' & -> & Hc'); [done| |done|cbn in Hr; lia|].
    + split; [done|]. cbn. rewrite Hb. cbn. apply delete_insert_id. by apply not_elem_of_list_to_map_1.
    + by exists c'.
Qed.

Lemma rollback_tracked newer older c : chain_ok (newer ++ older) -> tracks c (newer ++ older) ->
  (h < get_slot (tip_point older))%Z -> exists c', rollback c (tip_point older) = Ok (c', newer.*1) /\ tracks c' older.
Proof.
  intros Hok Htr Hh. apply rollback_exact; [done|done|done|].
  rewrite (tr_blocks _ _ Htr), map_size_list_to_map by by apply entries_nodup. clear Htr.
  assert (length newer <= length (entries (newer ++ older))); [|lia].
  induction newer as [|[b raw] newer IH]; cbn; [lia|]. pose proof Hok as (Hs & _ & Hok'). fold (app newer older) in *.
  specialize (IH Hok'). rewrite length_app. pose proof (tip_slot _ Hok').
  assert (get_slot (tip_point older) <= get_slot (tip_point (newer ++ older)))%Z as Hle.
  { clear -Hok'. induction newer as [|[b raw] newer IH]; cbn in *; [lia|]. destruct Hok' as (? & _ & Hok). specialize (IH Hok). lia. }
  destruct (Z.ltb_spec h (blk_slot b)); [cbn; lia|lia].
Qed.

Lemma step_followed c chain u chain' : chain_ok chain -> tracks c chain -> node_step chain u chain' ->
  chain_ok chain' /\ exists c' evs, process_upstream_by_txs h c u = Ok (c', evs) /\ tracks c' chain' /\
    stack_run (chain_txs chain) evs (chain_txs chain').
Proof.
  intros Hok Htr Hn. revert Hok Htr. destruct Hn as [chain b raw Hd Hs|newer older Hh]; intros Hok Htr; cbn [process_upstream_by_txs].
  - split; [exact (conj Hs (conj Hd Hok))|]. eexists _, _. split; [reflexivity|]. split; [|apply stack_run_apply].
    destruct Htr as [Ht Hb]. unfold remember. destruct (Z.ltb_spec h (blk_slot b)) as [Hlt|Hge].
    + split; [done|]. cbn. unfold get_tip. rewrite Hb, Ht. destruct (Z.ltb_spec h (blk_slot b)); [done|lia].
    + split; [done|]. cbn. rewrite Hb. destruct (Z.ltb_spec h (blk_slot b)); [lia|done].
  - split; [by eapply chain_ok_app|]. destruct (Z.ltb_spec h (get_slot (tip_point older))); [|lia].
    destruct (rollback_tracked newer older c) as (c' & -> & Hc'); [done..|]. eexists _, _. split; [reflexivity|]. split; [done|].
    clear. induction newer as [|[b raw] newer IH]; cbn; [constructor|]. eapply stack_run_app; [|exact IH].
    apply stack_run_undo.
Qed.

Lemma session_followed c chain us chain' : chain_ok chain -> tracks c chain -> session chain us chain' ->
  exists c' evs, process_upstream h c us = Ok (c', evs) /\ tracks c' chain' /\ stack_run (chain_txs chain) evs (chain_txs chain').
Proof.
  intros Hok Htr Hs. revert c Hok Htr. induction Hs as [chain|chain u chain' us chain'' Hn _ IH]; intros c Hok Htr.
  - exists c, []. by repeat constructor; destruct Htr.
  - destruct (step_followed c chain u chain' Hok Htr Hn) as (Hok' & c1 & evs1 & E1 & Htr1 & Hr1).
    destruct (IH c1 Hok' Htr1) as (c2 & evs2 & E2 & Htr2 & Hr2). cbn [process_upstream]. rewrite E1. cbn [mbind outcome_bind].
    rewrite E2. cbn [mbind outcome_bind]. exists c2, (evs1 ++ evs2). split; [done|]. split; [done|]. by eapply stack_run_app.
Qed.

(** *** Replay *)

Lemma entries_sorted chain : chain_ok chain -> StronglySorted key_le (reverse (entries chain)).
Proof.
  induction chain as [|[b raw] chain IH]; intros Hok; cbn [entries]; [constructor|]. rewrite reverse_app.
  pose proof (entries_below chain b raw) as Hbelow. specialize (IH (proj2 (proj2 Hok))).
  destruct (h <? blk_slot b)%Z; [|by rewrite reverse_nil, app_nil_r]. apply StronglySorted_app_2; [|done|by repeat constructor].
  intros [k lb] x Hin ->%list_elem_of_singleton. rewrite elem_of_reverse in Hin. unfold key_le. cbn [fst].
  destruct (bytes_leb_total k (point_key (point_of b))) as [|Ht]; [done|]. by rewrite (Hbelow k lb Hok Hin) in Ht.
Qed.

Lemma entries_iter chain : chain_ok chain -> btree_iter (list_to_map (entries chain) : gmap bytes LinkedBlock) = reverse (entries chain).
Proof.
  intros Hok. pose proof (entries_nodup chain Hok) as Hn. apply (StronglySorted_unique_strong key_le).
  - intros [k lb] [k' lb'] Hin Hin' H1 H2. assert (k = k') as <- by by apply bytes_leb_antisym.
    rewrite btree_iter_perm, map_to_list_to_map in Hin by done. rewrite elem_of_reverse in Hin'.
    apply (elem_of_list_to_map (M := gmap bytes)) in Hin, Hin'; [|done..]. congruence.
  - apply StronglySorted_merge_sort; apply _.
  - by apply entries_sorted.
  - rewrite btree_iter_perm, map_to_list_to_map by done. by rewrite reverse_Permutation.
Qed.

Lemma omap_reverse {A B} (f : A -> option B) l : omap f (reverse l) = reverse (omap f l).
Proof.
  induction l as [|a l IH]; [done|]. rewrite reverse_cons, omap_app, IH. cbn [omap list_omap].
  destruct (f a); [by rewrite reverse_cons|by rewrite app_nil_r].
Qed.

(** From the oldest block of [newer ++ [b]] on. *)
Lemma replay_exact newer b raw older c : chain_ok (newer ++ (b, raw) :: older) -> tracks c (newer ++ (b, raw) :: older) ->
  (h < blk_slot b)%Z ->
  replayed_blocks c (Some (point_of b)) = (fun br => RollForward br.1 br.2 true) <$> reverse (newer ++ [(b, raw)]).
Proof.
  intros Hok [_ Hb] Hh. unfold replayed_blocks, replay. rewrite Hb, entries_iter by done. clear Hb.
  rewrite filter_reverse, fmap_reverse, omap_reverse, fmap_reverse. f_equal.
  induction newer as [|[b' raw'] newer IH]; cbn [app entries].
  - cbn in Hok. pose proof Hok as (Hs & Hd & _). destruct (Z.ltb_spec h (blk_slot b)) as [_|]; [|lia]. cbn [app].
    rewrite filter_cons_True by apply bytes_leb_refl. cbn [fmap list_fmap omap list_omap snd lb_bytes]. rewrite Hd.
    cbn [fmap option_fmap option_map fst snd]. f_equal.
    rewrite filter_none; [done|]. apply Forall_forall. intros [k lb] Hin. cbn [fst]. by rewrite (entries_below older b raw k lb Hok Hin).
  - pose proof Hok as (Hs & Hd & Hok'). fold (app newer ((b, raw) :: older)) in *. specialize (IH Hok').
    assert (get_slot base < blk_slot b <= get_slot (tip_point (newer ++ (b, raw) :: older)))%Z.
    { apply (chain_slots _ b raw Hok'). apply elem_of_app. right. by left. }
    destruct (Z.ltb_spec h (blk_slot b')) as [_|]; [|lia]. cbn [app]. rewrite filter_cons_True.
    + cbn [fmap list_fmap omap list_omap snd lb_bytes]. rewrite Hd. cbn [fmap option_fmap option_map fst snd]. by f_equal.
    + cbn [fst]. destruct (bytes_leb_total (point_key (point_of b)) (point_key (point_of b'))) as [|Ht]; [done|].
      pose proof (tip_slot _ Hok'). unfold point_of in Ht. by rewrite point_key_lt in Ht by lia.
Qed.

Lemma process_app c us c1 evs1 us' c2 evs2 : process_upstream h c us = Ok (c1, evs1) -> process_upstream h c1 us' = Ok (c2, evs2) ->
  process_upstream h c (us ++ us') = Ok (c2, evs1 ++ evs2).
Proof.
  revert c evs1. induction us as [|u us IH]; intros c evs1; cbn [app process_upstream]; [by intros [= -> <-]|].
  destruct (process_upstream_by_txs h c u) as [[c0 e0]|e|]; cbn [mbind outcome_bind]; [|done..].
  destruct (process_upstream h c0 us) as [[c3 e3]|e|] eqn:E; cbn [mbind outcome_bind]; [|done..].
  intros [= -> <-] H2. rewrite (IH c0 e3 E H2). cbn [mbind outcome_bind]. by rewrite app_assoc.
Qed.

Lemma replayed_followed newer older c :
  exists evs, process_upstream h c ((fun br => RollForward br.1 br.2 true) <$> reverse newer) = Ok (c, evs) /\
    stack_run (chain_txs older) evs (chain_txs (newer ++ older)).
Proof.
  induction newer as [|[b raw] newer (evs & E & Hr)]; [exists []; by repeat constructor|].
  rewrite reverse_cons, fmap_app. exists (evs ++ (applied_of <$> unpack_valid_transactions b) ++ []).
  split; [by eapply process_app|]. eapply stack_run_app; [exact Hr|]. rewrite app_nil_r. apply stack_run_apply.
Qed.

(** C35: The ledger stream follows the node.  Through every sequence of
    roll-forwards and handled roll-backs the stream neither panics nor stalls,
    and a reader that pushes the transactions it is told are applied and pops
    those it is told are unapplied always pops the one on top and ends with the
    transactions of the node's chain. *)
Theorem ledger_stream_follows_chain c chain us chain' : chain_ok chain -> tracks c chain -> session chain us chain' ->
  exists c' evs, ledger_transactions c us h None = Ok (c', evs) /\ tracks c' chain' /\
    stack_run (chain_txs chain) evs (chain_txs chain').
Proof. intros Hok Htr Hs. apply (session_followed c chain us chain'); done. Qed.

(** C36: A restart loses nothing.  An agent that restarts on the cache of a
    chain and replays it from a cached block on is told the transactions of
    exactly that block and the later ones, and then those of the node. *)
Theorem restart_replays_chain c newer b raw older us chain' : chain_ok (newer ++ (b, raw) :: older) ->
  tracks c (newer ++ (b, raw) :: older) -> (h < blk_slot b)%Z -> session (newer ++ (b, raw) :: older) us chain' ->
  exists c' evs, ledger_transactions c us h (Some (point_of b)) = Ok (c', evs) /\ tracks c' chain' /\
    stack_run (chain_txs older) evs (chain_txs chain').
Proof.
  intros Hok Htr Hh Hs. unfold ledger_transactions. rewrite (replay_exact newer b raw older c) by done.
  destruct (replayed_followed (newer ++ [(b, raw)]) older c) as (evs1 & E1 & Hr1). rewrite <- app_assoc in Hr1.
  destruct (session_followed c _ us chain' Hok Htr Hs) as (c' & evs2 & E2 & Htr2 & Hr2).
  exists c', (evs1 ++ evs2). split; [by eapply process_app|]. split; [done|]. by eapply stack_run_app.
Qed.
End Follow.
