(* ===== verification/ChainSyncExamples.v ===== *)
(** * A small chain

    The ledger stream on three blocks, with the witnesses of the theorems of
    [ChainSyncProofs.v], and the atomic flow that links a replayed block to the
    wrong predecessor. *)

From stdpp Require Import base gmap list sorting.
From Stdlib Require Import ZArith Lia Strings.Byte.
From S2P Require Import Prelude Mpf LbTypes Assets PlutusData AccountIndex StateIndex Containers Engine Graduation EventSink ChainSync ChainSyncProofs.

Module SmallChain.

(** Blocks are encoded by their number; the second transaction of each is
    invalid. *)
Definition block (n : byte) : MultiEraBlock byte byte byte :=
  mkBlock Conway (10 * Z.of_nat (byte_val n)) (Z.of_nat (byte_val n)) [n] [n; xff; n] [n; x00; x01]
    {[ 0%Z := x05; 1%Z := x06 ]} [1%Z].
#[export] Instance small_codec : BlockCodec byte byte byte :=
  fun raw => match raw with [n] => Some (block n) | _ => None end.

Definition at_ (n : byte) : MultiEraBlock byte byte byte * bytes := (block n, [n]).
Definition forward (n : byte) : ChainUpgrade byte byte byte := RollForward (block n) [n] false.

(** Roll-backs are handled after slot 5. *)
Definition empty : LedgerCache := mkCache None ∅.
Definition three : LedgerCache :=
  match process_upstream 5 empty [forward x01; forward x02; forward x03] with Ok (c, _) => c | _ => empty end.

Lemma forward_step n chain : (get_slot (tip_point Origin chain) < 10 * Z.of_nat (byte_val n))%Z ->
  node_step 5 Origin chain (forward n) (at_ n :: chain).
Proof.
  intros Hs. constructor; [done|]. cbn. pose proof (byte_val_bound n). lia.
Qed.

(** The node extends its chain by two blocks, takes the second back and
    extends the first by another. *)
Lemma ledger_stream_follows_chain_witness :
  exists c' evs, ledger_transactions empty [forward x01; forward x02; RollBackward (point_of (block x01)); forward x03] 5 None = Ok (c', evs) /\
    tracks 5 Origin c' [at_ x03; at_ x01] /\ stack_run (chain_txs []) evs (chain_txs [at_ x03; at_ x01]).
Proof.
  apply (ledger_stream_follows_chain 5 Origin).
  - cbn. lia.
  - split; vm_compute; reflexivity.
  - apply (session_step _ _ _ _ [at_ x01]); [by apply forward_step|].
    apply (session_step _ _ _ _ [at_ x02; at_ x01]); [by apply forward_step|].
    apply (session_step _ _ _ _ [at_ x01]); [by apply (node_backward 5 Origin [at_ x02] [at_ x01])|].
    apply (session_step _ _ _ _ [at_ x03; at_ x01]); [by apply forward_step|]. constructor.
Defined.

Lemma restart_replays_chain_witness :
  exists c' evs, ledger_transactions three [forward x04] 5 (Some (point_of (block x02))) = Ok (c', evs) /\
    tracks 5 Origin c' [at_ x04; at_ x03; at_ x02; at_ x01] /\
    stack_run (chain_txs [at_ x01]) evs (chain_txs [at_ x04; at_ x03; at_ x02; at_ x01]).
Proof.
  apply (restart_replays_chain 5 Origin three [at_ x03] (block x02) [x02] [at_ x01]).
  - cbn. repeat split; lia.
  - split; vm_compute; reflexivity.
  - cbn. lia.
  - apply (session_step _ _ _ _ [at_ x04; at_ x03; at_ x02; at_ x01]); [by apply forward_step|]. constructor.
Defined.

Example invalid_left_out : valid_transactions (block x02) = [mkLedgerTx Conway x02 x02 (Some x05); mkLedgerTx Conway x02 x01 None].
Proof. vm_compute. reflexivity. Qed.

(** The atomic flow caches the blocks it replays again: the first of them is
    linked to the tip of the cache, and a roll-back past it leaves the tip at a
    block that is no longer there. *)
Example replay_links_to_tip :
  let c := (flow_replay three (Some (point_of (block x02)))).1 in
  get_block c (point_of (block x02)) = Some (mkLinked [x02] (point_of (block x03))) /\
  match flow_upgrade c (RollBackward (point_of (block x01))) with
  | Ok (c, _) => get_tip c = Some (point_of (block x03)) /\ get_block c (point_of (block x03)) = None
  | _ => False
  end.
Proof. vm_compute. repeat split. Qed.
End SmallChain.
