(* ===== verification/LimitOrder.v ===== *)
(** * Limit orders

    [bloom-offchain-cardano/src/orders/limit.rs]: the order and its behaviour in
    the book, its datum, the order an output carries, and ([instances.rs]) the
    execution of a fill.

    Amounts are [u64]; sums and differences wrap around.  [BigInteger::as_u128],
    [blake2b224] and the two forms of a ledger address are library functions. *)

From stdpp Require Import base gmap list.
From Stdlib Require Import ZArith Lia Strings.Byte.
From S2P Require Import Prelude Mpf LbTypes Assets PlutusData Intention GreenOrder LbCore LbCoreProofs AccountStore.
From S2P Require Import AccountIndex RoyaltyPool LbState LbGreen Containers Redeemers TxBlueprint StateIndex Engine Interpreter.
From S2P Require Import GreenExec RoyaltyDatum Graduation EventSink.

#[local] Notation delete := base.delete.
#[local] Notation insert := base.insert.

Class BigU128Lib := as_u128 : Z -> option Z.
Class BigU128Laws `{BigU128Lib} : Prop := as_u128_range : forall z w, as_u128 z = Some w -> w = z /\ (0 <= z < 2 ^ 128)%Z.
Class Blake224 := blake2b224 : bytes -> bytes.

(** [u64] difference and sum: the second branches are the wrap-around, the
    first ones what it is on machine integers. *)
Definition sub_u64 (a b : Z) : Z := if (b <=? a)%Z then (a - b)%Z else wrap_u64 (a - b).
Definition add_u64 (a b : Z) : Z := if (a + b <=? u64_max)%Z then (a + b)%Z else wrap_u64 (a + b).

Lemma sub_u64_wraps a b : is_u64 a -> is_u64 b -> sub_u64 a b = wrap_u64 (a - b).
Proof. unfold is_u64, sub_u64. intros. destruct (Z.leb_spec b a); [|done]. rewrite wrap_u64_small; [done|]. unfold is_u64. lia. Qed.
Lemma add_u64_wraps a b : is_u64 a -> is_u64 b -> add_u64 a b = wrap_u64 (a + b).
Proof.
  unfold is_u64, add_u64. intros. destruct (Z.leb_spec (a + b) u64_max); [|done]. rewrite wrap_u64_small; [done|]. unfold is_u64. lia.
Qed.

(** ** The order *)

(** [PlutusAddress]. *)
Record PlutusAddress := mkPlutusAddress { pa_payment : Credential; pa_stake : option Credential }.

Record LimitOrder := mkLimit {
  lo_beacon : bytes;
  lo_input_asset : AssetClass;
  lo_input_amount : Z;
  lo_output_asset : AssetClass;
  lo_output_amount : Z;
  lo_base_price : RelativePrice;
  lo_fee_asset : AssetClass;
  lo_execution_budget : Z;
  lo_fee : Z;
  lo_max_cost_per_ex_step : Z;
  lo_min_marginal_output : Z;
  lo_redeemer_address : PlutusAddress;
  lo_cancellation_pkh : bytes;
  lo_requires_executor_sig : bool;
  lo_marginal_cost : ExUnits;
  lo_virgin : bool;
}.

(** The mutable amounts of an order. *)
Definition set_amounts (o : LimitOrder) (input output budget fee : Z) : LimitOrder :=
  mkLimit (lo_beacon o) (lo_input_asset o) input (lo_output_asset o) output (lo_base_price o) (lo_fee_asset o) budget fee
    (lo_max_cost_per_ex_step o) (lo_min_marginal_output o) (lo_redeemer_address o) (lo_cancellation_pkh o)
    (lo_requires_executor_sig o) (lo_marginal_cost o) (lo_virgin o).

Definition limit_terminal (o : LimitOrder) : TerminalTake :=
  mkTerminalTake (lo_input_amount o) (lo_output_amount o) (lo_execution_budget o) (lo_fee o).

Definition limit_applied_trade (o : LimitOrder) (removed_input added_output : Z) : Next LimitOrder TerminalTake :=
  let o := set_amounts o (sub_u64 (lo_input_amount o) removed_input) (add_u64 (lo_output_amount o) added_output)
             (lo_execution_budget o) (lo_fee o) in
  if (lo_input_amount o =? 0)%Z then Term (limit_terminal o) else Succ o.

Definition limit_budget_corrected (o : LimitOrder) (delta : Z) : Z * LimitOrder :=
  let budget_remainder := u64_as_i64 (lo_execution_budget o) in
  let corrected_remainder := wrap_i64 (budget_remainder + delta) in
  let updated_budget_remainder := Z.max corrected_remainder 0 in
  let real_delta := wrap_i64 (updated_budget_remainder - budget_remainder) in
  (real_delta, set_amounts o (lo_input_amount o) (lo_output_amount o) (i64_as_u64 updated_budget_remainder) (lo_fee o)).

Definition limit_fee_charged (o : LimitOrder) (fee : Z) : LimitOrder :=
  set_amounts o (lo_input_amount o) (lo_output_amount o) (lo_execution_budget o) (sub_u64 (lo_fee o) fee).
Definition limit_output_added (o : LimitOrder) (added_output : Z) : LimitOrder :=
  set_amounts o (lo_input_amount o) (add_u64 (lo_output_amount o) added_output) (lo_execution_budget o) (lo_fee o).

Definition limit_try_terminate (o : LimitOrder) : Next LimitOrder TerminalTake :=
  if (lo_execution_budget o <? lo_max_cost_per_ex_step o)%Z then Term (limit_terminal o) else Succ o.

#[export] Instance limit_behaviour : TakerBehaviour LimitOrder := {|
  with_updated_time := fun o _ => Succ o;
  with_applied_trade := limit_applied_trade;
  with_budget_corrected := limit_budget_corrected;
  with_fee_charged := limit_fee_charged;
  with_output_added := limit_output_added;
  try_terminate := limit_try_terminate;
|}.

Definition limit_side (o : LimitOrder) : Side := side_of (lo_input_asset o) (lo_output_asset o).

(** [saturating_mul], [checked_div], [unwrap_or(0)]. *)
Definition limit_operator_fee (o : LimitOrder) (input_consumed : Z) : Z :=
  if (lo_input_amount o =? 0)%Z then 0%Z else (Z.min (lo_fee o * input_consumed) u64_max / lo_input_amount o)%Z.

#[export] Instance limit_taker `{RatioLib} : MarketTaker LimitOrder ExUnits := {|
  taker_side := limit_side;
  taker_input := lo_input_amount;
  taker_output := lo_output_amount;
  taker_price := fun o => from_price (limit_side o) (lo_base_price o);
  operator_fee := limit_operator_fee;
  taker_fee := lo_fee;
  budget := lo_execution_budget;
  consumable_budget := lo_max_cost_per_ex_step;
  taker_marginal_cost_hint := lo_marginal_cost;
  min_marginal_output := lo_min_marginal_output;
  time_bounds := fun _ => Unbounded;
|}.

Definition limit_token (o : LimitOrder) : Token := mkToken (lo_beacon o) (mkAssetName 0 (replicate 32 x00)).
#[export] Instance limit_stable : Stable LimitOrder Token := limit_token.
#[export] Instance limit_pair : Tradable LimitOrder (AssetClass * AssetClass) :=
  fun o => order_canonical (lo_input_asset o) (lo_output_asset o).

(** [Ord] on [ExUnits] and on weights: the cheaper of two equal fees is the
    greater. *)
Definition ex_units_cmp (a b : ExUnits) : comparison := lex (mem a ?= mem b)%Z (steps a ?= steps b)%Z.
Definition weight_cmp (a b : OrderWeight ExUnits) : comparison :=
  lex (weight_fee a ?= weight_fee b)%Z (CompOpp (ex_units_cmp (weight_cost a) (weight_cost b))).

(** [Ord]: the better price, then the smaller weight, then the identity. *)
Definition limit_cmp `{RatioLib} (a b : LimitOrder) : comparison :=
  let by_price := ratio_cmp (taker_price a) (taker_price b) in
  let by_price := match taker_side a with Bid => CompOpp by_price | Ask => by_price end in
  lex by_price (lex (weight_cmp (LbState.weight a) (LbState.weight b)) (token_cmp (limit_token a) (limit_token b))).

(** ** The datum *)

Section Datum.
Context `{BU : BigUintLib} `{BU128 : BigU128Lib}.

Record Datum := mkDatum {
  dt_beacon : bytes;
  dt_input : AssetClass;
  dt_tradable_input : Z;
  dt_cost_per_ex_step : Z;
  dt_min_marginal_output : Z;
  dt_output : AssetClass;
  dt_base_price : RelativePrice;
  dt_fee : Z;
  dt_redeemer_address : PlutusAddress;
  dt_cancellation_pkh : bytes;
  dt_permitted_executors : list bytes;
}.

Definition into_u128 (d : PlutusData) : option Z := match d with PdInteger z => as_u128 z | _ => None end.

Definition ratio_try_from_pd (data : PlutusData) : option Ratio :=
  cpd ← into_constr_pd data;
  '(den, cpd) ← take_field cpd 1;
  den ← into_u128 den;
  if (den =? 0)%Z then None
  else '(num, _) ← take_field cpd 0; num ← into_u128 num; Some (mkRatio num den).

Definition option_try_from_pd {A} (f : PlutusData -> option A) (data : PlutusData) : option (option A) :=
  cpd ← into_constr_pd data;
  if (alternative cpd =? 0)%Z then '(x, _) ← take_field cpd 0; x ← f x; Some (Some x)
  else if (alternative cpd =? 1)%Z then Some None
  else None.

Definition plutus_address_try_from_pd (data : PlutusData) : option PlutusAddress :=
  cpd ← into_constr_pd data;
  '(payment, cpd) ← take_field cpd 0;
  payment ← cred_try_from_pd payment;
  '(stake, _) ← take_field cpd 1;
  stake ← option_try_from_pd inline_try_from_pd stake;
  Some (mkPlutusAddress payment stake).

(** [DATUM_MAPPING]: fields 1 to 11. *)
Definition datum_try_from_pd (data : PlutusData) : option Datum :=
  cpd ← into_constr_pd data;
  '(f, cpd) ← take_field cpd 1; f ← into_bytes f; beacon ← try_array 28 f;
  '(f, cpd) ← take_field cpd 2; input ← asset_try_from_pd f;
  '(f, cpd) ← take_field cpd 3; tradable_input ← into_u64 f;
  '(f, cpd) ← take_field cpd 4; cost_per_ex_step ← into_u64 f;
  '(f, cpd) ← take_field cpd 5; min_marginal ← into_u64 f;
  '(f, cpd) ← take_field cpd 6; output ← asset_try_from_pd f;
  '(f, cpd) ← take_field cpd 7; base_price ← ratio_try_from_pd f;
  '(f, cpd) ← take_field cpd 8; fee ← into_u64 f;
  '(f, cpd) ← take_field cpd 9; redeemer ← plutus_address_try_from_pd f;
  '(f, cpd) ← take_field cpd 10; f ← into_bytes f; pkh ← try_array 28 f;
  '(f, _) ← take_field cpd 11; executors ← into_vec f;
  Some (mkDatum beacon input tradable_input cost_per_ex_step min_marginal output base_price fee redeemer pkh
          (omap (fun pd => into_bytes pd ≫= try_array 28) executors)).

Definition unsafe_update_datum (data : PlutusData) (tradable_input fee : Z) : panics PlutusData :=
  match into_constr_pd data with
  | Some cpd =>
    cpd ← set_field cpd 3 (int_into_pd tradable_input);
    cpd ← set_field cpd 8 (int_into_pd fee);
    Ok (PdConstr (alternative cpd) (fields cpd))
  | None => Panic
  end.

Definition with_erased_beacon_unsafe (data : PlutusData) (index : nat) : panics PlutusData :=
  match into_constr_pd data with
  | Some cpd => cpd ← set_field cpd index (bytes_into_pd (replicate 28 x00)); Ok (PdConstr (alternative cpd) (fields cpd))
  | None => Panic
  end.

(** ** The order in an output *)

Context `{RL : RatioLib} `{BH : Blake224} `{CL : CborLib}.

Definition beacon_from_oref (some_input_oref : OutputRef) (datum_hash : bytes) (order_index : Z) : bytes :=
  blake2b224 (some_input_oref.1 ++ to_be_bytes 8 some_input_oref.2 ++ to_be_bytes 8 order_index ++ datum_hash).

Definition MIN_LOVELACE : Z := 1500000.
Definition MAX_PRICE_DENOM : Z := 1125899906842624.

Inductive OrderState := NewOrder | Subsequent.

Record LimitOrderValidation := mkLimitValidation { min_cost_per_ex_step : Z; min_fee_lovelace : Z }.

Record LimitContext := mkLimitContext {
  lc_script : ScriptInfo;
  lc_operator : bytes;
  lc_validation : LimitOrderValidation;
  lc_output_ref : OutputRef;
  lc_consumed_inputs : list OutputRef;
  lc_consumed_identifiers : list Token;
}.

(** A datum that was parsed has the field that is erased. *)
Definition order_state (beacon : bytes) (datum : PlutusData) (beacon_index : nat) (c : LimitContext) : option OrderState :=
  match with_erased_beacon_unsafe datum beacon_index with
  | Ok without_beacon =>
    let datum_hash := blake2b224 (pd_to_cbor without_beacon) in
    let fresh o := beacon_from_oref o datum_hash (lc_output_ref c).2 = beacon in
    let consumed_beacons := length (filter (fun t => policy t = beacon) (lc_consumed_identifiers c)) in
    if consumed_beacons =? 1 then Some Subsequent
    else if bool_decide (Exists fresh (lc_consumed_inputs c)) && bool_decide (lc_consumed_identifiers c = []) then Some NewOrder
    else None
  | _ => None
  end.

(** [linear_output_relative] with [U256], [checked_div] and [u64::try_from]. *)
Definition linear_output_relative (input : Z) (price : RelativePrice) : option Z :=
  if (denom price =? 0)%Z then None
  else let out := (input * numer price / denom price)%Z in if (out <=? u64_max)%Z then Some out else None.

Definition harden_price (p : RelativePrice) (input : Z) : RelativePrice :=
  let amount := wrap_u128 (input * numer p) in
  let min_output := (amount / denom p + (if amount mod denom p =? 0 then 0 else 1))%Z in
  if (0 <? min_output)%Z then ratio_new min_output input else ratio_new 1 MAX_PRICE_DENOM.

(** Lovelace that is neither fee nor budget. *)
Definition reserved_and_tradable (conf : Datum) : Z * Z :=
  match dt_input conf, dt_output conf with
  | Native, _ => (MIN_LOVELACE, dt_tradable_input conf)
  | _, Native => (0, 0)%Z
  | _, _ => (MIN_LOVELACE, 0%Z)
  end.

Definition executable (conf : Datum) (operator : bytes) : bool :=
  bool_decide (dt_permitted_executors conf = []) || bool_decide (operator ∈ dt_permitted_executors conf).

Definition sufficient_fee (conf : Datum) (v : LimitOrderValidation) (st : option OrderState) : bool :=
  match st with Some Subsequent => true | _ => (min_fee_lovelace v <=? dt_fee conf)%Z end.

(** The order made of its configuration. *)
Definition order_of_datum (conf : Datum) (script : ScriptInfo) (output execution_budget min_marginal : Z) (virgin : bool) : LimitOrder :=
  mkLimit (dt_beacon conf) (dt_input conf) (dt_tradable_input conf) (dt_output conf) output
    (harden_price (dt_base_price conf) (dt_tradable_input conf)) Native execution_budget (dt_fee conf)
    (dt_cost_per_ex_step conf) min_marginal (dt_redeemer_address conf) (dt_cancellation_pkh conf)
    (negb (bool_decide (dt_permitted_executors conf = []))) (info_marginal_cost script) virgin.

Definition limit_try_from_ledger (c : LimitContext) (o : TransactionOutput) : option LimitOrder :=
  if negb (test_address (script_hash (lc_script c)) o) then None
  else
    let value := out_value o in
    datum ← out_datum o;
    conf ← datum_try_from_pd datum;
    total_input_asset_amount ← amount_of value (dt_input conf);
    total_ada_input ← amount_of value Native;
    let '(reserved_lovelace, tradable_lovelace) := reserved_and_tradable conf in
    lov ← checked_sub total_ada_input reserved_lovelace;
    lov ← checked_sub lov (dt_fee conf);
    execution_budget ← checked_sub lov tradable_lovelace;
    base_output ← linear_output_relative (dt_tradable_input conf) (dt_base_price conf);
    let min_marginal := Z.min (dt_min_marginal_output conf) base_output in
    steps_possible ← checked_div base_output min_marginal;
    steps_available ← checked_div execution_budget (dt_cost_per_ex_step conf);
    let st := order_state (dt_beacon conf) datum 1 c in
    if ((dt_tradable_input conf <=? total_input_asset_amount) && (steps_possible <=? steps_available) &&
        sufficient_fee conf (lc_validation c) st && executable conf (lc_operator c) &&
        ((min_cost_per_ex_step (lc_validation c) <=? dt_cost_per_ex_step conf) && (dt_cost_per_ex_step conf <=? execution_budget)))%Z
    then
      st ← st;
      Some (order_of_datum conf (lc_script c) (default 0%Z (amount_of value (dt_output conf))) execution_budget min_marginal
              match st with NewOrder => true | Subsequent => false end)
    else None.

End Datum.

(** ** The execution of a fill *)

(** [BaseAddress::new] and [EnterpriseAddress::new]. *)
Class AddressLib := {
  base_address : Z -> Credential -> Credential -> Address;
  enterprise_address : Z -> Credential -> Address;
}.

Definition to_address `{AddressLib} (a : PlutusAddress) (network_id : Z) : Address :=
  match pa_stake a with
  | Some stake_cred => base_address network_id (pa_payment a) stake_cred
  | None => enterprise_address network_id (pa_payment a)
  end.

Record LimitExecContext := mkLimitExec {
  le_network_id : Z;
  le_operator : bytes;
  le_order : DeployedValidatorErased;
  le_witness : DeployedValidatorErased;
}.

Definition EXEC_REDEEMER : PlutusData := PdConstr 1 [].

Section Exec.
Context `{RL : RatioLib} `{VL : ValueLib} `{AL : AddressLib}.

Notation LimitTake := (Trans (LimitOrder * FinalizedTxOut) LimitOrder TerminalTake).

(** The value of the order's output after the fill. *)
Definition filled_value (v : Value) (ord : LimitOrder) (removed added budget fee : Z) : panics Value :=
  v ← sub_asset v (lo_fee_asset ord) (add_u64 budget fee);
  v ← sub_asset v (lo_input_asset ord) removed;
  add_asset v (lo_output_asset ord) added.

Definition limit_exec (trans : LimitTake) (state : ExecutionState) (c : LimitExecContext)
    : panics (ExecutionState * EffectPreview LimitOrder * LimitExecContext) :=
  removed ← linked_removed_input trans;
  added ← linked_added_output trans;
  consumed_bdg ← consumed_budget trans;
  fee ← consumed_fee trans;
  let '(ord, bearer) := target trans in
  let consumed_out := fin_output bearer in
  let in_ref := reference bearer in
  let v := le_order c in
  let input := mkScriptInput in_ref consumed_out (dv_hash v) (ReadyCost (dv_ex_budget v)) (ReadyRedeemer EXEC_REDEEMER)
                 (if lo_requires_executor_sig ord then [le_operator c] else []) in
  value ← filled_value (out_value consumed_out) ord removed added consumed_bdg fee;
  '(residual_order, effect) ←
    match result trans with
    | Succ next =>
      datum ← match out_datum consumed_out with
              | Some d => d ← unsafe_update_datum d (lo_input_amount next) (lo_fee next); Ok (Some d)
              | None => Ok None
              end;
      let candidate := mkTxOut (out_address consumed_out) value datum (out_script_ref consumed_out) in
      Ok (candidate, EffUpdated (mkBundled ord bearer) (mkBundled next candidate))
    | Term _ =>
      Ok (mkTxOut (to_address (lo_redeemer_address ord) (le_network_id c)) value None (out_script_ref consumed_out),
          EffEliminated (mkBundled ord bearer))
    end;
  let state := add_operator_interest (add_tx_fee state consumed_bdg) fee in
  let b := add_witness (tx_blueprint state) (le_witness c) (PdList []) in
  let b := add_io b input residual_order in
  let b := add_ref_input b (ref_input v) (ref_output v) in
  Ok (set_blueprint state b, effect, c).

#[export] Instance limit_batch_exec : BatchExec LimitTake (EffectPreview LimitOrder) LimitExecContext := limit_exec.

End Exec.

(** ** What the book relies on *)

Section Laws.
Context `{RL : RatioLib}.

#[export] Instance limit_trade_laws : TakerTradeLaws LimitOrder ExUnits.
Proof.
  split; intros t r removed added Hr Ha Hm; cbn in *; unfold limit_applied_trade, sub_u64, add_u64;
    (destruct (Z.leb_spec removed (lo_input_amount t)); [|lia]); (destruct (Z.leb_spec (lo_output_amount t + added) u64_max); [|lia]);
    cbn; destruct (_ =? _)%Z; try done; by intros [= <-].
Qed.

#[export] Instance limit_final_laws : TakerFinalLaws LimitOrder ExUnits.
Proof.
  split; cbn.
  - intros t added Ha Hm. unfold add_u64. destruct (Z.leb_spec (lo_output_amount t + added) u64_max); [done|lia].
  - done.
  - done.
  - intros t. unfold limit_try_terminate. by destruct (_ <? _)%Z.
Qed.

#[export] Instance limit_stable_laws : TakerStableLaws LimitOrder ExUnits Token.
Proof. intros t t' removed added. cbn. unfold limit_applied_trade. destruct (_ =? _)%Z; [done|]. by intros [= <-]. Qed.

End Laws.
