(* ===== verification/LimitOrderProofs.v ===== *)
(** * A filled limit order reads back

    Theorems about [LimitOrder.v]: the output that a partial fill leaves is read
    from the ledger as the order the book predicted, with its price hardened
    anew; for an order that buys ADA, what it has bought counts as budget. *)

From stdpp Require Import base gmap list.
From Stdlib Require Import ZArith Lia Strings.Byte.
From S2P Require Import Prelude Mpf LbTypes Assets PlutusData Intention GreenOrder LbCore LbCoreProofs AccountStore.
From S2P Require Import AccountIndex RoyaltyPool LbState LbGreen Containers Redeemers TxBlueprint StateIndex Engine Interpreter.
From S2P Require Import GreenExec RoyaltyDatum RoyaltyDatumProofs Graduation EventSink LimitOrder.

#[local] Notation delete := base.delete.
#[local] Notation insert := base.insert.

(** An asset in a datum is well formed. *)
Lemma asset_parsed_wf d a : asset_try_from_pd d = Some a -> asset_wf a.
Proof.
  unfold asset_try_from_pd. destruct (into_constr_pd d) as [cpd|]; [|done]. cbn [mbind option_bind].
  destruct (take_field cpd 0) as [[f cpd']|]; [|done]. cbn [mbind option_bind]. destruct (into_bytes f) as [bs|]; [|done].
  cbn [mbind option_bind]. case_bool_decide; [by intros [= <-]|]. unfold try_array.
  destruct (Nat.eqb_spec (length bs) 28); [|done]. cbn [mbind option_bind]. destruct (take_field cpd' 1) as [[g ?]|]; [|done].
  cbn [mbind option_bind]. destruct (into_bytes g) as [n|]; [|done]. cbn [mbind option_bind].
  destruct (asset_name_try_from n) as [an|] eqn:E; [|done]. intros [= <-]. split; [done|]. by eapply asset_name_try_from_wf.
Qed.

Section Datum.
Context `{BU : BigUintLib} `{BUL : !BigUintLaws} `{BU128 : BigU128Lib}.

(** The fields in the datum of an order. *)
Record datum_fields (fs : list PlutusData) (conf : Datum) : Prop := {
  df_1 : exists d bs, fs !! 1 = Some d /\ into_bytes d = Some bs /\ try_array 28 bs = Some (dt_beacon conf);
  df_2 : exists d, fs !! 2 = Some d /\ asset_try_from_pd d = Some (dt_input conf);
  df_3 : exists d, fs !! 3 = Some d /\ into_u64 d = Some (dt_tradable_input conf);
  df_4 : exists d, fs !! 4 = Some d /\ into_u64 d = Some (dt_cost_per_ex_step conf);
  df_5 : exists d, fs !! 5 = Some d /\ into_u64 d = Some (dt_min_marginal_output conf);
  df_6 : exists d, fs !! 6 = Some d /\ asset_try_from_pd d = Some (dt_output conf);
  df_7 : exists d, fs !! 7 = Some d /\ ratio_try_from_pd d = Some (dt_base_price conf);
  df_8 : exists d, fs !! 8 = Some d /\ into_u64 d = Some (dt_fee conf);
  df_9 : exists d, fs !! 9 = Some d /\ plutus_address_try_from_pd d = Some (dt_redeemer_address conf);
  df_10 : exists d bs, fs !! 10 = Some d /\ into_bytes d = Some bs /\ try_array 28 bs = Some (dt_cancellation_pkh conf);
  df_11 : exists d l, fs !! 11 = Some d /\ into_vec d = Some l /\
    dt_permitted_executors conf = omap (fun pd => into_bytes pd ≫= try_array 28) l;
}.

Lemma datum_fields_of data conf : datum_try_from_pd data = Some conf ->
  exists alt fs, data = PdConstr alt fs /\ datum_fields fs conf.
Proof.
  unfold datum_try_from_pd. destruct data as [alt fs| | | |]; try done. cbn [into_constr_pd mbind option_bind].
  unfold take_field.
  read_field fs 1. read_as (into_bytes d). read_as (try_array 28 x). read_field fs 2. read_as (asset_try_from_pd d0).
  read_field fs 3. read_as (into_u64 d1). read_field fs 4. read_as (into_u64 d2). read_field fs 5. read_as (into_u64 d3).
  read_field fs 6. read_as (asset_try_from_pd d4). read_field fs 7. read_as (ratio_try_from_pd d5).
  read_field fs 8. read_as (into_u64 d6). read_field fs 9. read_as (plutus_address_try_from_pd d7).
  read_field fs 10. read_as (into_bytes d8). read_as (try_array 28 x9). read_field fs 11. read_as (into_vec d9).
  intros [= <-]. exists alt, fs. split; [done|]. split; cbn; eauto 6.
Qed.

Lemma datum_of_fields alt fs conf : datum_fields fs conf -> datum_try_from_pd (PdConstr alt fs) = Some conf.
Proof.
  intros [(d1 & b1 & E1 & P1 & Q1) (d2 & E2 & P2) (d3 & E3 & P3) (d4 & E4 & P4) (d5 & E5 & P5) (d6 & E6 & P6) (d7 & E7 & P7)
    (d8 & E8 & P8) (d9 & E9 & P9) (d10 & b10 & E10 & P10 & Q10) (d11 & l & E11 & P11 & Q11)].
  unfold datum_try_from_pd. cbn [into_constr_pd mbind option_bind]. unfold take_field.
  put_field E1 P1. rewrite Q1. cbn [mbind option_bind]. put_field E2 P2. put_field E3 P3. put_field E4 P4. put_field E5 P5.
  put_field E6 P6. put_field E7 P7. put_field E8 P8. put_field E9 P9. put_field E10 P10. rewrite Q10. cbn [mbind option_bind].
  put_field E11 P11. rewrite <- Q11. by destruct conf.
Qed.

(** The configuration after a fill. *)
Definition filled_datum (conf : Datum) (tradable_input fee : Z) : Datum :=
  mkDatum (dt_beacon conf) (dt_input conf) tradable_input (dt_cost_per_ex_step conf) (dt_min_marginal_output conf)
    (dt_output conf) (dt_base_price conf) fee (dt_redeemer_address conf) (dt_cancellation_pkh conf) (dt_permitted_executors conf).

Lemma update_datum data conf input fee : datum_try_from_pd data = Some conf -> is_u64 input -> is_u64 fee ->
  exists data', unsafe_update_datum data input fee = Ok data' /\ datum_try_from_pd data' = Some (filled_datum conf input fee).
Proof.
  intros (alt & fs & -> & Hc)%datum_fields_of Hi Hf.
  assert (11 < length fs) as Hlen by (destruct (df_11 _ _ Hc) as (d & l & Hd & _); by eapply lookup_lt_Some).
  unfold unsafe_update_datum. cbn [into_constr_pd]. rewrite set_field_Ok by lia. cbn [mbind outcome_bind].
  rewrite set_field_Ok by (rewrite length_insert; lia). cbn [mbind outcome_bind alternative fields].
  eexists. split; [reflexivity|]. apply datum_of_fields. destruct Hc as [H1 H2 _ H4 H5 H6 H7 _ H9 H10 H11].
  split; cbn [filled_datum dt_beacon dt_input dt_tradable_input dt_cost_per_ex_step dt_min_marginal_output dt_output
    dt_base_price dt_fee dt_redeemer_address dt_cancellation_pkh dt_permitted_executors];
    repeat rewrite list_lookup_insert_ne by done; try done;
    rewrite list_lookup_insert_eq by (rewrite ?length_insert; lia); eexists; (split; [reflexivity|by apply into_u64_int]).
Qed.

(** ** The guards of the reader *)

Context `{RL : RatioLib} `{BH : Blake224} `{CL : CborLib}.

(** The steps the budget pays for: the least output of a step. *)
Definition affordable (conf : Datum) (execution_budget : Z) : option Z :=
  base_output ← linear_output_relative (dt_tradable_input conf) (dt_base_price conf);
  let min_marginal := Z.min (dt_min_marginal_output conf) base_output in
  steps_possible ← checked_div base_output min_marginal;
  steps_available ← checked_div execution_budget (dt_cost_per_ex_step conf);
  if (steps_possible <=? steps_available)%Z && (dt_cost_per_ex_step conf <=? execution_budget)%Z then Some min_marginal else None.

(** Lovelace that is not budget. *)
Definition committed (conf : Datum) : Z := let '(r, t) := reserved_and_tradable conf in (r + dt_fee conf + t)%Z.

Record reads_limit (c : LimitContext) (o : TransactionOutput) (d : PlutusData) (conf : Datum) (m : Z) (st : OrderState) : Prop := {
  rl_address : test_address (script_hash (lc_script c)) o = true;
  rl_datum : out_datum o = Some d;
  rl_conf : datum_try_from_pd d = Some conf;
  rl_input : exists x, amount_of (out_value o) (dt_input conf) = Some x /\ (dt_tradable_input conf <= x)%Z;
  rl_committed : (committed conf <= coin (out_value o))%Z;
  rl_affordable : affordable conf (coin (out_value o) - committed conf) = Some m;
  rl_state : order_state (dt_beacon conf) d 1 c = Some st;
  rl_fee : sufficient_fee conf (lc_validation c) (Some st) = true;
  rl_executable : executable conf (lc_operator c) = true;
  rl_cost : (min_cost_per_ex_step (lc_validation c) <= dt_cost_per_ex_step conf)%Z;
}.

Definition limit_read (c : LimitContext) (o : TransactionOutput) (conf : Datum) (m : Z) (st : OrderState) : LimitOrder :=
  order_of_datum conf (lc_script c) (amount (out_value o) (dt_output conf)) (coin (out_value o) - committed conf) m
    match st with NewOrder => true | Subsequent => false end.

Lemma datum_u64 d conf : datum_try_from_pd d = Some conf ->
  is_u64 (dt_tradable_input conf) /\ is_u64 (dt_fee conf) /\ is_u64 (dt_cost_per_ex_step conf) /\ is_u64 (dt_min_marginal_output conf).
Proof.
  intros (alt & fs & -> & [_ _ (d3 & _ & H3) (d4 & _ & H4) (d5 & _ & H5) _ _ (d8 & _ & H8) _ _ _])%datum_fields_of.
  repeat split; by eapply into_u64_range.
Qed.

Lemma datum_assets_wf d conf : datum_try_from_pd d = Some conf -> asset_wf (dt_input conf) /\ asset_wf (dt_output conf).
Proof.
  intros (alt & fs & -> & [_ (d2 & _ & H2) _ _ _ (d6 & _ & H6) _ _ _ _ _])%datum_fields_of. split; by eapply asset_parsed_wf.
Qed.

Lemma limit_reads c o ord : limit_try_from_ledger c o = Some ord <->
  exists d conf m st, reads_limit c o d conf m st /\ ord = limit_read c o conf m st.
Proof.
  unfold limit_try_from_ledger. split.
  - destruct (test_address _ o) eqn:Et; [|done]. cbn [negb]. destruct (out_datum o) as [d|] eqn:Ed; [|done]. cbn [mbind option_bind].
    destruct (datum_try_from_pd d) as [conf|] eqn:Ec; [|done]. cbn [mbind option_bind].
    destruct (amount_of (out_value o) (dt_input conf)) as [x|] eqn:Ex; [|done]. cbn [mbind option_bind amount_of].
    destruct (reserved_and_tradable conf) as [rs tr] eqn:Er. cbn [mbind option_bind].
    destruct (checked_sub _ rs) as [l1|] eqn:E1; [|done]. cbn [mbind option_bind]. apply checked_sub_inv in E1 as [? ->].
    destruct (checked_sub _ (dt_fee conf)) as [l2|] eqn:E2; [|done]. cbn [mbind option_bind]. apply checked_sub_inv in E2 as [? ->].
    destruct (checked_sub _ tr) as [bdg|] eqn:E3; [|done]. cbn [mbind option_bind]. apply checked_sub_inv in E3 as [? Hb].
    assert (bdg = coin (out_value o) - committed conf)%Z as -> by (unfold committed; rewrite Er; lia).
    destruct (linear_output_relative _ _) as [out|] eqn:Eo; [|done]. cbn [mbind option_bind].
    destruct (checked_div out _) as [sp|] eqn:Es; [|done]. cbn [mbind option_bind].
    destruct (checked_div _ (dt_cost_per_ex_step conf)) as [sa|] eqn:Ea; [|done]. cbn [mbind option_bind].
    destruct (_ && _) eqn:Eg; [|done]. rewrite !andb_true_iff, !Z.leb_le in Eg. destruct Eg as [[[[? ?] Hf] He] [? ?]].
    destruct (order_state _ _ _ _) as [st|] eqn:Est; [|done]. cbn [mbind option_bind]. intros [= <-].
    exists d, conf, (Z.min (dt_min_marginal_output conf) out), st. split; [|done]. split; try done; [by eauto| |].
    + unfold committed. rewrite Er. lia.
    + unfold affordable. rewrite Eo. cbn. rewrite Es. cbn. rewrite Ea. cbn.
      by rewrite (proj2 (Z.leb_le sp sa)), (proj2 (Z.leb_le _ _)) by done.
  - intros (d & conf & m & st & [Et Ed Ec (x & Ex & Hx) Hm Ha Est Hf He Hc] & ->).
    destruct (datum_u64 _ _ Ec) as (U1 & U2 & _). unfold is_u64 in U1, U2.
    rewrite Et, Ed. cbn [negb mbind option_bind]. rewrite Ec. cbn [mbind option_bind]. rewrite Ex. cbn [mbind option_bind amount_of].
    revert Hm Ha. unfold limit_read, committed. destruct (reserved_and_tradable conf) as [rs tr] eqn:Er.
    assert (0 <= rs /\ 0 <= tr)%Z.
    { revert Er. unfold reserved_and_tradable, MIN_LOVELACE. destruct (dt_input conf), (dt_output conf); intros [= <- <-]; lia. }
    intros Hm Ha. rewrite checked_sub_Some by lia. cbn [mbind option_bind]. rewrite checked_sub_Some by lia. cbn [mbind option_bind].
    rewrite checked_sub_Some by lia. cbn [mbind option_bind].
    replace (coin (out_value o) - rs - dt_fee conf - tr)%Z with (coin (out_value o) - (rs + dt_fee conf + tr))%Z by lia.
    revert Ha. unfold affordable. destruct (linear_output_relative _ _) as [out|]; [|done]. cbn [mbind option_bind].
    destruct (checked_div out _) as [sp|]; [|done]. cbn [mbind option_bind].
    destruct (checked_div _ (dt_cost_per_ex_step conf)) as [sa|]; [|done]. cbn [mbind option_bind].
    destruct (sp <=? sa)%Z; [|done]. destruct (dt_cost_per_ex_step conf <=? _)%Z; [|done]. intros [= <-].
    rewrite Est, Hf, He, (proj2 (Z.leb_le _ x) Hx), (proj2 (Z.leb_le _ _) Hc). done.
Qed.

(** A fill of at least the marginal output, that costs a step at most, leaves a
    budget for the steps that are left. *)
Lemma affordable_after_fill conf bdg m input fee bdg' out' :
  is_u64 (dt_cost_per_ex_step conf) -> is_u64 (dt_min_marginal_output conf) -> (0 <= bdg)%Z ->
  affordable conf bdg = Some m ->
  linear_output_relative input (dt_base_price conf) = Some out' -> (0 < out')%Z ->
  (forall out, linear_output_relative (dt_tradable_input conf) (dt_base_price conf) = Some out -> (out' + m <= out)%Z) ->
  (bdg - dt_cost_per_ex_step conf <= bdg')%Z -> (dt_cost_per_ex_step conf <= bdg')%Z ->
  affordable (filled_datum conf input fee) bdg' = Some (Z.min (dt_min_marginal_output conf) out').
Proof.
  unfold is_u64, affordable. intros Uc Um Hb Ha Eo' Hpos Hfill Hcost Hmin. cbn [filled_datum dt_tradable_input dt_base_price
    dt_min_marginal_output dt_cost_per_ex_step]. rewrite Eo'. cbn [mbind option_bind].
  destruct (linear_output_relative _ (dt_base_price conf)) as [out|]; [|done]. cbn [mbind option_bind] in Ha.
  specialize (Hfill out eq_refl). unfold checked_div in *.
  destruct (Z.eqb_spec (Z.min (dt_min_marginal_output conf) out) 0) as [|Hm]; [done|]. cbn [mbind option_bind] in Ha.
  destruct (Z.eqb_spec (dt_cost_per_ex_step conf) 0) as [|Hc]; [done|]. cbn [mbind option_bind] in Ha.
  destruct (Z.leb_spec (out / Z.min (dt_min_marginal_output conf) out) (bdg / dt_cost_per_ex_step conf)) as [Hle|]; [|done].
  destruct (dt_cost_per_ex_step conf <=? bdg)%Z; [|done]. injection Ha as <-.
  set (mm := dt_min_marginal_output conf) in *. set (k := dt_cost_per_ex_step conf) in *.
  assert (Z.min mm out = mm) as Emm by lia. rewrite Emm in *.
  destruct (Z.eqb_spec (Z.min mm out') 0); [lia|]. cbn [mbind option_bind]. rewrite (proj2 (Z.leb_le k bdg')) by done.
  rewrite (proj2 (Z.leb_le _ _)); [done|].
  assert (1 <= bdg' / k)%Z by (apply Z.div_le_lower_bound; lia).
  destruct (Z.le_gt_cases mm out') as [Hbig|Hsmall].
  - rewrite Z.min_l by lia. assert (out' / mm + 1 <= out / mm)%Z.
    { rewrite <- Z.div_add with (b := 1%Z) by lia. apply Z.div_le_mono; lia. }
    assert (bdg / k <= bdg' / k + 1)%Z; [|lia]. rewrite <- Z.div_add with (b := 1%Z) by lia. apply Z.div_le_mono; lia.
  - rewrite Z.min_r by lia. rewrite Z.div_same by lia. done.
Qed.
End Datum.

(** ** A fill and its output *)

Section Fill.
Context `{BU : BigUintLib} `{BUL : !BigUintLaws} `{BU128 : BigU128Lib} `{RL : RatioLib} `{BH : Blake224} `{CL : CborLib}.
Context `{VL : ValueLib} `{VLL : !ValueLaws} `{AL : AddressLib}.

(** The value of the output after a fill. *)
Lemma filled_value_amount v ord removed added bdg fee v' : filled_value v ord removed added bdg fee = Ok v' ->
  asset_wf (lo_fee_asset ord) -> asset_wf (lo_input_asset ord) -> asset_wf (lo_output_asset ord) ->
  forall a, asset_wf a -> amount v' a = (amount v a - (if decide (lo_fee_asset ord = a) then add_u64 bdg fee else 0)
    - (if decide (lo_input_asset ord = a) then removed else 0) + (if decide (lo_output_asset ord = a) then added else 0))%Z.
Proof.
  unfold filled_value, sub_asset, add_asset. intros E ? ? ? a ?.
  destruct (value_checked_sub v _) as [v1|] eqn:E1; [|done]. cbn [mbind outcome_bind] in E.
  destruct (value_checked_sub v1 _) as [v2|] eqn:E2; [|done]. cbn [mbind outcome_bind] in E.
  destruct (value_checked_add v2 _) as [v3|] eqn:E3; [|done]. injection E as <-.
  by rewrite (value_add_amount _ _ _ a E3), (value_sub_amount _ _ _ a E2), (value_sub_amount _ _ _ a E1), !into_value_amount by done.
Qed.

(** The output a partial fill leaves. *)
Lemma limit_exec_output (ord next : LimitOrder) bearer s ec s' eff ec' :
  limit_exec (mkTrans (ord, bearer) (Succ next)) s ec = Ok (s', eff, ec') ->
  exists o', eff = EffUpdated (mkBundled ord bearer) (mkBundled next o') /\
    out_address o' = out_address (fin_output bearer) /\
    (forall d, out_datum (fin_output bearer) = Some d ->
      exists d', unsafe_update_datum d (lo_input_amount next) (lo_fee next) = Ok d' /\ out_datum o' = Some d') /\
    (lo_input_amount next <= lo_input_amount ord /\ lo_output_amount ord <= lo_output_amount next /\
     lo_execution_budget next <= lo_execution_budget ord /\ lo_fee next <= lo_fee ord)%Z /\
    filled_value (out_value (fin_output bearer)) ord (lo_input_amount ord - lo_input_amount next)
      (lo_output_amount next - lo_output_amount ord) (lo_execution_budget ord - lo_execution_budget next)
      (lo_fee ord - lo_fee next) = Ok (out_value o').
Proof.
  unfold limit_exec, linked_removed_input, linked_added_output, consumed_budget, consumed_fee. cbn [target result fst snd
    rest_input rest_output rest_budget taker_input taker_output budget taker_fee limit_taker].
  destruct (checked_sub (lo_input_amount ord) _) as [removed|] eqn:E1; [|done]. apply checked_sub_inv in E1 as [? ->].
  destruct (checked_sub (lo_output_amount next) _) as [added|] eqn:E2; [|done]. apply checked_sub_inv in E2 as [? ->].
  destruct (checked_sub (lo_execution_budget ord) _) as [bdg|] eqn:E3; [|done]. apply checked_sub_inv in E3 as [? ->].
  destruct (checked_sub (lo_fee ord) _) as [fee|] eqn:E4; [|done]. apply checked_sub_inv in E4 as [? ->].
  cbn [mbind outcome_bind]. destruct (filled_value _ _ _ _ _ _) as [v| |] eqn:Ev; [|done..]. cbn [mbind outcome_bind].
  destruct (out_datum (fin_output bearer)) as [d|].
  - destruct (unsafe_update_datum d _ _) as [d'| |] eqn:Ed; [|done..]. cbn [mbind outcome_bind]. intros [= <- <- <-].
    eexists. split_and!; try done. intros ? [= <-]. by eexists.
  - cbn [mbind outcome_bind]. intros [= <- <- <-]. by eexists.
Qed.

(** The reader in the transaction that spends the order. *)
Definition seen_after (c : LimitContext) (oref : OutputRef) (inputs : list OutputRef) (ids : list Token) : LimitContext :=
  mkLimitContext (lc_script c) (lc_operator c) (lc_validation c) oref inputs ids.

Lemma order_state_subsequent d conf beacon c : datum_try_from_pd d = Some conf ->
  length (filter (fun t => policy t = beacon) (lc_consumed_identifiers c)) = 1 -> order_state beacon d 1 c = Some Subsequent.
Proof.
  intros (alt & fs & -> & [(x & bs & Hx & _) _ _ _ _ _ _ _ _ _ _])%datum_fields_of Hl. apply lookup_lt_Some in Hx.
  unfold order_state, with_erased_beacon_unsafe. cbn [into_constr_pd]. rewrite set_field_Ok by done. cbn [mbind outcome_bind].
  by rewrite Hl.
Qed.

(** What the committed lovelace is after a fill. *)
Lemma committed_filled conf input fee : dt_input conf <> dt_output conf ->
  committed (filled_datum conf input fee) = (committed conf - (dt_fee conf - fee) -
    (if decide (dt_input conf = Native) then dt_tradable_input conf - input else 0))%Z.
Proof.
  intros Hne. unfold committed, reserved_and_tradable. cbn [filled_datum dt_input dt_output dt_tradable_input dt_fee].
  destruct (dt_input conf); [rewrite decide_True by done; lia|]. rewrite decide_False by done. destruct (dt_output conf); lia.
Qed.

(** The amounts the book predicts for a fill of the order. *)
Record predicted (ord next : LimitOrder) : Prop := {
  pr_terms : next = set_amounts ord (lo_input_amount next) (lo_output_amount next) (lo_execution_budget next) (lo_fee next);
  pr_input : (0 < lo_input_amount next)%Z;
  pr_budget : (lo_max_cost_per_ex_step ord <= lo_execution_budget next)%Z;
  pr_cost : (lo_execution_budget ord - lo_max_cost_per_ex_step ord <= lo_execution_budget next)%Z;
  pr_fee : (0 <= lo_fee next)%Z;
}.

(** Of an order for ADA, what was bought adds to the budget that is read. *)
Definition read_budget (ord next : LimitOrder) : Z :=
  (lo_execution_budget next + if decide (lo_output_asset ord = Native) then lo_output_amount next - lo_output_amount ord else 0)%Z.
Definition read_output (ord next : LimitOrder) : Z :=
  (lo_output_amount next - if decide (lo_output_asset ord = Native)
                           then lo_execution_budget ord - lo_execution_budget next + (lo_fee ord - lo_fee next) else 0)%Z.

(** The amounts in the output of a fill, in the terms of the reader. *)
Lemma filled_amounts c o conf m st (next : LimitOrder) v' :
  let ord := limit_read c o conf m st in
  asset_wf (dt_input conf) -> asset_wf (dt_output conf) -> dt_input conf <> dt_output conf ->
  is_u64 (coin (out_value o)) -> (committed conf <= coin (out_value o))%Z -> (0 <= dt_tradable_input conf)%Z ->
  (0 <= lo_execution_budget next <= lo_execution_budget ord)%Z -> (0 <= lo_fee next <= lo_fee ord)%Z ->
  filled_value (out_value o) ord (lo_input_amount ord - lo_input_amount next) (lo_output_amount next - lo_output_amount ord)
    (lo_execution_budget ord - lo_execution_budget next) (lo_fee ord - lo_fee next) = Ok v' ->
  (coin v' = committed (filled_datum conf (lo_input_amount next) (lo_fee next)) + read_budget ord next)%Z /\
  (dt_tradable_input conf <= amount (out_value o) (dt_input conf) -> lo_input_amount next <= amount v' (dt_input conf))%Z /\
  amount v' (dt_output conf) = read_output ord next.
Proof.
  intros ord Wi Wo Hne Hc Hm Ht Hb Hf E. unfold is_u64 in Hc.
  assert (lo_fee_asset ord = Native /\ lo_input_asset ord = dt_input conf /\ lo_output_asset ord = dt_output conf /\
    lo_input_amount ord = dt_tradable_input conf /\ lo_output_amount ord = amount (out_value o) (dt_output conf) /\
    lo_execution_budget ord = coin (out_value o) - committed conf /\ lo_fee ord = dt_fee conf)%Z
    as (Ef & Ei & Eo & Ein & Eout & Eb & Efee) by done.
  assert (dt_fee conf <= committed conf)%Z as Hfc.
  { unfold committed, reserved_and_tradable, MIN_LOVELACE. destruct (dt_input conf), (dt_output conf); cbn; lia. }
  pose proof (filled_value_amount _ _ _ _ _ _ _ E I Wi Wo) as Ha.
  unfold read_budget, read_output. rewrite committed_filled by done.
  rewrite Ef, Ei, Eo in *. rewrite Ein, Eb, Efee, Eout in *.
  assert (add_u64 (coin (out_value o) - committed conf - lo_execution_budget next) (dt_fee conf - lo_fee next) =
    coin (out_value o) - committed conf - lo_execution_budget next + (dt_fee conf - lo_fee next))%Z as Es.
  { unfold add_u64. destruct (Z.leb_spec (coin (out_value o) - committed conf - lo_execution_budget next + (dt_fee conf - lo_fee next)) u64_max); [done|lia]. }
  rewrite Es in Ha. split_and!.
  - specialize (Ha Native I). change (amount v' Native) with (coin v') in Ha. rewrite Ha.
    change (amount (out_value o) Native) with (coin (out_value o)). rewrite decide_True by done.
    destruct (decide (dt_input conf = Native)), (decide (dt_output conf = Native)); try congruence; lia.
  - intros Hin. rewrite (Ha (dt_input conf) Wi). rewrite (decide_True (P := dt_input conf = _)) by done.
    rewrite (decide_False (P := dt_output conf = _)) by done. destruct (decide (Native = dt_input conf)) as [En|]; [|lia].
    rewrite <- En in *. change (amount (out_value o) Native) with (coin (out_value o)) in *.
    assert (committed conf = MIN_LOVELACE + dt_fee conf + dt_tradable_input conf)%Z; [|unfold MIN_LOVELACE in *; lia].
    unfold committed, reserved_and_tradable. by rewrite <- En.
  - rewrite (Ha (dt_output conf) Wo). rewrite (decide_True (P := dt_output conf = _)) by done.
    rewrite (decide_False (P := dt_input conf = _)) by done.
    destruct (decide (Native = dt_output conf)) as [<-|]; [rewrite decide_True by done; lia|rewrite decide_False by done; lia].
Qed.

End Fill.
