(* ===== verification/LimitOrderExamples.v ===== *)
(** * A limit order for ADA, filled

    The witness of the theorem of [LimitOrderProofs.v]: a million tokens are
    offered for ADA, and three fifths of them are sold. *)

From stdpp Require Import base gmap list.
From Stdlib Require Import ZArith Lia Strings.Byte.
From S2P Require Import Prelude Mpf LbTypes Assets PlutusData Intention GreenOrder LbCore LbCoreProofs AccountStore.
From S2P Require Import AccountIndex RoyaltyPool LbState LbGreen Containers Redeemers TxBlueprint StateIndex Engine Interpreter.
From S2P Require Import GreenExec RoyaltyDatum RoyaltyDatumProofs Graduation EventSink LimitOrder LimitOrderProofs.

#[local] Existing Instance exact_ratio.
#[local] Existing Instance pointwise_value.
#[local] Existing Instance pointwise_value_laws.

Module Sale.
#[local] Instance plain_cbor : CborLib := fun _ => [].
#[local] Instance plain_u64 : BigUintLib := fun z => if (0 <=? z)%Z && (z <=? u64_max)%Z then Some z else None.
#[local] Instance plain_u64_laws : BigUintLaws.
Proof.
  intros z w. unfold as_u64, plain_u64, is_u64.
  destruct (Z.leb_spec 0 z), (Z.leb_spec z u64_max); cbn; split; intros E; simplify_eq; try lia; try (by split); destruct E as [? ->]; done || lia.
Qed.
#[local] Instance plain_u128 : BigU128Lib := fun z => if (0 <=? z)%Z && (z <? 2 ^ 128)%Z then Some z else None.
#[local] Instance constant_hash : Blake224 := fun _ => replicate 28 x55.
#[local] Instance plain_address : AddressLib := {|
  base_address := fun _ p s => mkAddress (Some p) (Some s) [];
  enterprise_address := fun _ p => mkAddress (Some p) None [];
|}.

Definition beacon : bytes := replicate 28 x55.
Definition gold : Token := mkToken (replicate 28 x09) (mkAssetName 2 (replicate 32 x00)).
Definition script : ScriptInfo := mkScriptInfo (replicate 28 x3c) (mkExUnits 5 7).

Definition sale_datum : PlutusData :=
  PdConstr 0
    [PdBytes [x00]; PdBytes beacon; PdConstr 0 [PdBytes (policy gold); PdBytes (cml_name (asset_name gold))];
     PdInteger 1000000; PdInteger 300000; PdInteger 500000; PdConstr 0 [PdBytes []; PdBytes []];
     PdConstr 0 [PdInteger 2; PdInteger 1]; PdInteger 100000;
     PdConstr 0 [PdConstr 0 [PdBytes (replicate 28 x71)]; PdConstr 1 []]; PdBytes (replicate 28 x72); PdList []].
Definition sale_output : TransactionOutput :=
  mkTxOut (mkAddress (Some (ScriptCred (script_hash script))) None [])
    (mkValue 1300000 {[ policy gold := {[ cml_name (asset_name gold) := 1000000%Z ]} ]}) (Some sale_datum) None.
Definition sale_conf : Datum := default (mkDatum [] Native 0 0 0 Native (mkRatio 0 1) 0 (mkPlutusAddress (PubKeyCred []) None) [] [])
  (datum_try_from_pd sale_datum).

(** The reader sees the order's creation: its beacon is derived from an input. *)
Definition creation : LimitContext :=
  mkLimitContext script (replicate 28 x07) (mkLimitValidation 100000 50000) (replicate 32 x01, 0%Z) [(replicate 32 x02, 3%Z)] [].
Definition sale : LimitOrder :=
  default (mkLimit [] Native 0 Native 0 (mkRatio 0 1) Native 0 0 0 0 (mkPlutusAddress (PubKeyCred []) None) [] false (mkExUnits 0 0) false)
    (limit_try_from_ledger creation sale_output).
Definition sold : LimitOrder := set_amounts sale 400000 (lo_output_amount sale + 1200000) 950000 40000.

Definition executor : LimitExecContext :=
  let validator h := mkValidator (replicate 32 x30, 0%Z) sale_output h (mkExUnits 100 200) (mkExUnits 5 7) in
  mkLimitExec 1 (replicate 28 x07) (validator (script_hash script)) (validator (replicate 28 x3d)).
Definition sale_bearer : FinalizedTxOut := mkFinalized sale_output (replicate 32 x01, 0%Z).
#[local] Notation sale_exec := (limit_exec (mkTrans (sale, sale_bearer) (Succ sold)) execution_state_new executor).


(** The 1.2 ADA that were bought are budget when the order is read again. *)
Example bought_ada_is_budget : lo_execution_budget sold = 950000%Z /\ read_budget sale sold = 2150000%Z.
Proof. split; vm_compute; reflexivity. Qed.
End Sale.
