(* ===== verification/TxTracker.v ===== *)
(** * Submission, tracking and the mempool

    What happens to a transaction after it is built: its submission
    ([tx_submission.rs]), the tracker that waits for its confirmation
    ([tx_tracker/mod.rs], [tx_tracker/pending_txs.rs]) and the stream of mempool
    updates ([cardano-mempool-sync]).

    [Instant::now] is an argument of the operations that read it.  The two loops
    of the tracker run in one task and hold no lock over a suspension, so a step
    of the tracker takes one message of one of them. *)

From stdpp Require Import base gmap list sorting.
From Stdlib Require Import ZArith Lia Strings.Byte.
From S2P Require Import Prelude Mpf LbTypes LbCore AccountIndex Containers EventSink LimitOrder.

#[local] Notation delete := base.delete.
#[local] Notation insert := base.insert.

(** ** Pending transactions *)

Section Pending.
Context {H Tx : Type} `{Countable H} `{HO : !HashOrder H}.

(** [BTreeMap<u64, HashMap<..>>]: bindings in the order of their keys. *)
Notation Queue := (list (Z * gmap H (Tx * Z))).

Record PendingTxs := mkPending {
  max_confirmation_delay_blocks : Z;
  current_block : Z;
  pt_index : gmap H Z;
  pt_queue : Queue;
}.

Definition pending_new (max_confirmation_delay_blocks : Z) : PendingTxs := mkPending max_confirmation_delay_blocks 0 ∅ [].

(** [queue.entry(k)]: a vacant entry gets a map of its own. *)
Fixpoint queue_insert (k : Z) (tx : H) (v : Tx * Z) (q : Queue) : Queue :=
  match q with
  | [] => [(k, {[tx := v]})]
  | (k', txs) :: q' =>
    if (k <? k')%Z then (k, {[tx := v]}) :: q
    else if (k =? k')%Z then (k', <[tx := v]> txs) :: q'
    else (k', txs) :: queue_insert k tx v q'
  end.

Definition append (p : PendingTxs) (now : Z) (tx : H) (trs : Tx) : PendingTxs :=
  match pt_index p !! tx with
  | Some _ => p
  | None =>
    let should_confirm_until := wrap_u64 (current_block p + max_confirmation_delay_blocks p) in
    mkPending (max_confirmation_delay_blocks p) (current_block p) (<[tx := should_confirm_until]> (pt_index p))
      (queue_insert should_confirm_until tx (trs, now) (pt_queue p))
  end.

Definition queue_remove (k : Z) (tx : H) (q : Queue) : Queue :=
  (fun b => if (b.1 =? k)%Z then (b.1, delete tx b.2) else b) <$> q.

Definition confirm_tx (p : PendingTxs) (tx : H) : PendingTxs :=
  match pt_index p !! tx with
  | Some key =>
    mkPending (max_confirmation_delay_blocks p) (current_block p) (delete tx (pt_index p)) (queue_remove key tx (pt_queue p))
  | None => p
  end.

(** [BTreeMap<Reverse<Instant>, Tx>]: the latest instant first. *)
Fixpoint insert_reverse (instant : Z) (tx : Tx) (l : list (Z * Tx)) : list (Z * Tx) :=
  match l with
  | [] => [(instant, tx)]
  | (i, t) :: l' =>
    if (i <? instant)%Z then (instant, tx) :: l
    else if (i =? instant)%Z then (i, tx) :: l'
    else (i, t) :: insert_reverse instant tx l'
  end.

Definition fail_tx (acc : gmap H Z * list (Z * Tx)) (b : H * (Tx * Z)) : gmap H Z * list (Z * Tx) :=
  (delete b.1 acc.1, insert_reverse b.2.2 b.2.1 acc.2).

(** The loop over [queue.first_entry()]. *)
Fixpoint pop_due (new_block : Z) (q : Queue) (acc : gmap H Z * list (Z * Tx)) : Queue * (gmap H Z * list (Z * Tx)) :=
  match q with
  | (should_confirm_until, txs) :: q' =>
    if (should_confirm_until <=? new_block)%Z then pop_due new_block q' (foldl fail_tx acc (hash_iter txs)) else (q, acc)
  | [] => ([], acc)
  end.

Definition try_advance (p : PendingTxs) (new_block : Z) : PendingTxs * option (list Tx) :=
  if (current_block p <? new_block)%Z then
    let '(q, (ix, failed)) := pop_due new_block (pt_queue p) (pt_index p, []) in
    (mkPending (max_confirmation_delay_blocks p) new_block ix q, Some failed.*2)
  else (p, None).

(** ** The tracker *)

Context {R : Type} `{RB : RingLib R H}.

Record TxTrackerAgent := mkTracker { recent_txs : CircularFilter R H; pending_txs : PendingTxs }.

Definition new_tx_tracker (max_confirmation_delay_blocks : Z) : TxTrackerAgent :=
  mkTracker filter_new (pending_new max_confirmation_delay_blocks).

Definition process_incoming_tx (a : TxTrackerAgent) (now : Z) (tx : H) (trs : Tx) : TxTrackerAgent :=
  let already_confirmed := filter_contains (recent_txs a) tx in
  if negb already_confirmed then mkTracker (recent_txs a) (append (pending_txs a) now tx trs) else a.

(** The transactions are sent to [failed_txs]. *)
Definition process_confirmed_tx (a : TxTrackerAgent) (tx : H) (block : Z) : TxTrackerAgent * list Tx :=
  let recent := (filter_add (recent_txs a) tx).1 in
  let '(pending, advance_result) := try_advance (confirm_tx (pending_txs a) tx) block in
  (mkTracker recent pending, default [] advance_result).

Inductive TrackerMsg := Track (now : Z) (tx : H) (trs : Tx) | Confirmed (tx : H) (block : Z).

Definition tracker_step (a : TxTrackerAgent) (m : TrackerMsg) : TxTrackerAgent * list Tx :=
  match m with
  | Track now tx trs => (process_incoming_tx a now tx trs, [])
  | Confirmed tx block => process_confirmed_tx a tx block
  end.

Fixpoint tracker_run (a : TxTrackerAgent) (ms : list TrackerMsg) : TxTrackerAgent * list Tx :=
  match ms with
  | [] => (a, [])
  | m :: ms =>
    let '(a, failed) := tracker_step a m in
    let '(a, more) := tracker_run a ms in
    (a, failed ++ more)
  end.
End Pending.
Arguments PendingTxs H Tx {_ _}.
Arguments TxTrackerAgent H Tx {_ _} R.
Arguments TrackerMsg : clear implicits.

(** ** The mempool *)

Definition hash_tx_bytes `{Blake224} (tx : bytes) : bytes := blake2b224 tx.

Record MempoolProjection := mkProjection {
  prev_projection : gset bytes;
  current_projection : gset bytes;
  slot : Z;
}.
Definition projection_new : MempoolProjection := mkProjection ∅ ∅ 0.

Definition register (p : MempoolProjection) (tx : bytes) (sl : Z) : MempoolProjection * bool :=
  let p := if (slot p <? sl)%Z then mkProjection (current_projection p) ∅ sl else p in
  if bool_decide (tx ∈ prev_projection p) || bool_decide (tx ∈ current_projection p) then (p, true)
  else (mkProjection (prev_projection p) ({[tx]} ∪ current_projection p) (slot p), false).

Section Mempool.
Context {Tx : Type} `{B2 : Blake224}.
(** [Tx::from_cbor_bytes]. *)
Context (decode : bytes -> option Tx).

(** One snapshot of the mempool: [acquire] and the [query_next_tx]s until none
    is left. *)
Fixpoint query_txs (p : MempoolProjection) (seq_num : Z) (raw_txs : list bytes) : MempoolProjection * list Tx :=
  match raw_txs with
  | [] => (p, [])
  | raw :: rest =>
    let '(p, seen) := register p (hash_tx_bytes raw) seq_num in
    let '(p, more) := query_txs p seq_num rest in
    (p, (if seen then [] else match decode raw with Some tx => [tx] | None => [] end) ++ more)
  end.

(** The rounds of the stream; [None] is a round in which [acquire] fails. *)
Fixpoint stream_updates (p : MempoolProjection) (seq_num : Z) (rounds : list (option (list bytes))) : list (list Tx) :=
  match rounds with
  | [] => []
  | snapshot :: rounds =>
    let '(p, txs) := match snapshot with Some raw_txs => query_txs p seq_num raw_txs | None => (p, []) end in
    txs :: stream_updates p (wrap_u64 (seq_num + 1)) rounds
  end.
End Mempool.

(** [mempool_stream]: what is accepted is tracked, what the tracker gives up is
    dropped. *)
Definition mempool_accepted {H Tx} (canonical_hash : Tx -> H) (now : Z) (tx : Tx) : TrackerMsg H Tx * MempoolUpdate Tx :=
  (Track now (canonical_hash tx) tx, TxAccepted tx).
Definition mempool_failed {Tx} (failed : list Tx) : list (MempoolUpdate Tx) := TxDropped <$> failed.

(** ** Submission *)

(** The rejections of a node, as far as they are looked into. *)
Inductive UtxoFailure := BadInputsUTxO (inputs : list OutputRef) | OtherUtxoFailure.
Inductive ConwayLedgerFailure := UtxowFailure (f : UtxoFailure) | OtherLedgerFailure.
Inductive TxValidationError := ShelleyTxValidationError (error : list ConwayLedgerFailure) | ByronTxValidationError.

Inductive SubmissionResult := SubmitOk | TxRejected (errors : TxValidationError).
Inductive SubmitReply := Accepted | Rejected (errors : TxValidationError) | SubmitFailed | SubmitTimeout.

(** One message of the mailbox: what the submitter is told and what is tracked. *)
Definition submit_one {H Tx} (canonical_hash : Tx -> H) (now : Z) (tx : Tx) (reply : SubmitReply)
    : panics (SubmissionResult * list (TrackerMsg H Tx)) :=
  match reply with
  | Accepted => Ok (SubmitOk, [Track now (canonical_hash tx) tx])
  | Rejected errors => Ok (TxRejected errors, [])
  | SubmitFailed | SubmitTimeout => Panic
  end.

(** [TryFrom<TxRejection> for HashSet<OutputRef>]. *)
Definition missing_inputs (e : ConwayLedgerFailure) : list OutputRef :=
  match e with UtxowFailure (BadInputsUTxO inputs) => inputs | _ => [] end.
Definition missing_utxos (rejection : TxValidationError) : option (gset OutputRef) :=
  let missing := match rejection with
                 | ShelleyTxValidationError node_errors => list_to_set (node_errors ≫= missing_inputs)
                 | ByronTxValidationError => ∅
                 end in
  if bool_decide (missing = ∅) then None else Some missing.
