(* ===== verification/TxTrackerProofs.v ===== *)
(** * What the tracker promises

    Theorems about [TxTracker.v]: the tracker refines a list of transactions in
    the order of their submission, every tracked transaction is settled, and
    what the mempool stream reports. *)

From stdpp Require Import base gmap list sorting.
From Stdlib Require Import ZArith Lia Strings.Byte.
From S2P Require Import Prelude Mpf LbTypes LbCore AccountIndex Containers EventSink LimitOrder TxTracker.

#[local] Notation delete := base.delete.
#[local] Notation insert := base.insert.

Lemma StronglySorted_filter_fmap {A} (f : A -> Z) (P : A -> Prop) `{!forall x, Decision (P x)} l :
  StronglySorted Z.lt (f <$> l) -> StronglySorted Z.lt (f <$> filter P l).
Proof.
  induction l as [|x l IH]; intros Hs; [constructor|]. cbn [fmap list_fmap] in Hs. apply StronglySorted_inv in Hs as [Hs Hf].
  rewrite filter_cons. destruct (decide (P x)); [|by apply IH]. cbn [fmap list_fmap]. constructor; [by apply IH|].
  rewrite Forall_fmap, Forall_forall in Hf |- *. intros y [_ Hy]%list_elem_of_filter. by apply Hf.
Qed.

Lemma StronglySorted_lt_NoDup l : StronglySorted Z.lt l -> NoDup l.
Proof.
  induction 1 as [|k ks _ IH Hf]; constructor; [|done]. intros Hin. rewrite Forall_forall in Hf. specialize (Hf _ Hin). lia.
Qed.

Section Tracker.
Context {H Tx : Type} `{Countable H} `{HO : !HashOrder H} `{HL : !HashOrderLaws H}.

(** ** The queue *)

Notation Queue := (list (Z * gmap H (Tx * Z))).
Implicit Types (q : Queue).

Definition queue_has (q : Queue) (k : Z) (h : H) (v : Tx * Z) : Prop := exists txs, (k, txs) ∈ q /\ txs !! h = Some v.

Lemma queue_has_cons k0 txs0 q k h v :
  queue_has ((k0, txs0) :: q) k h v <-> (k = k0 /\ txs0 !! h = Some v) \/ queue_has q k h v.
Proof.
  unfold queue_has. split.
  - intros (txs & Hin & Hv). apply elem_of_cons in Hin as [[= -> ->]|Hin]; eauto.
  - intros [[-> Hv]|(txs & Hin & Hv)]; eexists; (split; [|done]); set_solver.
Qed.

Lemma queue_has_nil k h v : queue_has [] k h v <-> False.
Proof. split; [|done]. intros (? & Hin & _). by apply elem_of_nil in Hin. Qed.

Lemma queue_has_above q k h v k0 : Forall (Z.lt k0) q.*1 -> queue_has q k h v -> (k0 < k)%Z.
Proof. intros Hf (txs & Hin & _). rewrite Forall_forall in Hf. apply Hf. apply list_elem_of_fmap. by exists (k, txs). Qed.

Lemma queue_insert_keys k h v q : forall x, x ∈ (queue_insert k h v q).*1 -> x = k \/ x ∈ q.*1.
Proof.
  induction q as [|[k' txs] q IH]; cbn; [set_solver|]. intros x.
  destruct (k <? k')%Z; cbn; [set_solver|]. destruct (k =? k')%Z; cbn; [set_solver|]. rewrite !elem_of_cons. naive_solver.
Qed.

Lemma queue_insert_sorted k h v q : StronglySorted Z.lt q.*1 -> StronglySorted Z.lt (queue_insert k h v q).*1.
Proof.
  induction q as [|[k' txs] q IH]; cbn; intros Hs; [repeat constructor|]. apply StronglySorted_inv in Hs as [Hs Hf].
  destruct (Z.ltb_spec k k'); cbn.
  - constructor; [by constructor|]. constructor; [done|]. eapply Forall_impl; [exact Hf|]. cbn. intros. lia.
  - destruct (Z.eqb_spec k k'); cbn; [by constructor|]. constructor; [by apply IH|]. apply Forall_forall.
    intros x [->|Hx]%queue_insert_keys; [lia|]. by eapply (proj1 (Forall_forall _ _)) in Hf.
Qed.

Lemma queue_insert_has k h v q : StronglySorted Z.lt q.*1 -> forall k' h' v',
  queue_has (queue_insert k h v q) k' h' v' <-> (k' = k /\ h' = h /\ v' = v) \/ (queue_has q k' h' v' /\ ~ (k' = k /\ h' = h)).
Proof.
  intros Hs k' h' v'.
  assert (forall m : gmap H (Tx * Z), <[h := v]> m !! h' = Some v' <-> (h' = h /\ v' = v) \/ (m !! h' = Some v' /\ h' <> h)) as Hi.
  { intros m. rewrite lookup_insert_Some. split; [intros [[<- <-]|[? ?]]; auto|intros [[-> ->]|[? ?]]; auto]. }
  induction q as [|[k0 txs] q IH]; cbn.
  - rewrite queue_has_cons, queue_has_nil, <- insert_empty, Hi, lookup_empty. naive_solver.
  - apply StronglySorted_inv in Hs as [Hs Hf]. pose proof (queue_has_above q k' h' v' k0 Hf) as Ha.
    destruct (Z.ltb_spec k k0); [|destruct (Z.eqb_spec k k0) as [->|]]; rewrite !queue_has_cons.
    + rewrite <- insert_empty, Hi, lookup_empty. split; [intros [[-> [[-> ->]|[? _]]]|[[-> ?]|Hq]]|]; [naive_solver lia..|].
      naive_solver.
    + rewrite Hi. split; [|naive_solver]. intros [[-> [[-> ->]|[? ?]]]|Hq]; [naive_solver..|]. specialize (Ha Hq).
      right. split; [by right|]. intros [-> _]. lia.
    + rewrite (IH Hs). split; [|naive_solver lia]. intros [[-> ?]|[?|[? ?]]]; [right; naive_solver lia|naive_solver..].
Qed.

Lemma queue_remove_keys k h q : (queue_remove k h q).*1 = q.*1.
Proof. unfold queue_remove. rewrite <- list_fmap_compose. apply list_fmap_ext. intros i [k' txs] _. cbn. by destruct (k' =? k)%Z. Qed.

Lemma queue_remove_has k h q k' h' v' :
  queue_has (queue_remove k h q) k' h' v' <-> queue_has q k' h' v' /\ ~ (k' = k /\ h' = h).
Proof.
  induction q as [|[k0 txs] q IH]; cbn; [rewrite !queue_has_nil; naive_solver|].
  fold (queue_remove k h q). destruct (Z.eqb_spec k0 k) as [->|]; rewrite !queue_has_cons, IH; [|naive_solver].
  rewrite lookup_delete_Some. naive_solver.
Qed.

(** ** What an advance pops *)

Definition due_items (b : Z) (q : Queue) : list (H * (Tx * Z)) :=
  filter (fun x => (x.1 <= b)%Z) q ≫= fun x => hash_iter x.2.

Lemma pop_due_split b q acc : StronglySorted Z.lt q.*1 ->
  pop_due b q acc = (filter (fun x => (b < x.1)%Z) q, foldl fail_tx acc (due_items b q)).
Proof.
  revert acc. induction q as [|[k txs] q IH]; intros acc Hs; [done|]. cbn [fmap list_fmap] in Hs.
  apply StronglySorted_inv in Hs as [Hs Hf]. cbn [pop_due]. unfold due_items.
  destruct (Z.leb_spec k b).
  - rewrite IH by done. rewrite filter_cons_False by (cbn; lia). rewrite filter_cons_True by (cbn; lia).
    cbn [mbind list_bind]. by rewrite foldl_app.
  - rewrite filter_cons_True by (cbn; lia). rewrite filter_cons_False by (cbn; lia).
    assert (filter (fun x => (x.1 <= b)%Z) q = [] /\ filter (fun x => (b < x.1)%Z) q = q) as [-> ->]; [|done].
    rewrite Forall_fmap in Hf. split; [apply filter_none|apply filter_all]; (eapply Forall_impl; [exact Hf|]); cbn; intros; lia.
Qed.

Lemma due_items_in b q h v : (h, v) ∈ due_items b q <-> exists k, (k <= b)%Z /\ queue_has q k h v.
Proof.
  unfold due_items. rewrite list_elem_of_bind. split.
  - intros ([k txs] & Hin & [Hk Hq]%list_elem_of_filter). exists k. split; [done|]. exists txs. split; [done|].
    cbn in Hin. rewrite hash_iter_perm in Hin. by apply elem_of_map_to_list.
  - intros (k & Hk & txs & Hin & Hv). exists (k, txs). split; [|by apply list_elem_of_filter].
    cbn. rewrite hash_iter_perm. by apply elem_of_map_to_list.
Qed.

Definition later (a b : Z * Tx) : Prop := (b.1 < a.1)%Z.

Lemma insert_reverse_in i (t : Tx) l x : x ∈ insert_reverse i t l -> x = (i, t) \/ x ∈ l.
Proof.
  induction l as [|[i' t'] l IH]; cbn; [set_solver|]. destruct (Z.ltb_spec i' i); [set_solver|].
  destruct (Z.eqb_spec i' i) as [->|]; [set_solver|]. rewrite !elem_of_cons. naive_solver.
Qed.

Lemma insert_reverse_sorted i (t : Tx) l : StronglySorted later l -> StronglySorted later (insert_reverse i t l).
Proof.
  induction l as [|[i' t'] l IH]; cbn; intros Hs; [repeat constructor|]. apply StronglySorted_inv in Hs as [Hs Hf].
  destruct (Z.ltb_spec i' i).
  - constructor; [by constructor|]. constructor; [done|]. eapply Forall_impl; [exact Hf|]. unfold later. cbn. intros. lia.
  - destruct (Z.eqb_spec i' i); [by constructor|]. constructor; [by apply IH|]. apply Forall_forall.
    intros x [->|Hx]%insert_reverse_in; [unfold later; cbn; lia|]. by eapply (proj1 (Forall_forall _ _)) in Hf.
Qed.

Lemma insert_reverse_perm i (t : Tx) l : i ∉ l.*1 -> insert_reverse i t l ≡ₚ (i, t) :: l.
Proof.
  induction l as [|[i' t'] l IH]; cbn; [done|]. intros [Hne Hn]%not_elem_of_cons.
  destruct (i' <? i)%Z; [done|]. destruct (Z.eqb_spec i' i); [congruence|]. rewrite IH by done. apply Permutation_swap.
Qed.

(** An item and the pair that is reported of it. *)
Definition reported (b : H * (Tx * Z)) : Z * Tx := (b.2.2, b.2.1).

Lemma fail_all items : forall ix l, StronglySorted later l ->
  StronglySorted later (foldl fail_tx (ix, l) items).2 /\
  (NoDup ((reported <$> items).*1 ++ l.*1) -> (foldl fail_tx (ix, l) items).2 ≡ₚ (reported <$> items) ++ l) /\
  (forall h k, (foldl fail_tx (ix, l) items).1 !! h = Some k <-> ix !! h = Some k /\ h ∉ items.*1).
Proof.
  induction items as [|[h [tx i]] items IH]; intros ix l Hs; cbn.
  - split_and!; [done|done|]. intros. rewrite elem_of_nil. naive_solver.
  - unfold fail_tx at 2 4 6. cbn. destruct (IH (delete h ix) (insert_reverse i tx l)) as (I1 & I2 & I3).
    { by apply insert_reverse_sorted. }
    split_and!; [done| |].
    + intros Hn. apply NoDup_cons in Hn as [Hi Hn]. apply not_elem_of_app in Hi as [Hi Hl].
      pose proof (insert_reverse_perm i tx l Hl) as Hp. rewrite I2, Hp; [by rewrite Permutation_middle|].
      rewrite Hp. cbn. rewrite <- Permutation_middle. apply NoDup_cons. split; [|done]. rewrite elem_of_app. tauto.
    + intros h' k. rewrite I3, lookup_delete_Some, not_elem_of_cons. naive_solver.
Qed.

(** ** The transactions that are tracked *)

Record Entry := mkEntry { e_hash : H; e_tx : Tx; e_until : Z; e_instant : Z }.

Record tracks (p : PendingTxs H Tx) (l : list Entry) (last : Z) : Prop := {
  tr_hashes : NoDup (e_hash <$> l);
  tr_instants : StronglySorted Z.lt (e_instant <$> l);
  tr_last : forall e, e ∈ l -> (e_instant e <= last)%Z;
  tr_index : forall h k, pt_index p !! h = Some k <-> exists e, e ∈ l /\ e_hash e = h /\ e_until e = k;
  tr_sorted : StronglySorted Z.lt (pt_queue p).*1;
  tr_queue : forall k h v, queue_has (pt_queue p) k h v <->
    exists e, e ∈ l /\ e_until e = k /\ e_hash e = h /\ v = (e_tx e, e_instant e);
}.

Lemma same_hash l e e' : NoDup (e_hash <$> l) -> e ∈ l -> e' ∈ l -> e_hash e = e_hash e' -> e = e'.
Proof.
  intros Hn (i & Hi)%list_elem_of_lookup (j & Hj)%list_elem_of_lookup E. assert (i = j) as <-; [|congruence].
  eapply (NoDup_lookup _ i j (e_hash e)); [exact Hn|by rewrite list_lookup_fmap, Hi|by rewrite list_lookup_fmap, Hj, E].
Qed.

Lemma pending_new_tracks d last : tracks (pending_new d) [] last.
Proof.
  assert (forall P : Entry -> Prop, ~ exists e, e ∈ @nil Entry /\ P e) as Hno by (intros P (e & He & _); by apply elem_of_nil in He).
  split; cbn [pending_new pt_index pt_queue fmap list_fmap]; [constructor|constructor|..|constructor|].
  - intros e He. by apply elem_of_nil in He.
  - intros h k. rewrite lookup_empty. split; [done|by intros ?%Hno].
  - intros k h v. rewrite queue_has_nil. split; [done|by intros ?%Hno].
Qed.

Lemma tracks_contains p l last h : tracks p l last -> pt_index p !! h = None <-> h ∉ e_hash <$> l.
Proof.
  intros T. rewrite list_elem_of_fmap, eq_None_not_Some. split.
  - intros Hn (e & -> & He). apply Hn. exists (e_until e). apply (tr_index _ _ _ T). by exists e.
  - intros Hn [k Hk]. apply (tr_index _ _ _ T) in Hk as (e & He & <- & _). eauto.
Qed.

Lemma append_tracks p l last now h tx : tracks p l last -> (last < now)%Z -> h ∉ e_hash <$> l ->
  tracks (append p now h tx) (l ++ [mkEntry h tx (wrap_u64 (current_block p + max_confirmation_delay_blocks p)) now]) now.
Proof.
  intros T Hnow Hh. unfold append. rewrite (proj2 (tracks_contains _ _ _ _ T)) by done.
  assert (forall e, e ∈ l -> e_hash e <> h) as Hne by (intros e He <-; apply Hh, list_elem_of_fmap; eauto).
  destruct T as [T1 T2 T3 T4 T5 T6]. set (k := wrap_u64 _).
  split; cbn [pt_index pt_queue]; [| | | |by apply queue_insert_sorted|].
  - rewrite fmap_app. apply NoDup_app. split; [done|]. split; [|apply NoDup_singleton]. intros x Hx ->%list_elem_of_singleton. done.
  - rewrite fmap_app. apply StronglySorted_app_2; [|done|repeat constructor].
    intros x y (e & -> & He)%list_elem_of_fmap ->%list_elem_of_singleton. cbn. specialize (T3 _ He). lia.
  - intros e [He| ->%list_elem_of_singleton]%elem_of_app; [specialize (T3 _ He); lia|done].
  - intros h' k'. rewrite lookup_insert_Some, T4. split.
    + intros [[<- <-]|[? (e & ? & ? & ?)]]; [eexists; split; [apply elem_of_app; right; by apply list_elem_of_singleton|done]|].
      exists e. split; [set_solver|done].
    + intros (e & [He| ->%list_elem_of_singleton]%elem_of_app & <- & <-); [right; split; [by apply not_eq_sym, Hne|eauto]|by left].
  - intros k' h' v. rewrite queue_insert_has by done. rewrite T6. split.
    + intros [(-> & -> & ->)|[(e & ? & ? & ? & ?) ?]]; [eexists; split; [apply elem_of_app; right; by apply list_elem_of_singleton|done]|].
      exists e. split; [set_solver|done].
    + intros (e & [He| ->%list_elem_of_singleton]%elem_of_app & <- & <- & ->); [right|by left].
      split; [eauto|]. intros [_ E]. by apply (Hne e).
Qed.

(** Fewer transactions are tracked. *)
Lemma tracks_filter p p' l last (P : Entry -> Prop) `{!forall e, Decision (P e)} : tracks p l last ->
  StronglySorted Z.lt (pt_queue p').*1 ->
  (forall h k, pt_index p' !! h = Some k <-> pt_index p !! h = Some k /\ forall e, e ∈ l -> e_hash e = h -> P e) ->
  (forall k h v, queue_has (pt_queue p') k h v <-> queue_has (pt_queue p) k h v /\ forall e, e ∈ l -> e_hash e = h -> P e) ->
  tracks p' (filter P l) last.
Proof.
  intros T Hs Hi Hq. pose proof (fun e e' => same_hash l e e' (tr_hashes _ _ _ T)) as Hu. destruct T as [T1 T2 T3 T4 T5 T6].
  split; try done.
  - eapply sublist_NoDup; [exact T1|]. apply fmap_sublist, sublist_filter.
  - by apply StronglySorted_filter_fmap.
  - intros e [_ He]%list_elem_of_filter. auto.
  - intros h k. rewrite Hi, T4. split.
    + intros [(e & He & Eh & Ek) HP]. exists e. split; [|done]. apply list_elem_of_filter. auto.
    + intros (e & [HP He]%list_elem_of_filter & Eh & Ek). split; [eauto|]. intros e' He' Eh'.
      rewrite (Hu e' e); congruence.
  - intros k h v. rewrite Hq, T6. split.
    + intros [(e & He & Ek & Eh & Ev) HP]. exists e. split; [|done]. apply list_elem_of_filter. auto.
    + intros (e & [HP He]%list_elem_of_filter & Ek & Eh & Ev). split; [eauto|]. intros e' He' Eh'.
      rewrite (Hu e' e); congruence.
Qed.

Lemma confirm_tracks p l last h : tracks p l last -> tracks (confirm_tx p h) (filter (fun e => e_hash e <> h) l) last.
Proof.
  intros T. unfold confirm_tx. destruct (pt_index p !! h) as [key|] eqn:E.
  - pose proof E as (e0 & He0 & Eh0 & Ek0)%(tr_index _ _ _ T).
    apply (tracks_filter p); [done|cbn; rewrite queue_remove_keys; apply T| |]; cbn [pt_index pt_queue].
    + intros h' k. rewrite lookup_delete_Some. split; [intros [? ?]; split; [done|congruence]|].
      intros [Hk HP]. split; [|done]. pose proof Hk as (e & He & Eh & _)%(tr_index _ _ _ T). specialize (HP e He Eh). congruence.
    + intros k h' v. rewrite queue_remove_has. split.
      * intros [Hv Hn]. split; [done|]. intros e He Eh Eq. apply Hn. rewrite <- Eh. split; [|done].
        apply (tr_queue _ _ _ T) in Hv as (e' & He' & <- & Eh' & _). rewrite <- Ek0. f_equal.
        apply (same_hash l); [apply T|done|done|congruence].
      * intros [Hv HP]. split; [done|]. intros [_ ->]. exact (HP e0 He0 Eh0 Eh0).
  - rewrite filter_all; [done|]. apply Forall_forall. intros e He Eh.
    apply (tracks_contains _ _ _ _ T) in E. apply E, list_elem_of_fmap. eauto.
Qed.

Lemma due_items_nodup p l last b : tracks p l last -> NoDup (due_items b (pt_queue p)).
Proof.
  intros T. assert (NoDup (pt_queue p).*1) as Hk by apply StronglySorted_lt_NoDup, T.
  unfold due_items. apply NoDup_bind.
  - intros [k1 t1] [k2 t2] [h v] [_ H1]%list_elem_of_filter [_ H2]%list_elem_of_filter Y1 Y2. cbn in Y1, Y2.
    rewrite hash_iter_perm in Y1, Y2. apply elem_of_map_to_list in Y1, Y2.
    assert (queue_has (pt_queue p) k1 h v) as (e1 & E1 & <- & Eh1 & _)%(tr_queue _ _ _ T) by by exists t1.
    assert (queue_has (pt_queue p) k2 h v) as (e2 & E2 & <- & Eh2 & _)%(tr_queue _ _ _ T) by by exists t2.
    assert (e1 = e2) as <- by (apply (same_hash l); [apply T|done|done|congruence]).
    apply list_elem_of_lookup in H1 as (i & Hi). apply list_elem_of_lookup in H2 as (j & Hj).
    assert (i = j) as <-; [|congruence]. eapply (NoDup_lookup _ i j (e_until e1)); [exact Hk|by rewrite list_lookup_fmap, Hi|by rewrite list_lookup_fmap, Hj].
  - intros [k txs] _. cbn. rewrite hash_iter_perm. apply NoDup_map_to_list.
  - apply NoDup_filter. by eapply NoDup_fmap_1.
Qed.

Lemma due_items_entries p l last b : tracks p l last ->
  due_items b (pt_queue p) ≡ₚ (fun e => (e_hash e, (e_tx e, e_instant e))) <$> filter (fun e => (e_until e <= b)%Z) l.
Proof.
  intros T. apply NoDup_Permutation.
  - by eapply due_items_nodup.
  - apply (NoDup_fmap_1 fst). rewrite <- list_fmap_compose. eapply sublist_NoDup; [apply (tr_hashes _ _ _ T)|].
    apply (fmap_sublist e_hash), sublist_filter.
  - intros [h v]. rewrite due_items_in, list_elem_of_fmap. split.
    + intros (k & Hk & (e & He & <- & <- & ->)%(tr_queue _ _ _ T)). exists e. split; [done|]. by apply list_elem_of_filter.
    + intros (e & [= -> ->] & [Hk He]%list_elem_of_filter). exists (e_until e). split; [done|]. apply (tr_queue _ _ _ T). by exists e.
Qed.

#[local] Instance later_antisym : AntiSymm (=) later.
Proof. intros [i t] [j u]. unfold later. cbn. lia. Qed.

(** What is reported: the due transactions, the last submitted first. *)
Lemma reported_reverse l : StronglySorted Z.lt (e_instant <$> l) ->
  StronglySorted later (reverse ((fun e => (e_instant e, e_tx e)) <$> l)).
Proof.
  induction l as [|e l IH]; intros Hs; [constructor|]. cbn [fmap list_fmap] in Hs. apply StronglySorted_inv in Hs as [Hs Hf].
  rewrite fmap_cons, reverse_cons. apply StronglySorted_app_2; [|by apply IH|repeat constructor].
  intros x y Hx ->%list_elem_of_singleton. rewrite elem_of_reverse in Hx. apply list_elem_of_fmap in Hx as (e' & -> & He').
  rewrite Forall_fmap, Forall_forall in Hf. specialize (Hf _ He'). exact Hf.
Qed.

Lemma advance_tracks p l last b : tracks p l last -> (current_block p < b)%Z ->
  exists p', try_advance p b = (p', Some (reverse (e_tx <$> filter (fun e => (e_until e <= b)%Z) l))) /\
    tracks p' (filter (fun e => (b < e_until e)%Z) l) last /\ current_block p' = b /\
    max_confirmation_delay_blocks p' = max_confirmation_delay_blocks p.
Proof.
  intros T Hb. unfold try_advance. rewrite (proj2 (Z.ltb_lt _ _)) by done. rewrite pop_due_split by apply T.
  destruct (fail_all (due_items b (pt_queue p)) (pt_index p) []) as (F1 & F2 & F3); [constructor|].
  destruct (foldl fail_tx _ _) as [ix failed]. cbn [fst snd] in *. rewrite !app_nil_r in F2.
  pose proof (due_items_entries p l last b T) as Hd. set (due := filter (fun e => (e_until e <= b)%Z) l) in *.
  assert (StronglySorted Z.lt (e_instant <$> due)) as Hdue.
  { apply (StronglySorted_filter_fmap e_instant), T. }
  assert (failed = reverse ((fun e => (e_instant e, e_tx e)) <$> due)) as ->.
  { apply (StronglySorted_unique later); [done|by apply reported_reverse|]. rewrite reverse_Permutation, F2, Hd, <- list_fmap_compose; [done|].
    rewrite Hd, <- !list_fmap_compose. by apply (StronglySorted_lt_NoDup (e_instant <$> due)). }
  eexists. split; [by rewrite fmap_reverse, <- list_fmap_compose|]. split_and!; [|done..].
  apply (tracks_filter p); cbn [pt_index pt_queue].
  - done.
  - by apply (StronglySorted_filter_fmap fst), T.
  - intros h k. rewrite F3. split; (intros [Hk Hn]; split; [done|]).
    + intros e He Eh. apply Z.nle_gt. intros Hle. apply Hn. rewrite Hd, <- list_fmap_compose. apply list_elem_of_fmap.
      exists e. split; [done|]. by apply list_elem_of_filter.
    + rewrite Hd, <- list_fmap_compose. intros (e & -> & [Hle He]%list_elem_of_filter)%list_elem_of_fmap. specialize (Hn e He eq_refl). lia.
  - intros k h v. split.
    + intros (txs & [Hlt Hin]%list_elem_of_filter & Hv). assert (queue_has (pt_queue p) k h v) as Hq by by exists txs. split; [done|].
      intros e He Eh. apply (tr_queue _ _ _ T) in Hq as (e' & He' & <- & Eh' & _). cbn in Hlt.
      rewrite (same_hash l e e'); [done|apply T|done|done|congruence].
    + intros [(txs & Hin & Hv) HP]. exists txs. split; [|done]. apply list_elem_of_filter. split; [|done]. cbn.
      assert (queue_has (pt_queue p) k h v) as (e & He & <- & Eh & _)%(tr_queue _ _ _ T) by by exists txs. by apply HP.
Qed.

(** ** The specification

    The transactions that wait, in the order of their submission; what is
    confirmed leaves, what is due is reported, the last submitted first. *)

Context {R : Type} `{RB : RingLib R H}.

Record Waiting := mkWaiting { w_hash : H; w_tx : Tx; w_until : Z }.
Record Spec := mkSpec { sp_recent : CircularFilter R H; sp_block : Z; sp_waiting : list Waiting }.

Definition spec_new : Spec := mkSpec filter_new 0 [].

Definition spec_step (delay : Z) (s : Spec) (m : TrackerMsg H Tx) : Spec * list Tx :=
  match m with
  | Track _ h tx =>
    if filter_contains (sp_recent s) h || bool_decide (h ∈ w_hash <$> sp_waiting s) then (s, [])
    else (mkSpec (sp_recent s) (sp_block s) (sp_waiting s ++ [mkWaiting h tx (wrap_u64 (sp_block s + delay))]), [])
  | Confirmed h b =>
    let recent := (filter_add (sp_recent s) h).1 in
    let waiting := filter (fun w => w_hash w <> h) (sp_waiting s) in
    if (sp_block s <? b)%Z then
      (mkSpec recent b (filter (fun w => (b < w_until w)%Z) waiting), reverse (w_tx <$> filter (fun w => (w_until w <= b)%Z) waiting))
    else (mkSpec recent (sp_block s) waiting, [])
  end.

Fixpoint spec_run (delay : Z) (s : Spec) (ms : list (TrackerMsg H Tx)) : Spec * list Tx :=
  match ms with
  | [] => (s, [])
  | m :: ms => let '(s, failed) := spec_step delay s m in let '(s, more) := spec_run delay s ms in (s, failed ++ more)
  end.

Definition erase (e : Entry) : Waiting := mkWaiting (e_hash e) (e_tx e) (e_until e).

Record simulates (delay : Z) (a : TxTrackerAgent H Tx R) (s : Spec) (last : Z) : Prop := {
  si_recent : recent_txs a = sp_recent s;
  si_block : current_block (pending_txs a) = sp_block s;
  si_delay : max_confirmation_delay_blocks (pending_txs a) = delay;
  si_tracks : exists l, tracks (pending_txs a) l last /\ erase <$> l = sp_waiting s;
}.

(** The instants at which transactions are submitted. *)
Definition instants (ms : list (TrackerMsg H Tx)) : list Z := omap (fun m => match m with Track now _ _ => Some now | _ => None end) ms.

Lemma erase_hashes (l : list Entry) : w_hash <$> (erase <$> l) = e_hash <$> l.
Proof. by rewrite <- list_fmap_compose. Qed.

Lemma filter_erase (P : Waiting -> Prop) `{!forall w, Decision (P w)} (l : list Entry) :
  filter P (erase <$> l) = erase <$> filter (fun e => P (erase e)) l.
Proof.
  induction l as [|e l IH]; [done|]. rewrite fmap_cons, !filter_cons.
  destruct (decide (P (erase e))); [|done]. by rewrite fmap_cons, IH.
Qed.

Lemma track_simulates delay a s last now h tx : simulates delay a s last -> (last < now)%Z ->
  simulates delay (process_incoming_tx a now h tx) (spec_step delay s (Track now h tx)).1 now.
Proof.
  intros [E1 E2 E3 (l & T & El)] Hnow. unfold process_incoming_tx. cbn [spec_step]. rewrite <- E1, <- El, erase_hashes.
  assert (tracks (pending_txs a) l now) as T' by (destruct T; split; try done; intros e He; specialize (tr_last0 _ He); lia).
  destruct (filter_contains (recent_txs a) h); cbn [negb orb fst]; [split; eauto|].
  case_bool_decide as Hin; cbn [fst].
  - split; cbn [recent_txs pending_txs]; try done; unfold append;
      (destruct (pt_index (pending_txs a) !! h) eqn:E; [eauto|]; apply (tracks_contains _ _ _ _ T) in E; done).
  - split; cbn [recent_txs pending_txs sp_recent sp_block sp_waiting]; try done; [unfold append; by destruct (_ !! h)..|].
    eexists. split; [by apply (append_tracks _ l last)|]. by rewrite fmap_app, E2, E3.
Qed.

Lemma confirmed_simulates delay a s last h b : simulates delay a s last ->
  simulates delay (process_confirmed_tx a h b).1 (spec_step delay s (Confirmed h b)).1 last /\
  (process_confirmed_tx a h b).2 = (spec_step delay s (Confirmed h b)).2.
Proof.
  intros [E1 E2 E3 (l & T & El)]. unfold process_confirmed_tx. cbn [spec_step]. rewrite <- E1, <- El, filter_erase. cbn [w_hash erase].
  pose proof (confirm_tracks _ _ _ h T) as T'. set (l' := filter _ l) in *.
  assert (current_block (confirm_tx (pending_txs a) h) = sp_block s /\
    max_confirmation_delay_blocks (confirm_tx (pending_txs a) h) = delay) as [Eb Ed] by (unfold confirm_tx; by destruct (_ !! h)).
  destruct (Z.ltb_spec (sp_block s) b) as [Hb|Hb].
  - destruct (advance_tracks _ l' last b T') as (p' & -> & T2 & Eb' & Ed'); [lia|]. cbn [fst snd default]. rewrite !filter_erase.
    split; [|by rewrite <- list_fmap_compose]. split; cbn [recent_txs pending_txs sp_recent sp_block sp_waiting]; [done|done|congruence|eauto].
  - unfold try_advance. rewrite (proj2 (Z.ltb_ge _ _)) by lia. cbn [fst snd default]. split; [|done]. split; eauto.
Qed.

Lemma run_simulates delay ms : forall a s last, simulates delay a s last -> StronglySorted Z.lt (last :: instants ms) ->
  (exists last', simulates delay (tracker_run a ms).1 (spec_run delay s ms).1 last' /\ (last <= last')%Z /\
    (last = last' \/ last' ∈ instants ms)) /\
  (tracker_run a ms).2 = (spec_run delay s ms).2.
Proof.
  induction ms as [|[now h tx|h b] ms IH]; intros a s last Hsim Hs; cbn [tracker_run spec_run].
  - split; [|done]. exists last. split_and!; [done|lia|by left].
  - cbn [tracker_step]. change (instants (Track now h tx :: ms)) with (now :: instants ms) in *.
    apply StronglySorted_inv in Hs as [Hs Hf]. apply Forall_cons in Hf as [Hnow _].
    pose proof (track_simulates delay a s last now h tx Hsim Hnow) as Hstep.
    destruct (spec_step delay s (Track now h tx)) as [s' f] eqn:Es. cbn [fst] in Hstep.
    assert (f = []) as -> by (revert Es; cbn; destruct (_ || _); by intros [= _ <-]).
    destruct (IH _ _ _ Hstep Hs) as [(last' & HS & Hl & Hor) Hout].
    destruct (tracker_run _ ms), (spec_run _ s' ms). cbn [fst snd app] in *. split; [|done].
    exists last'. split_and!; [done|lia|]. right. apply elem_of_cons. naive_solver.
  - cbn [tracker_step]. change (instants (Confirmed h b :: ms)) with (instants ms) in *.
    destruct (confirmed_simulates delay a s last h b Hsim) as [Hstep Hfail].
    destruct (process_confirmed_tx a h b) as [a' f], (spec_step delay s (Confirmed h b)) as [s' f']. cbn [fst snd] in *. subst f'.
    destruct (IH _ _ _ Hstep Hs) as [(last' & HS & Hl & Hor) Hout].
    destruct (tracker_run a' ms), (spec_run _ s' ms). cbn [fst snd] in *. split; [eauto|]. by rewrite Hout.
Qed.

Lemma new_simulates delay last : simulates delay (new_tx_tracker delay) spec_new last.
Proof. split; try done. exists []. split; [apply pending_new_tracks|done]. Qed.

Lemma sorted_after (l : list Z) : StronglySorted Z.lt l -> exists last, StronglySorted Z.lt (last :: l).
Proof.
  intros Hs. destruct l as [|i l]; [exists 0%Z; repeat constructor|]. exists (i - 1)%Z. constructor; [done|].
  apply StronglySorted_inv in Hs as [_ Hf]. constructor; [lia|]. eapply Forall_impl; [exact Hf|]. cbn. intros. lia.
Qed.

(** C33: whatever messages the tracker receives, submitted at increasing
    instants, it reports as failed exactly what the specification reports: of
    the transactions that were tracked and not confirmed, those whose deadline a
    block has reached, the last submitted first, each once. *)
Theorem tracker_refines delay ms : StronglySorted Z.lt (instants ms) ->
  (tracker_run (new_tx_tracker delay) ms).2 = (spec_run delay spec_new ms).2.
Proof. intros (last & Hs)%sorted_after. exact (proj2 (run_simulates delay ms _ _ last (new_simulates delay last) Hs)). Qed.

(** ** Every tracked transaction is settled *)

Lemma spec_run_app delay s ms ms' : spec_run delay s (ms ++ ms') =
  let '(s1, f) := spec_run delay s ms in let '(s2, g) := spec_run delay s1 ms' in (s2, f ++ g).
Proof.
  revert s. induction ms as [|m ms IH]; intros s; cbn; [by destruct (spec_run delay s ms')|].
  destruct (spec_step delay s m) as [s1 f1]. rewrite IH. destruct (spec_run delay s1 ms) as [s2 f2].
  destruct (spec_run delay s2 ms') as [s3 f3]. by rewrite app_assoc.
Qed.

Lemma tracker_run_app (a : TxTrackerAgent H Tx R) (ms ms' : list (TrackerMsg H Tx)) : tracker_run a (ms ++ ms') =
  let '(a1, f) := tracker_run a ms in let '(a2, g) := tracker_run a1 ms' in (a2, f ++ g).
Proof.
  revert a. induction ms as [|m ms IH]; intros a; cbn; [by destruct (tracker_run a ms')|].
  destruct (tracker_step a m) as [a1 f1]. rewrite IH. destruct (tracker_run a1 ms) as [a2 f2].
  destruct (tracker_run a2 ms') as [a3 f3]. by rewrite app_assoc.
Qed.

(** A transaction waits until its hash or a block at its deadline comes. *)
Lemma spec_settles delay w h' b ms : forall s, w ∈ sp_waiting s -> Confirmed h' b ∈ ms -> (sp_block s < b)%Z -> (w_until w <= b)%Z ->
  (exists b', Confirmed (w_hash w) b' ∈ ms) \/ w_tx w ∈ (spec_run delay s ms).2.
Proof.
  induction ms as [|m ms IH]; intros s Hw Hin Hb Hu; [by apply elem_of_nil in Hin|]. cbn [spec_run].
  destruct m as [now h tx|h b0].
  - apply elem_of_cons in Hin as [|Hin]; [done|]. destruct (spec_step delay s (Track now h tx)) as [s' f] eqn:Es.
    assert (w ∈ sp_waiting s' /\ sp_block s' = sp_block s) as [Hw' Eb].
    { revert Es. cbn. destruct (_ || _); intros [= <- <-]; [done|]. split; [set_solver|done]. }
    destruct (IH s') as [(b' & Hb')|Hout]; [done|done|by rewrite Eb|done|left; exists b'; set_solver|].
    right. destruct (spec_run delay s' ms). cbn in *. apply elem_of_app. by right.
  - destruct (decide (h = w_hash w)) as [->|Hne]; [left; exists b0; set_solver|].
    cbn [spec_step]. assert (w ∈ filter (fun w => w_hash w <> h) (sp_waiting s)) as Hw' by (apply list_elem_of_filter; auto).
    set (waiting := filter _ _) in *.
    destruct (Z.ltb_spec (sp_block s) b0) as [Hlt|Hge]; [destruct (Z.le_gt_cases (w_until w) b0) as [Hd|Hd]|].
    + right. destruct (spec_run _ _ ms). cbn. apply elem_of_app. left. apply elem_of_reverse, list_elem_of_fmap.
      exists w. split; [done|]. by apply list_elem_of_filter.
    + apply elem_of_cons in Hin as [[= -> ->]|Hin]; [lia|].
      destruct (Z.lt_ge_cases b0 b) as [Hbb|Hbb]; [|lia].
      destruct (IH (mkSpec (filter_add (sp_recent s) h).1 b0 (filter (fun w => (b0 < w_until w)%Z) waiting)))
        as [(b' & Hb')|Hout]; [by apply list_elem_of_filter|done|done|done|left; exists b'; set_solver|].
      right. destruct (spec_run _ _ ms). cbn in *. apply elem_of_app. by right.
    + apply elem_of_cons in Hin as [[= -> ->]|Hin]; [lia|].
      destruct (IH (mkSpec (filter_add (sp_recent s) h).1 (sp_block s) waiting))
        as [(b' & Hb')|Hout]; [done|done|done|done|left; exists b'; set_solver|].
      right. by destruct (spec_run _ _ ms).
Qed.

(** A transaction that starts to be tracked is settled: when a block at
    its deadline has come, its hash was seen on the ledger or it was reported as
    failed. *)
Theorem tracked_tx_settles delay pre now h tx post h' b :
  StronglySorted Z.lt (instants (pre ++ Track now h tx :: post)) ->
  let a := (tracker_run (new_tx_tracker delay) pre).1 in
  filter_contains (recent_txs a) h = false -> pt_index (pending_txs a) !! h = None ->
  Confirmed h' b ∈ post -> (current_block (pending_txs a) < b)%Z -> (wrap_u64 (current_block (pending_txs a) + delay) <= b)%Z ->
  (exists b', Confirmed h b' ∈ post) \/ tx ∈ (tracker_run (process_incoming_tx a now h tx) post).2.
Proof.
  intros (last & Hs)%sorted_after a Hrec Hidx Hin Hb Hu. unfold instants in Hs. rewrite omap_app in Hs. cbn [omap list_omap] in Hs.
  change (StronglySorted Z.lt ((last :: instants pre) ++ now :: instants post)) in Hs.
  pose proof (StronglySorted_app_1_l _ _ _ Hs) as Hpre. pose proof (StronglySorted_app_1_r _ _ _ Hs) as Hpost.
  destruct (run_simulates delay pre _ _ last (new_simulates delay last) Hpre) as [(last' & S' & _ & Hor) _]. fold a in S'.
  assert (last' < now)%Z as Hlt.
  { eapply (StronglySorted_app_1_elem_of _ _ _ last' now Hs); [|set_solver]. destruct Hor as [<-|]; set_solver. }
  pose proof (track_simulates delay a _ last' now h tx S' Hlt) as St.
  destruct (run_simulates delay post _ _ now St Hpost) as [_ ->]. clear St.
  destruct S' as [E1 E2 E3 (l & T & El)]. set (s := (spec_run delay spec_new pre).1) in *.
  cbn [spec_step]. rewrite <- E1, Hrec, <- El, erase_hashes. cbn [orb].
  rewrite bool_decide_eq_false_2 by (by apply (tracks_contains _ _ _ _ T)). cbn [fst].
  apply (spec_settles delay (mkWaiting h tx (wrap_u64 (sp_block s + delay))) h' b post); cbn; [set_solver|done|lia|by rewrite <- E2].
Qed.

(** ** What the recently confirmed hide *)

Context (N : nat) `{RL : !RingLaws R H N} (hash_of : Tx -> H).

Definition confirmed_in (ms : list (TrackerMsg H Tx)) : list H := omap (fun m => match m with Confirmed h _ => Some h | _ => None end) ms.
Definition honest (m : TrackerMsg H Tx) : Prop := match m with Track _ h tx => h = hash_of tx | _ => True end.
Definition well_named (s : Spec) : Prop := forall w, w ∈ sp_waiting s -> w_hash w = hash_of (w_tx w).

Lemma step_well_named delay s m : honest m -> well_named s -> well_named (spec_step delay s m).1.
Proof.
  intros Hm Hs. destruct m as [now h tx|h b]; cbn.
  - destruct (_ || _); [done|]. intros w [Hw| ->%list_elem_of_singleton]%elem_of_app; [by apply Hs|done].
  - destruct (_ <? _)%Z; intros w; cbn; rewrite ?list_elem_of_filter; naive_solver.
Qed.

Lemma run_well_named delay ms : forall s, Forall honest ms -> well_named s -> well_named (spec_run delay s ms).1.
Proof.
  induction ms as [|m ms IH]; intros s Hh Hs; [done|]. apply Forall_cons in Hh as [Hm Hh].
  pose proof (step_well_named delay s m Hm Hs) as Hs'. cbn. destruct (spec_step delay s m) as [s' f].
  specialize (IH s' Hh Hs'). by destruct (spec_run delay s' ms).
Qed.

Lemma run_recent delay ms : forall s, sp_recent (spec_run delay s ms).1 = filter_add_all (sp_recent s) (confirmed_in ms).
Proof.
  induction ms as [|m ms IH]; intros s; [done|]. cbn [spec_run]. destruct (spec_step delay s m) as [s' f] eqn:Es.
  specialize (IH s'). destruct (spec_run delay s' ms). cbn [fst] in *. rewrite IH. revert Es.
  destruct m as [now h tx|h b]; cbn [spec_step].
  - destruct (_ || _); by intros [= <- <-].
  - destruct (_ <? _)%Z; by intros [= <- <-].
Qed.

(** While a hash is among the recently confirmed, its transaction is neither
    tracked nor reported. *)
Lemma recent_silent delay past h ms : forall s l, 0 < N ->
  h ∉ members (filter_add_all (filter_new (R := R)) past) -> sp_recent s = filter_add_all filter_new (past ++ h :: l) ->
  length l + length (confirmed_in ms) < N -> Forall honest ms -> well_named s ->
  (forall w, w ∈ sp_waiting s -> w_hash w <> h) -> forall t, t ∈ (spec_run delay s ms).2 -> hash_of t <> h.
Proof.
  induction ms as [|m ms IH]; intros s l HN Hfresh Hrec Hlen Hh Hn Hw t; [by intros ?%elem_of_nil|].
  apply Forall_cons in Hh as [Hm Hh]. cbn [spec_run].
  pose proof (step_well_named delay s m Hm Hn) as Hn'. destruct m as [now h0 tx0|h0 b0]; cbn [spec_step] in *.
  - assert (filter_contains (sp_recent s) h = true) as Hc.
    { rewrite Hrec. apply (filter_remembers N); [done|done|lia]. }
    destruct (filter_contains (sp_recent s) h0 || bool_decide _) eqn:Eg.
    + specialize (IH s l HN Hfresh Hrec Hlen Hh Hn Hw t). by destruct (spec_run delay s ms).
    + match goal with |- context [spec_run delay ?s' ms] => specialize (IH s' l HN Hfresh Hrec Hlen Hh Hn') end. destruct (spec_run _ _ ms). cbn [snd app fst] in *. apply IH.
      intros w [Hin| ->%list_elem_of_singleton]%elem_of_app; [by apply Hw|]. cbn. intros ->. by rewrite Hc in Eg.
  - change (confirmed_in (Confirmed h0 b0 :: ms)) with (h0 :: confirmed_in ms) in Hlen. cbn [length] in Hlen.
    assert ((filter_add (sp_recent s) h0).1 = filter_add_all filter_new (past ++ h :: (l ++ [h0]))) as Hrec'.
    { rewrite Hrec, app_comm_cons, app_assoc, (filter_add_all_app _ (past ++ h :: l)). done. }
    assert (length (l ++ [h0]) + length (confirmed_in ms) < N) as Hlen' by (rewrite length_app; cbn; lia).
    destruct (sp_block s <? b0)%Z.
    + match goal with |- context [spec_run delay ?s' ms] => specialize (IH s' (l ++ [h0]) HN Hfresh Hrec' Hlen' Hh Hn') end.
      destruct (spec_run _ _ ms) as [s2 more]. cbn [snd fst sp_waiting] in *.
      intros [Ht|Ht]%elem_of_app; [|revert Ht; apply IH; intros w; rewrite !list_elem_of_filter; naive_solver].
      rewrite elem_of_reverse in Ht. apply list_elem_of_fmap in Ht as (w & -> & Hin). rewrite !list_elem_of_filter in Hin.
      destruct Hin as (_ & _ & Hin). rewrite <- (Hn w Hin). by apply Hw.
    + match goal with |- context [spec_run delay ?s' ms] => specialize (IH s' (l ++ [h0]) HN Hfresh Hrec' Hlen' Hh Hn') end.
      destruct (spec_run _ _ ms). cbn [snd app fst sp_waiting] in *. apply IH.
      intros w. rewrite list_elem_of_filter. naive_solver.
Qed.

Lemma confirmed_silent delay past h b ms s : 0 < N -> sp_recent s = filter_add_all (filter_new (R := R)) past ->
  h ∉ members (sp_recent s) -> length (confirmed_in ms) < N -> Forall honest ms -> well_named s ->
  forall t, t ∈ (spec_run delay s (Confirmed h b :: ms)).2 -> hash_of t <> h.
Proof.
  intros HN Er Hf Hlen Hh Hn t. cbn [spec_run]. pose proof (step_well_named delay s (Confirmed h b) I Hn) as Hn'.
  assert (forall w, w ∈ sp_waiting (spec_step delay s (Confirmed h b)).1 -> w_hash w <> h) as Hw.
  { intros w. cbn. destruct (_ <? _)%Z; cbn; rewrite ?list_elem_of_filter; tauto. }
  assert (forall t, t ∈ (spec_step delay s (Confirmed h b)).2 -> hash_of t <> h) as Hout.
  { intros t'. cbn. destruct (_ <? _)%Z; cbn; [|by intros ?%elem_of_nil]. rewrite elem_of_reverse.
    intros (w & -> & Hin)%list_elem_of_fmap. rewrite !list_elem_of_filter in Hin.
    destruct Hin as (_ & Hne & Hin). by rewrite <- (Hn w Hin). }
  pose proof (recent_silent delay past h ms (spec_step delay s (Confirmed h b)).1 []) as Hrest.
  assert (sp_recent (spec_step delay s (Confirmed h b)).1 = filter_add_all filter_new (past ++ [h])) as Er'.
  { cbn. rewrite filter_add_all_app, <- Er. by destruct (_ <? _)%Z. }
  rewrite Er in Hf. specialize (Hrest HN Hf Er' Hlen Hh Hn' Hw t).
  destruct (spec_step delay s (Confirmed h b)) as [s1 f1]. cbn [fst snd] in Hout, Hrest. intros Ht.
  assert (t ∈ f1 \/ t ∈ (spec_run delay s1 ms).2) as [Ht'|Ht']; [|by apply Hout|exact (Hrest Ht')].
  apply elem_of_app. revert Ht. by destruct (spec_run delay s1 ms).
Qed.
End Tracker.

(** ** The tracker behind the event sink *)

Section Ledger.
Context {MD MI R : Type} `{HO : !HashOrder bytes} `{HL : !HashOrderLaws bytes} `{RB : RingLib R bytes} (N : nat) `{RL : !RingLaws R bytes N}.

Notation Tx := (TxViewMut MD MI).

(** The tracker is fed by the last handler of the ledger and by those that
    submit. *)
Inductive Feed := FromLedger (ev : LedgerTxEvent Tx) | Submitted (now : Z) (tx : Tx).
Definition feed_msg (f : Feed) : TrackerMsg bytes Tx :=
  match f with
  | FromLedger ev => Confirmed (succinct_tx ev).1 (succinct_tx ev).2
  | Submitted now tx => Track now (tv_hash tx) tx
  end.

Lemma feed_honest fs : Forall (honest tv_hash) (feed_msg <$> fs).
Proof. apply Forall_fmap, Forall_forall. by intros [ev|now tx] _. Qed.

(** the ledger's undoing of a transaction counts as its confirmation: a
    transaction that was applied and then rolled back is not reported as
    failed, nor tracked when it is submitted again, until the tracker has seen
    [N] other transactions of the ledger. *)
Theorem rolled_back_tx_never_dropped delay pre tx sl bn bh sl' bn' bh' mid post : 0 < N ->
  let fs := FromLedger (TxApplied tx sl bn bh) :: mid ++ FromLedger (TxUnapplied tx sl' bn' bh') :: post in
  StronglySorted Z.lt (instants (feed_msg <$> pre ++ fs)) ->
  let a := (tracker_run (new_tx_tracker (R := R) delay) (feed_msg <$> pre)).1 in
  filter_contains (recent_txs a) (tv_hash tx) = false -> length (confirmed_in (feed_msg <$> fs)) <= N ->
  forall t, t ∈ (tracker_run a (feed_msg <$> fs)).2 -> tv_hash t <> tv_hash tx.
Proof.
  intros HN fs (last & Hs)%sorted_after a Hrec Hlen t Ht.
  unfold instants in Hs. rewrite fmap_app, omap_app in Hs.
  change (StronglySorted Z.lt ((last :: instants (feed_msg <$> pre)) ++ instants (feed_msg <$> fs))) in Hs.
  destruct (run_simulates delay (feed_msg <$> pre) _ _ last (new_simulates delay last)) as [(last' & S' & _ & Hor) _];
    [by eapply StronglySorted_app_1_l|]. fold a in S'.
  assert (StronglySorted Z.lt (last' :: instants (feed_msg <$> fs))) as Hs'.
  { constructor; [by eapply StronglySorted_app_1_r|]. apply Forall_forall. intros i Hi.
    eapply (StronglySorted_app_1_elem_of _ _ _ last' i Hs); [|done]. destruct Hor as [<-|]; set_solver. }
  destruct (run_simulates delay (feed_msg <$> fs) _ _ last' S' Hs') as [_ E]. rewrite E in Ht. revert Ht.
  set (s := (spec_run delay spec_new (feed_msg <$> pre)).1) in *.
  assert (sp_recent s = filter_add_all filter_new (confirmed_in (feed_msg <$> pre))) as Er by apply run_recent.
  assert (well_named tv_hash s) as Hn by (apply run_well_named; [apply feed_honest|intros w Hw; by apply elem_of_nil in Hw]).
  apply bool_decide_eq_false in Hrec. rewrite (si_recent _ _ _ _ S'), Er in Hrec.
  change (feed_msg <$> fs) with (Confirmed (H := bytes) (tv_hash tx) bn :: (feed_msg <$> mid ++ FromLedger (TxUnapplied tx sl' bn' bh') :: post)) in *.
  set (rest := feed_msg <$> mid ++ _) in *.
  change (confirmed_in (Confirmed (tv_hash tx) bn :: rest)) with (tv_hash tx :: confirmed_in rest) in Hlen. cbn [length] in Hlen.
  apply (confirmed_silent N tv_hash delay (confirmed_in (feed_msg <$> pre))); try done; [by rewrite Er|apply feed_honest].
Qed.
End Ledger.

(** ** The mempool stream *)

Section Mempool.
Context {Tx : Type} `{B2 : Blake224} (decode : bytes -> option Tx).

(** The projections in which a snapshot is looked up. *)
Definition advanced (p : MempoolProjection) (n : Z) : MempoolProjection :=
  if (slot p <? n)%Z then mkProjection (current_projection p) ∅ n else p.

Definition unseen (p : MempoolProjection) (raw : bytes) : Prop :=
  hash_tx_bytes raw ∉ prev_projection p /\ hash_tx_bytes raw ∉ current_projection p.
#[local] Instance unseen_dec p raw : Decision (unseen p raw).
Proof. unfold unseen. apply _. Defined.

Definition noted (p : MempoolProjection) (raws : list bytes) : MempoolProjection :=
  mkProjection (prev_projection p) (current_projection p ∪ list_to_set (hash_tx_bytes <$> filter (unseen p) raws)) (slot p).

Lemma query_advanced p n raws : raws <> [] -> query_txs decode p n raws = query_txs decode (advanced p n) n raws.
Proof.
  destruct raws as [|raw raws]; [done|]. intros _. cbn [query_txs]. unfold register at 1 2, advanced.
  destruct (Z.ltb_spec (slot p) n) as [|Hge]; cbn [slot]; [by rewrite Z.ltb_irrefl|]. by rewrite (proj2 (Z.ltb_ge _ _) Hge).
Qed.

Lemma filter_unseen_note p raw (raws : list bytes) : hash_tx_bytes raw ∉ hash_tx_bytes <$> raws ->
  filter (unseen (noted p [raw])) raws = filter (unseen p) raws.
Proof.
  induction raws as [|r raws IH]; intros Hr; [done|]. cbn [fmap list_fmap] in Hr. apply not_elem_of_cons in Hr as [Hne Hr].
  assert (unseen (noted p [raw]) r <-> unseen p r) as Hu.
  { unfold unseen at 1, noted. cbn [prev_projection current_projection]. rewrite filter_cons, filter_nil.
    destruct (decide (unseen p raw)); cbn; [|rewrite union_empty_r_L; done]. unfold unseen. set_solver. }
  rewrite !filter_cons, IH by done. destruct (decide (unseen p r)); [by rewrite decide_True by tauto|by rewrite decide_False by tauto].
Qed.

(** A snapshot of distinct transactions yields the unseen ones and notes them. *)
Lemma query_txs_spec n raws : forall p, (n <= slot p)%Z -> NoDup (hash_tx_bytes <$> raws) ->
  query_txs decode p n raws = (noted p raws, omap decode (filter (unseen p) raws)).
Proof.
  induction raws as [|raw raws IH]; intros p Hn Hd.
  - unfold noted. cbn. rewrite union_empty_r_L. by destruct p.
  - cbn [fmap list_fmap] in Hd. apply NoDup_cons in Hd as [Hraw Hd]. cbn [query_txs].
    assert (register p (hash_tx_bytes raw) n = (noted p [raw], bool_decide (~ unseen p raw))) as ->.
    { unfold register, noted. rewrite (proj2 (Z.ltb_ge _ _) Hn), filter_cons, filter_nil. unfold unseen at 2.
      destruct (decide (unseen p raw)) as [Hu|Hu]; unfold unseen in Hu; repeat case_bool_decide; try tauto; cbn;
        rewrite union_empty_r_L; first [by rewrite union_comm_L|by destruct p]. }
    rewrite IH by done. rewrite filter_unseen_note by done. f_equal.
    + unfold noted at 1. rewrite filter_unseen_note by done. unfold noted. cbn [prev_projection current_projection slot]. f_equal.
      rewrite (filter_cons _ raw raws), (filter_cons _ raw []), filter_nil.
      destruct (decide (unseen p raw)); cbn [fmap list_fmap list_to_set foldr]; set_solver.
    + rewrite filter_cons. destruct (decide (unseen p raw)) as [Hu|Hu]; [rewrite bool_decide_eq_false_2 by tauto|rewrite bool_decide_eq_true_2 by done; done].
      cbn. by destruct (decode raw).
Qed.

(** The rounds of the stream in which a snapshot is acquired. *)
Definition snapshot_ok (raws : list bytes) : Prop := raws <> [] /\ NoDup (hash_tx_bytes <$> raws).

(** Each round yields what the round before did not. *)
Lemma round_alternates raw raws p n : snapshot_ok raws -> raw ∈ raws -> (slot p < n)%Z \/ (p = projection_new /\ n = 0%Z) ->
  let '(p', txs) := query_txs decode p n raws in
  slot p' = n /\ (hash_tx_bytes raw ∈ current_projection p' <-> hash_tx_bytes raw ∉ current_projection p) /\
  (hash_tx_bytes raw ∉ current_projection p -> forall tx, decode raw = Some tx -> tx ∈ txs) /\
  (hash_tx_bytes raw ∈ current_projection p -> forall tx, (forall raw', decode raw' = Some tx -> raw' = raw) -> tx ∉ txs).
Proof.
  intros [Hne Hd] Hin Hp. rewrite query_advanced by done.
  assert (prev_projection (advanced p n) = current_projection p /\ current_projection (advanced p n) = ∅ /\ slot (advanced p n) = n)
    as (E1 & E2 & E3).
  { unfold advanced. destruct Hp as [Hlt|[-> ->]]; [by rewrite (proj2 (Z.ltb_lt _ _) Hlt)|done]. }
  rewrite query_txs_spec by (lia || done). unfold noted. cbn [slot current_projection]. rewrite E2, E3.
  assert (unseen (advanced p n) raw <-> hash_tx_bytes raw ∉ current_projection p) as Hu by (unfold unseen; rewrite E1, E2; set_solver).
  split_and!; [done| | |].
  - rewrite union_empty_l_L, elem_of_list_to_set, list_elem_of_fmap. split.
    + intros (r & Er & [Hr _]%list_elem_of_filter). rewrite Er. unfold unseen in Hr. rewrite E1 in Hr. apply Hr.
    + intros Hn. exists raw. split; [done|]. apply list_elem_of_filter. by rewrite Hu.
  - intros Hn tx Htx. apply list_elem_of_omap. exists raw. split; [|done]. apply list_elem_of_filter. by rewrite Hu.
  - intros Hc tx Huniq (r & [Hr _]%list_elem_of_filter & Er)%list_elem_of_omap. apply Huniq in Er as ->. by rewrite Hu in Hr.
Qed.

(** a transaction that stays in the mempool is reported as accepted again
    in every other snapshot: what a snapshot recognises from the one before is
    not kept for the one after. *)
Theorem resident_tx_accepted_again raw tx snapshots : decode raw = Some tx -> (forall raw', decode raw' = Some tx -> raw' = raw) ->
  Forall (fun raws => snapshot_ok raws /\ raw ∈ raws) snapshots -> (Z.of_nat (length snapshots) <= u64_max)%Z ->
  forall k txs, stream_updates decode projection_new 0 (Some <$> snapshots) !! k = Some txs -> tx ∈ txs <-> Nat.even k = true.
Proof.
  intros Htx Huniq Hall Hlen.
  assert (forall snapshots p n, Forall (fun raws => snapshot_ok raws /\ raw ∈ raws) snapshots ->
    (0 <= n)%Z -> (n + Z.of_nat (length snapshots) <= u64_max)%Z -> (slot p < n)%Z \/ (p = projection_new /\ n = 0%Z) ->
    forall k txs, stream_updates decode p n (Some <$> snapshots) !! k = Some txs ->
      tx ∈ txs <-> Nat.even k = bool_decide (hash_tx_bytes raw ∉ current_projection p)) as Hgen.
  { clear Hall Hlen snapshots. induction snapshots as [|raws snapshots IH]; intros p n Hall Hn0 Hn Hp k txs; [done|].
    apply Forall_cons in Hall as [[Hok Hin] Hall]. rewrite fmap_cons. cbn [stream_updates].
    pose proof (round_alternates raw raws p n Hok Hin Hp) as Hr. destruct (query_txs decode p n raws) as [p' ys].
    destruct Hr as (Es & Ha & Hy & Hno). cbn [length] in Hn. rewrite wrap_u64_small by (unfold is_u64; lia). destruct k as [|k]; cbn [lookup list_lookup].
    - intros [= <-]. cbn. case_bool_decide as Hc; [split; [done|]; intros _; by eapply Hy|].
      split; [|done]. intros Hx. exfalso. eapply Hno; [|exact Huniq|exact Hx]. destruct (decide (hash_tx_bytes raw ∈ current_projection p)); tauto.
    - intros Hk. rewrite (IH p' (n + 1)%Z Hall ltac:(lia) ltac:(lia) ltac:(lia) k txs Hk). rewrite Nat.even_succ, <- Nat.negb_even.
      destruct (decide (hash_tx_bytes raw ∈ current_projection p)); repeat case_bool_decide; try tauto; destruct (Nat.even k); naive_solver. }
  intros k txs Hk. rewrite (Hgen snapshots projection_new 0%Z Hall ltac:(lia) ltac:(lia) ltac:(by right) k txs Hk). done.
Qed.
End Mempool.
