(* ===== verification/TxTrackerExamples.v ===== *)
(** * A small tracker

    The witnesses of the theorems of [TxTrackerProofs.v]: three transactions are
    tracked with a delay of ten blocks. *)

From stdpp Require Import base gmap list sorting strings.
From Stdlib Require Import ZArith Lia Strings.Byte.
From S2P Require Import Prelude Mpf LbTypes LbCore AccountIndex LbGreen Containers EventSink LimitOrder TxTracker TxTrackerProofs.

Module SmallTracker.
#[local] Open Scope string_scope.
#[local] Open Scope Z_scope.
#[local] Instance z_order : HashOrder Z := list_order Z.
#[local] Instance z_order_laws : HashOrderLaws Z := list_order_laws Z.
#[local] Instance bytes_order : HashOrder bytes := list_order bytes.
#[local] Instance bytes_order_laws : HashOrderLaws bytes := list_order_laws bytes.
#[local] Instance z_ring : RingLib (list Z) Z := list_ring 256%nat Z.
#[local] Instance bytes_ring : RingLib (list bytes) bytes := list_ring 256%nat bytes.
#[local] Instance bytes_ring_laws : RingLaws (list bytes) bytes 256%nat := list_ring_laws 256%nat bytes.

(** Transactions are named by numbers; the second is confirmed in time. *)
Definition submitted : list (TrackerMsg Z string) := [Track 1 101 "swap"; Confirmed 7 3; Track 2 102 "deposit"; Track 5 103 "redeem"].
Definition messages : list (TrackerMsg Z string) := submitted ++ [Confirmed 102 9; Confirmed 8 11; Confirmed 9 13].

Lemma tracker_refines_witness :
  (tracker_run (new_tx_tracker (R := list Z) 10) messages).2 = (spec_run (R := list Z) 10 spec_new messages).2.
Proof. apply tracker_refines. cbn. repeat constructor. Defined.

Example reported_in_reverse : (tracker_run (new_tx_tracker (R := list Z) 10) messages).2 = ["swap"; "redeem"].
Proof. vm_compute. reflexivity. Qed.

Lemma tracked_tx_settles_witness :
  (exists b, Confirmed 103 b ∈ [Confirmed 102 9; Confirmed 8 11; @Confirmed Z string 9 13]) \/
  "redeem" ∈ (tracker_run (process_incoming_tx (tracker_run (new_tx_tracker (R := list Z) 10) (take 3%nat submitted)).1 5 103 "redeem")
                       [Confirmed 102 9; Confirmed 8 11; Confirmed 9 13]).2.
Proof.
  apply (tracked_tx_settles 10 (take 3%nat submitted) 5 103 "redeem" _ 9 13).
  - cbn. repeat constructor.
  - vm_compute. reflexivity.
  - vm_compute. reflexivity.
  - do 2 right. by left.
  - vm_compute. reflexivity.
  - vm_compute. discriminate.
Defined.

(** Two transactions submitted at one instant: one of the reports is lost. *)
Example same_instant_loses :
  length (tracker_run (new_tx_tracker (R := list Z) 10) [Track 1 101 "swap"; Track 1 102 "deposit"; Confirmed 7 10]).2 = 1%nat.
Proof. vm_compute. reflexivity. Qed.

(** A transaction is submitted, applied, rolled back and submitted again; blocks
    go by. *)
Definition tx (h : byte) : TxViewMut unit unit := mkTxView [h] [] [] None None [].
Definition before : list (Feed (MD := unit) (MI := unit)) := [Submitted 1 (tx x01); FromLedger (TxApplied (tx x77) 0 3 [])].
Definition after : list (Feed (MD := unit) (MI := unit)) :=
  [Submitted 2 (tx x01); Submitted 3 (tx x02); FromLedger (TxApplied (tx x78) 0 30 []); FromLedger (TxApplied (tx x79) 0 60 [])].
Definition feed : list (Feed (MD := unit) (MI := unit)) :=
  FromLedger (TxApplied (tx x01) 0 4 []) :: [] ++ FromLedger (TxUnapplied (tx x01) 0 4 []) :: after.
Definition failed : list (TxViewMut unit unit) :=
  (tracker_run (tracker_run (new_tx_tracker (R := list bytes) 10) (feed_msg <$> before)).1 (feed_msg <$> feed)).2.

Example only_second_fails : failed = [tx x02].
Proof. vm_compute. reflexivity. Qed.

Lemma rolled_back_tx_never_dropped_witness : tv_hash (tx x02) <> tv_hash (tx x01).
Proof.
  apply (rolled_back_tx_never_dropped 256%nat 10 before (tx x01) 0 4 [] 0 4 [] [] after (R := list bytes)).
  - lia.
  - cbn. repeat constructor.
  - vm_compute. reflexivity.
  - vm_compute. lia.
  - change (tx x02 ∈ failed). rewrite only_second_fails. by left.
Defined.

(** Two transactions stay in the mempool. *)
#[local] Instance identity_hash : Blake224 := fun x => x.

Lemma resident_tx_accepted_again_witness :
  [x01] ∈ [[x01]; [x02]] <-> Nat.even 2%nat = true.
Proof.
  apply (resident_tx_accepted_again (fun raw => Some raw) [x01] [x01] (replicate 3%nat [[x01]; [x02]])).
  - reflexivity.
  - by intros raw' [= ->].
  - repeat constructor; try discriminate; try (apply (bool_decide_unpack _); vm_compute; exact I).
  - vm_compute. discriminate.
  - vm_compute. reflexivity.
Defined.
End SmallTracker.
