(* ===== verification/ConstFnPool.v ===== *)
(** * Constant-product pools and their liquidity

    [data/cfmm_pool.rs], [classic_pool.rs] and [fee_switch_pool.rs] of
    [spectrum-offchain-cardano]: the classic pool, the pool with a treasury, the
    sum of them and the royalty pool; swaps, the pool in an output and back, and
    the orders that add and withdraw liquidity ([deposit.rs], [redeem.rs],
    [operation_output.rs]).

    Arithmetic on [u64] wraps where the source does not check it. *)

From stdpp Require Import base gmap list.
From Stdlib Require Import ZArith Lia Strings.Byte.
From S2P Require Import Prelude Mpf LbTypes Assets PlutusData Intention GreenOrder LbCore LbCoreProofs AccountStore.
From S2P Require Import AccountIndex RoyaltyPool LbState Containers Redeemers TxBlueprint RoyaltyDatum Graduation EventSink LimitOrder.

#[local] Notation delete := base.delete.
#[local] Notation insert := base.insert.

Definition LEGACY_FEE_NUM_MULTIPLIER : Z := 100.

(** ** What the market makers share *)

Section Sides.
Context (ax ay : AssetClass).

Definition pool_base : AssetClass := (order_canonical ax ay).1.
Definition pool_quote : AssetClass := (order_canonical ax ay).2.

(** [output] is the pool's [output_amount]. *)
Definition pool_output (output : AssetClass -> Z -> panics Z) (input : OnSide Z) : panics Z :=
  match input with OnBid input => output pool_quote input | OnAsk input => output pool_base input end.

Definition pool_static_price (x y : Z) : AbsolutePrice :=
  if (x =? y)%Z then mkRatio 1 1 else if bool_decide (ax = pool_base) then mkRatio y x else mkRatio x y.

Definition pool_real_price (output : AssetClass -> Z -> panics Z) (input : OnSide Z) : panics (option AbsolutePrice) :=
  out ← pool_output output input;
  Ok match input with OnBid input => price_new input out | OnAsk input => price_new out input end.

Definition pool_estimated_trade (output : AssetClass -> Z -> panics Z) (input : OnSide Z) : panics (option AvailableLiquidity) :=
  out ← pool_output output input;
  Ok (Some (mkAvailable (unwrap input) out)).

Definition pool_is_active (lower_bound reserves_x reserves_y : Z) (b : PoolValidation) : bool :=
  let lq_bound := (lower_bound <=? wrap_u64 (reserves_x * 2))%Z in
  let native_bound := if is_native ax then (min_n2t_lovelace b <=? reserves_x)%Z
                      else if is_native ay then (min_n2t_lovelace b <=? reserves_y)%Z else true in
  lq_bound && native_bound.

Definition pool_reserves (reserves_x reserves_y : Z) : AbsoluteReserves :=
  if bool_decide (pool_base = ax) then mkReserves reserves_x reserves_y else mkReserves reserves_y reserves_x.

Definition pool_available_liquidity `{BigNumberLib} (x_int y_int : Z) (fee_x fee_y : Ratio) (worst_price : OnSide AbsolutePrice)
    : option AvailableLiquidity :=
  let x := bn_from (as_f64 x_int) in
  let y := bn_from (as_f64 y_int) in
  fx ← ratio_to_f64 fee_x;
  fy ← ratio_to_f64 fee_y;
  let price := LbTypes.unwrap worst_price in
  let bid_price := bn_div (bn_from (as_f64 (denom price))) (bn_from (as_f64 (numer price))) in
  let ask_price := bn_div (bn_from (as_f64 (numer price))) (bn_from (as_f64 (denom price))) in
  let base_is_x := bool_decide (pool_base = ax) in
  match worst_price with
  | OnBid _ => if base_is_x then liquidity_at_price x_int y x (bn_from fy) bid_price
               else liquidity_at_price y_int x y (bn_from fx) bid_price
  | OnAsk _ => if base_is_x then liquidity_at_price y_int x y (bn_from fx) ask_price
               else liquidity_at_price x_int y x (bn_from fy) ask_price
  end.
End Sides.

(** ** The classic pool *)

Inductive ClassicPoolVer := ClassicV1 | ClassicV2.

Record ClassicPool := mkClassic {
  cp_id : Token;
  cp_reserves_x : Z;
  cp_reserves_y : Z;
  cp_liquidity : Z;
  cp_asset_x : AssetClass;
  cp_asset_y : AssetClass;
  cp_asset_lq : AssetClass;
  cp_lp_fee : Ratio;
  cp_lq_lower_bound : Z;
  cp_ver : ClassicPoolVer;
  cp_marginal_cost : ExUnits;
  cp_bounds : PoolValidation;
  cp_stake_part : option bytes;
}.

Definition classic_with (p : ClassicPool) (rx ry lq : Z) : ClassicPool :=
  mkClassic (cp_id p) rx ry lq (cp_asset_x p) (cp_asset_y p) (cp_asset_lq p) (cp_lp_fee p) (cp_lq_lower_bound p) (cp_ver p)
    (cp_marginal_cost p) (cp_bounds p) (cp_stake_part p).

Definition classic_output_amount (p : ClassicPool) (base_asset : AssetClass) (base_amount : Z) : panics Z :=
  classic_cfmm_output_amount (cp_asset_x p) (cp_asset_y p) (cp_reserves_x p) (cp_reserves_y p) base_asset base_amount
    (cp_lp_fee p) (cp_lp_fee p).
Definition classic_reward_lp (p : ClassicPool) (in_x_amount in_y_amount : Z) : option (Z * Z * Z) :=
  classic_cfmm_reward_lp (cp_reserves_x p) (cp_reserves_y p) (cp_liquidity p) in_x_amount in_y_amount.
Definition classic_shares_amount (p : ClassicPool) (burned_lq : Z) : option (Z * Z) :=
  classic_cfmm_shares_amount (cp_reserves_x p) (cp_reserves_y p) (cp_liquidity p) burned_lq.

Definition classic_swap (p : ClassicPool) (input : OnSide Z) : panics ClassicPool :=
  output ← pool_output (cp_asset_x p) (cp_asset_y p) (classic_output_amount p) input;
  let x_is_base := bool_decide (cp_asset_x p = pool_base (cp_asset_x p) (cp_asset_y p)) in
  let '(base, quote) := if x_is_base then (cp_reserves_x p, cp_reserves_y p) else (cp_reserves_y p, cp_reserves_x p) in
  let '(base, quote) :=
    match input with
    | OnBid input => (wrap_u64 (base - output), wrap_u64 (quote + input))
    | OnAsk input => (wrap_u64 (base + input), wrap_u64 (quote - output))
    end in
  Ok (if x_is_base then classic_with p base quote (cp_liquidity p) else classic_with p quote base (cp_liquidity p)).

#[export] Instance classic_maker_behavior : MakerBehavior ClassicPool := {|
  swap := fun p input => Succ (match classic_swap p input with Ok p' => p' | _ => p end);
  preserve_preview_metadata := fun _ _ rebalanced => rebalanced;
|}.

Definition none_if_panic {A} (o : panics (option A)) : option A := match o with Ok o => o | _ => None end.

#[export] Instance classic_market_maker `{BigNumberLib} : MarketMaker ClassicPool ExUnits := {|
  static_price := fun p => pool_static_price (cp_asset_x p) (cp_asset_y p) (cp_reserves_x p) (cp_reserves_y p);
  real_price := fun p i => none_if_panic (pool_real_price (cp_asset_x p) (cp_asset_y p) (classic_output_amount p) i);
  quality := cp_liquidity;
  maker_marginal_cost_hint := cp_marginal_cost;
  liquidity := fun p => pool_reserves (cp_asset_x p) (cp_asset_y p) (cp_reserves_x p) (cp_reserves_y p);
  available_liquidity_on_side := fun p =>
    pool_available_liquidity (cp_asset_x p) (cp_asset_y p) (cp_reserves_x p) (cp_reserves_y p) (cp_lp_fee p) (cp_lp_fee p);
  estimated_trade := fun p i => none_if_panic (pool_estimated_trade (cp_asset_x p) (cp_asset_y p) (classic_output_amount p) i);
  is_active := fun p => pool_is_active (cp_asset_x p) (cp_asset_y p) (cp_lq_lower_bound p) (cp_reserves_x p) (cp_reserves_y p) (cp_bounds p);
|}.
#[export] Instance classic_stable : Stable ClassicPool Token := cp_id.

(** ** The pool with a treasury *)

Inductive FeeSwitchPoolVer := FeeSwitchV1 | FeeSwitchV2 | BiDirV1.

Record FeeSwitchPool := mkFeeSwitch {
  fs_id : Token;
  fs_reserves_x : Z;
  fs_reserves_y : Z;
  fs_liquidity : Z;
  fs_asset_x : AssetClass;
  fs_asset_y : AssetClass;
  fs_asset_lq : AssetClass;
  fs_lp_fee_x : Ratio;
  fs_lp_fee_y : Ratio;
  fs_treasury_fee : Ratio;
  fs_treasury_x : Z;
  fs_treasury_y : Z;
  fs_lq_lower_bound : Z;
  fs_ver : FeeSwitchPoolVer;
  fs_marginal_cost : ExUnits;
  fs_bounds : PoolValidation;
  fs_nonce : Z;
  fs_stake_part : option bytes;
}.

Definition fee_switch_with (p : FeeSwitchPool) (rx ry lq tx ty : Z) : FeeSwitchPool :=
  mkFeeSwitch (fs_id p) rx ry lq (fs_asset_x p) (fs_asset_y p) (fs_asset_lq p) (fs_lp_fee_x p) (fs_lp_fee_y p)
    (fs_treasury_fee p) tx ty (fs_lq_lower_bound p) (fs_ver p) (fs_marginal_cost p) (fs_bounds p) (fs_nonce p) (fs_stake_part p).

Definition fs_tradable_x (p : FeeSwitchPool) : Z := wrap_u64 (fs_reserves_x p - fs_treasury_x p).
Definition fs_tradable_y (p : FeeSwitchPool) : Z := wrap_u64 (fs_reserves_y p - fs_treasury_y p).

Definition fee_switch_reward_lp (p : FeeSwitchPool) (in_x_amount in_y_amount : Z) : option (Z * Z * Z) :=
  classic_cfmm_reward_lp (fs_tradable_x p) (fs_tradable_y p) (fs_liquidity p) in_x_amount in_y_amount.
Definition fee_switch_shares_amount (p : FeeSwitchPool) (burned_lq : Z) : option (Z * Z) :=
  classic_cfmm_shares_amount (fs_tradable_x p) (fs_tradable_y p) (fs_liquidity p) burned_lq.

Section FeeSwitch.
Context `{FL : FeeLib}.

Definition fee_switch_output_amount (p : FeeSwitchPool) (base_asset : AssetClass) (base_amount : Z) : panics Z :=
  classic_cfmm_output_amount (fs_asset_x p) (fs_asset_y p) (fs_tradable_x p) (fs_tradable_y p) base_asset base_amount
    (fee_sub (fs_lp_fee_x p) (fs_treasury_fee p)) (fee_sub (fs_lp_fee_y p) (fs_treasury_fee p)).

(** Reserves and treasury of an asset. *)
Definition fee_switch_swap (p : FeeSwitchPool) (input : OnSide Z) : panics FeeSwitchPool :=
  output ← pool_output (fs_asset_x p) (fs_asset_y p) (fee_switch_output_amount p) input;
  let x_is_base := bool_decide (fs_asset_x p = pool_base (fs_asset_x p) (fs_asset_y p)) in
  let x := (fs_reserves_x p, fs_treasury_x p) in
  let y := (fs_reserves_y p, fs_treasury_y p) in
  let '(base, quote) := if x_is_base then (x, y) else (y, x) in
  '(base, quote) ←
    match input with
    | OnBid input =>
      f ← fee_share input (fs_treasury_fee p);
      Ok ((wrap_u64 (base.1 - output), base.2), (wrap_u64 (quote.1 + input), wrap_u64 (quote.2 + f)))
    | OnAsk input =>
      f ← fee_share input (fs_treasury_fee p);
      Ok ((wrap_u64 (base.1 + input), wrap_u64 (base.2 + f)), (wrap_u64 (quote.1 - output), quote.2))
    end;
  let '(x, y) := if x_is_base then (base, quote) else (quote, base) in
  Ok (fee_switch_with p x.1 y.1 (fs_liquidity p) x.2 y.2).

#[export] Instance fee_switch_maker_behavior : MakerBehavior FeeSwitchPool := {|
  swap := fun p input => Succ (match fee_switch_swap p input with Ok p' => p' | _ => p end);
  preserve_preview_metadata := fun _ _ rebalanced => rebalanced;
|}.

Definition fee_switch_available_liquidity `{BigNumberLib} (p : FeeSwitchPool) (worst_price : OnSide AbsolutePrice)
    : option AvailableLiquidity :=
  fee_x ← fee_checked_sub (fs_lp_fee_x p) (fs_treasury_fee p);
  fee_y ← fee_checked_sub (fs_lp_fee_y p) (fs_treasury_fee p);
  pool_available_liquidity (fs_asset_x p) (fs_asset_y p) (fs_tradable_x p) (fs_tradable_y p) fee_x fee_y worst_price.

#[export] Instance fee_switch_market_maker `{BigNumberLib} : MarketMaker FeeSwitchPool ExUnits := {|
  static_price := fun p => pool_static_price (fs_asset_x p) (fs_asset_y p) (fs_tradable_x p) (fs_tradable_y p);
  real_price := fun p i => none_if_panic (pool_real_price (fs_asset_x p) (fs_asset_y p) (fee_switch_output_amount p) i);
  quality := fs_liquidity;
  maker_marginal_cost_hint := fs_marginal_cost;
  liquidity := fun p => pool_reserves (fs_asset_x p) (fs_asset_y p) (fs_reserves_x p) (fs_reserves_y p);
  available_liquidity_on_side := fee_switch_available_liquidity;
  estimated_trade := fun p i => none_if_panic (pool_estimated_trade (fs_asset_x p) (fs_asset_y p) (fee_switch_output_amount p) i);
  is_active := fun p => pool_is_active (fs_asset_x p) (fs_asset_y p) (fs_lq_lower_bound p) (fs_reserves_x p) (fs_reserves_y p) (fs_bounds p);
|}.
End FeeSwitch.
#[export] Instance fee_switch_stable : Stable FeeSwitchPool Token := fs_id.

(** ** The pools in an output *)

Section Ledger.
Context `{BU : BigUintLib}.

Record CfmmContext := mkCfmmContext {
  cc_classic_v1 : ScriptInfo;
  cc_classic_v2 : ScriptInfo;
  cc_fee_switch_v1 : ScriptInfo;
  cc_fee_switch_v2 : ScriptInfo;
  cc_fee_switch_bidir : ScriptInfo;
  cc_royalty : PoolContext;
  cc_royalty_v2 : ScriptInfo;
}.
Definition cc_bounds (c : CfmmContext) : PoolValidation := pc_bounds (cc_royalty c).

Record LegacyCFMMPoolConfig := mkLegacyConfig {
  lc_pool_nft : AssetClass;
  lc_asset_x : AssetClass;
  lc_asset_y : AssetClass;
  lc_asset_lq : AssetClass;
  lc_lp_fee_num : Z;
  lc_lq_lower_bound : Z;
}.

(** [take_field(i).and_then(into_u64).unwrap_or(0)]. *)
Definition u64_or_zero (cpd : ConstrPlutusData) (i : nat) : Z := default 0%Z ('(f, _) ← take_field cpd i; into_u64 f).

Definition legacy_try_from_pd (data : PlutusData) : option LegacyCFMMPoolConfig :=
  cpd ← into_constr_pd data;
  '(f, cpd) ← take_field cpd 0; pool_nft ← asset_try_from_pd f;
  '(f, cpd) ← take_field cpd 1; ax ← asset_try_from_pd f;
  '(f, cpd) ← take_field cpd 2; ay ← asset_try_from_pd f;
  '(f, cpd) ← take_field cpd 3; alq ← asset_try_from_pd f;
  '(f, cpd) ← take_field cpd 4; lp_fee_num ← into_u64 f;
  Some (mkLegacyConfig pool_nft ax ay alq lp_fee_num (u64_or_zero cpd 6)).

Definition classic_ver_try_from_address (c : CfmmContext) (o : TransactionOutput) : option (ClassicPoolVer * ScriptInfo) :=
  h ← out_script_hash o;
  if bool_decide (script_hash (cc_classic_v1 c) = h) then Some (ClassicV1, cc_classic_v1 c)
  else if bool_decide (script_hash (cc_classic_v2 c) = h) then Some (ClassicV2, cc_classic_v2 c)
  else None.

Definition classic_try_from_ledger (c : CfmmContext) (o : TransactionOutput) : option ClassicPool :=
  '(pool_ver, info) ← classic_ver_try_from_address c o;
  let value := out_value o in
  pd ← out_datum o;
  conf ← legacy_try_from_pd pd;
  liquidity_neg ← amount_of value (lc_asset_lq conf);
  id ← into_token (lc_pool_nft conf);
  rx ← amount_of value (lc_asset_x conf);
  ry ← amount_of value (lc_asset_y conf);
  Some (mkClassic id rx ry (wrap_u64 (MAX_LQ_CAP - liquidity_neg)) (lc_asset_x conf) (lc_asset_y conf) (lc_asset_lq conf)
          (mkRatio (wrap_u64 (lc_lp_fee_num conf * LEGACY_FEE_NUM_MULTIPLIER)) FEE_DEN) (lc_lq_lower_bound conf) pool_ver
          (info_marginal_cost info) (cc_bounds c) (stake_script_hash (out_address o))).

(** Both configurations of the pool with a treasury; the plain one has one fee
    for the two assets. *)
Record FeeSwitchConfig := mkFeeSwitchConfig {
  fc_pool_nft : AssetClass;
  fc_asset_x : AssetClass;
  fc_asset_y : AssetClass;
  fc_asset_lq : AssetClass;
  fc_lp_fee_num_x : Z;
  fc_lp_fee_num_y : Z;
  fc_treasury_fee_num : Z;
  fc_treasury_x : Z;
  fc_treasury_y : Z;
  fc_lq_lower_bound : Z;
}.

Definition fee_switch_try_from_pd (data : PlutusData) : option FeeSwitchConfig :=
  cpd ← into_constr_pd data;
  '(f, cpd) ← take_field cpd 0; pool_nft ← asset_try_from_pd f;
  '(f, cpd) ← take_field cpd 1; ax ← asset_try_from_pd f;
  '(f, cpd) ← take_field cpd 2; ay ← asset_try_from_pd f;
  '(f, cpd) ← take_field cpd 3; alq ← asset_try_from_pd f;
  '(f, cpd) ← take_field cpd 4; lp_fee_num ← into_u64 f;
  '(f, cpd) ← take_field cpd 5; treasury_fee_num ← into_u64 f;
  '(f, cpd) ← take_field cpd 6; tx ← into_u64 f;
  '(f, cpd) ← take_field cpd 7; ty ← into_u64 f;
  Some (mkFeeSwitchConfig pool_nft ax ay alq lp_fee_num lp_fee_num treasury_fee_num tx ty (u64_or_zero cpd 9)).

Definition bidirectional_try_from_pd (data : PlutusData) : option FeeSwitchConfig :=
  cpd ← into_constr_pd data;
  '(f, cpd) ← take_field cpd 0; pool_nft ← asset_try_from_pd f;
  '(f, cpd) ← take_field cpd 1; ax ← asset_try_from_pd f;
  '(f, cpd) ← take_field cpd 2; ay ← asset_try_from_pd f;
  '(f, cpd) ← take_field cpd 3; alq ← asset_try_from_pd f;
  '(f, cpd) ← take_field cpd 4; lp_fee_num_x ← into_u64 f;
  '(f, cpd) ← take_field cpd 5; lp_fee_num_y ← into_u64 f;
  '(f, cpd) ← take_field cpd 6; treasury_fee_num ← into_u64 f;
  '(f, cpd) ← take_field cpd 7; tx ← into_u64 f;
  '(f, cpd) ← take_field cpd 8; ty ← into_u64 f;
  Some (mkFeeSwitchConfig pool_nft ax ay alq lp_fee_num_x lp_fee_num_y treasury_fee_num tx ty (u64_or_zero cpd 10)).

Definition fee_switch_ver_try_from_address (c : CfmmContext) (o : TransactionOutput) : option (FeeSwitchPoolVer * ScriptInfo) :=
  h ← out_script_hash o;
  if bool_decide (script_hash (cc_fee_switch_v1 c) = h) then Some (FeeSwitchV1, cc_fee_switch_v1 c)
  else if bool_decide (script_hash (cc_fee_switch_v2 c) = h) then Some (FeeSwitchV2, cc_fee_switch_v2 c)
  else if bool_decide (script_hash (cc_fee_switch_bidir c) = h) then Some (BiDirV1, cc_fee_switch_bidir c)
  else None.

Definition fee_switch_config (v : FeeSwitchPoolVer) (pd : PlutusData) : option FeeSwitchConfig :=
  match v with FeeSwitchV1 | FeeSwitchV2 => fee_switch_try_from_pd pd | BiDirV1 => bidirectional_try_from_pd pd end.

(** The two branches of the source differ in the configuration they parse. *)
Definition fee_switch_try_from_ledger (c : CfmmContext) (o : TransactionOutput) : option FeeSwitchPool :=
  '(pool_ver, info) ← fee_switch_ver_try_from_address c o;
  let value := out_value o in
  pd ← out_datum o;
  conf ← fee_switch_config pool_ver pd;
  liquidity_neg ← amount_of value (fc_asset_lq conf);
  lov ← amount_of value Native;
  rx ← amount_of value (fc_asset_x conf);
  ry ← amount_of value (fc_asset_y conf);
  if reserves_accepted (fc_asset_x conf) (fc_asset_y conf) rx ry lov [fc_treasury_x conf] [fc_treasury_y conf] (cc_bounds c) then
    id ← into_token (fc_pool_nft conf);
    Some (mkFeeSwitch id rx ry (wrap_u64 (MAX_LQ_CAP - liquidity_neg)) (fc_asset_x conf) (fc_asset_y conf) (fc_asset_lq conf)
            (mkRatio (fc_lp_fee_num_x conf) FEE_DEN) (mkRatio (fc_lp_fee_num_y conf) FEE_DEN)
            (mkRatio (fc_treasury_fee_num conf) FEE_DEN) (fc_treasury_x conf) (fc_treasury_y conf) (fc_lq_lower_bound conf)
            pool_ver (info_marginal_cost info) (cc_bounds c) 0 (stake_script_hash (out_address o)))
  else None.

(** *** Back into an output *)

Record ImmutablePoolUtxo := mkImmutable {
  im_address : Address;
  im_value : Z;
  im_datum : option PlutusData;
  im_script_ref : option bytes;
}.
Definition immutable_of (o : TransactionOutput) : ImmutablePoolUtxo :=
  mkImmutable (out_address o) (coin (out_value o)) (out_datum o) (out_script_ref o).

(** [MultiAsset::set]. *)
Definition asset_set (ma : gmap bytes (gmap bytes Z)) (t : Token) (amount : Z) : gmap bytes (gmap bytes Z) :=
  <[policy t := <[cml_name (asset_name t) := amount]> (default ∅ (ma !! policy t))]> ma.

Definition unwrap_token (a : AssetClass) : panics Token := match into_token a with Some t => Ok t | None => Panic end.

(** The value of a pool's output: the two reserves, the rest of the liquidity
    tokens and the pool's own token. *)
Definition pool_value (ax ay alq : AssetClass) (id : Token) (rx ry lq immutable_value : Z) : panics Value :=
  '(coins, ma) ←
    (if is_native ax then y ← unwrap_token ay; Ok (rx, asset_set ∅ y ry)
     else if is_native ay then x ← unwrap_token ax; Ok (ry, asset_set ∅ x rx)
     else x ← unwrap_token ax; y ← unwrap_token ay; Ok (immutable_value, asset_set (asset_set ∅ x rx) y ry));
  l ← unwrap_token alq;
  let ma := asset_set ma l (wrap_u64 (MAX_LQ_CAP - lq)) in
  Ok (mkValue coins (asset_set ma id 1)).

(** Only a base address has a staking credential to replace. *)
Definition update_staking_cred (a : Address) (c : Credential) : Address :=
  match staking_cred a with Some _ => mkAddress (payment_cred a) (Some c) (address_rest a) | None => a end.
Definition pool_address (a : Address) (stake_part : option bytes) : Address :=
  match stake_part with Some h => update_staking_cred a (ScriptCred h) | None => a end.

Definition classic_into_ledger (p : ClassicPool) (im : ImmutablePoolUtxo) : panics TransactionOutput :=
  value ← pool_value (cp_asset_x p) (cp_asset_y p) (cp_asset_lq p) (cp_id p) (cp_reserves_x p) (cp_reserves_y p) (cp_liquidity p) (im_value im);
  Ok (mkTxOut (pool_address (im_address im) (cp_stake_part p)) value (im_datum im) (im_script_ref im)).

Definition update_pd_fee_switch (data : PlutusData) (tx ty : Z) : panics PlutusData :=
  match into_constr_pd data with
  | Some cpd =>
    cpd ← set_field cpd 6 (int_into_pd tx);
    cpd ← set_field cpd 7 (int_into_pd ty);
    Ok (PdConstr (alternative cpd) (fields cpd))
  | None => Panic
  end.

Definition fee_switch_into_ledger (p : FeeSwitchPool) (im : ImmutablePoolUtxo) : panics TransactionOutput :=
  value ← pool_value (fs_asset_x p) (fs_asset_y p) (fs_asset_lq p) (fs_id p) (fs_reserves_x p) (fs_reserves_y p) (fs_liquidity p) (im_value im);
  datum ← match im_datum im with
          | Some d => d ← update_pd_fee_switch d (fs_treasury_x p) (fs_treasury_y p); Ok (Some d)
          | None => Ok None
          end;
  Ok (mkTxOut (pool_address (im_address im) (fs_stake_part p)) value datum (im_script_ref im)).

(** ** Any constant-product pool *)

Inductive ConstFnPool := Classic (p : ClassicPool) | FeeSwitch (p : FeeSwitchPool) | Royalty (p : RoyaltyPool).

Definition const_fn_try_from_ledger (c : CfmmContext) (o : TransactionOutput) : option ConstFnPool :=
  match Classic <$> classic_try_from_ledger c o with
  | Some p => Some p
  | None =>
    match FeeSwitch <$> fee_switch_try_from_ledger c o with
    | Some p => Some p
    | None => Royalty <$> royalty_try_from_ledger (cc_royalty c) (cc_royalty_v2 c) o
    end
  end.
End Ledger.

Definition const_fn_output_amount `{FeeLib} (p : ConstFnPool) : AssetClass -> Z -> panics Z :=
  match p with
  | Classic p => classic_output_amount p | FeeSwitch p => fee_switch_output_amount p | Royalty p => royalty_output_amount p
  end.
Definition const_fn_reward_lp (p : ConstFnPool) : Z -> Z -> option (Z * Z * Z) :=
  match p with Classic p => classic_reward_lp p | FeeSwitch p => fee_switch_reward_lp p | Royalty p => royalty_reward_lp p end.
Definition const_fn_shares_amount (p : ConstFnPool) : Z -> option (Z * Z) :=
  match p with Classic p => classic_shares_amount p | FeeSwitch p => fee_switch_shares_amount p | Royalty p => royalty_shares_amount p end.
Definition const_fn_swap `{FeeLib} (p : ConstFnPool) (input : OnSide Z) : Next ConstFnPool Empty_set :=
  match p with
  | Classic p => map_succ Classic (swap p input)
  | FeeSwitch p => map_succ FeeSwitch (swap p input)
  | Royalty p => map_succ Royalty (swap p input)
  end.
Definition const_fn_stable_id (p : ConstFnPool) : Token :=
  match p with Classic p => stable_id p | FeeSwitch p => stable_id p | Royalty p => stable_id p end.

(** [AbsolutePoolReserves]: the amounts an order on liquidity changes. *)
Definition royalty_with (p : RoyaltyPool) (rx ry lq : Z) : RoyaltyPool :=
  mkRoyaltyPool (rp_id p) rx ry lq (asset_x p) (asset_y p) (asset_lq p) (lp_fee p) (treasury_fee p) (treasury_x p) (treasury_y p)
    (first_royalty_fee p) (second_royalty_fee p) (first_royalty_x p) (first_royalty_y p) (second_royalty_x p) (second_royalty_y p)
    (lq_lower_bound p) (admin_address p) (treasury_address p) (first_royalty_pub_key p) (second_royalty_pub_key p) (ver p)
    (marginal_cost p) (bounds p) (rp_nonce p) (stake_part_script_hash p).

Definition absolute_reserves (p : ConstFnPool) : Z * Z * Z :=
  match p with
  | Classic p => (cp_reserves_x p, cp_reserves_y p, cp_liquidity p)
  | FeeSwitch p => (fs_reserves_x p, fs_reserves_y p, fs_liquidity p)
  | Royalty p => (reserves_x p, reserves_y p, rp_liquidity p)
  end.
Definition with_reserves (p : ConstFnPool) (rx ry lq : Z) : ConstFnPool :=
  match p with
  | Classic p => Classic (classic_with p rx ry lq)
  | FeeSwitch p => FeeSwitch (fee_switch_with p rx ry lq (fs_treasury_x p) (fs_treasury_y p))
  | Royalty p => Royalty (royalty_with p rx ry lq)
  end.

(** ** Orders on liquidity *)

Inductive OrderType := BalanceFn | ConstFnFeeSwitch | ConstFn | StableFn | RoyaltyConstFnV1 | RoyaltyConstFnV2.

Record ClassicalOrder (Ord : Type) := mkOrder { co_id : OutputRef; co_pool_id : Token; co_order : Ord }.
Arguments mkOrder {Ord} _ _ _.
Arguments co_id {Ord} _.
Arguments co_pool_id {Ord} _.
Arguments co_order {Ord} _.

Inductive ApplyOrderError (O : Type) :=
| Slippage (order : O) (quote_amount expected_amount : Z)
| LowBatcherFee (order : O) (batcher_fee ada_deposit : Z)
| Incompatible (order : O)
| VerificationFailed (order : O).
Arguments Slippage {O} _ _ _.
Arguments LowBatcherFee {O} _ _ _.
Arguments Incompatible {O} _.
Arguments VerificationFailed {O} _.

Inductive OperationResultOutputs (T : Type) :=
| SingleOutput (o : T)
| MultipleOutputs (action_result_output : T) (sub_action_utxos : list T).
Arguments SingleOutput {T} _.
Arguments MultipleOutputs {T} _ _.

(** The witness is a script and its redeemer, a function of the indexes of the
    pool's and the order's inputs. *)
Record OperationResultBlueprint (T : Type) := mkResult {
  or_outputs : OperationResultOutputs T;
  or_witness_script : option (DeployedValidatorErased * (Z -> Z -> PlutusData));
  or_validator : DeployedValidatorErased;
  or_strict_fee : option Z;
}.
Arguments mkResult {T} _ _ _ _.
Arguments or_outputs {T} _.
Arguments or_witness_script {T} _.
Arguments or_validator {T} _.
Arguments or_strict_fee {T} _.

Definition single_output {T} (output : T) (validator : DeployedValidatorErased) : OperationResultBlueprint T :=
  mkResult (SingleOutput output) None validator None.
Definition or_output {T} (r : OperationResultBlueprint T) : T :=
  match or_outputs r with SingleOutput o | MultipleOutputs o _ => o end.

Record Deposit := mkDeposit {
  dp_pool_nft : Token;
  dp_token_x : AssetClass;
  dp_token_x_amount : Z;
  dp_token_y : AssetClass;
  dp_token_y_amount : Z;
  dp_token_lq : AssetClass;
  dp_ex_fee : Z;
  dp_reward_pkh : bytes;
  dp_reward_stake_pkh : option bytes;
  dp_collateral_ada : Z;
  dp_order_type : OrderType;
}.

Record DepositOutput := mkDepositOutput {
  do_token_x_asset : AssetClass;
  do_token_x_charge_amount : Z;
  do_token_y_asset : AssetClass;
  do_token_y_charge_amount : Z;
  do_token_lq_asset : AssetClass;
  do_token_lq_amount : Z;
  do_ada_residue : Z;
  do_redeemer_pkh : bytes;
  do_redeemer_stake_pkh : option bytes;
}.

(** Lovelace pays the execution and the collateral. *)
Definition net_amount (token : AssetClass) (amount ex_fee collateral_ada : Z) : option Z :=
  if is_native token then r ← checked_sub amount ex_fee; checked_sub r collateral_ada else Some amount.

(** [validators] are the deployed validators of deposits, by the kind of pool. *)
Definition apply_deposit (validators : OrderType -> DeployedValidatorErased) (p : ConstFnPool) (deposit : ClassicalOrder Deposit)
    : outcome (ApplyOrderError (ClassicalOrder Deposit)) (ConstFnPool * OperationResultBlueprint DepositOutput) :=
  let order := co_order deposit in
  let validator := validators (dp_order_type order) in
  let or_incompatible {A} (o : option A) := ok_or o (Incompatible deposit) in
  net_x ← or_incompatible (net_amount (dp_token_x order) (dp_token_x_amount order) (dp_ex_fee order) (dp_collateral_ada order));
  net_y ← or_incompatible (net_amount (dp_token_y order) (dp_token_y_amount order) (dp_ex_fee order) (dp_collateral_ada order));
  let '(rx, ry, lq) := absolute_reserves p in
  '(unlocked_lq, change_x, change_y) ← or_incompatible (const_fn_reward_lp p net_x net_y);
  rx ← or_incompatible (r ← checked_add rx net_x; checked_sub r change_x);
  ry ← or_incompatible (r ← checked_add ry net_y; checked_sub r change_y);
  lq ← or_incompatible (checked_add lq unlocked_lq);
  Ok (with_reserves p rx ry lq,
      single_output (mkDepositOutput (dp_token_x order) change_x (dp_token_y order) change_y (dp_token_lq order) unlocked_lq
                  (dp_collateral_ada order) (dp_reward_pkh order) (dp_reward_stake_pkh order)) validator).

Record Redeem := mkRedeem {
  rd_pool_nft : Token;
  rd_token_x : AssetClass;
  rd_token_y : AssetClass;
  rd_token_lq : AssetClass;
  rd_token_lq_amount : Z;
  rd_ex_fee : Z;
  rd_reward_pkh : bytes;
  rd_reward_stake_pkh : option bytes;
  rd_collateral_ada : Z;
  rd_order_type : OrderType;
}.

Record RedeemOutput := mkRedeemOutput {
  ro_token_x_asset : AssetClass;
  ro_token_x_amount : Z;
  ro_token_y_asset : AssetClass;
  ro_token_y_amount : Z;
  ro_ada_residue : Z;
  ro_redeemer_pkh : bytes;
  ro_redeemer_stake_pkh : option bytes;
}.

Definition apply_redeem (validators : OrderType -> DeployedValidatorErased) (p : ConstFnPool) (redeem : ClassicalOrder Redeem)
    : outcome (ApplyOrderError (ClassicalOrder Redeem)) (ConstFnPool * OperationResultBlueprint RedeemOutput) :=
  let order := co_order redeem in
  let validator := validators (rd_order_type order) in
  let or_incompatible {A} (o : option A) := ok_or o (Incompatible redeem) in
  '(x_amount, y_amount) ← or_incompatible (const_fn_shares_amount p (rd_token_lq_amount order));
  let '(rx, ry, lq) := absolute_reserves p in
  rx ← or_incompatible (checked_sub rx x_amount);
  ry ← or_incompatible (checked_sub ry y_amount);
  lq ← or_incompatible (checked_sub lq (rd_token_lq_amount order));
  Ok (with_reserves p rx ry lq,
      single_output (mkRedeemOutput (rd_token_x order) x_amount (rd_token_y order) y_amount (rd_collateral_ada order)
                  (rd_reward_pkh order) (rd_reward_stake_pkh order)) validator).

(** *** The orders in an output *)

Section Orders.
Context `{BU : BigUintLib}.

(** The scripts of an order, by the kind of pool, in the order in which the
    source compares them. *)
Definition find_order_type (script_of : OrderType -> bytes) (types : list OrderType) (o : TransactionOutput) : option OrderType :=
  head (filter (fun t => test_address (script_of t) o = true) types).

Record OrderConfig := mkOrderConfig {
  oc_pool_nft : AssetClass;
  oc_token_x : AssetClass;
  oc_token_y : AssetClass;
  oc_token_lq : AssetClass;
  oc_ex_fee : Z;
  oc_reward_pkh : bytes;
  oc_reward_stake_pkh : option bytes;
}.

(** The fields both kinds of order have. *)
Definition order_config (cpd : ConstrPlutusData) : option (OrderConfig * ConstrPlutusData) :=
  let '(stake_pkh, cpd) :=
    match take_field cpd 6 with
    | Some (f, cpd) => (cs ← into_constr_pd f; '(g, _) ← take_field cs 0; g ← into_bytes g; try_array 28 g, cpd)
    | None => (None, cpd)
    end in
  '(f, cpd) ← take_field cpd 0; pool_nft ← asset_try_from_pd f;
  '(f, cpd) ← take_field cpd 1; token_x ← asset_try_from_pd f;
  '(f, cpd) ← take_field cpd 2; token_y ← asset_try_from_pd f;
  '(f, cpd) ← take_field cpd 3; token_lq ← asset_try_from_pd f;
  '(f, cpd) ← take_field cpd 4; ex_fee ← into_u64 f;
  '(f, cpd) ← take_field cpd 5; f ← into_bytes f; reward_pkh ← try_array 28 f;
  Some (mkOrderConfig pool_nft token_x token_y token_lq ex_fee reward_pkh stake_pkh, cpd).

Definition deposit_try_from_ledger (script_of : OrderType -> bytes) (min_collateral_ada : Z) (oref : OutputRef) (o : TransactionOutput)
    : option (ClassicalOrder Deposit) :=
  order_type ← find_order_type script_of [ConstFnFeeSwitch; BalanceFn; ConstFn; StableFn; RoyaltyConstFnV1; RoyaltyConstFnV2] o;
  let value := out_value o in
  pd ← out_datum o;
  cpd ← into_constr_pd pd;
  '(conf, cpd) ← order_config cpd;
  '(f, _) ← take_field cpd 7; collateral_ada ← into_u64 f;
  pool_id ← into_token (oc_pool_nft conf);
  if (min_collateral_ada <=? collateral_ada)%Z then
    Some (mkOrder oref pool_id
            (mkDeposit pool_id (oc_token_x conf) (amount value (oc_token_x conf)) (oc_token_y conf) (amount value (oc_token_y conf))
               (oc_token_lq conf) (oc_ex_fee conf) (oc_reward_pkh conf) (oc_reward_stake_pkh conf) collateral_ada order_type))
  else None.

Definition redeem_try_from_ledger (script_of : OrderType -> bytes) (min_collateral_ada : Z) (oref : OutputRef) (o : TransactionOutput)
    : option (ClassicalOrder Redeem) :=
  order_type ← find_order_type script_of [ConstFnFeeSwitch; BalanceFn; ConstFn; RoyaltyConstFnV1; RoyaltyConstFnV2; StableFn] o;
  let value := out_value o in
  pd ← out_datum o;
  cpd ← into_constr_pd pd;
  '(conf, _) ← order_config cpd;
  token_lq_amount ← amount_of value (oc_token_lq conf);
  lov ← amount_of value Native;
  let collateral_ada := wrap_u64 (lov - oc_ex_fee conf) in
  pool_id ← into_token (oc_pool_nft conf);
  if (min_collateral_ada <=? collateral_ada)%Z then
    Some (mkOrder oref pool_id
            (mkRedeem pool_id (oc_token_x conf) (oc_token_y conf) (oc_token_lq conf) token_lq_amount (oc_ex_fee conf)
               (oc_reward_pkh conf) (oc_reward_stake_pkh conf) collateral_ada order_type))
  else None.
End Orders.

(** *** What the orders pay out *)

Section Outputs.
Context `{AL : AddressLib} (network_id : Z).

(** [SafeAssetBundleOps::safe_set]: no entry for nothing. *)
Definition safe_set (ma : gmap bytes (gmap bytes Z)) (t : Token) (amount : Z) : gmap bytes (gmap bytes Z) :=
  if (amount =? 0)%Z then alter (delete (cml_name (asset_name t))) (policy t) ma else asset_set ma t amount.

Definition redeemer_addr (pkh : bytes) (stake_pkh : option bytes) : Address :=
  match stake_pkh with
  | Some s => base_address network_id (PubKeyCred pkh) (PubKeyCred s)
  | None => enterprise_address network_id (PubKeyCred pkh)
  end.

Definition charge_pair (x y : AssetClass) (x_amount y_amount : Z) : panics (Z * gmap bytes (gmap bytes Z)) :=
  match is_native x, is_native y with
  | true, false => t ← unwrap_token y; Ok (x_amount, safe_set ∅ t y_amount)
  | false, true => t ← unwrap_token x; Ok (y_amount, safe_set ∅ t x_amount)
  | false, false => tx ← unwrap_token x; ty ← unwrap_token y; Ok (0%Z, safe_set (safe_set ∅ tx x_amount) ty y_amount)
  | true, true => Ok (wrap_u64 (x_amount + y_amount), ∅)
  end.

Definition deposit_into_ledger (d : DepositOutput) : panics TransactionOutput :=
  '(ada_from_charge_pair, ma) ←
    charge_pair (do_token_x_asset d) (do_token_y_asset d) (do_token_x_charge_amount d) (do_token_y_charge_amount d);
  lq ← unwrap_token (do_token_lq_asset d);
  Ok (mkTxOut (redeemer_addr (do_redeemer_pkh d) (do_redeemer_stake_pkh d))
        (mkValue (wrap_u64 (do_ada_residue d + ada_from_charge_pair)) (asset_set ma lq (do_token_lq_amount d))) None None).

Definition redeem_into_ledger (r : RedeemOutput) : panics TransactionOutput :=
  '(ada_from_charge_pair, ma) ← charge_pair (ro_token_x_asset r) (ro_token_y_asset r) (ro_token_x_amount r) (ro_token_y_amount r);
  Ok (mkTxOut (redeemer_addr (ro_redeemer_pkh r) (ro_redeemer_stake_pkh r))
        (mkValue (wrap_u64 (ro_ada_residue r + ada_from_charge_pair)) ma) None None).
End Outputs.
