(* ===== verification/ConstFnPoolProofs.v ===== *)
(** * Liquidity is never diluted

    Theorems about [ConstFnPool.v]: through deposits and redemptions a share of
    the liquidity never loses value, what is deposited is not worth more when it
    is redeemed, and a pool that is written to an output is read from it. *)

From stdpp Require Import base gmap list.
From Stdlib Require Import ZArith Lia Strings.Byte.
From S2P Require Import Prelude Mpf LbTypes Assets PlutusData Intention GreenOrder LbCore LbCoreProofs AccountStore.
From S2P Require Import AccountIndex RoyaltyPool LbState Containers Redeemers TxBlueprint RoyaltyDatum RoyaltyDatumProofs.
From S2P Require Import Graduation EventSink LimitOrder ConstFnPool.

#[local] Notation delete := base.delete.
#[local] Notation insert := base.insert.

(** ** The arithmetic of shares *)

Section Shares.
Open Scope Z_scope.

Lemma wrap_u64_le z : 0 <= z -> 0 <= wrap_u64 z <= z.
Proof. unfold wrap_u64. intros. pose proof (Z.mod_pos_bound z (2 ^ 64)). pose proof (Z.mod_le z (2 ^ 64)). lia. Qed.
Lemma wrap_u128_le z : 0 <= z -> 0 <= wrap_u128 z <= z.
Proof. unfold wrap_u128. intros. pose proof (Z.mod_pos_bound z (2 ^ 128)). pose proof (Z.mod_le z (2 ^ 128)). lia. Qed.

Lemma checked_div_inv a b q : checked_div a b = Some q -> 0 <= a -> 0 <= b -> 0 < b /\ 0 <= q /\ q * b <= a < q * b + b.
Proof.
  unfold checked_div. destruct (Z.eqb_spec b 0); [done|]. intros [= <-] Ha Hb. split; [lia|].
  pose proof (Z.div_mod a b ltac:(done)). pose proof (Z.mod_pos_bound a b). pose proof (Z.div_pos a b). nia.
Qed.

(** What is kept of a deposit is worth at least what is minted for it. *)
Lemma reward_lp_fair x y L dx dy u cx cy : 0 <= x -> 0 <= y -> 0 <= L -> 0 <= dx -> 0 <= dy ->
  classic_cfmm_reward_lp x y L dx dy = Some (u, cx, cy) ->
  0 <= u /\ 0 <= cx <= dx /\ 0 <= cy <= dy /\ u * x <= (dx - cx) * L /\ u * y <= (dy - cy) * L.
Proof.
  intros Hx Hy HL Hdx Hdy. unfold classic_cfmm_reward_lp.
  destruct (checked_div (dx * L) x) as [mx|] eqn:Ex; [|done]. apply checked_div_inv in Ex as (? & ? & ?); [|nia..].
  cbn [mbind option_bind]. destruct (checked_div (dy * L) y) as [my|] eqn:Ey; [|done]. apply checked_div_inv in Ey as (? & ? & ?); [|nia..].
  cbn [mbind option_bind]. pose proof (wrap_u64_le (Z.min mx my) ltac:(lia)) as Hu.
  destruct (Z.eqb_spec mx my) as [->|]; cbn [mbind option_bind].
  - intros [= <- <- <-]. set (w := wrap_u64 _) in *. split_and!; try lia; nia.
  - destruct (Z.ltb_spec mx my).
    + pose proof (wrap_u128_le ((my - mx) * y) ltac:(nia)) as Hw.
      destruct (checked_div _ L) as [c|] eqn:Ec; [|done]. apply checked_div_inv in Ec as (? & ? & ?); [|lia..].
      cbn [mbind option_bind]. pose proof (wrap_u64_le c ltac:(lia)). intros [= <- <- <-].
      set (w := wrap_u64 (Z.min mx my)) in *. set (wc := wrap_u64 c) in *. set (t := wrap_u128 _) in *.
      assert (wc * L <= (my - mx) * y) by nia. assert (w * y <= (dy - wc) * L) by nia. split_and!; try lia; nia.
    + pose proof (wrap_u128_le ((mx - my) * x) ltac:(nia)) as Hw.
      destruct (checked_div _ L) as [c|] eqn:Ec; [|done]. apply checked_div_inv in Ec as (? & ? & ?); [|lia..].
      cbn [mbind option_bind]. pose proof (wrap_u64_le c ltac:(lia)). intros [= <- <- <-].
      set (w := wrap_u64 (Z.min mx my)) in *. set (wc := wrap_u64 c) in *. set (t := wrap_u128 _) in *.
      assert (wc * L <= (mx - my) * x) by nia. assert (w * x <= (dx - wc) * L) by nia. split_and!; try lia; nia.
Qed.

Lemma shares_fair x y L b xa ya : 0 <= x -> 0 <= y -> 0 <= L -> 0 <= b -> classic_cfmm_shares_amount x y L b = Some (xa, ya) ->
  0 < L /\ 0 <= xa /\ 0 <= ya /\ xa * L <= b * x /\ ya * L <= b * y.
Proof.
  intros Hx Hy HL Hb. unfold classic_cfmm_shares_amount.
  destruct (checked_div (b * x) L) as [q|] eqn:Ex; [|done]. apply checked_div_inv in Ex as (? & ? & ?); [|nia..].
  cbn [mbind option_bind]. destruct (checked_div (b * y) L) as [r|] eqn:Ey; [|done]. apply checked_div_inv in Ey as (? & ? & ?); [|nia..].
  cbn [mbind option_bind]. pose proof (wrap_u64_le q ltac:(lia)). pose proof (wrap_u64_le r ltac:(lia)). intros [= <- <-].
  set (w := wrap_u64 q) in *. set (w' := wrap_u64 r) in *. split_and!; try lia; nia.
Qed.
End Shares.

(** ** Pools and their shares *)

(** What a pool holds that is not the liquidity providers'. *)
Definition withheld (p : ConstFnPool) : Z * Z :=
  match p with
  | Classic _ => (0, 0)%Z
  | FeeSwitch p => (fs_treasury_x p, fs_treasury_y p)
  | Royalty p => (treasury_x p + first_royalty_x p + second_royalty_x p, treasury_y p + first_royalty_y p + second_royalty_y p)%Z
  end.
Definition lp_x (p : ConstFnPool) : Z := ((absolute_reserves p).1.1 - (withheld p).1)%Z.
Definition lp_y (p : ConstFnPool) : Z := ((absolute_reserves p).1.2 - (withheld p).2)%Z.
Definition lp_shares (p : ConstFnPool) : Z := (absolute_reserves p).2.

Definition parts_positive (p : ConstFnPool) : Prop :=
  match p with
  | Royalty p => (0 <= treasury_x p /\ 0 <= first_royalty_x p /\ 0 <= second_royalty_x p /\
                  0 <= treasury_y p /\ 0 <= first_royalty_y p /\ 0 <= second_royalty_y p)%Z
  | _ => True
  end.

Record pool_sound (p : ConstFnPool) : Prop := {
  ps_x : (0 <= (withheld p).1 <= (absolute_reserves p).1.1 /\ (absolute_reserves p).1.1 <= u64_max)%Z;
  ps_y : (0 <= (withheld p).2 <= (absolute_reserves p).1.2 /\ (absolute_reserves p).1.2 <= u64_max)%Z;
  ps_lq : is_u64 (lp_shares p);
  ps_parts : parts_positive p;
}.

Lemma tradable_exact b : (0 <= b_treasury b)%Z -> (0 <= b_first b)%Z -> (0 <= b_second b)%Z ->
  (b_treasury b + b_first b + b_second b <= b_reserves b)%Z -> (b_reserves b <= u64_max)%Z ->
  tradable b = (b_reserves b - (b_treasury b + b_first b + b_second b))%Z.
Proof.
  intros. unfold tradable. rewrite (wrap_u64_small (b_reserves b - b_treasury b)) by (unfold is_u64; lia).
  rewrite (wrap_u64_small (_ - b_first b)) by (unfold is_u64; lia). rewrite wrap_u64_small by (unfold is_u64; lia). lia.
Qed.

Lemma reward_lp_tradable p dx dy : pool_sound p -> const_fn_reward_lp p dx dy = classic_cfmm_reward_lp (lp_x p) (lp_y p) (lp_shares p) dx dy.
Proof.
  intros [Hx Hy _ Hp]. unfold lp_x, lp_y, lp_shares. unfold u64_max in *. destruct p as [p|p|p]; cbn in *.
  - unfold classic_reward_lp. by rewrite !Z.sub_0_r.
  - unfold fee_switch_reward_lp, fs_tradable_x, fs_tradable_y. by rewrite !wrap_u64_small by (unfold is_u64, u64_max; lia).
  - unfold royalty_reward_lp. by rewrite !tradable_exact by (unfold u64_max; cbn; lia).
Qed.

Lemma shares_tradable p b : pool_sound p -> const_fn_shares_amount p b = classic_cfmm_shares_amount (lp_x p) (lp_y p) (lp_shares p) b.
Proof.
  intros [Hx Hy _ Hp]. unfold lp_x, lp_y, lp_shares. unfold u64_max in *. destruct p as [p|p|p]; cbn in *.
  - unfold classic_shares_amount. by rewrite !Z.sub_0_r.
  - unfold fee_switch_shares_amount, fs_tradable_x, fs_tradable_y. by rewrite !wrap_u64_small by (unfold is_u64, u64_max; lia).
  - unfold royalty_shares_amount. by rewrite !tradable_exact by (unfold u64_max; cbn; lia).
Qed.

Lemma with_reserves_absolute p rx ry lq : absolute_reserves (with_reserves p rx ry lq) = (rx, ry, lq).
Proof. by destruct p. Qed.
Lemma with_reserves_withheld p rx ry lq : withheld (with_reserves p rx ry lq) = withheld p.
Proof. by destruct p. Qed.
Lemma with_reserves_parts p rx ry lq : parts_positive (with_reserves p rx ry lq) <-> parts_positive p.
Proof. by destruct p. Qed.

(** A share is worth at least as much of both assets. *)
Definition shares_worth (p p' : ConstFnPool) : Prop :=
  (lp_x p * lp_shares p' <= lp_x p' * lp_shares p /\ lp_y p * lp_shares p' <= lp_y p' * lp_shares p)%Z.

(** The order that is read from an output has these amounts. *)
Definition deposit_u64 (d : Deposit) : Prop := is_u64 (dp_token_x_amount d) /\ is_u64 (dp_token_y_amount d) /\ is_u64 (dp_ex_fee d) /\ is_u64 (dp_collateral_ada d).

Lemma checked_add_inv a b c : checked_add a b = Some c -> c = (a + b)%Z /\ (c <= u64_max)%Z.
Proof. unfold checked_add. destruct (Z.leb_spec (a + b) u64_max); [|done]. intros [= <-]. done. Qed.

Lemma net_amount_positive token amount ex_fee collateral n : is_u64 amount -> is_u64 ex_fee -> is_u64 collateral ->
  net_amount token amount ex_fee collateral = Some n -> (0 <= n <= amount)%Z.
Proof.
  unfold net_amount, is_u64. intros Ha He Hc. destruct (is_native token); [|intros [= <-]; lia].
  destruct (checked_sub amount ex_fee) as [r|] eqn:E1; [|done]. apply checked_sub_inv in E1 as [? ->]. cbn [mbind option_bind].
  intros [? ->]%checked_sub_inv. lia.
Qed.

(** What a deposit does. *)
Lemma apply_deposit_inv v p d p' r : apply_deposit v p d = Ok (p', r) ->
  exists nx ny u cx cy,
    net_amount (dp_token_x (co_order d)) (dp_token_x_amount (co_order d)) (dp_ex_fee (co_order d)) (dp_collateral_ada (co_order d)) = Some nx /\
    net_amount (dp_token_y (co_order d)) (dp_token_y_amount (co_order d)) (dp_ex_fee (co_order d)) (dp_collateral_ada (co_order d)) = Some ny /\
    const_fn_reward_lp p nx ny = Some (u, cx, cy) /\
    p' = with_reserves p ((absolute_reserves p).1.1 + nx - cx) ((absolute_reserves p).1.2 + ny - cy) ((absolute_reserves p).2 + u) /\
    (cx <= (absolute_reserves p).1.1 + nx <= u64_max /\ cy <= (absolute_reserves p).1.2 + ny <= u64_max /\
     (absolute_reserves p).2 + u <= u64_max)%Z /\
    (do_token_x_charge_amount (or_output r), do_token_y_charge_amount (or_output r), do_token_lq_amount (or_output r)) = (cx, cy, u).
Proof.
  unfold apply_deposit. destruct (net_amount (dp_token_x _) _ _ _) as [nx|]; [|done]. cbn [ok_or mbind outcome_bind].
  destruct (net_amount (dp_token_y _) _ _ _) as [ny|]; [|done]. cbn [ok_or mbind outcome_bind].
  destruct (absolute_reserves p) as [[rx ry] lq]. destruct (const_fn_reward_lp p nx ny) as [[[u cx] cy]|] eqn:Er; [|done].
  cbn [ok_or mbind outcome_bind option_bind].
  destruct (checked_add rx nx) as [a|] eqn:E1; [|done]. apply checked_add_inv in E1 as [-> ?]. cbn [mbind option_bind].
  destruct (checked_sub _ cx) as [a'|] eqn:E2; [|done]. apply checked_sub_inv in E2 as [? ->]. cbn [ok_or mbind outcome_bind].
  destruct (checked_add ry ny) as [b|] eqn:E3; [|done]. apply checked_add_inv in E3 as [-> ?]. cbn [mbind option_bind].
  destruct (checked_sub _ cy) as [b'|] eqn:E4; [|done]. apply checked_sub_inv in E4 as [? ->]. cbn [ok_or mbind outcome_bind].
  destruct (checked_add lq u) as [l|] eqn:E5; [|done]. apply checked_add_inv in E5 as [-> ?]. cbn [ok_or mbind outcome_bind].
  intros [= <- <-]. exists nx, ny, u, cx, cy. cbn [fst snd]. split_and!; try done; lia.
Qed.

Lemma apply_redeem_inv v p d p' r : apply_redeem v p d = Ok (p', r) ->
  exists xa ya, const_fn_shares_amount p (rd_token_lq_amount (co_order d)) = Some (xa, ya) /\
    p' = with_reserves p ((absolute_reserves p).1.1 - xa) ((absolute_reserves p).1.2 - ya)
           ((absolute_reserves p).2 - rd_token_lq_amount (co_order d)) /\
    (xa <= (absolute_reserves p).1.1 /\ ya <= (absolute_reserves p).1.2 /\ rd_token_lq_amount (co_order d) <= (absolute_reserves p).2)%Z /\
    (ro_token_x_amount (or_output r), ro_token_y_amount (or_output r)) = (xa, ya).
Proof.
  unfold apply_redeem. destruct (const_fn_shares_amount p _) as [[xa ya]|] eqn:Er; [|done]. cbn [ok_or mbind outcome_bind].
  destruct (absolute_reserves p) as [[rx ry] lq].
  destruct (checked_sub rx xa) as [a|] eqn:E1; [|done]. apply checked_sub_inv in E1 as [? ->]. cbn [ok_or mbind outcome_bind].
  destruct (checked_sub ry ya) as [b|] eqn:E2; [|done]. apply checked_sub_inv in E2 as [? ->]. cbn [ok_or mbind outcome_bind].
  destruct (checked_sub lq _) as [l|] eqn:E3; [|done]. apply checked_sub_inv in E3 as [? ->]. cbn [ok_or mbind outcome_bind].
  intros [= <- <-]. exists xa, ya. cbn [fst snd]. split_and!; try done; lia.
Qed.

(** ** A share never loses value *)

Section Fair.
Open Scope Z_scope.

Lemma deposit_fair v p d p' r : apply_deposit v p d = Ok (p', r) -> pool_sound p -> deposit_u64 (co_order d) ->
  pool_sound p' /\ shares_worth p p' /\ exists nx ny,
    net_amount (dp_token_x (co_order d)) (dp_token_x_amount (co_order d)) (dp_ex_fee (co_order d)) (dp_collateral_ada (co_order d)) = Some nx /\
    net_amount (dp_token_y (co_order d)) (dp_token_y_amount (co_order d)) (dp_ex_fee (co_order d)) (dp_collateral_ada (co_order d)) = Some ny /\
    lp_x p' = lp_x p + (nx - do_token_x_charge_amount (or_output r)) /\
    lp_y p' = lp_y p + (ny - do_token_y_charge_amount (or_output r)) /\
    lp_shares p' = lp_shares p + do_token_lq_amount (or_output r) /\
    0 <= do_token_lq_amount (or_output r) /\
    do_token_lq_amount (or_output r) * lp_x p <= (nx - do_token_x_charge_amount (or_output r)) * lp_shares p /\
    do_token_lq_amount (or_output r) * lp_y p <= (ny - do_token_y_charge_amount (or_output r)) * lp_shares p.
Proof.
  intros (nx & ny & u & cx & cy & Nx & Ny & Er & -> & Hb & Eo)%apply_deposit_inv Hp (U1 & U2 & U3 & U4). injection Eo as -> -> ->.
  pose proof (net_amount_positive _ _ _ _ _ U1 U3 U4 Nx). pose proof (net_amount_positive _ _ _ _ _ U2 U3 U4 Ny).
  rewrite reward_lp_tradable in Er by done. pose proof Hp as [Hx Hy Hl Hparts]. unfold is_u64, lp_shares in Hl.
  apply reward_lp_fair in Er as (Hu & Hcx & Hcy & Fx & Fy); [|unfold lp_x, lp_y, lp_shares in *; lia..].
  unfold shares_worth, lp_x, lp_y, lp_shares in *. rewrite with_reserves_absolute, with_reserves_withheld. cbn [fst snd].
  split; [|split; [|exists nx, ny; split_and!; try done; lia]].
  - split; unfold lp_shares, is_u64; rewrite ?with_reserves_absolute, ?with_reserves_withheld; cbn [fst snd]; try lia. by apply with_reserves_parts.
  - nia.
Qed.

Lemma redeem_fair v p d p' r : apply_redeem v p d = Ok (p', r) -> pool_sound p -> 0 <= rd_token_lq_amount (co_order d) ->
  pool_sound p' /\ shares_worth p p' /\
  lp_x p' = lp_x p - ro_token_x_amount (or_output r) /\ lp_y p' = lp_y p - ro_token_y_amount (or_output r) /\
  lp_shares p' = lp_shares p - rd_token_lq_amount (co_order d) /\
  ro_token_x_amount (or_output r) * lp_shares p <= rd_token_lq_amount (co_order d) * lp_x p /\
  ro_token_y_amount (or_output r) * lp_shares p <= rd_token_lq_amount (co_order d) * lp_y p.
Proof.
  intros (xa & ya & Er & -> & Hb & Eo)%apply_redeem_inv Hp Hlq. injection Eo as -> ->.
  rewrite shares_tradable in Er by done. pose proof Hp as [Hx Hy Hl Hparts]. unfold is_u64, lp_shares in Hl.
  apply shares_fair in Er as (HL & Hxa & Hya & Fx & Fy); [|unfold lp_x, lp_y, lp_shares in *; lia..].
  unfold shares_worth, lp_x, lp_y, lp_shares in *. rewrite with_reserves_absolute, with_reserves_withheld. cbn [fst snd].
  split; [|split; [nia|split_and!; try done; lia]].
  split; unfold lp_shares, is_u64; rewrite ?with_reserves_absolute, ?with_reserves_withheld; cbn [fst snd]; try nia. by apply with_reserves_parts.
Qed.

(** Redeeming the shares that a deposit minted gives back at most what
    the pool kept of the deposit. *)
Theorem deposit_redeem_no_gain v w p d p1 r e p2 r' nx ny : apply_deposit v p d = Ok (p1, r) -> apply_redeem w p1 e = Ok (p2, r') ->
  pool_sound p -> deposit_u64 (co_order d) -> rd_token_lq_amount (co_order e) = do_token_lq_amount (or_output r) ->
  net_amount (dp_token_x (co_order d)) (dp_token_x_amount (co_order d)) (dp_ex_fee (co_order d)) (dp_collateral_ada (co_order d)) = Some nx ->
  net_amount (dp_token_y (co_order d)) (dp_token_y_amount (co_order d)) (dp_ex_fee (co_order d)) (dp_collateral_ada (co_order d)) = Some ny ->
  ro_token_x_amount (or_output r') <= nx - do_token_x_charge_amount (or_output r) /\
  ro_token_y_amount (or_output r') <= ny - do_token_y_charge_amount (or_output r).
Proof.
  intros E1 E2 Hp Hu Elq Nx Ny. pose proof (ps_lq _ Hp) as Hl. unfold is_u64 in Hl.
  destruct (deposit_fair _ _ _ _ _ E1 Hp Hu) as (Hp1 & _ & nx' & ny' & Nx' & Ny' & Ex & Ey & Es & Hm & Fx & Fy).
  rewrite Nx in Nx'. rewrite Ny in Ny'. injection Nx' as <-. injection Ny' as <-.
  pose proof E2 as (xa & ya & Er & _ & _ & Eo)%apply_redeem_inv. rewrite shares_tradable in Er by done. rewrite Elq in Er.
  apply shares_fair in Er as (HL & _ & _ & Gx & Gy); [|pose proof (ps_x _ Hp1); unfold lp_x; lia|pose proof (ps_y _ Hp1); unfold lp_y; lia|lia|done].
  injection Eo as -> ->. rewrite Es, Ex, Ey in *.
  set (u := do_token_lq_amount _) in *. set (cx := do_token_x_charge_amount _) in *. set (cy := do_token_y_charge_amount _) in *.
  set (L := lp_shares p) in *. split; (apply (Zmult_le_reg_r _ _ (L + u)); [lia|nia]).
Qed.
End Fair.

(** ** The pool with a treasury in its output *)

Lemma amount_of_set c ma t v a : token_wf t -> asset_wf a ->
  amount_of (mkValue c (asset_set ma t v)) a = if decide (a = TokenAsset t) then Some v else amount_of (mkValue c ma) a.
Proof.
  intros [Hp Hn] Ha. destruct a as [|u]; [by rewrite decide_False by done|]. destruct Ha as [Hp' Hn']. cbn. unfold asset_set.
  destruct (decide (policy t = policy u)) as [E|E].
  - rewrite E, lookup_insert_eq. cbn. destruct (decide (cml_name (asset_name t) = cml_name (asset_name u))) as [E'|E'].
    + rewrite E', lookup_insert_eq. apply cml_name_inj in E'; [|done..].
      rewrite decide_True; [done|]. destruct t, u; cbn in *; congruence.
    + rewrite lookup_insert_ne by done. rewrite decide_False by congruence. by destruct (ma !! policy u); cbn; rewrite ?lookup_empty.
  - rewrite lookup_insert_ne by done. by rewrite decide_False by congruence.
Qed.

Record pool_assets (ax ay alq : AssetClass) (id : Token) : Prop := {
  pa_x_wf : asset_wf ax; pa_y_wf : asset_wf ay; pa_lq_wf : asset_wf alq; pa_id_wf : token_wf id;
  pa_xy : ax <> ay; pa_xlq : ax <> alq; pa_ylq : ay <> alq;
  pa_idx : ax <> TokenAsset id; pa_idy : ay <> TokenAsset id; pa_idlq : alq <> TokenAsset id;
}.

Lemma unwrap_token_Ok a t : unwrap_token a = Ok t -> a = TokenAsset t.
Proof. unfold unwrap_token. destruct a; [done|]. by intros [= <-]. Qed.

Lemma pool_value_amounts ax ay alq id rx ry lq iv v : pool_assets ax ay alq id -> pool_value ax ay alq id rx ry lq iv = Ok v ->
  amount_of v ax = Some rx /\ amount_of v ay = Some ry /\ amount_of v alq = Some (wrap_u64 (MAX_LQ_CAP - lq)) /\
  (is_native ax || is_native ay = false -> coin v = iv).
Proof.
  intros [Wx Wy Wl Wi Nxy Nxl Nyl Nix Niy Nil] E. unfold pool_value in E.
  assert (forall a, is_native a = true -> a = Native) as Hnat by (intros a; unfold is_native; apply bool_decide_eq_true).
  destruct (is_native ax) eqn:Ex; [|destruct (is_native ay) eqn:Ey].
  - apply Hnat in Ex as ->. destruct (unwrap_token ay) as [y| |] eqn:Ty; [|done..]. apply unwrap_token_Ok in Ty as ->. cbn [mbind outcome_bind] in E.
    destruct (unwrap_token alq) as [l| |] eqn:Tl; [|done..]. apply unwrap_token_Ok in Tl as ->. cbn [mbind outcome_bind] in E. injection E as <-.
    split_and!; [rewrite !amount_of_set by done; repeat case_decide; (done || congruence)..|]. by rewrite ?orb_true_r.
  - apply Hnat in Ey as ->. destruct (unwrap_token ax) as [x| |] eqn:Tx; [|done..]. apply unwrap_token_Ok in Tx as ->. cbn [mbind outcome_bind] in E.
    destruct (unwrap_token alq) as [l| |] eqn:Tl; [|done..]. apply unwrap_token_Ok in Tl as ->. cbn [mbind outcome_bind] in E. injection E as <-.
    split_and!; [rewrite !amount_of_set by done; repeat case_decide; (done || congruence)..|]. by rewrite ?orb_true_r.
  - destruct (unwrap_token ax) as [x| |] eqn:Tx; [|done..]. apply unwrap_token_Ok in Tx as ->. cbn [mbind outcome_bind] in E.
    destruct (unwrap_token ay) as [y| |] eqn:Ty; [|done..]. apply unwrap_token_Ok in Ty as ->. cbn [mbind outcome_bind] in E.
    destruct (unwrap_token alq) as [l| |] eqn:Tl; [|done..]. apply unwrap_token_Ok in Tl as ->. cbn [mbind outcome_bind] in E. injection E as <-.
    split_and!; [rewrite !amount_of_set by done; repeat case_decide; (done || congruence)..|]. by rewrite ?orb_true_r.
Qed.

Lemma pool_address_same a : pool_address a (stake_script_hash a) = a.
Proof. unfold pool_address, stake_script_hash, update_staking_cred. destruct a as [pay [[|h]|] rest]; done. Qed.

Section FeeSwitch.
Context `{BU : BigUintLib} `{BUL : !BigUintLaws}.

Record fee_switch_fields (fs : list PlutusData) (conf : FeeSwitchConfig) : Prop := {
  ff_0 : exists d, fs !! 0 = Some d /\ asset_try_from_pd d = Some (fc_pool_nft conf);
  ff_1 : exists d, fs !! 1 = Some d /\ asset_try_from_pd d = Some (fc_asset_x conf);
  ff_2 : exists d, fs !! 2 = Some d /\ asset_try_from_pd d = Some (fc_asset_y conf);
  ff_3 : exists d, fs !! 3 = Some d /\ asset_try_from_pd d = Some (fc_asset_lq conf);
  ff_4 : exists d, fs !! 4 = Some d /\ into_u64 d = Some (fc_lp_fee_num_x conf) /\ fc_lp_fee_num_y conf = fc_lp_fee_num_x conf;
  ff_5 : exists d, fs !! 5 = Some d /\ into_u64 d = Some (fc_treasury_fee_num conf);
  ff_6 : exists d, fs !! 6 = Some d /\ into_u64 d = Some (fc_treasury_x conf);
  ff_7 : exists d, fs !! 7 = Some d /\ into_u64 d = Some (fc_treasury_y conf);
  ff_9 : fc_lq_lower_bound conf = default 0%Z (fs !! 9 ≫= into_u64);
}.

Lemma u64_or_zero_eq alt fs i : u64_or_zero (mkConstr alt fs) i = default 0%Z (fs !! i ≫= into_u64).
Proof. unfold u64_or_zero, take_field. cbn. by destruct (fs !! i). Qed.

Lemma fee_switch_fields_of data conf : fee_switch_try_from_pd data = Some conf ->
  exists alt fs, data = PdConstr alt fs /\ fee_switch_fields fs conf.
Proof.
  unfold fee_switch_try_from_pd. destruct data as [alt fs| | | |]; try done. cbn [into_constr_pd mbind option_bind]. unfold take_field.
  read_field fs 0. read_as (asset_try_from_pd d). read_field fs 1. read_as (asset_try_from_pd d0). read_field fs 2. read_as (asset_try_from_pd d1).
  read_field fs 3. read_as (asset_try_from_pd d2). read_field fs 4. read_as (into_u64 d3). read_field fs 5. read_as (into_u64 d4).
  read_field fs 6. read_as (into_u64 d5). read_field fs 7. read_as (into_u64 d6). rewrite u64_or_zero_eq.
  repeat rewrite list_lookup_insert_ne by done.
  intros [= <-]. exists alt, fs. split; [done|]. split; cbn; eauto 6.
Qed.

Lemma fee_switch_of_fields alt fs conf : fee_switch_fields fs conf -> fee_switch_try_from_pd (PdConstr alt fs) = Some conf.
Proof.
  intros [(d0 & E0 & P0) (d1 & E1 & P1) (d2 & E2 & P2) (d3 & E3 & P3) (d4 & E4 & P4 & Q4) (d5 & E5 & P5) (d6 & E6 & P6) (d7 & E7 & P7) E9].
  unfold fee_switch_try_from_pd. cbn [into_constr_pd mbind option_bind]. unfold take_field.
  put_field E0 P0. put_field E1 P1. put_field E2 P2. put_field E3 P3. put_field E4 P4. put_field E5 P5. put_field E6 P6. put_field E7 P7.
  rewrite u64_or_zero_eq. repeat rewrite list_lookup_insert_ne by done. rewrite <- E9. destruct conf. cbn in *. by rewrite Q4.
Qed.

Definition traded_fee_switch (conf : FeeSwitchConfig) (tx ty : Z) : FeeSwitchConfig :=
  mkFeeSwitchConfig (fc_pool_nft conf) (fc_asset_x conf) (fc_asset_y conf) (fc_asset_lq conf) (fc_lp_fee_num_x conf) (fc_lp_fee_num_y conf)
    (fc_treasury_fee_num conf) tx ty (fc_lq_lower_bound conf).

Lemma update_fee_switch data conf tx ty : fee_switch_try_from_pd data = Some conf -> is_u64 tx -> is_u64 ty ->
  exists data', update_pd_fee_switch data tx ty = Ok data' /\ fee_switch_try_from_pd data' = Some (traded_fee_switch conf tx ty).
Proof.
  intros (alt & fs & -> & Hc)%fee_switch_fields_of Hx Hy.
  assert (7 < length fs) as Hlen by (destruct (ff_7 _ _ Hc) as (d & Hd & _); by eapply lookup_lt_Some).
  unfold update_pd_fee_switch. cbn [into_constr_pd].
  repeat (rewrite set_field_Ok by (rewrite ?length_insert; lia); cbn [mbind outcome_bind]).
  eexists. split; [reflexivity|]. cbn [alternative fields]. apply fee_switch_of_fields. destruct Hc as [H0 H1 H2 H3 H4 H5 _ _ H9].
  split; cbn; repeat rewrite list_lookup_insert_ne by done; try done;
    rewrite list_lookup_insert_eq by (rewrite ?length_insert; lia); (eexists; split; [reflexivity|by apply into_u64_int]).
Qed.

(** What a pool that is read has in common with its output. *)
Lemma fee_switch_reads c o p : fee_switch_try_from_ledger c o = Some p -> fs_ver p <> BiDirV1 ->
  exists info d conf,
    fee_switch_ver_try_from_address c o = Some (fs_ver p, info) /\ out_datum o = Some d /\ fee_switch_try_from_pd d = Some conf /\
    into_token (fc_pool_nft conf) = Some (fs_id p) /\
    p = mkFeeSwitch (fs_id p) (fs_reserves_x p) (fs_reserves_y p) (fs_liquidity p) (fc_asset_x conf) (fc_asset_y conf) (fc_asset_lq conf)
          (mkRatio (fc_lp_fee_num_x conf) FEE_DEN) (mkRatio (fc_lp_fee_num_y conf) FEE_DEN)
          (mkRatio (fc_treasury_fee_num conf) FEE_DEN) (fs_treasury_x p) (fs_treasury_y p) (fc_lq_lower_bound conf)
          (fs_ver p) (info_marginal_cost info) (cc_bounds c) 0 (stake_script_hash (out_address o)).
Proof.
  unfold fee_switch_try_from_ledger. destruct (fee_switch_ver_try_from_address c o) as [[v info]|]; [|done]. cbn [mbind option_bind].
  destruct (out_datum o) as [d|]; [|done]. cbn [mbind option_bind]. destruct (fee_switch_config v d) as [conf|] eqn:Ec; [|done]. cbn [mbind option_bind].
  read_as (amount_of (out_value o) (fc_asset_lq conf)). read_as (amount_of (out_value o) Native).
  read_as (amount_of (out_value o) (fc_asset_x conf)). read_as (amount_of (out_value o) (fc_asset_y conf)).
  destruct (reserves_accepted _ _ _ _ _ _ _ _); [|done]. read_as (into_token (fc_pool_nft conf)).
  intros [= <-] Hv. cbn in Hv. exists info, d, conf. by destruct v.
Qed.

(** A pool with a treasury whose amounts changed, by a swap or by an order
    on its liquidity, is read back from the output it is written to: reserves,
    liquidity and treasury in value and datum agree, and the staking part, the
    fees and the lower bound are kept.  (Bidirectional pools keep their treasury in
    other fields of the datum than the ones written.) *)
Theorem fee_switch_reads_back c o p rx ry lq tx ty o' : fee_switch_try_from_ledger c o = Some p -> fs_ver p <> BiDirV1 ->
  pool_assets (fs_asset_x p) (fs_asset_y p) (fs_asset_lq p) (fs_id p) ->
  is_u64 tx -> is_u64 ty -> (0 <= lq <= MAX_LQ_CAP)%Z ->
  fee_switch_into_ledger (fee_switch_with p rx ry lq tx ty) (immutable_of o) = Ok o' ->
  reserves_accepted (fs_asset_x p) (fs_asset_y p) rx ry (coin (out_value o')) [tx] [ty] (fs_bounds p) = true ->
  fee_switch_try_from_ledger c o' = Some (fee_switch_with p rx ry lq tx ty).
Proof.
  intros Hp Hv Ha Hx Hy Hl E Hr. destruct (fee_switch_reads c o p Hp Hv) as (info & d & conf & Ev & Ed & Ec & Ei & Ep).
  rewrite Ep in Ha, E, Hr |- *. clear Hp Ep.
  unfold fee_switch_into_ledger in E. cbn [immutable_of im_value im_datum im_script_ref im_address fee_switch_with
    fs_id fs_reserves_x fs_reserves_y fs_liquidity fs_asset_x fs_asset_y fs_asset_lq fs_treasury_x fs_treasury_y fs_stake_part fs_bounds] in *.
  destruct (pool_value _ _ _ _ _ _ _ _) as [v| |] eqn:Epv; [|done..]. cbn [mbind outcome_bind] in E. rewrite Ed in E.
  destruct (update_fee_switch d conf tx ty Ec Hx Hy) as (d' & Eu & Ec'). rewrite Eu in E. cbn [mbind outcome_bind] in E. injection E as <-.
  rewrite pool_address_same in *. cbn [out_value out_datum] in *.
  destruct (pool_value_amounts _ _ _ _ _ _ _ _ _ Ha Epv) as (Ax & Ay & Al & _).
  rewrite wrap_u64_small in Al by (unfold is_u64, u64_max, MAX_LQ_CAP in *; lia).
  unfold fee_switch_try_from_ledger.
  assert (fee_switch_ver_try_from_address c (mkTxOut (out_address o) v (Some d') (out_script_ref o)) = Some (fs_ver p, info)) as ->.
  { rewrite <- Ev. done. }
  cbn [mbind option_bind out_datum out_value out_address]. unfold fee_switch_config.
  assert (match fs_ver p with BiDirV1 => bidirectional_try_from_pd d' | _ => fee_switch_try_from_pd d' end = Some (traded_fee_switch conf tx ty)) as ->
    by (by destruct (fs_ver p)).
  cbn [mbind option_bind traded_fee_switch fc_pool_nft fc_asset_x fc_asset_y fc_asset_lq fc_lp_fee_num_x fc_lp_fee_num_y
    fc_treasury_fee_num fc_treasury_x fc_treasury_y fc_lq_lower_bound].
  rewrite Al. cbn [mbind option_bind amount_of]. rewrite Ax. cbn [mbind option_bind]. rewrite Ay. cbn [mbind option_bind].
  rewrite Hr, Ei. cbn [mbind option_bind].
  rewrite (wrap_u64_small (MAX_LQ_CAP - _)) by (unfold is_u64, u64_max, MAX_LQ_CAP in *; lia).
  by replace (MAX_LQ_CAP - (MAX_LQ_CAP - lq))%Z with lq by lia.
Qed.
End FeeSwitch.
