(* ===== verification/ConstFnPoolExamples.v ===== *)
(** * A pool of ADA and gold

    Witnesses of the theorems of [ConstFnPoolProofs.v]: a pool with a treasury
    is read from an output, liquidity is added and withdrawn, and the pool is
    written back; and what becomes of a bidirectional pool that is written. *)

From stdpp Require Import base gmap list.
From Stdlib Require Import ZArith Lia Strings.Byte.
From S2P Require Import Prelude Mpf LbTypes Assets PlutusData Intention GreenOrder LbCore LbCoreProofs AccountStore.
From S2P Require Import AccountIndex RoyaltyPool LbState Containers Redeemers TxBlueprint RoyaltyDatum RoyaltyDatumProofs.
From S2P Require Import Graduation EventSink LimitOrder ConstFnPool ConstFnPoolProofs.

Module Liquidity.
#[local] Instance u64_of_int : BigUintLib := fun z => if (0 <=? z)%Z && (z <=? u64_max)%Z then Some z else None.
#[local] Instance u64_of_int_laws : BigUintLaws.
Proof.
  intros z w. unfold as_u64, u64_of_int, is_u64.
  destruct (Z.leb_spec 0 z), (Z.leb_spec z u64_max); cbn; split; intros E; simplify_eq; try lia; try (by split); destruct E as [? ->]; done || lia.
Qed.

Definition gold : Token := mkToken (replicate 28 x09) (mkAssetName 2 (replicate 32 x00)).
Definition nft : Token := mkToken (replicate 28 x0a) (mkAssetName 2 (replicate 32 x00)).
Definition lp_token : Token := mkToken (replicate 28 x0b) (mkAssetName 2 (replicate 32 x00)).
Definition token_pd (t : Token) : PlutusData := PdConstr 0 [PdBytes (policy t); PdBytes (cml_name (asset_name t))].

Definition fee_switch_script : ScriptInfo := mkScriptInfo (replicate 28 x31) (mkExUnits 5 7).
Definition bidir_script : ScriptInfo := mkScriptInfo (replicate 28 x32) (mkExUnits 5 7).
Definition other_script (b : byte) : ScriptInfo := mkScriptInfo (replicate 28 b) (mkExUnits 5 7).
Definition scripts : CfmmContext :=
  mkCfmmContext (other_script x41) (other_script x42) fee_switch_script (other_script x43) bidir_script
    (mkPoolContext (other_script x44) (other_script x45) (mkPoolValidation 1000000 1500000)) (other_script x46).

Definition pool_output_with (s : ScriptInfo) (datum : list PlutusData) : TransactionOutput :=
  mkTxOut (mkAddress (Some (ScriptCred (script_hash s))) (Some (ScriptCred (replicate 28 x77))) [])
    (mkValue 10001000
       (asset_set (asset_set (asset_set ∅ gold 20000500) lp_token (MAX_LQ_CAP - 14000000)) nft 1))
    (Some (PdConstr 0 ([token_pd nft; PdConstr 0 [PdBytes []; PdBytes []]; token_pd gold; token_pd lp_token] ++ datum))) None.

(** Fee 0.3%, of which 0.02% go to the treasury. *)
Definition treasury_output : TransactionOutput :=
  pool_output_with fee_switch_script
    [PdInteger 99700; PdInteger 20; PdInteger 1000; PdInteger 500; PdList []; PdInteger 10000].
Definition treasury_pool : FeeSwitchPool :=
  mkFeeSwitch nft 10001000 20000500 14000000 Native (TokenAsset gold) (TokenAsset lp_token) (mkRatio 99700 100000) (mkRatio 99700 100000)
    (mkRatio 20 100000) 1000 500 10000 FeeSwitchV1 (mkExUnits 5 7) (mkPoolValidation 1000000 1500000) 0 (Some (replicate 28 x77)).

Example treasury_pool_is_read : fee_switch_try_from_ledger scripts treasury_output = Some treasury_pool.
Proof. vm_compute. reflexivity. Qed.

Definition validators (_ : OrderType) : DeployedValidatorErased :=
  mkValidator (replicate 32 x30, 0%Z) treasury_output (replicate 28 x3d) (mkExUnits 100 200) (mkExUnits 5 7).

(** Five ADA and thirteen million gold are offered: three million gold come back. *)
Definition deposit : ClassicalOrder Deposit :=
  mkOrder (replicate 32 x01, 0%Z) nft
    (mkDeposit nft Native 6500000 (TokenAsset gold) 13000000 (TokenAsset lp_token) 500000 (replicate 28 x71) None 1000000 ConstFnFeeSwitch).
Definition redeem (lq : Z) : ClassicalOrder Redeem :=
  mkOrder (replicate 32 x02, 0%Z) nft
    (mkRedeem nft Native (TokenAsset gold) (TokenAsset lp_token) lq 500000 (replicate 28 x71) None 1000000 ConstFnFeeSwitch).

Definition before : ConstFnPool := FeeSwitch treasury_pool.
Definition with_deposit : ConstFnPool := match apply_deposit validators before deposit with Ok (p, _) => p | _ => before end.
Definition with_redeem : ConstFnPool := match apply_redeem validators with_deposit (redeem 7000000) with Ok (p, _) => p | _ => before end.

Example amounts_on_the_way :
  (absolute_reserves with_deposit, absolute_reserves with_redeem) = ((15001000, 30000500, 21000000), (10001000, 20000500, 14000000))%Z.
Proof. vm_compute. reflexivity. Qed.

Lemma before_sound : pool_sound before.
Proof. split; vm_compute; try done; repeat split; discriminate. Qed.

Definition deposited : OperationResultBlueprint DepositOutput :=
  single_output (mkDepositOutput Native 0 (TokenAsset gold) 3000000 (TokenAsset lp_token) 7000000 1000000 (replicate 28 x71) None) (validators ConstFnFeeSwitch).
Definition redeemed : OperationResultBlueprint RedeemOutput :=
  single_output (mkRedeemOutput Native 5000000 (TokenAsset gold) 10000000 1000000 (replicate 28 x71) None) (validators ConstFnFeeSwitch).

Lemma deposit_applies : apply_deposit validators before deposit = Ok (with_deposit, deposited).
Proof. vm_compute. reflexivity. Qed.
Lemma redeem_applies : apply_redeem validators with_deposit (redeem 7000000) = Ok (with_redeem, redeemed).
Proof. vm_compute. reflexivity. Qed.
Lemma deposit_in_range : deposit_u64 (co_order deposit).
Proof. vm_compute. repeat split; discriminate. Qed.

Lemma deposit_redeem_no_gain_witness : (5000000 <= 5000000 - 0 /\ 10000000 <= 13000000 - 3000000)%Z.
Proof.
  exact (deposit_redeem_no_gain validators validators before deposit with_deposit deposited (redeem 7000000) with_redeem redeemed
    5000000 13000000 deposit_applies redeem_applies before_sound deposit_in_range eq_refl eq_refl eq_refl).
Defined.

(** Seven ADA were swapped for gold. *)
Definition swapped_pool : FeeSwitchPool := fee_switch_with treasury_pool 17001000 11800000 14000000 2400 500.
Definition swapped_output : TransactionOutput :=
  match fee_switch_into_ledger swapped_pool (immutable_of treasury_output) with Ok o => o | _ => treasury_output end.

Lemma fee_switch_reads_back_witness : fee_switch_try_from_ledger scripts swapped_output = Some swapped_pool.
Proof.
  apply (fee_switch_reads_back scripts treasury_output treasury_pool).
  - vm_compute. reflexivity.
  - discriminate.
  - split; vm_compute; first [done|discriminate].
  - vm_compute. split; discriminate.
  - vm_compute. split; discriminate.
  - vm_compute. split; discriminate.
  - vm_compute. reflexivity.
  - vm_compute. reflexivity.
Defined.

(** The same pool with a fee for each direction: its treasury fee is at 6 and
    its treasury at 7 and 8, and writing it puts the treasury of [x] at 6 and the
    one of [y] at 7. *)
Definition bidir_output : TransactionOutput :=
  pool_output_with bidir_script
    [PdInteger 99700; PdInteger 99600; PdInteger 20; PdInteger 1000; PdInteger 500; PdList []; PdInteger 10000].
Definition treasury_of (p : option FeeSwitchPool) : option (Z * Z * Z) :=
  (fun p => (numer (fs_treasury_fee p), fs_treasury_x p, fs_treasury_y p)) <$> p.
Definition rewritten (o : TransactionOutput) : option TransactionOutput :=
  p ← fee_switch_try_from_ledger scripts o;
  match fee_switch_into_ledger p (immutable_of o) with Ok o' => Some o' | _ => None end.

Example bidirectional_pool_is_corrupted :
  treasury_of (fee_switch_try_from_ledger scripts bidir_output) = Some (20, 1000, 500)%Z /\
  treasury_of (rewritten bidir_output ≫= fee_switch_try_from_ledger scripts) = Some (1000, 500, 500)%Z /\
  treasury_of (rewritten treasury_output ≫= fee_switch_try_from_ledger scripts) = Some (20, 1000, 500)%Z.
Proof. split_and!; vm_compute; reflexivity. Qed.

(** An order to redeem that has less lovelace than its fee passes the check of
    its collateral: the difference wraps. *)
Definition poor_redeem : TransactionOutput :=
  mkTxOut (mkAddress (Some (ScriptCred (replicate 28 x61))) None []) (mkValue 400000 (asset_set ∅ lp_token 1000))
    (Some (PdConstr 0 [token_pd nft; PdConstr 0 [PdBytes []; PdBytes []]; token_pd gold; token_pd lp_token; PdInteger 500000;
                       PdBytes (replicate 28 x71); PdConstr 1 []])) None.
Example poor_redeem_accepted :
  (fun r => rd_collateral_ada (co_order r)) <$>
    redeem_try_from_ledger (fun t => match t with ConstFnFeeSwitch => replicate 28 x61 | _ => replicate 28 x62 end) 1500000
      (replicate 32 x02, 0%Z) poor_redeem = Some (2 ^ 64 - 100000)%Z.
Proof. vm_compute. reflexivity. Qed.
End Liquidity.
