(* ===== verification/PoolOrders.v ===== *)
(** * Orders of a pool's owners, and the transaction of an order

    [royalty_withdraw_request.rs] and [dao_request.rs] of
    [spectrum-offchain-cardano]: the requests of royalty holders and of the DAO,
    their readers, signed data and application to a royalty pool
    ([royalty_pool.rs], [cfmm_pool.rs]); the royalty pool in an output; the
    transaction that runs an order against a pool ([data/pool.rs]).

    Keys, signatures and the CBOR form of signed data are libraries.  Arithmetic
    on [u64] wraps where the source does not check it. *)

From stdpp Require Import base gmap list sorting.
From Stdlib Require Import ZArith Lia Strings.Byte.
From S2P Require Import Prelude Mpf LbTypes Assets PlutusData Intention GreenOrder LbCore LbCoreProofs AccountStore.
From S2P Require Import AccountIndex RoyaltyPool LbState Containers Redeemers TxBlueprint RoyaltyDatum Graduation EventSink LimitOrder ConstFnPool.

#[local] Notation delete := base.delete.
#[local] Notation insert := base.insert.

(** [PublicKey::from_raw_bytes] and [verify]. *)
Class Ed25519Lib := {
  key_accepted : bytes -> bool;
  key_verify : bytes -> bytes -> bytes -> bool;
}.

Definition token_into_pd (t : Token) : panics PlutusData :=
  name ← as_bytes (asset_name t);
  Ok (PdConstr 0 [PdBytes (policy t); PdBytes name]).
Definition option_into_pd {A} (f : A -> PlutusData) (o : option A) : PlutusData :=
  match o with None => PdConstr 1 [] | Some a => PdConstr 0 [f a] end.
Definition plutus_address_into_pd (a : PlutusAddress) : PlutusData :=
  PdConstr 0 [cred_into_pd (pa_payment a); option_into_pd inline_into_pd (pa_stake a)].

(** [into_vec_pd]: elements the function rejects are dropped. *)
Definition into_vec_pd {A} (f : PlutusData -> option A) (d : PlutusData) : option (list A) :=
  l ← into_vec d; Some (omap f (l : list PlutusData)).

(** ** Withdrawal of royalties *)

Record RoyaltyWithdrawRequestConfig := mkWithdrawConfig {
  wc_pool_nft : Token;
  wc_withdraw_royalty_x : Z;
  wc_withdraw_royalty_y : Z;
  wc_royalty_pub_key_hash : bytes;
  wc_fee : Z;
  wc_signature : bytes;
  wc_raw_data_to_sign : bytes;
  wc_additional_bytes : bytes;
}.

Record RoyaltyWithdraw := mkWithdraw {
  rw_pool_nft : Token;
  rw_withdraw_royalty_x : Z;
  rw_withdraw_royalty_y : Z;
  rw_royalty_pub_key_hash : bytes;
  rw_fee : Z;
  rw_signature : bytes;
  rw_init_ada_value : Z;
  rw_raw_data_to_sign : bytes;
  rw_additional_bytes : bytes;
  rw_requestor_address : Address;
  rw_order_type : OrderType;
}.

(** [DataToSign] with its [WithdrawData]. *)
Definition withdraw_data_to_sign (o : RoyaltyWithdraw) (pool_nonce : Z) : panics PlutusData :=
  nft ← token_into_pd (rw_pool_nft o);
  Ok (PdConstr 0
        [PdConstr 0 [nft; int_into_pd (rw_withdraw_royalty_x o); int_into_pd (rw_withdraw_royalty_y o);
                     PdBytes (rw_royalty_pub_key_hash o); int_into_pd (rw_fee o)];
         int_into_pd pool_nonce]).

Section Readers.
Context `{BU : BigUintLib} `{CB : CborLib}.

Definition withdraw_try_from_pd (data : PlutusData) : option RoyaltyWithdrawRequestConfig :=
  cpd ← into_constr_pd data;
  '(signed, cpd) ← take_field cpd 0;
  royalty_data ← into_constr_pd signed;
  '(f, royalty_data) ← take_field royalty_data 0; pool_nft ← asset_try_from_pd f; pool_nft ← into_token pool_nft;
  '(f, royalty_data) ← take_field royalty_data 1; x ← into_u64 f;
  '(f, royalty_data) ← take_field royalty_data 2; y ← into_u64 f;
  '(f, royalty_data) ← take_field royalty_data 3; f ← into_bytes f; pkh ← try_array 28 f;
  '(f, _) ← take_field royalty_data 4; fee ← into_u64 f;
  '(f, cpd) ← take_field cpd 1; signature ← into_bytes f;
  '(f, _) ← take_field cpd 2; additional_bytes ← into_bytes f;
  Some (mkWithdrawConfig pool_nft x y pkh fee signature (pd_to_cbor signed) additional_bytes).

(** [script_of] gives the scripts of the requests to the two versions. *)
Definition withdraw_try_from_ledger (script_of : OrderType -> bytes) (min_ada_in_royalty_output : Z) (oref : OutputRef)
    (o : TransactionOutput) : option (ClassicalOrder RoyaltyWithdraw) :=
  order_type ← find_order_type script_of [RoyaltyConstFnV1; RoyaltyConstFnV2] o;
  pd ← out_datum o;
  conf ← withdraw_try_from_pd pd;
  let init_ada_value := coin (out_value o) in
  signature ← try_array 64 (wc_signature conf);
  if (min_ada_in_royalty_output <=? wrap_u64 (init_ada_value - wc_fee conf))%Z then
    Some (mkOrder oref (wc_pool_nft conf)
            (mkWithdraw (wc_pool_nft conf) (wc_withdraw_royalty_x conf) (wc_withdraw_royalty_y conf) (wc_royalty_pub_key_hash conf)
               (wc_fee conf) signature init_ada_value (wc_raw_data_to_sign conf) (wc_additional_bytes conf) (out_address o) order_type))
  else None.
End Readers.

(** ** Requests of the DAO *)

Inductive DaoAction := WithdrawTreasury | ChangeStakePart | ChangeTreasuryFee | ChangeTreasuryAddress | ChangeAdminAddress | ChangePoolFee.

Definition dao_action_repr (a : DaoAction) : Z :=
  match a with
  | WithdrawTreasury => 0 | ChangeStakePart => 1 | ChangeTreasuryFee => 2
  | ChangeTreasuryAddress => 3 | ChangeAdminAddress => 4 | ChangePoolFee => 5
  end.
Definition dao_action_from_repr (z : Z) : option DaoAction :=
  match z with
  | 0 => Some WithdrawTreasury | 1 => Some ChangeStakePart | 2 => Some ChangeTreasuryFee
  | 3 => Some ChangeTreasuryAddress | 4 => Some ChangeAdminAddress | 5 => Some ChangePoolFee
  | _ => None
  end%Z.

Record DAORequestConfig := mkDaoConfig {
  dc_dao_action : DaoAction;
  dc_pool_nft : AssetClass;
  dc_pool_fee : Z;
  dc_treasury_fee : Z;
  dc_admin_address : bytes;
  dc_pool_stake_script_hash : option bytes;
  dc_treasury_address : bytes;
  dc_treasury_x_abs_delta : Z;
  dc_treasury_y_abs_delta : Z;
  dc_requestor_pkh : bytes;
  dc_signatures : list bytes;
  dc_additional_bytes : list bytes;
  dc_fee : Z;
}.

Inductive DAOV1RequestVersion := RequestV1 | RequestV2.

Record DAOV1Request := mkDaoRequest {
  da_dao_action : DaoAction;
  da_pool_nft : Token;
  da_pool_fee : Ratio;
  da_treasury_fee : Ratio;
  da_admin_address : bytes;
  da_pool_stake_script_hash : option bytes;
  da_treasury_address : bytes;
  da_treasury_x_abs_delta : Z;
  da_treasury_y_abs_delta : Z;
  da_requestor_pkh : bytes;
  da_signatures : list bytes;
  da_additional_bytes : list bytes;
  da_fee : Z;
  da_lovelace : Z;
  da_version : DAOV1RequestVersion;
}.

Section DaoReaders.
Context `{BU : BigUintLib}.

Definition dao_config_try_from_pd (data : PlutusData) : option DAORequestConfig :=
  cpd ← into_constr_pd data;
  '(f, cpd) ← take_field cpd 4; creds ← into_vec f ≫= collect_option inline_try_from_pd; admin ← head creds ≫= inline_script_hash;
  '(f, cpd) ← take_field cpd 5; address ← plutus_address_try_from_pd f;
  '(f, cpd) ← take_field cpd 6; f ← into_bytes f; treasury_address ← try_array 28 f;
  '(f, cpd) ← take_field cpd 9; f ← into_bytes f; requestor_pkh ← try_array 28 f;
  '(f, cpd) ← take_field cpd 10; signatures ← into_vec_pd (fun d => into_bytes d ≫= try_array 64) f;
  '(f, cpd) ← take_field cpd 11; additional_bytes ← into_vec_pd into_bytes f;
  '(f, cpd) ← take_field cpd 0; action ← into_u64 f; action ← dao_action_from_repr action;
  '(f, cpd) ← take_field cpd 1; pool_nft ← asset_try_from_pd f;
  '(f, cpd) ← take_field cpd 2; pool_fee ← into_u64 f;
  '(f, cpd) ← take_field cpd 3; treasury_fee ← into_u64 f;
  '(f, cpd) ← take_field cpd 7; x ← into_u64 f;
  '(f, cpd) ← take_field cpd 8; y ← into_u64 f;
  '(f, _) ← take_field cpd 12; fee ← into_u64 f;
  Some (mkDaoConfig action pool_nft pool_fee treasury_fee admin (pa_stake address ≫= inline_script_hash) treasury_address x y
          requestor_pkh signatures additional_bytes fee).

Definition dao_version_try_from_address (v1 v2 : bytes) (o : TransactionOutput) : option DAOV1RequestVersion :=
  h ← out_script_hash o;
  if bool_decide (v1 = h) then Some RequestV1 else if bool_decide (v2 = h) then Some RequestV2 else None.

Definition dao_try_from_ledger (v1 v2 : bytes) (min_collateral_ada : Z) (oref : OutputRef) (o : TransactionOutput)
    : option (ClassicalOrder DAOV1Request) :=
  version ← dao_version_try_from_address v1 v2 o;
  pd ← out_datum o;
  conf ← dao_config_try_from_pd pd;
  let init_ada_value := coin (out_value o) in
  if (init_ada_value <? dc_fee conf)%Z then None
  else
    nft ← into_token (dc_pool_nft conf);
    if (min_collateral_ada <=? init_ada_value - dc_fee conf)%Z then
      Some (mkOrder oref nft
              (mkDaoRequest (dc_dao_action conf) nft (mkRatio (dc_pool_fee conf) FEE_DEN) (mkRatio (dc_treasury_fee conf) FEE_DEN)
                 (dc_admin_address conf) (dc_pool_stake_script_hash conf) (dc_treasury_address conf)
                 (dc_treasury_x_abs_delta conf) (dc_treasury_y_abs_delta conf) (dc_requestor_pkh conf) (dc_signatures conf)
                 (dc_additional_bytes conf) (dc_fee conf) init_ada_value version))
    else None.
End DaoReaders.

(** [DaoRequestDataToSign]. *)
Definition dao_data_to_sign (o : DAOV1Request) (pool_validator_hash : bytes) (pool_nonce : Z) : panics PlutusData :=
  nft ← token_into_pd (da_pool_nft o);
  Ok (PdConstr 0
        [int_into_pd (dao_action_repr (da_dao_action o)); nft; int_into_pd (numer (da_pool_fee o));
         int_into_pd (numer (da_treasury_fee o)); PdList [inline_into_pd (ScriptCred (da_admin_address o))];
         plutus_address_into_pd (mkPlutusAddress (ScriptCred pool_validator_hash) (ScriptCred <$> da_pool_stake_script_hash o));
         PdBytes (da_treasury_address o);
         int_into_pd (wrap_i64 (- wrap_i64 (da_treasury_x_abs_delta o))); int_into_pd (wrap_i64 (- wrap_i64 (da_treasury_y_abs_delta o)));
         int_into_pd pool_nonce]).

(** ** Application to a pool *)

Record DAOContext := mkDaoContext { public_keys : list bytes; signature_threshold : Z; execution_fee : Z }.

(** The deployed validators and settings the application uses. *)
Record OwnerContext := mkOwnerContext {
  ow_withdraw_request_v1 : DeployedValidatorErased;
  ow_withdraw_request_v2 : DeployedValidatorErased;
  ow_withdraw_v1 : DeployedValidatorErased;
  ow_withdraw_v1_fixed : DeployedValidatorErased;
  ow_withdraw_v2 : DeployedValidatorErased;
  ow_transaction_fee : Z;
  ow_dao_v1 : DeployedValidatorErased;
  ow_dao_v2 : DeployedValidatorErased;
  ow_dao_request_v1 : DeployedValidatorErased;
  ow_dao_request_v2 : DeployedValidatorErased;
  ow_pool_v1 : DeployedValidatorErased;
  ow_pool_v2 : DeployedValidatorErased;
  ow_dao : DAOContext;
  ow_network_id : Z;
}.

(** The fields of a pool these orders assign. *)
Definition set_parts (p : RoyaltyPool) (rx ry tx ty fx fy sx sy : Z) : RoyaltyPool :=
  mkRoyaltyPool (rp_id p) rx ry (rp_liquidity p) (asset_x p) (asset_y p) (asset_lq p) (lp_fee p) (treasury_fee p) tx ty
    (first_royalty_fee p) (second_royalty_fee p) fx fy sx sy (lq_lower_bound p) (admin_address p) (treasury_address p)
    (first_royalty_pub_key p) (second_royalty_pub_key p) (ver p) (marginal_cost p) (bounds p) (rp_nonce p) (stake_part_script_hash p).
Definition set_terms (p : RoyaltyPool) (lp tf : Ratio) (admin treasury : bytes) (nonce : Z) (stake : option bytes) : RoyaltyPool :=
  mkRoyaltyPool (rp_id p) (reserves_x p) (reserves_y p) (rp_liquidity p) (asset_x p) (asset_y p) (asset_lq p) lp tf (treasury_x p)
    (treasury_y p) (first_royalty_fee p) (second_royalty_fee p) (first_royalty_x p) (first_royalty_y p) (second_royalty_x p)
    (second_royalty_y p) (lq_lower_bound p) admin treasury (first_royalty_pub_key p) (second_royalty_pub_key p) (ver p)
    (marginal_cost p) (bounds p) nonce stake.
Definition bump_nonce (p : RoyaltyPool) : RoyaltyPool :=
  set_terms p (lp_fee p) (treasury_fee p) (admin_address p) (treasury_address p) (wrap_u64 (rp_nonce p + 1)) (stake_part_script_hash p).

Definition AIKEN_TRUE : PlutusData := PdConstr 1 [].
Definition AIKEN_FALSE : PlutusData := PdConstr 0 [].
Definition aiken_bool (b : bool) : PlutusData := if b then AIKEN_TRUE else AIKEN_FALSE.

Record RoyaltyWithdrawOutput := mkWithdrawOutput {
  wo_token_x_asset : AssetClass;
  wo_token_x_amount : Z;
  wo_token_y_asset : AssetClass;
  wo_token_y_amount : Z;
  wo_ada_residue : Z;
  wo_redeemer_pkh : bytes;
}.

Record TreasuryWithdrawOutput := mkTreasuryOutput {
  to_token_x_asset : AssetClass;
  to_token_x_amount : Z;
  to_token_y_asset : AssetClass;
  to_token_y_amount : Z;
  to_ada_residue : Z;
  to_treasury_script_hash : bytes;
}.

Inductive DaoActionResult :=
| RequestorOutput (lovelace_qty : Z) (requestor_address : Address)
| TreasuryWithdraw (o : TreasuryWithdrawOutput).

Definition POOL_OUT_IDX_IN : Z := 0.

Section Apply.
Context `{CB : CborLib} `{BL : Blake224} `{ED : Ed25519Lib} `{AL : AddressLib} (c : OwnerContext).

Definition withdraw_validator (o : RoyaltyWithdraw) : option DeployedValidatorErased :=
  match rw_order_type o with
  | RoyaltyConstFnV1 => Some (ow_withdraw_request_v1 c)
  | RoyaltyConstFnV2 => Some (ow_withdraw_request_v2 c)
  | _ => None
  end.

Definition or_panic {E A} (o : option A) : outcome E A := match o with Some a => Ok a | None => Panic end.
Definition of_panics {E A} (o : panics A) : outcome E A := match o with Ok a => Ok a | _ => Panic end.

(** The two messages a royalty holder may sign: the data, or its hash. *)
Definition withdraw_messages (o : RoyaltyWithdraw) (pool_nonce : Z) : panics (bytes * bytes) :=
  d ← withdraw_data_to_sign o pool_nonce;
  Ok (rw_additional_bytes o ++ pd_to_cbor d, rw_additional_bytes o ++ blake2b224 (pd_to_cbor d)).

(** Which key signed, and whether the hash. *)
Fixpoint who_signed (i : nat) (keys : list bytes) (messages : bytes * bytes) (signature : bytes) : option (nat * bool) :=
  match keys with
  | [] => None
  | k :: keys =>
    if key_verify k messages.1 signature then Some (i, false)
    else if key_verify k messages.2 signature then Some (i, true)
    else who_signed (S i) keys messages signature
  end.

Definition withdraw_output (p : RoyaltyPool) (o : RoyaltyWithdraw) : RoyaltyWithdrawOutput :=
  mkWithdrawOutput (asset_x p) (rw_withdraw_royalty_x o) (asset_y p) (rw_withdraw_royalty_y o)
    (wrap_u64 (rw_init_ada_value o - rw_fee o)) (rw_royalty_pub_key_hash o).

Definition royalty_keys (p : RoyaltyPool) : list bytes :=
  match ver p with V2 => [first_royalty_pub_key p; second_royalty_pub_key p] | _ => [first_royalty_pub_key p] end.

(** Neither reserves nor royalties may fall below nothing. *)
Definition take_royalty (p : RoyaltyPool) (key : nat) (x y : Z) : option RoyaltyPool :=
  rx ← checked_sub (reserves_x p) x;
  ry ← checked_sub (reserves_y p) y;
  match key with
  | O =>
    fx ← checked_sub (first_royalty_x p) x;
    fy ← checked_sub (first_royalty_y p) y;
    Some (set_parts p rx ry (treasury_x p) (treasury_y p) fx fy (second_royalty_x p) (second_royalty_y p))
  | S _ =>
    sx ← checked_sub (second_royalty_x p) x;
    sy ← checked_sub (second_royalty_y p) y;
    Some (set_parts p rx ry (treasury_x p) (treasury_y p) (first_royalty_x p) (first_royalty_y p) sx sy)
  end.

Definition withdraw_redeemer (v : RoyaltyPoolVer) (key : nat) (hashed : bool) (pool_input_idx order_input_idx : Z) : PlutusData :=
  PdConstr 0
    (match v with
     | V1 => [int_into_pd pool_input_idx; int_into_pd order_input_idx]
     | V1LedgerFixed => [int_into_pd pool_input_idx; int_into_pd order_input_idx; aiken_bool hashed]
     | V2 => [int_into_pd pool_input_idx; int_into_pd order_input_idx; int_into_pd (Z.of_nat key); aiken_bool hashed]
     end).

Definition apply_royalty_withdraw (p : RoyaltyPool) (w : ClassicalOrder RoyaltyWithdraw)
    : outcome (ApplyOrderError (ClassicalOrder RoyaltyWithdraw)) (RoyaltyPool * OperationResultBlueprint RoyaltyWithdrawOutput) :=
  let order := co_order w in
  order_validator ← or_panic (withdraw_validator order);
  let pool_order_validator := match ver p with V1 => ow_withdraw_v1 c | V1LedgerFixed => ow_withdraw_v1_fixed c | V2 => ow_withdraw_v2 c end in
  messages ← of_panics (withdraw_messages order (rp_nonce p));
  let keys := royalty_keys p in
  _ ← (if forallb key_accepted keys then Ok tt else Panic);
  '(key, hashed) ← ok_or (who_signed 0 keys messages (rw_signature order)) (VerificationFailed w);
  p ← ok_or (take_royalty p key (rw_withdraw_royalty_x order) (rw_withdraw_royalty_y order)) (Incompatible w);
  let p := bump_nonce p in
  Ok (p, mkResult (SingleOutput (withdraw_output p order))
           (Some (pool_order_validator, withdraw_redeemer (ver p) key hashed)) order_validator (Some (ow_transaction_fee c))).

(** *** The DAO *)

(** Signature, key and message stand at the same position. *)
Definition correct_signatures (keys signatures messages : list bytes) : Z :=
  Z.of_nat (length (filter (fun skm : (bytes * bytes) * bytes =>
    key_accepted skm.1.2 && key_verify skm.1.2 skm.2 skm.1.1 = true) (zip (zip signatures keys) messages))).

Definition dao_messages (o : DAOV1Request) (pool_validator_hash : bytes) (pool_nonce : Z) : panics (list bytes) :=
  d ← dao_data_to_sign o pool_validator_hash pool_nonce;
  Ok ((fun additional => additional ++ pd_to_cbor d) <$> da_additional_bytes o).

Definition dao_change (p : RoyaltyPool) (o : DAOV1Request) : option RoyaltyPool :=
  let keep := set_terms p in
  let n := rp_nonce p in
  match da_dao_action o with
  | WithdrawTreasury =>
    rx ← checked_sub (reserves_x p) (da_treasury_x_abs_delta o);
    tx ← checked_sub (treasury_x p) (da_treasury_x_abs_delta o);
    ry ← checked_sub (reserves_y p) (da_treasury_y_abs_delta o);
    ty ← checked_sub (treasury_y p) (da_treasury_y_abs_delta o);
    Some (set_parts p rx ry tx ty (first_royalty_x p) (first_royalty_y p) (second_royalty_x p) (second_royalty_y p))
  | ChangeStakePart => Some (keep (lp_fee p) (treasury_fee p) (admin_address p) (treasury_address p) n (da_pool_stake_script_hash o))
  | ChangeTreasuryFee => Some (keep (lp_fee p) (da_treasury_fee o) (admin_address p) (treasury_address p) n (stake_part_script_hash p))
  | ChangeTreasuryAddress => Some (keep (lp_fee p) (treasury_fee p) (admin_address p) (da_treasury_address o) n (stake_part_script_hash p))
  | ChangeAdminAddress => Some (keep (lp_fee p) (treasury_fee p) (da_admin_address o) (treasury_address p) n (stake_part_script_hash p))
  | ChangePoolFee => Some (keep (da_pool_fee o) (treasury_fee p) (admin_address p) (treasury_address p) n (stake_part_script_hash p))
  end.

Definition dao_redeemer (o : DAOV1Request) (pool_input_idx order_input_idx : Z) : PlutusData :=
  PdConstr 0 [int_into_pd (dao_action_repr (da_dao_action o)); int_into_pd pool_input_idx; int_into_pd POOL_OUT_IDX_IN;
              PdList (PdBytes <$> da_signatures o); PdList (PdBytes <$> da_additional_bytes o)].

Definition apply_dao (p : RoyaltyPool) (r : ClassicalOrder DAOV1Request)
    : outcome (ApplyOrderError (ClassicalOrder DAOV1Request)) (RoyaltyPool * OperationResultBlueprint DaoActionResult) :=
  let order := co_order r in
  let dao_validator := match ver p with V1 => ow_dao_v1 c | _ => ow_dao_v2 c end in
  let validator := match da_version order with RequestV1 => ow_dao_request_v1 c | RequestV2 => ow_dao_request_v2 c end in
  let pool_validator_hash := dv_hash (match ver p with V2 => ow_pool_v2 c | _ => ow_pool_v1 c end) in
  messages ← of_panics (dao_messages order pool_validator_hash (rp_nonce p));
  if (correct_signatures (public_keys (ow_dao c)) (da_signatures order) messages <? signature_threshold (ow_dao c))%Z
  then Err (VerificationFailed r)
  else
    p ← ok_or (dao_change p order) (Incompatible r);
    lovelace_qty ← ok_or (checked_sub (da_lovelace order) (da_fee order)) (Incompatible r);
    let requestor_output := RequestorOutput lovelace_qty (enterprise_address (ow_network_id c) (PubKeyCred (da_requestor_pkh order))) in
    let p := bump_nonce p in
    let outputs :=
      match da_dao_action order with
      | WithdrawTreasury =>
        MultipleOutputs requestor_output
          [TreasuryWithdraw (mkTreasuryOutput (asset_x p) (da_treasury_x_abs_delta order) (asset_y p) (da_treasury_y_abs_delta order) 0
                               (treasury_address p))]
      | _ => SingleOutput requestor_output
      end in
    Ok (p, mkResult outputs (Some (dao_validator, dao_redeemer order)) validator (Some (execution_fee (ow_dao c)))).

(** *** On any constant-product pool *)

Definition const_fn_royalty_withdraw (p : ConstFnPool) (w : ClassicalOrder RoyaltyWithdraw)
    : outcome (ApplyOrderError (ClassicalOrder RoyaltyWithdraw)) (ConstFnPool * OperationResultBlueprint RoyaltyWithdrawOutput) :=
  match p with
  | Royalty p => '(p, r) ← apply_royalty_withdraw p w; Ok (Royalty p, r)
  | _ => Err (Incompatible w)
  end.
Definition const_fn_dao (p : ConstFnPool) (r : ClassicalOrder DAOV1Request)
    : outcome (ApplyOrderError (ClassicalOrder DAOV1Request)) (ConstFnPool * OperationResultBlueprint DaoActionResult) :=
  match p with
  | Royalty p => '(p, b) ← apply_dao p r; Ok (Royalty p, b)
  | _ => Err (Incompatible r)
  end.

(** *** What the orders pay out *)

Definition withdraw_into_ledger (o : RoyaltyWithdrawOutput) : panics TransactionOutput :=
  '(ada_from_charge_pair, ma) ← charge_pair (wo_token_x_asset o) (wo_token_y_asset o) (wo_token_x_amount o) (wo_token_y_amount o);
  Ok (mkTxOut (enterprise_address (ow_network_id c) (PubKeyCred (wo_redeemer_pkh o)))
        (mkValue (wrap_u64 (wo_ada_residue o + ada_from_charge_pair)) ma) None None).

Definition treasury_into_ledger (o : TreasuryWithdrawOutput) : panics TransactionOutput :=
  '(ada_from_charge_pair, ma) ← charge_pair (to_token_x_asset o) (to_token_y_asset o) (to_token_x_amount o) (to_token_y_amount o);
  Ok (mkTxOut (enterprise_address (ow_network_id c) (ScriptCred (to_treasury_script_hash o)))
        (mkValue (wrap_u64 (to_ada_residue o + ada_from_charge_pair)) ma) None None).

Definition dao_into_ledger (o : DaoActionResult) : panics TransactionOutput :=
  match o with
  | RequestorOutput qty address => Ok (mkTxOut address (mkValue qty ∅) None None)
  | TreasuryWithdraw o => treasury_into_ledger o
  end.
End Apply.

(** ** The royalty pool in an output *)

Definition royalty_into_ledger (p : RoyaltyPool) (im : ImmutablePoolUtxo) : panics TransactionOutput :=
  value ← pool_value (asset_x p) (asset_y p) (asset_lq p) (rp_id p) (reserves_x p) (reserves_y p) (rp_liquidity p) (im_value im);
  datum ← pool_datum (im_datum im) p;
  Ok (mkTxOut (pool_address (im_address im) (stake_part_script_hash p)) value datum (im_script_ref im)).

Definition const_fn_into_ledger (p : ConstFnPool) (im : ImmutablePoolUtxo) : panics TransactionOutput :=
  match p with Classic p => classic_into_ledger p im | FeeSwitch p => fee_switch_into_ledger p im | Royalty p => royalty_into_ledger p im end.

(** ** The transaction that runs an order *)

Inductive CFMMPoolAction := ActSwap | ActDeposit | ActRedeem | ActRoyaltyWithdraw | ActDAOAction.
Definition pool_action_into_pd (a : CFMMPoolAction) : PlutusData :=
  int_into_pd (match a with ActSwap => 2 | ActDeposit => 0 | ActRedeem => 1 | ActDAOAction => 3 | ActRoyaltyWithdraw => 4 end).

Definition cfmm_pool_redeemer (pool_input_index : Z) (action : CFMMPoolAction) : PlutusData :=
  PdConstr 0 [pool_action_into_pd action; int_into_pd pool_input_index].
(** [ClassicalOrderAction::Apply] is 0. *)
Definition classical_order_redeemer (pool_input_index order_input_index output_index : Z) : PlutusData :=
  PdConstr 0 [int_into_pd pool_input_index; int_into_pd order_input_index; int_into_pd output_index; int_into_pd 0].

Inductive RunOrderError (O : Type) := Fatal (order : O) | NonFatal (order : O).
Arguments Fatal {O} _.
Arguments NonFatal {O} _.

Definition run_error {O} (e : ApplyOrderError O) (bearer : FinalizedTxOut) : RunOrderError (O * FinalizedTxOut) :=
  match e with
  | Slippage o _ _ | LowBatcherFee o _ _ | Incompatible o => NonFatal (o, bearer)
  | VerificationFailed o => Fatal (o, bearer)
  end.

(** The traits of a pool and of an order that can be run against it. *)
Class RunnablePool (Pool : Type) := {
  pool_get_validator : Pool -> DeployedValidatorErased;
  pool_into_ledger : Pool -> ImmutablePoolUtxo -> panics TransactionOutput;
  pool_redeemer : Pool -> Pool -> Z -> CFMMPoolAction -> PlutusData;
}.
Class ApplyOrder (Pool Order Result : Type) := {
  apply_order : Pool -> Order -> outcome (ApplyOrderError Order) (Pool * OperationResultBlueprint Result);
  order_action : CFMMPoolAction;
  result_into_ledger : Result -> panics TransactionOutput;
}.

(** What the transaction builder sums up, and its build with a fee that may have
    been set. *)
Class FeeBuilderLib := {
  total_input_coin : TransactionBuilder -> option Z;
  total_output_coin : TransactionBuilder -> option Z;
  build_with_fee : TransactionBuilder -> option Z -> Address -> option TxBody;
}.

Record RunContext := mkRunContext { rx_collateral : FinalizedTxOut; rx_network_id : Z; rx_reward_address : Address }.

Section Run.
Context `{TL : TxBuilderLib} `{FB : FeeBuilderLib} {Pool Order Result : Type} `{RP : !RunnablePool Pool} `{AO : !ApplyOrder Pool Order Result}.
Context (ctx : RunContext).

Definition or_fatal {O A} (o : O) (m : panics A) : outcome (RunOrderError O) A := match m with Ok a => Ok a | _ => Err (Fatal o) end.

Definition input_indexes (pool_ref order_ref : OutputRef) : nat * nat :=
  match merge_sort ref_le [pool_ref; order_ref] with
  | lh :: _ => if bool_decide (lh = pool_ref) then (0, 1) else (1, 0)
  | [] => (1, 0)
  end.

Definition all_outputs (o : OperationResultOutputs Result) : list Result :=
  match o with SingleOutput r => [r] | MultipleOutputs r rs => r :: rs end.

Fixpoint add_results (ob : Order * FinalizedTxOut) (t : TransactionBuilder) (rs : list Result)
    : outcome (RunOrderError (Order * FinalizedTxOut)) TransactionBuilder :=
  match rs with
  | [] => Ok t
  | r :: rs =>
    o ← of_panics (result_into_ledger r);
    t ← or_fatal ob (tb_add_output t o);
    add_results ob t rs
  end.

Definition add_witness (t : TransactionBuilder) (witness : option (DeployedValidatorErased * (Z -> Z -> PlutusData))) (pool_ix order_ix : nat)
    : TransactionBuilder :=
  match witness with
  | Some (v, redeemer) =>
    let t := tb_add_reference_input t (ref_input v) (ref_output v) in
    let t := tb_add_withdrawal t (mkWithdrawal (rx_network_id ctx) (dv_hash v) (redeemer (Z.of_nat pool_ix) (Z.of_nat order_ix))) in
    tb_set_exunits t Reward 0 (dv_ex_budget v)
  | None => t
  end.

(** What is left over the fee goes to the operator. *)
Definition add_batcher_output (ob : Order * FinalizedTxOut) (t : TransactionBuilder) (strict_fee : option Z)
    : outcome (RunOrderError (Order * FinalizedTxOut)) TransactionBuilder :=
  match strict_fee with
  | None => Ok t
  | Some fee =>
    total_in ← or_panic (total_input_coin t);
    total_out ← or_panic (total_output_coin t);
    batcher_output_lovelace ← ok_or (without_fee ← checked_sub total_in total_out; checked_sub without_fee fee) (Fatal ob);
    if (0 <? batcher_output_lovelace)%Z then
      if (batcher_output_lovelace <? MIN_SAFE_LOVELACE_VALUE)%Z then Err (Fatal ob)
      else or_fatal ob (tb_add_output t (mkTxOut (rx_reward_address ctx) (mkValue batcher_output_lovelace ∅) None None))
    else Ok t
  end.

(** Everything before the build. *)
Definition assemble (pool : Pool) (pool_bearer : FinalizedTxOut) (order : Order) (order_bearer : FinalizedTxOut)
    : outcome (RunOrderError (Order * FinalizedTxOut)) (TransactionBuilder * option Z * Pool * TransactionOutput) :=
  let ob := (order, order_bearer) in
  let '(pool_in_idx, order_in_idx) := input_indexes (reference pool_bearer) (reference order_bearer) in
  '(next_pool, blueprint) ←
    match apply_order pool order with
    | Ok r => Ok r
    | Err e => Err (run_error e order_bearer)
    | Panic => Panic
    end;
  pool_out ← of_panics (pool_into_ledger next_pool (immutable_of (fin_output pool_bearer)));
  let pool_validator := pool_get_validator pool in
  let pool_in := mkBuilderInput (reference pool_bearer) (fin_output pool_bearer)
                   (PlutusRef (dv_hash pool_validator) (pool_redeemer next_pool pool (Z.of_nat pool_in_idx) order_action) []) in
  let order_validator := or_validator blueprint in
  let order_in := mkBuilderInput (reference order_bearer) (fin_output order_bearer)
                    (PlutusRef (dv_hash order_validator)
                       (classical_order_redeemer (Z.of_nat pool_in_idx) (Z.of_nat order_in_idx) 1) []) in
  t ← or_fatal ob (tb_add_collateral constant_tx_builder (rx_collateral ctx));
  let t := tb_add_reference_input t (ref_input pool_validator) (ref_output pool_validator) in
  let t := tb_add_reference_input t (ref_input order_validator) (ref_output order_validator) in
  t ← or_fatal ob (tb_add_input t pool_in);
  t ← or_fatal ob (tb_add_input t order_in);
  let t := tb_set_exunits t Spend pool_in_idx (dv_ex_budget pool_validator) in
  let t := tb_set_exunits t Spend order_in_idx (dv_ex_budget order_validator) in
  t ← or_fatal ob (tb_add_output t pool_out);
  t ← add_results ob t (all_outputs (or_outputs blueprint));
  let t := add_witness t (or_witness_script blueprint) pool_in_idx order_in_idx in
  t ← add_batcher_output ob t (or_strict_fee blueprint);
  Ok (t, or_strict_fee blueprint, next_pool, pool_out).

(** The transaction and the predicted pool. *)
Definition try_run_order_against_pool (pool : Pool) (pool_bearer : FinalizedTxOut) (order : Order) (order_bearer : FinalizedTxOut)
    : outcome (RunOrderError (Order * FinalizedTxOut)) (TxBody * (Pool * FinalizedTxOut)) :=
  '(t, fee, next_pool, pool_out) ← assemble pool pool_bearer order order_bearer;
  tx ← ok_or (build_with_fee t fee (rx_reward_address ctx)) (Fatal (order, order_bearer));
  Ok (tx, (next_pool, mkFinalized pool_out (body_hash tx, 0%Z))).
End Run.

(** ** The orders of constant-product pools *)

Record PoolValidators := mkPoolValidators {
  pv_classic_v1 : DeployedValidatorErased;
  pv_classic_v2 : DeployedValidatorErased;
  pv_fee_switch_v1 : DeployedValidatorErased;
  pv_fee_switch_v2 : DeployedValidatorErased;
  pv_fee_switch_bidir : DeployedValidatorErased;
  pv_royalty_v1 : DeployedValidatorErased;
  pv_royalty_v1_fixed : DeployedValidatorErased;
  pv_royalty_v2 : DeployedValidatorErased;
}.

Definition const_fn_validator (vs : PoolValidators) (p : ConstFnPool) : DeployedValidatorErased :=
  match p with
  | Classic p => match cp_ver p with ClassicV1 => pv_classic_v1 vs | ClassicV2 => pv_classic_v2 vs end
  | FeeSwitch p => match fs_ver p with FeeSwitchV1 => pv_fee_switch_v1 vs | FeeSwitchV2 => pv_fee_switch_v2 vs | BiDirV1 => pv_fee_switch_bidir vs end
  | Royalty p => match ver p with V1 => pv_royalty_v1 vs | V1LedgerFixed => pv_royalty_v1_fixed vs | V2 => pv_royalty_v2 vs end
  end.

Definition const_fn_runnable (vs : PoolValidators) : RunnablePool ConstFnPool := {|
  pool_get_validator := const_fn_validator vs;
  pool_into_ledger := const_fn_into_ledger;
  pool_redeemer := fun _ _ pool_input_index action => cfmm_pool_redeemer pool_input_index action;
|}.

Section Orders.
Context `{CB : CborLib} `{BL : Blake224} `{ED : Ed25519Lib} `{AL : AddressLib} (c : OwnerContext).
Context (deposit_validators redeem_validators : OrderType -> DeployedValidatorErased).

Definition run_deposit : ApplyOrder ConstFnPool (ClassicalOrder Deposit) DepositOutput := {|
  apply_order := apply_deposit deposit_validators;
  order_action := ActDeposit;
  result_into_ledger := deposit_into_ledger (ow_network_id c);
|}.
Definition run_redeem : ApplyOrder ConstFnPool (ClassicalOrder Redeem) RedeemOutput := {|
  apply_order := apply_redeem redeem_validators;
  order_action := ActRedeem;
  result_into_ledger := redeem_into_ledger (ow_network_id c);
|}.
Definition run_withdraw : ApplyOrder ConstFnPool (ClassicalOrder RoyaltyWithdraw) RoyaltyWithdrawOutput := {|
  apply_order := const_fn_royalty_withdraw c;
  order_action := ActRoyaltyWithdraw;
  result_into_ledger := withdraw_into_ledger c;
|}.
Definition run_dao : ApplyOrder ConstFnPool (ClassicalOrder DAOV1Request) DaoActionResult := {|
  apply_order := const_fn_dao c;
  order_action := ActDAOAction;
  result_into_ledger := dao_into_ledger c;
|}.
End Orders.

Inductive Order :=
| OrdDeposit (o : ClassicalOrder Deposit)
| OrdRedeem (o : ClassicalOrder Redeem)
| OrdRoyaltyWithdraw (o : ClassicalOrder RoyaltyWithdraw)
| OrdDAOActionRequest (o : ClassicalOrder DAOV1Request).

Record OrderContext := mkOrderContext {
  oc_deposit_script : OrderType -> bytes;
  oc_redeem_script : OrderType -> bytes;
  oc_withdraw_script : OrderType -> bytes;
  oc_dao_v1 : bytes;
  oc_dao_v2 : bytes;
  oc_min_deposit_collateral : Z;
  oc_min_redeem_collateral : Z;
  oc_min_royalty_output : Z;
  oc_min_dao_collateral : Z;
}.

(** The source tries the redeem reader twice. *)
Definition order_try_from_ledger `{BigUintLib} `{CborLib} (c : OrderContext) (oref : OutputRef) (o : TransactionOutput) : option Order :=
  match deposit_try_from_ledger (oc_deposit_script c) (oc_min_deposit_collateral c) oref o with
  | Some d => Some (OrdDeposit d)
  | None =>
    match redeem_try_from_ledger (oc_redeem_script c) (oc_min_redeem_collateral c) oref o with
    | Some r => Some (OrdRedeem r)
    | None =>
      match withdraw_try_from_ledger (oc_withdraw_script c) (oc_min_royalty_output c) oref o with
      | Some w => Some (OrdRoyaltyWithdraw w)
      | None => OrdDAOActionRequest <$> dao_try_from_ledger (oc_dao_v1 c) (oc_dao_v2 c) (oc_min_dao_collateral c) oref o
      end
    end
  end.

(** [RunClassicalAMMOrderOverPool::try_run]. *)
Section TryRun.
Context `{TL : TxBuilderLib} `{FB : FeeBuilderLib} `{CB : CborLib} `{BL : Blake224} `{ED : Ed25519Lib} `{AL : AddressLib}.
Context (vs : PoolValidators) (c : OwnerContext) (ctx : RunContext) (deposit_validators redeem_validators : OrderType -> DeployedValidatorErased).

Definition map_run_error {O A} (wrap : O -> Order) (r : outcome (RunOrderError (O * FinalizedTxOut)) A)
    : outcome (RunOrderError (Order * FinalizedTxOut)) A :=
  match r with
  | Ok a => Ok a
  | Err (Fatal (o, b)) => Err (Fatal (wrap o, b))
  | Err (NonFatal (o, b)) => Err (NonFatal (wrap o, b))
  | Panic => Panic
  end.

Definition try_run (pool : ConstFnPool) (pool_bearer : FinalizedTxOut) (order : Order) (ord_bearer : FinalizedTxOut)
    : outcome (RunOrderError (Order * FinalizedTxOut)) (TxBody * (ConstFnPool * FinalizedTxOut)) :=
  let RP := const_fn_runnable vs in
  match order with
  | OrdDeposit o =>
    map_run_error OrdDeposit (try_run_order_against_pool (AO := run_deposit c deposit_validators) ctx pool pool_bearer o ord_bearer)
  | OrdRedeem o =>
    map_run_error OrdRedeem (try_run_order_against_pool (AO := run_redeem c redeem_validators) ctx pool pool_bearer o ord_bearer)
  | OrdRoyaltyWithdraw o =>
    map_run_error OrdRoyaltyWithdraw (try_run_order_against_pool (AO := run_withdraw c) ctx pool pool_bearer o ord_bearer)
  | OrdDAOActionRequest o =>
    map_run_error OrdDAOActionRequest (try_run_order_against_pool (AO := run_dao c) ctx pool pool_bearer o ord_bearer)
  end.
End TryRun.
