(* ===== verification/PoolOrdersProofs.v ===== *)
(** * What the orders of a pool can and cannot do

    Theorems about [PoolOrders.v] and [ConstFnPool.v]: no sequence of orders
    takes value from a share of the liquidity, a signature of a royalty holder
    authorises one withdrawal, and the transaction of an owner's order balances. *)

From stdpp Require Import base gmap list sorting.
From Stdlib Require Import ZArith Lia Strings.Byte.
From S2P Require Import Prelude Mpf LbTypes Assets PlutusData Intention GreenOrder LbCore LbCoreProofs AccountStore.
From S2P Require Import AccountIndex RoyaltyPool LbState Containers Redeemers TxBlueprint TxBlueprintProofs RoyaltyDatum RoyaltyDatumProofs.
From S2P Require Import GreenTx Graduation EventSink LimitOrder ConstFnPool ConstFnPoolProofs PoolOrders.

#[local] Notation delete := base.delete.
#[local] Notation insert := base.insert.

(** ** Shares through every kind of order *)

Section Shares.
Context `{CB : CborLib} `{BL : Blake224} `{ED : Ed25519Lib} `{AL : AddressLib} (c : OwnerContext).
Context (deposit_validators redeem_validators : OrderType -> DeployedValidatorErased).
Open Scope Z_scope.

(** The providers' part of two royalty pools is the same. *)
Definition same_shares (p p' : RoyaltyPool) : Prop :=
  lp_x (Royalty p') = lp_x (Royalty p) /\ lp_y (Royalty p') = lp_y (Royalty p) /\ lp_shares (Royalty p') = lp_shares (Royalty p).

Lemma take_royalty_inv p key x y p' : take_royalty p key x y = Some p' ->
  exists fx fy sx sy,
    p' = set_parts p (reserves_x p - x) (reserves_y p - y) (treasury_x p) (treasury_y p) fx fy sx sy /\ x <= reserves_x p /\ y <= reserves_y p /\ (fx = first_royalty_x p - x /\ fy = first_royalty_y p - y /\ sx = second_royalty_x p /\ sy = second_royalty_y p /\ 0 <= fx /\ 0 <= fy \/
     fx = first_royalty_x p /\ fy = first_royalty_y p /\ sx = second_royalty_x p - x /\ sy = second_royalty_y p - y /\ 0 <= sx /\ 0 <= sy).
Proof.
  unfold take_royalty. intros E.
  destruct (checked_sub (reserves_x p) x) as [rx|] eqn:E1; [|done]. apply checked_sub_inv in E1 as [? ->]. cbn [mbind option_bind] in E.
  destruct (checked_sub (reserves_y p) y) as [ry|] eqn:E2; [|done]. apply checked_sub_inv in E2 as [? ->]. cbn [mbind option_bind] in E.
  destruct key.
  - destruct (checked_sub (first_royalty_x p) x) as [fx|] eqn:E3; [|done]. apply checked_sub_inv in E3 as [? ->]. cbn [mbind option_bind] in E.
    destruct (checked_sub (first_royalty_y p) y) as [fy|] eqn:E4; [|done]. apply checked_sub_inv in E4 as [? ->]. injection E as <-.
    eexists _, _, _, _. split; [done|]. lia.
  - destruct (checked_sub (second_royalty_x p) x) as [fx|] eqn:E3; [|done]. apply checked_sub_inv in E3 as [? ->]. cbn [mbind option_bind] in E.
    destruct (checked_sub (second_royalty_y p) y) as [fy|] eqn:E4; [|done]. apply checked_sub_inv in E4 as [? ->]. injection E as <-.
    eexists _, _, _, _. split; [done|]. lia.
Qed.

Lemma take_royalty_shares p key x y p' : take_royalty p key x y = Some p' -> pool_sound (Royalty p) -> 0 <= x -> 0 <= y ->
  pool_sound (Royalty p') /\ same_shares p p'.
Proof.
  intros (fx & fy & sx & sy & -> & L1 & L2 & Hf)%take_royalty_inv [Hx Hy Hl Hp] H0 H1. cbn in Hx, Hy, Hp.
  split; [split; cbn; try done; lia|]. unfold same_shares, lp_x, lp_y, lp_shares. cbn. lia.
Qed.

Lemma dao_change_shares p o p' : dao_change p o = Some p' -> pool_sound (Royalty p) ->
  0 <= da_treasury_x_abs_delta o -> 0 <= da_treasury_y_abs_delta o -> pool_sound (Royalty p') /\ same_shares p p'.
Proof.
  unfold dao_change. intros E [Hx Hy Hl Hp] H0 H1. cbn in Hx, Hy, Hp.
  destruct (da_dao_action o); [|injection E as <-; split; [split; cbn; done || lia|by unfold same_shares]..].
  destruct (checked_sub (reserves_x p) _) as [rx|] eqn:E1; [|done]. apply checked_sub_inv in E1 as [? ->]. cbn [mbind option_bind] in E.
  destruct (checked_sub (treasury_x p) _) as [tx|] eqn:E3; [|done]. apply checked_sub_inv in E3 as [? ->]. cbn [mbind option_bind] in E.
  destruct (checked_sub (reserves_y p) _) as [ry|] eqn:E2; [|done]. apply checked_sub_inv in E2 as [? ->]. cbn [mbind option_bind] in E.
  destruct (checked_sub (treasury_y p) _) as [ty|] eqn:E4; [|done]. apply checked_sub_inv in E4 as [? ->]. injection E as <-.
  split; [split; cbn; try done; lia|]. unfold same_shares, lp_x, lp_y, lp_shares. cbn. lia.
Qed.

Lemma bump_nonce_shares p : (pool_sound (Royalty (bump_nonce p)) <-> pool_sound (Royalty p)) /\ same_shares p (bump_nonce p).
Proof. split; [|done]. split; intros [H1 H2 H3 H4]; split; done. Qed.

Lemma apply_withdraw_inv p w p' r : apply_royalty_withdraw c p w = Ok (p', r) ->
  exists v ms key hashed q, withdraw_validator c (co_order w) = Some v /\ withdraw_messages (co_order w) (rp_nonce p) = Ok ms /\
    who_signed 0 (royalty_keys p) ms (rw_signature (co_order w)) = Some (key, hashed) /\
    take_royalty p key (rw_withdraw_royalty_x (co_order w)) (rw_withdraw_royalty_y (co_order w)) = Some q /\
    p' = bump_nonce q /\ or_outputs r = SingleOutput (withdraw_output p' (co_order w)) /\ or_strict_fee r = Some (ow_transaction_fee c).
Proof.
  unfold apply_royalty_withdraw. destruct (withdraw_validator _ _) as [v|] eqn:Ev; [|done]. cbn [or_panic mbind outcome_bind].
  destruct (withdraw_messages _ _) as [ms| |] eqn:Em; [|done..]. cbn [of_panics mbind outcome_bind].
  destruct (forallb _ _); [|done]. cbn [mbind outcome_bind].
  destruct (who_signed _ _ _ _) as [[key hashed]|] eqn:Es; [|done]. cbn [ok_or mbind outcome_bind].
  destruct (take_royalty _ _ _ _) as [q|] eqn:Et; [|done]. cbn [ok_or mbind outcome_bind]. intros [= <- <-]. by exists v, ms, key, hashed, q.
Qed.

Lemma apply_dao_inv p d p' r : apply_dao c p d = Ok (p', r) ->
  exists ms q qty,
    dao_messages (co_order d) (dv_hash (match ver p with V2 => ow_pool_v2 c | _ => ow_pool_v1 c end)) (rp_nonce p) = Ok ms /\
    signature_threshold (ow_dao c) <= correct_signatures (public_keys (ow_dao c)) (da_signatures (co_order d)) ms /\
    dao_change p (co_order d) = Some q /\ p' = bump_nonce q /\ checked_sub (da_lovelace (co_order d)) (da_fee (co_order d)) = Some qty /\
    or_outputs r = (let out := RequestorOutput qty (enterprise_address (ow_network_id c) (PubKeyCred (da_requestor_pkh (co_order d)))) in
      match da_dao_action (co_order d) with
      | WithdrawTreasury => MultipleOutputs out
          [TreasuryWithdraw (mkTreasuryOutput (asset_x p') (da_treasury_x_abs_delta (co_order d)) (asset_y p') (da_treasury_y_abs_delta (co_order d)) 0
             (treasury_address p'))]
      | _ => SingleOutput out
      end) /\ or_strict_fee r = Some (execution_fee (ow_dao c)).
Proof.
  unfold apply_dao. destruct (dao_messages _ _ _) as [ms| |] eqn:Em; [|done..]. cbn [of_panics mbind outcome_bind].
  destruct (Z.ltb_spec (correct_signatures (public_keys (ow_dao c)) (da_signatures (co_order d)) ms) (signature_threshold (ow_dao c))); [done|].
  destruct (dao_change _ _) as [q|] eqn:Ec; [|done]. cbn [ok_or mbind outcome_bind].
  destruct (checked_sub _ _) as [qty|] eqn:Eq; [|done]. cbn [ok_or mbind outcome_bind]. intros [= <- <-]. by exists ms, q, qty.
Qed.

(** The amounts of an order that is read from an output are machine integers. *)
Definition order_u64 (o : Order) : Prop :=
  match o with
  | OrdDeposit d => deposit_u64 (co_order d)
  | OrdRedeem r => 0 <= rd_token_lq_amount (co_order r)
  | OrdRoyaltyWithdraw w => 0 <= rw_withdraw_royalty_x (co_order w) /\ 0 <= rw_withdraw_royalty_y (co_order w)
  | OrdDAOActionRequest d => 0 <= da_treasury_x_abs_delta (co_order d) /\ 0 <= da_treasury_y_abs_delta (co_order d)
  end.

(** The pool an order leaves. *)
Definition order_applied (p : ConstFnPool) (o : Order) : option ConstFnPool :=
  match o with
  | OrdDeposit d => match apply_deposit deposit_validators p d with Ok (p', _) => Some p' | _ => None end
  | OrdRedeem r => match apply_redeem redeem_validators p r with Ok (p', _) => Some p' | _ => None end
  | OrdRoyaltyWithdraw w => match const_fn_royalty_withdraw c p w with Ok (p', _) => Some p' | _ => None end
  | OrdDAOActionRequest d => match const_fn_dao c p d with Ok (p', _) => Some p' | _ => None end
  end.

(** Orders in sequence; liquidity is left after each. *)
Inductive applied : ConstFnPool -> list Order -> ConstFnPool -> Prop :=
| applied_nil p : applied p [] p
| applied_cons p o p' os p'' : order_u64 o -> order_applied p o = Some p' -> 0 < lp_shares p' -> applied p' os p'' -> applied p (o :: os) p''.

Lemma shares_worth_trans p q r : 0 < lp_shares q -> 0 <= lp_shares p -> 0 <= lp_shares r ->
  shares_worth p q -> shares_worth q r -> shares_worth p r.
Proof.
  unfold shares_worth. intros Hq Hp Hr [A1 A2] [B1 B2].
  assert (forall a b c l m n, 0 < m -> 0 <= l -> 0 <= n -> a * m <= b * l -> b * n <= c * m -> a * n <= c * l) as H.
  { intros a b z l m n Hm Hl Hn E1 E2. apply (Zmult_le_reg_r _ _ m); [lia|]. nia. }
  split; [by eapply (H _ (lp_x q) _ _ (lp_shares q))|by eapply (H _ (lp_y q) _ _ (lp_shares q))].
Qed.

Lemma same_shares_worth p p' : same_shares p p' -> shares_worth (Royalty p) (Royalty p').
Proof. unfold shares_worth. intros (-> & -> & ->). split; lia. Qed.

Lemma order_fair p o p' : order_applied p o = Some p' -> pool_sound p -> order_u64 o -> pool_sound p' /\ shares_worth p p'.
Proof.
  intros E Hp Hu. destruct o as [d|r|w|d]; unfold order_applied in E; cbn [order_u64] in Hu.
  - destruct (apply_deposit _ _ _) as [[q b]| |] eqn:Ea; simplify_eq. destruct (deposit_fair _ _ _ _ _ Ea Hp Hu) as (? & ? & _). done.
  - destruct (apply_redeem _ _ _) as [[q b]| |] eqn:Ea; simplify_eq. destruct (redeem_fair _ _ _ _ _ Ea Hp Hu) as (? & ? & _). done.
  - destruct p as [|?|p]; try done. cbn [const_fn_royalty_withdraw] in E.
    destruct (apply_royalty_withdraw _ _ _) as [[q b]| |] eqn:Ea; [|done..]. injection E as <-.
    apply apply_withdraw_inv in Ea as (v & ms & key & hashed & q' & _ & _ & _ & Et & -> & _).
    destruct (take_royalty_shares _ _ _ _ _ Et Hp) as [Hq' Hs]; [lia..|]. split; [by apply bump_nonce_shares|by apply same_shares_worth].
  - destruct p as [|?|p]; try done. cbn [const_fn_dao] in E.
    destruct (apply_dao _ _ _) as [[q b]| |] eqn:Ea; [|done..]. injection E as <-.
    apply apply_dao_inv in Ea as (ms & q' & qty & _ & _ & Ec & -> & _).
    destruct (dao_change_shares _ _ _ Ec Hp) as [Hq' Hs]; [lia..|]. split; [by apply bump_nonce_shares|by apply same_shares_worth].
Qed.

(** C37: whatever deposits, redemptions, withdrawals of royalties and actions of
    the DAO a pool of any of the three kinds goes through, while liquidity is
    left in it, a share of its liquidity is worth at least as much of both assets
    as before, and what the pool owes to its treasury and royalties stays
    covered. *)
Theorem share_value_never_falls p os p' : applied p os p' -> pool_sound p -> 0 < lp_shares p -> pool_sound p' /\ shares_worth p p'.
Proof.
  induction 1 as [p|p o p1 os p2 Hu E Hl Ha IH]; intros Hp Hpos.
  - split; [done|]. unfold shares_worth. lia.
  - destruct (order_fair _ _ _ E Hp Hu) as [Hp1 W]. destruct (IH Hp1 Hl) as [Hp2 W2]. split; [done|].
    pose proof (ps_lq _ Hp2). unfold is_u64 in *. eapply (shares_worth_trans p p1 p2); try done; lia.
Qed.
End Shares.

(** ** One signature, one nonce *)

Section Replay.
Context `{CB : CborLib} `{CD : CborDecodeLib} `{CL : !CborDecodeLaws} `{BL : Blake224} `{ED : Ed25519Lib} `{AL : AddressLib} (c : OwnerContext).

Lemma who_signed_inv i keys ms s j h : who_signed i keys ms s = Some (j, h) ->
  exists k, k ∈ keys /\ key_verify k (if h then ms.2 else ms.1) s = true.
Proof.
  revert i. induction keys as [|k keys IH]; intros i; cbn; [done|].
  destruct (key_verify k ms.1 s) eqn:E1; [intros [= <- <-]; exists k; split; [by left|done]|].
  destruct (key_verify k ms.2 s) eqn:E2; [intros [= <- <-]; exists k; split; [by left|done]|].
  intros (k' & Hk & Hv)%IH. exists k'. split; [by right|done].
Qed.

Lemma withdraw_data_nonce o n n' d d' : withdraw_data_to_sign o n = Ok d -> withdraw_data_to_sign o n' = Ok d' -> d = d' -> n = n'.
Proof. unfold withdraw_data_to_sign. destruct (token_into_pd _); [|done..]. cbn. intros [= <-] [= <-] E. injection E as E. by rewrite E. Qed.

(** The data of an order for two nonces, or their digests, are the same bytes. *)
Definition digests_coincide (o : RoyaltyWithdraw) (n n' : Z) : Prop :=
  exists d d', withdraw_data_to_sign o n = Ok d /\ withdraw_data_to_sign o n' = Ok d' /\
    (blake2b224 (pd_to_cbor d) = blake2b224 (pd_to_cbor d') \/
     pd_to_cbor d = blake2b224 (pd_to_cbor d') \/ blake2b224 (pd_to_cbor d) = pd_to_cbor d').

End Replay.

(** ** Values of outputs *)

Section Amounts.
Open Scope Z_scope.

Lemma amount_asset_set z ma t v a : token_wf t -> asset_wf a -> amount (mkValue z (asset_set ma t v)) a = if decide (a = TokenAsset t) then v else amount (mkValue z ma) a.
Proof. intros. unfold amount. rewrite amount_of_set by done. by case_decide. Qed.

Lemma amount_safe_set z ma t v a : token_wf t -> asset_wf a -> amount (mkValue z (safe_set ma t v)) a = if decide (a = TokenAsset t) then v else amount (mkValue z ma) a.
Proof.
  intros Ht Ha. unfold safe_set. destruct (Z.eqb_spec v 0) as [->|]; [|by apply amount_asset_set].
  destruct a as [|u]; [by rewrite decide_False by done|]. destruct Ht as [Hp Hn], Ha as [Hp' Hn']. unfold amount. cbn.
  destruct (decide (policy t = policy u)) as [E|E].
  - rewrite E, lookup_alter_eq. destruct (ma !! policy u) as [m|]; cbn.
    + destruct (decide (cml_name (asset_name t) = cml_name (asset_name u))) as [E'|E'].
      * rewrite E', lookup_delete_eq. apply cml_name_inj in E'; [|done..]. rewrite decide_True; [done|]. destruct t, u; cbn in *; congruence.
      * rewrite lookup_delete_ne by done. by rewrite decide_False by congruence.
    + by case_decide.
  - rewrite lookup_alter_ne by done. by rewrite decide_False by congruence.
Qed.

Lemma amount_empty z t : amount (mkValue z ∅) (TokenAsset t) = 0.
Proof. unfold amount. cbn. by rewrite lookup_empty. Qed.

#[local] Arguments safe_set : simpl never.
#[local] Arguments asset_set : simpl never.

Lemma is_native_Native : is_native Native = true.
Proof. by apply bool_decide_eq_true_2. Qed.
Lemma is_native_Token t : is_native (TokenAsset t) = false.
Proof. by apply bool_decide_eq_false_2. Qed.

(** Two assets of a pair, in any token. *)
Lemma pair_amounts x y a xa ya : x <> y -> a <> Native ->
  (if decide (a = x) then xa else if decide (a = y) then ya else 0) = of_asset x xa a + of_asset y ya a.
Proof. intros. unfold of_asset. repeat case_decide; subst; try congruence; lia. Qed.

Lemma charge_pair_amounts x y xa ya z ada ma a : charge_pair x y xa ya = Ok (ada, ma) -> x <> y -> asset_wf x -> asset_wf y -> asset_wf a -> a <> Native ->
  amount (mkValue z ma) a = of_asset x xa a + of_asset y ya a.
Proof.
  intros E Hne Wx Wy Wa Hn. rewrite <- pair_amounts by done. destruct a as [|u]; [done|].
  unfold charge_pair in E. destruct x as [|x], y as [|y]; rewrite ?is_native_Native, ?is_native_Token in E; cbn in E; simplify_eq.
  - rewrite amount_safe_set, amount_empty by done. by rewrite (decide_False (P := TokenAsset u = Native)) by done.
  - rewrite amount_safe_set, amount_empty by done. by rewrite (decide_False (P := TokenAsset u = Native)) by done.
  - rewrite !amount_safe_set, amount_empty by done. repeat case_decide; congruence.
Qed.

Lemma pool_value_amount ax ay alq id rx ry lq iv v a : pool_assets ax ay alq id -> pool_value ax ay alq id rx ry lq iv = Ok v ->
  asset_wf a -> a <> Native ->
  amount v a = of_asset ax rx a + of_asset ay ry a + (if decide (a = alq) then wrap_u64 (MAX_LQ_CAP - lq) else if decide (a = TokenAsset id) then 1 else 0).
Proof.
  intros [Wx Wy Wl Wi Nxy Nxl Nyl Nix Niy Nil] E Wa Hn. rewrite <- pair_amounts by done. destruct a as [|u]; [done|]. unfold pool_value in E.
  destruct alq as [|l].
  { destruct ax, ay; rewrite ?is_native_Native, ?is_native_Token in E; done. } destruct ax as [|x], ay as [|y]; rewrite ?is_native_Native, ?is_native_Token in E; cbn in E; simplify_eq;
    rewrite !amount_asset_set, amount_empty by done; repeat case_decide; simplify_eq; try congruence; lia.
Qed.
End Amounts.

(** ** The transaction *)

#[local] Arguments amount : simpl never.

Definition sum_amounts (l : list TransactionOutput) (a : AssetClass) : Z := foldr (fun o s => amount (out_value o) a + s)%Z 0%Z l.
Definition tx_in (t : TransactionBuilder) (a : AssetClass) : Z := sum_amounts (bi_utxo <$> tb_inputs t) a.
Definition tx_out (t : TransactionBuilder) (a : AssetClass) : Z := sum_amounts (tb_outputs t) a.

Lemma sum_amounts_app l k a : sum_amounts (l ++ k) a = (sum_amounts l a + sum_amounts k a)%Z.
Proof. unfold sum_amounts. induction l as [|o l IH]; cbn; [done|]. rewrite IH. lia. Qed.

(** The builder's totals are the sums of lovelace: nothing is minted, withdrawn
    or deposited. *)
Class FeeBuilderLaws `{FB : FeeBuilderLib} : Prop := {
  total_input_sum : forall t z, total_input_coin t = Some z -> z = tx_in t Native;
  total_output_sum : forall t z, total_output_coin t = Some z -> z = tx_out t Native;
}.

Section Transaction.
Context `{TL : TxBuilderLib} `{FB : FeeBuilderLib} `{FBL : !FeeBuilderLaws} {Pool Ord Result : Type} `{RP : !RunnablePool Pool}
  `{AO : !ApplyOrder Pool Ord Result} (ctx : RunContext).

Lemma tb_add_output_inv {O} (ob : O) t o t' : or_fatal ob (tb_add_output t o) = Ok t' ->
  tb_inputs t' = tb_inputs t /\ tb_outputs t' = tb_outputs t ++ [o].
Proof. unfold tb_add_output. destruct (output_accepted t o); [|done]. by intros [= <-]. Qed.
Lemma tb_add_input_inv {O} (ob : O) t i t' : or_fatal ob (tb_add_input t i) = Ok t' ->
  tb_inputs t' = tb_inputs t ++ [i] /\ tb_outputs t' = tb_outputs t.
Proof. unfold tb_add_input. destruct (input_accepted t i); [|done]. by intros [= <-]. Qed.

Lemma add_results_inv ob t rs t' : add_results ob t rs = Ok t' ->
  exists outs, Forall2 (fun r o => result_into_ledger r = Ok o) rs outs /\ tb_inputs t' = tb_inputs t /\ tb_outputs t' = tb_outputs t ++ outs.
Proof.
  revert t. induction rs as [|r rs IH]; intros t; cbn.
  - intros [= <-]. exists []. by rewrite app_nil_r.
  - destruct (result_into_ledger r) as [o| |] eqn:Er; [|done..]. cbn [of_panics mbind outcome_bind].
    destruct (or_fatal ob (tb_add_output t o)) as [t1| |] eqn:Ea; [|done..]. cbn [mbind outcome_bind].
    apply tb_add_output_inv in Ea as [I1 O1]. intros (outs & Hf & I2 & O2)%IH. exists (o :: outs).
    split; [by constructor|]. split; [congruence|]. by rewrite O2, O1, <- app_assoc.
Qed.

Lemma add_batcher_inv (ob : Ord * FinalizedTxOut) t fee t' : add_batcher_output ctx ob t fee = Ok t' ->
  tb_inputs t' = tb_inputs t /\ (forall u, tx_out t' (TokenAsset u) = tx_out t (TokenAsset u)) /\
  (forall f, fee = Some f -> tx_in t' Native = tx_out t' Native + f)%Z /\ exists extra, tb_outputs t' = tb_outputs t ++ extra.
Proof.
  destruct fee as [f|]; cbn [add_batcher_output]; [|intros [= <-]; split_and!; try done; by exists []; rewrite app_nil_r].
  destruct (total_input_coin t) as [i|] eqn:Ei; [|done]. apply total_input_sum in Ei as ->. cbn [or_panic mbind outcome_bind].
  destruct (total_output_coin t) as [o|] eqn:Eo; [|done]. apply total_output_sum in Eo as ->. cbn [or_panic mbind outcome_bind].
  destruct (checked_sub _ (tx_out t Native)) as [d|] eqn:E1; [|done]. apply checked_sub_inv in E1 as [? ->]. cbn [mbind option_bind].
  destruct (checked_sub _ f) as [e|] eqn:E2; [|done]. apply checked_sub_inv in E2 as [? ->]. cbn [ok_or mbind outcome_bind].
  destruct (Z.ltb_spec 0 (tx_in t Native - tx_out t Native - f)).
  - destruct (_ <? _)%Z; [done|]. intros (I & O)%tb_add_output_inv. unfold tx_in, tx_out in *. rewrite I, O. split; [done|].
    split; [intros u|split; [intros f' [= <-]|by eexists]]; rewrite sum_amounts_app.
    + unfold sum_amounts at 2. cbn. rewrite amount_empty. lia.
    + unfold sum_amounts at 3. cbn. unfold amount. cbn. lia.
  - intros [= <-]. split_and!; try done; [intros f' [= <-]; lia|]. exists []. by rewrite app_nil_r.
Qed.

(** What the indexes in the redeemers stand for. *)
Lemma input_indexes_sorted (r r' : OutputRef) : r <> r' ->
  let l := merge_sort ref_le [r; r'] in let '(i, j) := input_indexes r r' in l !! i = Some r /\ l !! j = Some r'.
Proof.
  intros Hne. unfold input_indexes. cbn. unfold merge_sort, merge_list_to_stack. cbn.
  destruct (decide (ref_le r r')); cbn; [by rewrite bool_decide_eq_true_2|by rewrite bool_decide_eq_false_2].
Qed.

Lemma assemble_inv pool pb order ob t fee next pool_out : assemble ctx pool pb order ob = Ok (t, fee, next, pool_out) ->
  exists r outs extra, apply_order pool order = Ok (next, r) /\ pool_into_ledger next (immutable_of (fin_output pb)) = Ok pool_out /\
    fee = or_strict_fee r /\ Forall2 (fun r o => result_into_ledger r = Ok o) (all_outputs (or_outputs r)) outs /\
    (let '(i, j) := input_indexes (reference pb) (reference ob) in
     exists h h', tb_inputs t =
       [mkBuilderInput (reference pb) (fin_output pb) (PlutusRef h (pool_redeemer next pool (Z.of_nat i) order_action) []);
        mkBuilderInput (reference ob) (fin_output ob) (PlutusRef h' (classical_order_redeemer (Z.of_nat i) (Z.of_nat j) 1) [])]) /\
    tb_outputs t = pool_out :: outs ++ extra /\
    (forall u, sum_amounts extra (TokenAsset u) = 0)%Z /\ (forall f, fee = Some f -> tx_in t Native = tx_out t Native + f)%Z.
Proof.
  unfold assemble. destruct (input_indexes _ _) as [i j].
  destruct (apply_order pool order) as [[np r]| |] eqn:Ea; [|done..]. cbn [mbind outcome_bind].
  destruct (pool_into_ledger np _) as [po| |] eqn:Ep; [|done..]. cbn [of_panics mbind outcome_bind].
  destruct (or_fatal _ (tb_add_collateral _ _)) as [t0| |] eqn:E0; [|done..]. cbn [mbind outcome_bind].
  assert (tb_inputs t0 = [] /\ tb_outputs t0 = []) as [I0 O0].
  { unfold tb_add_collateral in E0. destruct (collateral_accepted _ _); [|done]. by injection E0 as <-. }
  destruct (or_fatal _ (tb_add_input _ _)) as [t1| |] eqn:E1; [|done..]. apply tb_add_input_inv in E1 as [I1 O1]. cbn [mbind outcome_bind].
  destruct (or_fatal _ (tb_add_input _ _)) as [t2| |] eqn:E2; [|done..]. apply tb_add_input_inv in E2 as [I2 O2]. cbn [mbind outcome_bind].
  destruct (or_fatal _ (tb_add_output _ _)) as [t3| |] eqn:E3; [|done..]. apply tb_add_output_inv in E3 as [I3 O3]. cbn [mbind outcome_bind].
  destruct (add_results _ _ _) as [t4| |] eqn:E4; [|done..]. apply add_results_inv in E4 as (outs & Hf & I4 & O4). cbn [mbind outcome_bind].
  destruct (add_batcher_output _ _ _ _) as [t5| |] eqn:E5; [|done..]. apply add_batcher_inv in E5 as (I5 & T5 & F5 & extra & O5).
  cbn [mbind outcome_bind]. intros [= <- <- <- <-].
  assert (tb_outputs t4 = po :: outs) as O4' by (rewrite O4, O3; cbn [tb_outputs tb_set_exunits]; rewrite O2, O1; cbn [tb_outputs tb_add_reference_input]; by rewrite O0).
  assert (forall w, tb_inputs (add_witness ctx t4 w i j) = tb_inputs t4 /\ tb_outputs (add_witness ctx t4 w i j) = tb_outputs t4) as Hw by (intros [[??]|]; done).
  destruct (Hw (or_witness_script r)) as [Iw Ow]. rewrite Ow, O4' in O5.
  assert (tb_inputs t5 = tb_inputs t2) as It by (rewrite I5, Iw, I4, I3; done).
  exists r, outs, extra. do 4 (split; [done|]). rewrite It, I2, I1. cbn [tb_inputs tb_add_reference_input]. rewrite I0.
  split_and!; try done; [by eexists _, _|]. intros u. specialize (T5 u). unfold tx_out in T5. rewrite O5, Ow, O4' in T5.
  change (po :: outs ++ extra) with ((po :: outs) ++ extra) in T5. rewrite sum_amounts_app in T5. lia.
Qed.
End Transaction.

(** ** The orders of a pool's owners *)

Section Owners.
Context `{TL : TxBuilderLib} `{FB : FeeBuilderLib} `{FBL : !FeeBuilderLaws}.
Context `{CB : CborLib} `{BL : Blake224} `{ED : Ed25519Lib} `{AL : AddressLib} (vs : PoolValidators) (c : OwnerContext) (ctx : RunContext).

(** The builder for an owner's order, with the action its redeemer names. *)
Inductive owner_assembled (p : RoyaltyPool) (pb ob : FinalizedTxOut)
    : CFMMPoolAction -> TransactionBuilder -> option Z -> ConstFnPool -> TransactionOutput -> Prop :=
| withdraw_assembled w t fee next out :
    assemble (RP := const_fn_runnable vs) (AO := run_withdraw c) ctx (Royalty p) pb w ob = Ok (t, fee, next, out) ->
    owner_assembled p pb ob ActRoyaltyWithdraw t fee next out
| dao_assembled d t fee next out :
    assemble (RP := const_fn_runnable vs) (AO := run_dao c) ctx (Royalty p) pb d ob = Ok (t, fee, next, out) ->
    owner_assembled p pb ob ActDAOAction t fee next out.

(** The pool gives what the other outputs receive. *)
Definition gives (p : RoyaltyPool) (next : ConstFnPool) (outs : list TransactionOutput) : Prop :=
  exists q x y, next = Royalty q /\ reserves_x q = (reserves_x p - x)%Z /\ reserves_y q = (reserves_y p - y)%Z /\
    (asset_x q, asset_y q, asset_lq q, rp_id q, rp_liquidity q) = (asset_x p, asset_y p, asset_lq p, rp_id p, rp_liquidity p) /\
    forall u, asset_wf (TokenAsset u) ->
      sum_amounts outs (TokenAsset u) = (of_asset (asset_x p) x (TokenAsset u) + of_asset (asset_y p) y (TokenAsset u))%Z.

Lemma withdraw_gives p w next r outs : asset_x p <> asset_y p -> asset_wf (asset_x p) -> asset_wf (asset_y p) ->
  const_fn_royalty_withdraw c (Royalty p) w = Ok (next, r) ->
  Forall2 (fun r o => withdraw_into_ledger c r = Ok o) (all_outputs (or_outputs r)) outs -> gives p next outs.
Proof.
  intros Hne Wx Wy E Hf. cbn [const_fn_royalty_withdraw] in E. destruct (apply_royalty_withdraw c p w) as [[q b]| |] eqn:Ea; [|done..].
  injection E as <- <-. apply apply_withdraw_inv in Ea as (v & ms & key & h & p1 & _ & _ & _ & Et & -> & Eo & _).
  apply take_royalty_inv in Et as (fx & fy & sx & sy & -> & _). rewrite Eo in Hf. cbn [all_outputs] in Hf.
  inversion_clear Hf as [|? o ? ? Ho Hn]. inversion_clear Hn. eexists _, _, _. do 4 (split; [done|]). intros u Wu.
  unfold withdraw_into_ledger in Ho. destruct (charge_pair _ _ _ _) as [[ada ma]| |] eqn:Ec; [|done..]. injection Ho as <-.
  cbn in Ec. unfold sum_amounts. cbn. rewrite (charge_pair_amounts _ _ _ _ _ _ _ _ Ec) by done. lia.
Qed.

Lemma dao_gives p d next r outs : asset_x p <> asset_y p -> asset_wf (asset_x p) -> asset_wf (asset_y p) ->
  const_fn_dao c (Royalty p) d = Ok (next, r) ->
  Forall2 (fun r o => dao_into_ledger c r = Ok o) (all_outputs (or_outputs r)) outs -> gives p next outs.
Proof.
  intros Hne Wx Wy E Hf. cbn [const_fn_dao] in E. destruct (apply_dao c p d) as [[q b]| |] eqn:Ea; [|done..].
  injection E as <- <-. apply apply_dao_inv in Ea as (ms & p1 & qty & _ & _ & Ec & -> & _ & Eo & _). rewrite Eo in Hf. unfold dao_change in Ec.
  destruct (da_dao_action (co_order d)); cbn [all_outputs] in Hf; inversion_clear Hf as [|? o ? outs' Ho Hn]; cbn in Ho; injection Ho as <-.
  2-6: inversion_clear Hn; injection Ec as <-; eexists _, 0%Z, 0%Z; split; [reflexivity|]; cbn; split_and!; try lia; try done;
    intros u _; unfold sum_amounts, of_asset; cbn; rewrite amount_empty; repeat case_decide; lia.
  destruct (checked_sub (reserves_x p) _) as [rx|] eqn:E1; [|done]. apply checked_sub_inv in E1 as [? ->]. cbn [mbind option_bind] in Ec.
  destruct (checked_sub (treasury_x p) _) as [tx|] eqn:E3; [|done]. cbn [mbind option_bind] in Ec.
  destruct (checked_sub (reserves_y p) _) as [ry|] eqn:E2; [|done]. apply checked_sub_inv in E2 as [? ->]. cbn [mbind option_bind] in Ec.
  destruct (checked_sub (treasury_y p) _) as [ty|] eqn:E4; [|done]. injection Ec as <-.
  inversion_clear Hn as [|? o ? ? Ho Hn']. inversion_clear Hn'. eexists _, _, _. do 4 (split; [done|]). intros u Wu.
  cbn [dao_into_ledger] in Ho. unfold treasury_into_ledger in Ho. destruct (charge_pair _ _ _ _) as [[ada ma]| |] eqn:Ec; [|done..]. injection Ho as <-.
  cbn in Ec. unfold sum_amounts. cbn. rewrite amount_empty, (charge_pair_amounts _ _ _ _ _ _ _ _ Ec) by done. lia.
Qed.

End Owners.
