(* ===== verification/PoolOrdersExamples.v ===== *)
(** * Royalties withdrawn, a treasury emptied

    Witnesses of the theorems of [PoolOrdersProofs.v] on a royalty pool of ADA and
    gold, with a concrete injective encoding of Plutus data. *)

From stdpp Require Import base gmap list sorting countable.
From Stdlib Require Import ZArith Lia Strings.Byte.
From S2P Require Import Prelude Mpf LbTypes Assets PlutusData Intention GreenOrder LbCore LbCoreProofs AccountStore.
From S2P Require Import AccountIndex RoyaltyPool LbState Containers Redeemers TxBlueprint TxBlueprintProofs RoyaltyDatum RoyaltyDatumProofs.
From S2P Require Import GreenTx Graduation EventSink LimitOrder ConstFnPool ConstFnPoolProofs ConstFnPoolExamples PoolOrders PoolOrdersProofs.

(** ** An encoding of Plutus data *)

Fixpoint pd_tree (d : PlutusData) : gen_tree (Z + bytes) :=
  match d with
  | PdConstr alt fs => GenNode 0 (GenLeaf (inl alt) :: (pd_tree <$> fs))
  | PdMap es => GenNode 1 ((fun ab => GenNode 0 [pd_tree ab.1; pd_tree ab.2]) <$> es)
  | PdList l => GenNode 2 (pd_tree <$> l)
  | PdInteger z => GenLeaf (inl z)
  | PdBytes bs => GenLeaf (inr bs)
  end.

Fixpoint tree_pd (t : gen_tree (Z + bytes)) : PlutusData :=
  match t with
  | GenLeaf (inl z) => PdInteger z
  | GenLeaf (inr bs) => PdBytes bs
  | GenNode 0 (GenLeaf (inl alt) :: l) => PdConstr alt (tree_pd <$> l)
  | GenNode 1 l => PdMap ((fun t => match t with GenNode _ [a; b] => (tree_pd a, tree_pd b) | _ => (PdInteger 0, PdInteger 0) end) <$> l)
  | GenNode _ l => PdList (tree_pd <$> l)
  end.

Lemma tree_pd_tree : forall d, tree_pd (pd_tree d) = d.
Proof.
  fix IH 1. intros [alt fs|es|l|z|bs]; cbn; f_equal.
  - induction fs as [|f fs IHfs]; cbn; [done|]. by rewrite IH, IHfs.
  - induction es as [|[a b] es IHes]; cbn; [done|]. by rewrite !IH, IHes.
  - induction l as [|f fs IHfs]; cbn; [done|]. by rewrite IH, IHfs.
Qed.

Fixpoint pos_bits (p : positive) : bytes :=
  match p with xH => [] | xO p => x00 :: pos_bits p | xI p => x01 :: pos_bits p end.
Fixpoint bits_pos (l : bytes) : positive :=
  match l with [] => xH | x00 :: l => xO (bits_pos l) | _ :: l => xI (bits_pos l) end.
Lemma bits_pos_bits p : bits_pos (pos_bits p) = p.
Proof. induction p as [p IH|p IH|]; cbn; [by rewrite IH..|done]. Qed.

#[local] Instance tree_cbor : CborLib := fun d => xd8 :: pos_bits (encode (pd_tree d)).
#[local] Instance tree_cbor_decode : CborDecodeLib := fun bs => tree_pd <$> decode (bits_pos (tail bs)).
#[local] Instance tree_cbor_laws : CborDecodeLaws.
Proof. split; [|done]. intros d. cbn. unfold pd_from_cbor, tree_cbor_decode, pd_to_cbor, tree_cbor. cbn [tail]. rewrite bits_pos_bits, decode_encode. cbn. by rewrite tree_pd_tree. Qed.

Module Owners.
Import Liquidity.
#[local] Instance constant_hash : Blake224 := fun _ => replicate 28 x55.
(** Keys are accepted, and the signature of a message ends with the key. *)
#[local] Instance last_key : Ed25519Lib := {| key_accepted := fun _ => true; key_verify := fun k _ s => bool_decide (k = take 32 s) |}.
#[local] Instance plain_address : AddressLib := {|
  base_address := fun _ p s => mkAddress (Some p) (Some s) [];
  enterprise_address := fun _ p => mkAddress (Some p) None [];
|}.
#[local] Instance open_builder : TxBuilderLib := {|
  input_accepted := fun _ _ => true; output_accepted := fun _ _ => true; collateral_accepted := fun _ _ => true;
  min_fee := fun _ => Some 200000%Z; build_tx := fun t _ => Some (mkBody (tb_outputs t) (replicate 32 x0c));
|}.
#[local] Instance sums : FeeBuilderLib := {|
  total_input_coin := fun t => Some (tx_in t Native);
  total_output_coin := fun t => Some (tx_out t Native);
  build_with_fee := fun t _ _ => Some (mkBody (tb_outputs t) (replicate 32 x0c));
|}.
#[local] Instance sums_laws : FeeBuilderLaws.
Proof. split; cbn; by intros t z [= <-]. Qed.

Definition validator (b : byte) : DeployedValidatorErased :=
  mkValidator (replicate 32 b, 0%Z) treasury_output (replicate 28 b) (mkExUnits 100 200) (mkExUnits 5 7).
Definition first_key : bytes := replicate 32 x21.
Definition second_key : bytes := replicate 32 x22.
Definition dao_keys : DAOContext := mkDaoContext [replicate 32 x23; replicate 32 x24] 2 350000.
Definition owners : OwnerContext :=
  mkOwnerContext (validator x61) (validator x62) (validator x63) (validator x64) (validator x65) 300000
    (validator x66) (validator x67) (validator x68) (validator x69) (validator x6a) (validator x6b) dao_keys 1.
Definition pool_validators : PoolValidators :=
  mkPoolValidators (validator x41) (validator x42) (validator x31) (validator x43) (validator x32) (validator x44) (validator x45) (validator x46).
Definition run_context : RunContext :=
  mkRunContext (mkFinalized treasury_output (replicate 32 x99, 0%Z)) 1 (mkAddress (Some (PubKeyCred (replicate 28 x70))) None []).

(** Of ten ADA and twenty million gold, some belong to the treasury and to two
    royalty holders. *)
Definition royalty_pool (nonce : Z) : RoyaltyPool :=
  mkRoyaltyPool nft 10000000 20000000 14000000 Native (TokenAsset gold) (TokenAsset lp_token) (mkRatio 99700 100000) (mkRatio 20 100000)
    1000000 500000 (mkRatio 10 100000) (mkRatio 10 100000) 300000 100000 200000 50000 0 (replicate 28 x51) (replicate 28 x52)
    first_key second_key V2 (mkExUnits 5 7) (mkPoolValidation 1000000 1500000) nonce (Some (replicate 28 x77)).

Definition royalty_output : TransactionOutput :=
  mkTxOut (mkAddress (Some (ScriptCred (replicate 28 x46))) (Some (ScriptCred (replicate 28 x77))) [])
    (mkValue 10000000 (asset_set (asset_set (asset_set ∅ gold 20000000) lp_token (MAX_LQ_CAP - 14000000)) nft 1))
    (Some (PdConstr 0 (replicate 19 (PdInteger 0)))) None.
Definition pool_bearer : FinalizedTxOut := mkFinalized royalty_output (replicate 32 x05, 0%Z).
Definition order_bearer : FinalizedTxOut :=
  mkFinalized (mkTxOut (mkAddress (Some (ScriptCred (replicate 28 x62))) None []) (mkValue 4000000 ∅) None None) (replicate 32 x04, 1%Z).

(** The second holder asks for 150000 lovelace and 40000 gold. *)
Definition withdrawal : ClassicalOrder RoyaltyWithdraw :=
  mkOrder (replicate 32 x04, 1%Z) nft
    (mkWithdraw nft 150000 40000 (replicate 28 x71) 1400000 (second_key ++ replicate 32 x00) 4000000 [] [] (out_address (fin_output order_bearer)) RoyaltyConstFnV2).
Definition dao_request (a : DaoAction) : ClassicalOrder DAOV1Request :=
  mkOrder (replicate 32 x04, 1%Z) nft
    (mkDaoRequest a nft (mkRatio 99500 100000) (mkRatio 30 100000) (replicate 28 x53) None (replicate 28 x54) 900000 400000 (replicate 28 x72)
       [replicate 64 x23; replicate 64 x24] [[]; []] 1400000 4000000 RequestV2).

Definition start : ConstFnPool := Royalty (royalty_pool 7).
Definition orders : list Order :=
  [OrdRoyaltyWithdraw withdrawal; OrdDAOActionRequest (dao_request WithdrawTreasury); OrdDAOActionRequest (dao_request ChangePoolFee);
   OrdDeposit deposit; OrdRedeem (redeem 5000000)].
#[local] Notation order_step := (order_applied owners validators validators).
Fixpoint run_orders (p : ConstFnPool) (os : list Order) : option ConstFnPool :=
  match os with [] => Some p | o :: os => order_step p o ≫= fun p => run_orders p os end.
Definition stage (k : nat) : ConstFnPool := default start (run_orders start (take k orders)).

Example amounts_at_the_end :
  (absolute_reserves (stage 5), withheld (stage 5)) = ((10914286, 24031640, 17235294)%Z, (450000, 210000)%Z).
Proof. vm_compute. reflexivity. Qed.

Lemma royalty_start_sound : pool_sound start.
Proof. split; vm_compute; try done; repeat split; discriminate. Qed.

Lemma share_value_never_falls_witness : pool_sound (stage 5) /\ shares_worth start (stage 5).
Proof.
  apply (share_value_never_falls owners validators validators start orders (stage 5)); [|exact royalty_start_sound|reflexivity].
  apply (applied_cons _ _ _ _ _ (stage 1)); [vm_compute; repeat split; discriminate|vm_compute; reflexivity..|].
  apply (applied_cons _ _ _ _ _ (stage 2)); [vm_compute; repeat split; discriminate|vm_compute; reflexivity..|].
  apply (applied_cons _ _ _ _ _ (stage 3)); [vm_compute; repeat split; discriminate|vm_compute; reflexivity..|].
  apply (applied_cons _ _ _ _ _ (stage 4)); [vm_compute; repeat split; discriminate|vm_compute; reflexivity..|].
  apply (applied_cons _ _ _ _ _ (stage 5)); [vm_compute; repeat split; discriminate|vm_compute; reflexivity..|apply applied_nil].
Defined.

(** A key that verifies everything lets the order be applied again. *)
Definition withdrawn (n : Z) : RoyaltyPool :=
  match apply_royalty_withdraw owners (royalty_pool n) withdrawal with Ok (p, _) => p | _ => royalty_pool n end.
Definition withdraw_result (n : Z) : OperationResultBlueprint RoyaltyWithdrawOutput :=
  match apply_royalty_withdraw owners (royalty_pool n) withdrawal with Ok (_, r) => r
  | _ => single_output (withdraw_output (royalty_pool n) (co_order withdrawal)) (validator x61) end.


(** The treasury is paid out: the pool, the requestor, the treasury and the
    operator. *)
#[local] Notation dao_run a := (assemble (RP := const_fn_runnable pool_validators) (AO := run_dao owners) run_context (Royalty (royalty_pool 7))
  pool_bearer (dao_request a) order_bearer).

Lemma royalty_assets : pool_assets (asset_x (royalty_pool 7)) (asset_y (royalty_pool 7)) (asset_lq (royalty_pool 7)) (rp_id (royalty_pool 7)).
Proof. split; vm_compute; first [done|discriminate]. Qed.


(** A pool whose staking part the DAO removes keeps its staking credential: the
    pool that is written is not the pool that was predicted. *)
Example stake_part_not_removed :
  match apply_dao owners (royalty_pool 7) (dao_request ChangeStakePart) with
  | Ok (p, _) =>
    match royalty_into_ledger p (immutable_of royalty_output) with
    | Ok o => (stake_part_script_hash p, stake_script_hash (out_address o)) = (None, Some (replicate 28 x77))
    | _ => False
    end
  | _ => False
  end.
Proof. vm_compute. reflexivity. Qed.

(** Signatures are paired with keys by position: a request that the second and
    third of three keys signed does not pass a threshold of two. *)
Example signatures_positional :
  correct_signatures [replicate 32 x23; replicate 32 x24; replicate 32 x25] [replicate 64 x24; replicate 64 x25] [[]; []] = 0%Z.
Proof. vm_compute. reflexivity. Qed.
End Owners.
