(* ===== verification/StablePool.v ===== *)
(** * Stable pools

    [data/stable_pool_t2t.rs], [pool_math/stable_pool_t2t_exact_math.rs] and
    [pool_math/stable_math.rs] of [spectrum-offchain-cardano]: the invariant of a
    pool of two stable assets and its exact check, the quote of a swap, the swap,
    the pool in an output and back, and the orders on its liquidity.

    The invariant is computed on 512-bit integers, whose operations panic when a
    result does not fit; [u64] arithmetic wraps.  Loops without a bound take their
    number of rounds and report when it is used up. *)

From stdpp Require Import base gmap list.
From Stdlib Require Import ZArith Lia Strings.Byte.
From S2P Require Import Prelude Mpf LbTypes Assets PlutusData Intention GreenOrder LbCore LbCoreProofs AccountStore.
From S2P Require Import AccountIndex RoyaltyPool LbState Containers Redeemers TxBlueprint RoyaltyDatum Graduation EventSink LimitOrder.
From S2P Require Import ConstFnPool PoolOrders.

#[local] Notation delete := base.delete.
#[local] Notation insert := base.insert.

(** ** 512-bit integers *)

Inductive Rounds := OutOfRounds.
Notation looping := (outcome Rounds).

Definition u512_max : Z := 2 ^ 512 - 1.
Definition u512_check (z : Z) : looping Z := if (0 <=? z)%Z && (z <=? u512_max)%Z then Ok z else Panic.
Definition lift2 (f : Z -> Z -> looping Z) (a b : looping Z) : looping Z := x ← a; y ← b; f x y.
Definition u512_add : looping Z -> looping Z -> looping Z := lift2 (fun x y => u512_check (x + y)).
Definition u512_sub : looping Z -> looping Z -> looping Z := lift2 (fun x y => u512_check (x - y)).
Definition u512_mul : looping Z -> looping Z -> looping Z := lift2 (fun x y => u512_check (x * y)).
Definition u512_div : looping Z -> looping Z -> looping Z := lift2 (fun x y => if (y =? 0)%Z then Panic else Ok (x / y)%Z).
Definition u512_as_u64 (a : looping Z) : looping Z := x ← a; if (x <=? u64_max)%Z then Ok x else Panic.

Declare Scope u512_scope.
Delimit Scope u512_scope with u512.
Infix "+" := u512_add : u512_scope.
Infix "-" := u512_sub : u512_scope.
Infix "*" := u512_mul : u512_scope.
Infix "/" := u512_div : u512_scope.
Notation "# n" := (Ok n%Z) (at level 1, format "# n") : u512_scope.

(** The absolute difference, taken from the larger one. *)
Definition abs_diff (a b : Z) : Z := if (b <? a)%Z then (a - b)%Z else (b - a)%Z.

(** ** The invariant *)

Definition MAX_SWAP_ERROR : Z := 2.
(** [N_TRADABLE_ASSETS.pow(N_TRADABLE_ASSETS)]. *)
Definition NN : Z := 4.

Section Invariant.
Open Scope u512_scope.

(** [vec![d; 3].into_iter().fold(U512::one(), |a, b| a * b)]. *)
Definition cube (d : Z) : looping Z := #1 * #d * #d * #d.

Definition calculate_invariant_error_sgn (x_calc y_calc d nn ann : Z) : looping bool :=
  let nn_total_prod_calc := #nn * #x_calc * #y_calc in
  let ann_total_sum_calc := #ann * (#x_calc + #y_calc) in
  inv_right ← #d * #ann + cube d / nn_total_prod_calc;
  inv_left ← ann_total_sum_calc + #d;
  Ok (inv_left <=? inv_right)%Z.

(** One step of Newton's method for the invariant. *)
Definition newton_d (x_calc y_calc ann d_previous : Z) : looping Z :=
  let s := #x_calc + #y_calc in
  let p := #x_calc * #y_calc in
  let d_p := cube d_previous / #NN / p in
  let d_num := (#ann * s + #2 * d_p) * #d_previous in
  let d_den := (#ann - #1) * #d_previous + (#2 + #1) * d_p in
  d_num / d_den.

Fixpoint newton_d_loop (rounds : nat) (x_calc y_calc ann d : Z) : looping Z :=
  match rounds with
  | O => Err OutOfRounds
  | S rounds =>
    d' ← newton_d x_calc y_calc ann d;
    if (1 <=? abs_diff d' d)%Z then newton_d_loop rounds x_calc y_calc ann d' else Ok d'
  end.

Fixpoint raise_d (rounds : nat) (x_calc y_calc ann d : Z) (inv_err : bool) : looping Z :=
  if inv_err then Ok d
  else match rounds with
       | O => Err OutOfRounds
       | S rounds =>
         d ← #d + #1;
         inv_err ← calculate_invariant_error_sgn x_calc y_calc d NN ann;
         raise_d rounds x_calc y_calc ann d inv_err
       end.

Definition calculate_invariant (rounds : nat) (x_calc y_calc an2n : Z) : looping (option Z) :=
  if (x_calc =? 0)%Z || (y_calc =? 0)%Z || (an2n =? 0)%Z then Ok None
  else
    let ann := (an2n / NN)%Z in
    s ← #x_calc + #y_calc;
    d ← newton_d_loop rounds x_calc y_calc ann s;
    inv_err ← calculate_invariant_error_sgn x_calc y_calc d NN ann;
    d1 ← #d + #1;
    inv_err_upper ← calculate_invariant_error_sgn x_calc y_calc d1 NN ann;
    if inv_err && negb inv_err_upper then Ok (Some d)
    else d ← raise_d rounds x_calc y_calc ann d inv_err; Ok (Some d).

Definition check_exact_invariant (quote_mult base_before quote_before base_after quote_after d nn an2n : Z) : looping (option bool) :=
  an2n_nn ← #an2n - #nn;
  dn1 ← cube d;
  total_prod_calc_before ← #base_before * #quote_before;
  alpha_before ← #an2n_nn * #total_prod_calc_before;
  beta_before ← #an2n * #total_prod_calc_before * (#base_before + #quote_before);
  total_prod_calc_after ← #base_after * #quote_after;
  alpha_after ← #an2n_nn * #total_prod_calc_after;
  beta_after ← #an2n * #total_prod_calc_after * (#base_after + #quote_after);
  max_quote_error ← #MAX_SWAP_ERROR * #quote_mult;
  if (max_quote_error <=? quote_after)%Z then
    total_prod_calc_after_shifter ← #base_after * (#quote_after - #max_quote_error);
    alpha_after_shifted ← #an2n_nn * #total_prod_calc_after_shifter;
    beta_after_shifted ← #an2n * #total_prod_calc_after_shifter * (#base_after + (#quote_after - #max_quote_error));
    before ← #dn1 + #alpha_before * #d;
    if (beta_before <=? before)%Z then
      after ← #dn1 + #alpha_after * #d;
      if (after <=? beta_after)%Z then
        shifted ← #dn1 + #alpha_after_shifted * #d;
        Ok (Some (beta_after_shifted <=? shifted)%Z)
      else Ok (Some false)
    else Ok (Some false)
  else Ok None.

(** ** The quote of a swap *)

(** One step of Newton's method for the reserves of the quote asset. *)
Definition newton_y (b c d asset_to_previous : Z) : looping Z :=
  (#asset_to_previous * #asset_to_previous + #c) / (#2 * #asset_to_previous + #b - #d).

Fixpoint newton_y_loop (rounds : nat) (b c d asset_to : Z) : looping Z :=
  match rounds with
  | O => Err OutOfRounds
  | S rounds =>
    y ← newton_y b c d asset_to;
    if (1 <=? abs_diff y asset_to)%Z then newton_y_loop rounds b c d y else Ok y
  end.

(** At most [tries] times, one unit more is left in the pool. *)
Fixpoint raise_quote (tries : nat) (quote_mult base_before quote_before base_after d an2n asset_to : Z) (valid_inv : bool) : looping (option Z) :=
  if valid_inv then Ok (Some asset_to)
  else match tries with
       | O => Ok (Some asset_to)
       | S tries =>
         asset_to ← #asset_to + #1;
         valid_inv ← check_exact_invariant quote_mult base_before quote_before base_after asset_to d NN an2n;
         match valid_inv with
         | None => Ok None
         | Some valid_inv => raise_quote tries quote_mult base_before quote_before base_after d an2n asset_to valid_inv
         end
       end.

Definition calc_stable_swap (rounds : nat) (asset_x : AssetClass) (reserves_x x_mult reserves_y y_mult : Z) (base_asset : AssetClass)
    (base_amount an2n : Z) : looping (option Z) :=
  if (an2n =? 0)%Z && (x_mult =? 0)%Z && (y_mult =? 0)%Z then Ok None
  else
    let '(base_reserves, base_mult, quote_reserves, quote_mult) :=
      if bool_decide (asset_x = base_asset) then (reserves_x, x_mult, reserves_y, y_mult) else (reserves_y, y_mult, reserves_x, x_mult) in
    let quote_calc := wrap_u64 (quote_reserves * quote_mult) in
    let base_initial := wrap_u64 (base_reserves * base_mult) in
    base_calc ← #base_initial + #(wrap_u64 (base_amount * base_mult));
    let ann := (an2n / NN)%Z in
    inv ← calculate_invariant rounds base_initial quote_calc an2n;
    match inv with
    | None => Ok None
    | Some d =>
      b ← #base_calc + #d / #ann;
      c ← cube d / #NN / #base_calc / #ann;
      asset_to ← newton_y_loop rounds b c d quote_calc;
      inv ← calculate_invariant rounds base_calc asset_to an2n;
      match inv with
      | None => Ok None
      | Some d_new =>
        let d_after := if (d <? d_new)%Z then d_new else d in
        valid_inv ← check_exact_invariant quote_mult base_initial quote_calc base_calc asset_to d_after NN an2n;
        match valid_inv with
        | None => Ok None
        | Some valid_inv =>
          asset_to ← raise_quote 255 quote_mult base_initial quote_calc base_calc d_after an2n asset_to valid_inv;
          match asset_to with
          | None => Ok None
          | Some asset_to => output ← u512_as_u64 ((#quote_calc - #asset_to) / #quote_mult); Ok (Some output)
          end
        end
      end
    end.
End Invariant.

(** ** The pool *)

Record StablePoolT2TConfig := mkStableConfig {
  sc_pool_nft : AssetClass;
  sc_an2n : Z;
  sc_asset_x : AssetClass;
  sc_asset_y : AssetClass;
  sc_multiplier_x : Z;
  sc_multiplier_y : Z;
  sc_asset_lq : AssetClass;
  sc_lp_fee_num : Z;
  sc_treasury_fee_num : Z;
  sc_treasury_x : Z;
  sc_treasury_y : Z;
}.

(** There is one version. *)
Record StablePoolT2T := mkStable {
  sp_id : Token;
  sp_an2n : Z;
  sp_reserves_x : Z;
  sp_multiplier_x : Z;
  sp_reserves_y : Z;
  sp_multiplier_y : Z;
  sp_liquidity : Z;
  sp_asset_x : AssetClass;
  sp_asset_y : AssetClass;
  sp_asset_lq : AssetClass;
  sp_lp_fee_x : Ratio;
  sp_lp_fee_y : Ratio;
  sp_treasury_fee : Ratio;
  sp_treasury_x : Z;
  sp_treasury_y : Z;
  sp_marginal_cost : ExUnits;
}.

Definition stable_with (p : StablePoolT2T) (rx ry lq tx ty : Z) : StablePoolT2T :=
  mkStable (sp_id p) (sp_an2n p) rx (sp_multiplier_x p) ry (sp_multiplier_y p) lq (sp_asset_x p) (sp_asset_y p) (sp_asset_lq p)
    (sp_lp_fee_x p) (sp_lp_fee_y p) (sp_treasury_fee p) tx ty (sp_marginal_cost p).

Definition sp_tradable_x (p : StablePoolT2T) : Z := wrap_u64 (sp_reserves_x p - sp_treasury_x p).
Definition sp_tradable_y (p : StablePoolT2T) : Z := wrap_u64 (sp_reserves_y p - sp_treasury_y p).

Section Ledger.
Context `{BU : BigUintLib}.

Definition stable_config_try_from_pd (data : PlutusData) : option StablePoolT2TConfig :=
  cpd ← into_constr_pd data;
  '(f, cpd) ← take_field cpd 0; pool_nft ← asset_try_from_pd f;
  '(f, cpd) ← take_field cpd 1; an2n ← into_u64 f;
  '(f, cpd) ← take_field cpd 2; ax ← asset_try_from_pd f;
  '(f, cpd) ← take_field cpd 3; ay ← asset_try_from_pd f;
  '(f, cpd) ← take_field cpd 4; mx ← into_u64 f;
  '(f, cpd) ← take_field cpd 5; my ← into_u64 f;
  '(f, cpd) ← take_field cpd 6; alq ← asset_try_from_pd f;
  '(f, cpd) ← take_field cpd 9; lp_fee_num ← into_u64 f;
  '(f, cpd) ← take_field cpd 10; treasury_fee_num ← into_u64 f;
  '(f, cpd) ← take_field cpd 13; tx ← into_u64 f;
  '(f, _) ← take_field cpd 14; ty ← into_u64 f;
  Some (mkStableConfig pool_nft an2n ax ay mx my alq lp_fee_num treasury_fee_num tx ty).

Definition stable_try_from_ledger (script : ScriptInfo) (bounds : PoolValidation) (o : TransactionOutput) : option StablePoolT2T :=
  if test_address (script_hash script) o then
    let value := out_value o in
    pd ← out_datum o;
    conf ← stable_config_try_from_pd pd;
    liquidity_neg ← amount_of value (sc_asset_lq conf);
    lov ← amount_of value Native;
    rx ← amount_of value (sc_asset_x conf);
    ry ← amount_of value (sc_asset_y conf);
    let reserves_ok := (sc_treasury_x conf <? rx)%Z && (sc_treasury_y conf <? ry)%Z in
    let lovelace_ok := is_native (sc_asset_x conf) || is_native (sc_asset_y conf) || (min_t2t_lovelace bounds <=? lov)%Z in
    if reserves_ok && lovelace_ok then
      id ← into_token (sc_pool_nft conf);
      Some (mkStable id (sc_an2n conf) rx (sc_multiplier_x conf) ry (sc_multiplier_y conf) (wrap_u64 (MAX_LQ_CAP - liquidity_neg))
              (sc_asset_x conf) (sc_asset_y conf) (sc_asset_lq conf) (mkRatio (sc_lp_fee_num conf) FEE_DEN) (mkRatio (sc_lp_fee_num conf) FEE_DEN)
              (mkRatio (sc_treasury_fee_num conf) FEE_DEN) (sc_treasury_x conf) (sc_treasury_y conf) (info_marginal_cost script))
    else None
  else None.
End Ledger.

Definition update_pd_stable (data : PlutusData) (tx ty : Z) : panics PlutusData :=
  match into_constr_pd data with
  | Some cpd =>
    cpd ← set_field cpd 13 (int_into_pd tx);
    cpd ← set_field cpd 14 (int_into_pd ty);
    Ok (PdConstr (alternative cpd) (fields cpd))
  | None => Panic
  end.

Definition stable_into_ledger (p : StablePoolT2T) (im : ImmutablePoolUtxo) : panics TransactionOutput :=
  value ← pool_value (sp_asset_x p) (sp_asset_y p) (sp_asset_lq p) (sp_id p) (sp_reserves_x p) (sp_reserves_y p) (sp_liquidity p) (im_value im);
  datum ← match im_datum im with
          | Some d => d ← update_pd_stable d (sp_treasury_x p) (sp_treasury_y p); Ok (Some d)
          | None => Ok None
          end;
  Ok (mkTxOut (im_address im) value datum (im_script_ref im)).

#[export] Instance stable_pool_stable : Stable StablePoolT2T Token := sp_id.

(** *** Swaps *)

Section Swap.
Context (rounds : nat).

Definition stable_output_amount (p : StablePoolT2T) (base_asset : AssetClass) (base_amount : Z) : looping Z :=
  o ← calc_stable_swap rounds (sp_asset_x p) (sp_tradable_x p) (sp_multiplier_x p) (sp_tradable_y p) (sp_multiplier_y p) base_asset base_amount (sp_an2n p);
  Ok (default 0%Z o).

Definition stable_pool_output (p : StablePoolT2T) (input : OnSide Z) : looping Z :=
  match input with
  | OnBid input => stable_output_amount p (pool_quote (sp_asset_x p) (sp_asset_y p)) input
  | OnAsk input => stable_output_amount p (pool_base (sp_asset_x p) (sp_asset_y p)) input
  end.

(** The treasury's fee is raised until it is its part of what is paid out. *)
Fixpoint raise_treasury_fee (rounds : nat) (pure_output lp_fees treasury_num f_rev treasury_fee : Z) (valid : bool) : looping Z :=
  if valid then Ok treasury_fee
  else match rounds with
       | O => Err OutOfRounds
       | S rounds =>
         let treasury_fee := wrap_u64 (treasury_fee + 1) in
         let quote_total_delta := wrap_u64 (wrap_u64 (pure_output - lp_fees) - treasury_fee) in
         let valid := (wrap_u64 (quote_total_delta * treasury_num) <=? wrap_u64 (treasury_fee * f_rev))%Z in
         raise_treasury_fee rounds pure_output lp_fees treasury_num f_rev treasury_fee valid
       end.

(** What the treasury and the providers keep of an output. *)
Definition stable_fees (p : StablePoolT2T) (lp_fee : Ratio) (pure_output : Z) : looping (Z * Z) :=
  let treasury_num := numer (sp_treasury_fee p) in
  lp_fees ← (if (denom lp_fee =? 0)%Z then Panic else Ok (wrap_u64 (wrap_u64 (pure_output * numer lp_fee) / denom lp_fee + 1)));
  treasury_fee_ ← (if (denom (sp_treasury_fee p) =? 0)%Z then Panic else Ok (wrap_u64 (pure_output * treasury_num) / denom (sp_treasury_fee p))%Z);
  let f_rev := wrap_u64 (wrap_u64 (denom lp_fee - treasury_num) - numer lp_fee) in
  let quote_total_delta := wrap_u64 (wrap_u64 (wrap_u64 (pure_output - lp_fees) - treasury_fee_) - 1) in
  let valid := (wrap_u64 (quote_total_delta * treasury_num) <=? wrap_u64 (treasury_fee_ * f_rev))%Z in
  treasury_fee ← (if valid || (treasury_num =? 0)%Z then Ok treasury_fee_
                  else raise_treasury_fee rounds pure_output lp_fees treasury_num f_rev treasury_fee_ valid);
  Ok (treasury_fee, lp_fees).

(** [treasury_x] grows on a bid and [treasury_y] on an ask, whichever of the
    assets is the base. *)
Definition stable_swap (p : StablePoolT2T) (input : OnSide Z) : looping StablePoolT2T :=
  pure_output ← stable_pool_output p input;
  let x_is_base := bool_decide (sp_asset_x p = pool_base (sp_asset_x p) (sp_asset_y p)) in
  let lp_fee := if x_is_base then sp_lp_fee_y p else sp_lp_fee_x p in
  let '(base, quote) := if x_is_base then (sp_reserves_x p, sp_reserves_y p) else (sp_reserves_y p, sp_reserves_x p) in
  '(treasury_fee, lp_fees) ← stable_fees p lp_fee pure_output;
  let output := wrap_u64 (wrap_u64 (pure_output - treasury_fee) - lp_fees) in
  let '(base, quote, tx, ty) :=
    match input with
    | OnBid input => (wrap_u64 (base - output), wrap_u64 (quote + input), wrap_u64 (sp_treasury_x p + treasury_fee), sp_treasury_y p)
    | OnAsk input => (wrap_u64 (base + input), wrap_u64 (quote - output), sp_treasury_x p, wrap_u64 (sp_treasury_y p + treasury_fee))
    end in
  Ok (if x_is_base then stable_with p base quote (sp_liquidity p) tx ty else stable_with p quote base (sp_liquidity p) tx ty).

(** *** Prices *)

Definition stable_static_price (p : StablePoolT2T) : looping AbsolutePrice :=
  let x_calc := wrap_u64 (sp_tradable_x p * sp_multiplier_x p) in
  let y_calc := wrap_u64 (sp_tradable_y p * sp_multiplier_y p) in
  let ann := (sp_an2n p / NN)%Z in
  inv ← calculate_invariant rounds x_calc y_calc (sp_an2n p);
  d ← or_panic inv;
  let dn1 := (Ok d * Ok d * Ok d)%u512 in
  let part a b := u512_as_u64 (dn1 / (Ok NN * (Ok a * Ok a) * Ok b))%u512 in
  part_x ← part x_calc y_calc;
  part_y ← part y_calc x_calc;
  let price_num := wrap_u64 (ann + part_x) in
  let fee_den := denom (sp_treasury_fee p) in
  let price_denom := wrap_u64 (fee_den * wrap_u64 (ann + part_y)) in
  let reversed lp_fee := wrap_u64 (wrap_u64 (fee_den - numer lp_fee) - numer (sp_treasury_fee p)) in
  Ok (if bool_decide (sp_asset_x p = pool_base (sp_asset_x p) (sp_asset_y p))
      then mkRatio (wrap_u64 (price_num * reversed (sp_lp_fee_x p))) price_denom
      else mkRatio price_denom (wrap_u64 (reversed (sp_lp_fee_y p) * price_num))).

Definition stable_real_price (p : StablePoolT2T) (input : OnSide Z) : looping (option AbsolutePrice) :=
  out ← stable_pool_output p input;
  Ok match input with OnBid input => price_new input out | OnAsk input => price_new out input end.

Definition stable_liquidity (p : StablePoolT2T) : AbsoluteReserves :=
  pool_reserves (sp_asset_x p) (sp_asset_y p) (sp_reserves_x p) (sp_reserves_y p).

Definition stable_asset_deltas (p : StablePoolT2T) (side : Side) : PoolAssetMapping :=
  let x := sp_asset_x p in
  let y := sp_asset_y p in
  if bool_decide (pool_base x y = x) then
    match side with Bid => mkMapping x y | Ask => mkMapping y x end
  else
    match side with Bid => mkMapping y x | Ask => mkMapping x y end.

(** [todo!()]. *)
Definition stable_estimated_trade (p : StablePoolT2T) (input : OnSide Z) : looping (option AvailableLiquidity) := Panic.

(** *** The redeemer *)

Fixpoint raise_context (rounds : nat) (quote_mult base_init quote_init base_after quote_after inv an2n : Z) (valid_inv : bool) : looping (option Z) :=
  if valid_inv then Ok (Some inv)
  else match rounds with
       | O => Err OutOfRounds
       | S rounds =>
         inv ← (Ok inv + Ok 1%Z)%u512;
         valid_inv ← check_exact_invariant quote_mult base_init quote_init base_after quote_after inv NN an2n;
         match valid_inv with
         | None => Ok None
         | Some valid_inv => raise_context rounds quote_mult base_init quote_init base_after quote_after inv an2n valid_inv
         end
       end.

Definition calculate_context_values_list (prev_state new_state : StablePoolT2T) : looping (option Z) :=
  let an2n := sp_an2n prev_state in
  let x_mult := sp_multiplier_x prev_state in
  let y_mult := sp_multiplier_y prev_state in
  let '(x0, y0) := (sp_tradable_x prev_state, sp_tradable_y prev_state) in
  let '(x1, y1) := (sp_tradable_x new_state, sp_tradable_y new_state) in
  let of_side (b0 b1 bm q0 q1 qm lp_fee_num : Z) : looping (option Z) :=
    base_init ← (Ok b0 * Ok bm)%u512;
    quote_init ← (Ok q0 * Ok qm)%u512;
    base_after_calc ← (Ok b1 * Ok bm)%u512;
    quote_delta ← (Ok q0 - Ok q1)%u512;
    quote_no_lp_fees ← (Ok q1 - Ok quote_delta * Ok lp_fee_num / (Ok (denom (sp_lp_fee_y prev_state)) - Ok lp_fee_num) - Ok 1%Z)%u512;
    quote_after_calc ← (Ok quote_no_lp_fees * Ok qm)%u512;
    inv ← calculate_invariant rounds base_init quote_init an2n;
    match inv with
    | None => Ok None
    | Some inv =>
      valid_inv ← check_exact_invariant qm base_init quote_init base_after_calc quote_after_calc inv NN an2n;
      match valid_inv with
      | None => Ok None
      | Some valid_inv => raise_context rounds qm base_init quote_init base_after_calc quote_after_calc inv an2n valid_inv
      end
    end in
  if (x0 <? x1)%Z then of_side x0 x1 x_mult y0 y1 y_mult (numer (sp_lp_fee_y prev_state))
  else of_side y0 y1 y_mult x0 x1 x_mult (numer (sp_lp_fee_x prev_state)).

Definition stable_redeemer (action : CFMMPoolAction) (pool_in_idx pool_out_idx : Z) (prev_state new_state : StablePoolT2T) : looping PlutusData :=
  values ← match action with
           | ActSwap =>
             v ← calculate_context_values_list prev_state new_state;
             v ← or_panic v;
             v ← u512_as_u64 (Ok v);
             Ok [int_into_pd v]
           | _ => Ok []
           end;
  Ok (PdConstr 0 [int_into_pd pool_in_idx; int_into_pd pool_out_idx; PdConstr 0 [PdList values]]).
End Swap.

(** *** Depth at a price *)

(** Conversions of the decimal library that only this pool uses, and the checked
    difference of two fractions. *)
Class StableNumberLib `{BN : BigNumberLib} := {
  bn_from_u512 : Z -> bignum;
  bn_from_f32 : Z -> bignum;
  bn_to_i64 : bignum -> option Z;
  ratio_checked_sub : Ratio -> Ratio -> option Ratio;
}.

Section Depth.
Context `{SN : StableNumberLib}.
#[local] Infix "+" := bn_add.
#[local] Infix "-" := bn_sub.
#[local] Infix "*" := bn_mul.
#[local] Infix "/" := bn_div.
#[local] Notation "$ n" := (bn_from_int n%Z) (at level 1, format "$ n").

(** One correction of the base reserves, with the root it is computed from. *)
Definition depth_step (ampl_coeff d x0 y0 avg_price total_fee_mult x : bignum) : bignum * bignum :=
  let d2 := d * d in
  let ampl_coeff2 := ampl_coeff * ampl_coeff in
  let ampl_coeff_d := ampl_coeff * d in
  let ampl_coeff2_d2 := ampl_coeff2 * d2 in
  let x2 := x * x in
  let x3 := x2 * x in
  let d2_x := d2 * x in
  let ampl_coeff2_d2_x := ampl_coeff2 * d2_x in
  let c := $16 * ampl_coeff2_d2_x - $32 * ampl_coeff2 * d * x2 + $16 * ampl_coeff2 * x3 + $4 * ampl_coeff_d * d2
           - $8 * ampl_coeff * d2 * x + $8 * ampl_coeff_d * x2 + d2 * x in
  let k := $4 * bn_pow (x * c) (bn_from f64_half) in
  let l := d - $4 * ampl_coeff_d + $4 * ampl_coeff * x in
  let twice_cx := $2 * c * x in
  let add_num := twice_cx * (x0 - x) *
    ($32 * ampl_coeff * avg_price * x * (x - x0)
     + (total_fee_mult - $1) * ($32 * ampl_coeff * x * y0 - k + $4 * l * x)) in
  let add_denom := (total_fee_mult - $1) *
    (twice_cx * ($32 * ampl_coeff * x * y0 - k + $4 * l * x)
     + (x - x0) *
       (k * ($16 * ampl_coeff2_d2_x - $32 * ampl_coeff2 * d * x2 + $16 * ampl_coeff2 * x3 + $4 * ampl_coeff_d * d2
             - $8 * ampl_coeff * d2_x + $8 * ampl_coeff_d * x2 + d2_x
             + x * ($16 * ampl_coeff2_d2 - $64 * ampl_coeff2 * d * x + $48 * ampl_coeff2 * x2 - $8 * ampl_coeff * d2
                    + $16 * ampl_coeff_d * x + d2))
        - $8 * c * x * ($8 * ampl_coeff * x - $4 * ampl_coeff_d + d)
        + c * ($8 * l * x - $2 * k))) in
  (k, add_num / add_denom).

Fixpoint depth_loop (tries : nat) (step : bignum -> bignum * bignum) (x k : bignum) (err : Z) : option (bignum * bignum) :=
  match tries with
  | O => Some (x, k)
  | S tries =>
    if (1 <? wrap_i64 (Z.abs err))%Z then
      let '(k, add) := step x in
      err ← bn_to_i64 add;
      xi ← bn_to_i64 x;
      let x_new := wrap_i64 (xi - err) in
      if (0 <? x_new)%Z then depth_loop tries step (bn_from (as_f64 x_new)) k err else Some (x, k)
    else Some (x, k)
  end.

(** [None] for every [?] that fails; the loop on the invariant may not end. *)
Definition stable_depth (rounds : nat) (an2n base_res base_mult quote_res quote_mult : Z) (total_fee_mult avg_price : bignum)
    : looping (option AvailableLiquidity) :=
  let x0_orig := wrap_u64 (base_res * base_mult) in
  let y0_orig := wrap_u64 (quote_res * quote_mult) in
  let x0 := bn_from (as_f64 x0_orig) in
  let y0 := bn_from (as_f64 y0_orig) in
  let ampl_coeff := bn_from (as_f64 an2n) / bn_from_f32 16 in
  inv ← calculate_invariant rounds x0_orig y0_orig an2n;
  Ok (inv ← inv;
      let d := bn_from_u512 inv in
      '(x, k) ← depth_loop 255 (depth_step ampl_coeff d x0 y0 avg_price total_fee_mult) ($2 * x0) $1 (wrap_i64 x0_orig);
      input_amount_val ← bn_to_u64 (x - x0);
      let y1 := ($4 * x * ($4 * ampl_coeff * d - $4 * ampl_coeff * x - d) + k) / ($32 * ampl_coeff * x) in
      let pure_quote_delta := y0 - y1 in
      suppose_quote_delta ← bn_to_u64 (pure_quote_delta - pure_quote_delta * total_fee_mult);
      Some (mkAvailable input_amount_val (if (y0_orig <? suppose_quote_delta)%Z then y0_orig else suppose_quote_delta))).

Definition stable_available_liquidity (rounds : nat) (p : StablePoolT2T) (worst_price : OnSide AbsolutePrice) : looping (option AvailableLiquidity) :=
  match ratio_checked_sub (sp_lp_fee_x p) (sp_treasury_fee p) ≫= ratio_to_f64, ratio_checked_sub (sp_lp_fee_y p) (sp_treasury_fee p) ≫= ratio_to_f64 with
  | Some fx, Some fy =>
    let fee_x := bn_from fx in
    let fee_y := bn_from fy in
    let price := LbTypes.unwrap worst_price in
    let bid_price := bn_from (as_f64 (denom price)) / bn_from (as_f64 (numer price)) in
    let ask_price := bn_from (as_f64 (numer price)) / bn_from (as_f64 (denom price)) in
    let x_is_base := bool_decide (pool_base (sp_asset_x p) (sp_asset_y p) = sp_asset_x p) in
    let from_x := stable_depth rounds (sp_an2n p) (sp_tradable_x p) (sp_multiplier_x p) (sp_tradable_y p) (sp_multiplier_y p) fee_y in
    let from_y := stable_depth rounds (sp_an2n p) (sp_tradable_y p) (sp_multiplier_y p) (sp_tradable_x p) (sp_multiplier_x p) fee_x in
    match worst_price with
    | OnBid _ => if x_is_base then from_y bid_price else from_x bid_price
    | OnAsk _ => if x_is_base then from_x ask_price else from_y ask_price
    end
  | _, _ => Ok None
  end.
End Depth.

(** *** Liquidity *)

Section Liquidity.
Context `{BN : BigNumberLib}.

(** The part of the reserves that goes with the shares, in decimal arithmetic. *)
Definition to_deposit (shares liquidity reserves : Z) : panics Z :=
  match bn_to_u64 (bn_mul (bn_div (bn_from (as_f64 shares)) (bn_from (as_f64 liquidity))) (bn_from (as_f64 reserves))) with
  | Some z => Ok z
  | None => Panic
  end.

Definition stable_cfmm_reward_lp (reserves_x reserves_y liquidity in_x_amount in_y_amount : Z) : panics (option (Z * Z * Z)) :=
  match checked_div (in_x_amount * liquidity) reserves_x, checked_div (in_y_amount * liquidity) reserves_y with
  | Some min_by_x, Some min_by_y =>
    let min_by_x := wrap_u64 min_by_x in
    let min_by_y := wrap_u64 min_by_y in
    '(change_by_x, change_by_y) ←
      (if (min_by_x =? min_by_y)%Z then Ok (0, 0)%Z
       else if (min_by_x <? min_by_y)%Z then
         y_to_deposit ← to_deposit min_by_x liquidity reserves_y;
         Ok (0, wrap_u64 (in_y_amount - y_to_deposit))%Z
       else
         x_to_deposit ← to_deposit min_by_y liquidity reserves_x;
         Ok (0, wrap_u64 (in_x_amount - x_to_deposit))%Z);
    Ok (Some (Z.min min_by_x min_by_y, change_by_x, change_by_y))
  | _, _ => Ok None
  end.

Definition stable_apply_deposit (validators : OrderType -> DeployedValidatorErased) (p : StablePoolT2T) (deposit : ClassicalOrder Deposit)
    : outcome (ApplyOrderError (ClassicalOrder Deposit)) (StablePoolT2T * OperationResultBlueprint DepositOutput) :=
  let order := co_order deposit in
  let validator := validators (dp_order_type order) in
  let or_incompatible {A} (o : option A) := ok_or o (Incompatible deposit) in
  net_x ← or_incompatible (net_amount (dp_token_x order) (dp_token_x_amount order) (dp_ex_fee order) (dp_collateral_ada order));
  net_y ← or_incompatible (net_amount (dp_token_y order) (dp_token_y_amount order) (dp_ex_fee order) (dp_collateral_ada order));
  reward ← of_panics (stable_cfmm_reward_lp (sp_tradable_x p) (sp_tradable_y p) (sp_liquidity p) net_x net_y);
  '(unlocked_lq, change_x, change_y) ← or_incompatible reward;
  rx ← or_incompatible (r ← checked_add (sp_reserves_x p) net_x; checked_sub r change_x);
  ry ← or_incompatible (r ← checked_add (sp_reserves_y p) net_y; checked_sub r change_y);
  lq ← or_incompatible (checked_add (sp_liquidity p) unlocked_lq);
  Ok (stable_with p rx ry lq (sp_treasury_x p) (sp_treasury_y p),
      single_output (mkDepositOutput (dp_token_x order) change_x (dp_token_y order) change_y (dp_token_lq order) unlocked_lq
                       (dp_collateral_ada order) (dp_reward_pkh order) (dp_reward_stake_pkh order)) validator).
End Liquidity.

Definition stable_shares_amount (p : StablePoolT2T) (burned_lq : Z) : option (Z * Z) :=
  classic_cfmm_shares_amount (sp_tradable_x p) (sp_tradable_y p) (sp_liquidity p) burned_lq.

Definition stable_apply_redeem (validators : OrderType -> DeployedValidatorErased) (p : StablePoolT2T) (redeem : ClassicalOrder Redeem)
    : outcome (ApplyOrderError (ClassicalOrder Redeem)) (StablePoolT2T * OperationResultBlueprint RedeemOutput) :=
  let order := co_order redeem in
  let validator := validators (rd_order_type order) in
  let or_incompatible {A} (o : option A) := ok_or o (Incompatible redeem) in
  '(x_amount, y_amount) ← or_incompatible (stable_shares_amount p (rd_token_lq_amount order));
  rx ← or_incompatible (checked_sub (sp_reserves_x p) x_amount);
  ry ← or_incompatible (checked_sub (sp_reserves_y p) y_amount);
  lq ← or_incompatible (checked_sub (sp_liquidity p) (rd_token_lq_amount order));
  Ok (stable_with p rx ry lq (sp_treasury_x p) (sp_treasury_y p),
      single_output (mkRedeemOutput (rd_token_x order) x_amount (rd_token_y order) y_amount (rd_collateral_ada order)
                       (rd_reward_pkh order) (rd_reward_stake_pkh order)) validator).
