(* ===== verification/StablePoolProofs.v ===== *)
(** * What a swap and a deposit do to a stable pool

    Theorems about [StablePool.v]: a swap whose quote passed the exact check
    never lowers the pool's invariant, the fees of a swap fit in its output, a
    pool that is written to an output is read from it, and two behaviours that
    are not what the code means to do: Newton's method that never stops and a
    deposit that takes value from the other providers. *)

From stdpp Require Import base gmap list.
From Stdlib Require Import ZArith Lia Strings.Byte.
From S2P Require Import Prelude Mpf LbTypes Assets PlutusData Intention GreenOrder LbCore LbCoreProofs AccountStore.
From S2P Require Import AccountIndex RoyaltyPool LbState Containers Redeemers TxBlueprint RoyaltyDatum RoyaltyDatumProofs Graduation EventSink LimitOrder.
From S2P Require Import ConstFnPool ConstFnPoolProofs PoolOrders StablePool.

#[local] Notation delete := base.delete.
#[local] Notation insert := base.insert.
Open Scope Z_scope.

(** ** 512-bit arithmetic that does not panic *)

Lemma u512_check_Ok z r : u512_check z = Ok r -> r = z /\ 0 <= z.
Proof. unfold u512_check. destruct (_ && _) eqn:E; [|done]. intros [= <-]. split; [done|]. apply andb_true_iff in E as [E _]. lia. Qed.

Lemma lift2_Ok f a b r : lift2 f a b = Ok r -> exists x y, a = Ok x /\ b = Ok y /\ f x y = Ok r.
Proof. unfold lift2. intros (x & -> & (y & -> & E)%bind_Ok_inv)%bind_Ok_inv. by exists x, y. Qed.

Lemma u512_add_Ok a b r : u512_add a b = Ok r -> exists x y, a = Ok x /\ b = Ok y /\ r = x + y /\ 0 <= r.
Proof. intros (x & y & -> & -> & [-> ?]%u512_check_Ok)%lift2_Ok. by exists x, y. Qed.
Lemma u512_sub_Ok a b r : u512_sub a b = Ok r -> exists x y, a = Ok x /\ b = Ok y /\ r = x - y /\ 0 <= r.
Proof. intros (x & y & -> & -> & [-> ?]%u512_check_Ok)%lift2_Ok. by exists x, y. Qed.
Lemma u512_mul_Ok a b r : u512_mul a b = Ok r -> exists x y, a = Ok x /\ b = Ok y /\ r = x * y /\ 0 <= r.
Proof. intros (x & y & -> & -> & [-> ?]%u512_check_Ok)%lift2_Ok. by exists x, y. Qed.
Lemma u512_div_Ok a b r : u512_div a b = Ok r -> exists x y, a = Ok x /\ b = Ok y /\ r = x / y /\ y <> 0.
Proof. intros (x & y & -> & -> & E)%lift2_Ok. exists x, y. destruct (Z.eqb_spec y 0); [done|]. by injection E as <-. Qed.

(** Takes apart a computation that ended well. *)
Ltac u512_step :=
  match goal with
  | H : Ok _ = Ok _ |- _ => injection H; clear H; intros; subst
  | H : u512_add _ _ = Ok _ |- _ => apply u512_add_Ok in H as (? & ? & ? & ? & -> & ?)
  | H : u512_sub _ _ = Ok _ |- _ => apply u512_sub_Ok in H as (? & ? & ? & ? & -> & ?)
  | H : u512_mul _ _ = Ok _ |- _ => apply u512_mul_Ok in H as (? & ? & ? & ? & -> & ?)
  | H : u512_div _ _ = Ok _ |- _ => apply u512_div_Ok in H as (? & ? & ? & ? & -> & ?)
  | H : (_ ≫= _) = Ok _ |- _ => apply bind_Ok_inv in H as (? & ? & ?)
  end.
Ltac u512 := repeat u512_step.

Lemma cube_Ok d r : cube d = Ok r -> r = d ^ 3 /\ 0 <= d.
Proof. unfold cube. intros H. u512. split; lia. Qed.

(** ** The invariant *)

(** Negative below the invariant of the reserves and positive above it. *)
Definition stable_excess (x y an2n k : Z) : Z := k ^ 3 + (an2n - NN) * (x * y) * k - an2n * (x * y) * (x + y).

(** [k] is not above the invariant. *)
Definition within_invariant (x y an2n k : Z) : Prop := stable_excess x y an2n k <= 0.

(** The reserves [x', y'] have at least the invariant of [x, y]: what is below
    the one is not above the other. *)
Definition invariant_kept (an2n x y x' y' : Z) : Prop :=
  forall k, 0 <= k -> stable_excess x y an2n k < 0 -> within_invariant x' y' an2n k.

Lemma excess_mono x y an2n k l : 0 <= x -> 0 <= y -> NN <= an2n -> 0 <= k <= l -> stable_excess x y an2n k <= stable_excess x y an2n l.
Proof.
  intros Hx Hy Ha Hk. unfold stable_excess. assert (k ^ 3 <= l ^ 3) by (apply Z.pow_le_mono_l; lia).
  assert (0 <= (an2n - NN) * (x * y)) by (apply Z.mul_nonneg_nonneg; nia).
  pose proof (Z.mul_le_mono_nonneg_l k l _ H0 ltac:(lia)). lia.
Qed.

(** More of the quote asset does not lower the invariant. *)
Lemma within_more x y y' an2n k : 0 <= x -> 0 <= y <= y' -> NN <= an2n -> 0 <= k -> within_invariant x y an2n k -> within_invariant x y' an2n k.
Proof.
  unfold within_invariant, stable_excess, NN. intros Hx Hy Ha Hk H. assert (0 <= k ^ 3) as H3 by (apply Z.pow_nonneg; lia).
  set (b := an2n - 4) in *. assert (0 <= b) by lia. set (g z := an2n * (x + z) - b * k).
  assert (forall z, k ^ 3 + b * (x * z) * k - an2n * (x * z) * (x + z) = k ^ 3 - x * z * g z) as Hg by (intros z; unfold g; ring).
  rewrite Hg in *. assert (g y <= g y') as Hm by (unfold g; nia). assert (0 <= x * y <= x * y') as [Hp Hp'] by nia.
  assert (0 <= g y).
  { destruct (Z.eq_dec (x * y) 0) as [E|E]; [|clearbody g; nia]. rewrite E in H. destruct (Z.eq_dec k 0) as [->|].
    - unfold g. rewrite Z.mul_0_r. nia.
    - pose proof (Z.pow_pos_nonneg k 3). lia. }
  clearbody g. nia.
Qed.

Lemma check_exact_sound qm x y x' y' d an2n : check_exact_invariant qm x y x' y' d NN an2n = Ok (Some true) ->
  0 <= stable_excess x y an2n d /\ within_invariant x' y' an2n d /\ 0 <= d /\ (0 <= qm -> 0 <= y').
Proof.
  unfold check_exact_invariant, within_invariant, stable_excess. intros H. u512.
  repeat match goal with H : cube _ = Ok _ |- _ => apply cube_Ok in H as [-> ?] end.
  repeat match goal with H : (if ?a <=? ?b then _ else _) = Ok _ |- _ => destruct (Z.leb_spec a b); [u512|done] end.
  unfold MAX_SWAP_ERROR in *. split_and!; lia.
Qed.

(** ** The quote *)

(** The quote [y] is the first of [y0], [y0 + 1], ... that passes the exact
    check, or none of the first 256 does. *)
Definition exact_at (qm x y x' d an2n y' : Z) : Prop := check_exact_invariant qm x y x' y' d NN an2n = Ok (Some true).
Definition tried_out (qm x y x' d an2n y0 : Z) (n : nat) : Prop :=
  forall i, 0 <= i <= Z.of_nat n -> check_exact_invariant qm x y x' (y0 + i) d NN an2n = Ok (Some false).

Lemma raise_quote_spec n qm x y x' d an2n y0 v r : raise_quote n qm x y x' d an2n y0 v = Ok (Some r) ->
  check_exact_invariant qm x y x' y0 d NN an2n = Ok (Some v) ->
  y0 <= r <= y0 + Z.of_nat n /\ (exact_at qm x y x' d an2n r \/ r = y0 + Z.of_nat n /\ tried_out qm x y x' d an2n y0 n).
Proof.
  revert y0 v. induction n as [|n IH]; intros y0 v E Hv; destruct v; cbn [raise_quote] in E.
  - injection E as <-. split; [lia|by left].
  - injection E as <-. split; [lia|]. right. split; [lia|]. intros i Hi. by replace (y0 + i) with y0 by lia.
  - injection E as <-. split; [lia|by left].
  - apply bind_Ok_inv in E as (z & Hz & E). apply bind_Ok_inv in E as ([v|] & Hc & E); [|done]. assert (z = y0 + 1) as -> by by u512.
    destruct (IH _ _ E Hc) as [Hr [Hx|[-> Ht]]]; (split; [lia|]); [by left|right].
    split; [lia|]. intros i Hi. destruct (Z.eq_dec i 0) as [->|]; [by rewrite Z.add_0_r|].
    replace (y0 + i) with (y0 + 1 + (i - 1)) by lia. apply Ht. lia.
Qed.

(** Input and output sides of a quote, in the units of the invariant. *)
Lemma calc_stable_swap_spec rounds ax rx mx ry my base amt an2n out : calc_stable_swap rounds ax rx mx ry my base amt an2n = Ok (Some out) ->
  let '(br, bm, qr, qm) := if bool_decide (ax = base) then (rx, mx, ry, my) else (ry, my, rx, mx) in
  let b0 := wrap_u64 (br * bm) in
  let q0 := wrap_u64 (qr * qm) in
  let b1 := b0 + wrap_u64 (amt * bm) in
  exists d y0 y1, y1 <= q0 /\ qm <> 0 /\ out = (q0 - y1) / qm /\
    (exact_at qm b0 q0 b1 d an2n y1 \/ tried_out qm b0 q0 b1 d an2n y0 255).
Proof.
  unfold calc_stable_swap. destruct ((_ && _) && _); [done|].
  destruct (if bool_decide (ax = base) then _ else _) as [[[br bm] qr] qm]. cbn zeta.
  set (b0 := wrap_u64 (br * bm)). set (q0 := wrap_u64 (qr * qm)). set (da := wrap_u64 (amt * bm)).
  intros (b1 & Hb & E)%bind_Ok_inv. apply bind_Ok_inv in E as ([d|] & _ & E); [|done].
  apply bind_Ok_inv in E as (b & _ & E). apply bind_Ok_inv in E as (c & _ & E). apply bind_Ok_inv in E as (y0 & _ & E).
  apply bind_Ok_inv in E as ([d'|] & _ & E); [|done]. apply bind_Ok_inv in E as ([v|] & Hv & E); [|done].
  apply bind_Ok_inv in E as ([y1|] & Hr & E); [|done]. apply bind_Ok_inv in E as (o & Ho & [= <-]).
  destruct (raise_quote_spec _ _ _ _ _ _ _ _ _ _ Hr Hv) as [Hy Hx].
  unfold u512_as_u64 in Ho. apply bind_Ok_inv in Ho as (z & Hz & Ho). destruct (z <=? u64_max); [|done]. injection Ho as <-.
  assert (z = (q0 - y1) / qm /\ y1 <= q0 /\ qm <> 0) as (-> & ? & ?) by (u512; lia). assert (b1 = b0 + da) as -> by by u512.
  eexists _, y0, y1. split_and!; [lia|done|done|]. destruct Hx as [Hx|[_ Hx]]; [left|right]; exact Hx.
Qed.

Lemma exact_kept qm x y x' d an2n y' : 0 <= qm -> 0 <= x -> 0 <= y -> 0 <= x' -> NN <= an2n -> exact_at qm x y x' d an2n y' ->
  0 <= y' /\ invariant_kept an2n x y x' y'.
Proof.
  intros Hq Hx Hy Hx' Ha (Hb & Hw & Hd & Hy')%check_exact_sound. split; [auto|]. intros k Hk Hlt. unfold within_invariant in *.
  assert (k < d) by (destruct (Z.lt_ge_cases k d) as [?|?]; [done|pose proof (excess_mono x y an2n d k); lia]).
  pose proof (excess_mono x' y' an2n k d). lia.
Qed.

Lemma kept_swap an2n x y x' y' : invariant_kept an2n x y x' y' -> invariant_kept an2n y x y' x'.
Proof.
  unfold invariant_kept, within_invariant, stable_excess. intros H k Hk E.
  rewrite (Z.mul_comm y' x'), (Z.add_comm y' x'). apply H; [done|]. by rewrite (Z.mul_comm x y), (Z.add_comm x y).
Qed.

(** What is left after a quote and its fee, against what the check accepted. *)
Lemma quote_kept an2n br bm qr qm amt d y1 lpf : 0 <= br -> 0 < bm -> 0 <= qr -> 0 < qm -> 0 <= amt -> NN <= an2n -> 0 <= lpf -> y1 <= qr * qm ->
  exact_at qm (br * bm) (qr * qm) (br * bm + amt * bm) d an2n y1 ->
  invariant_kept an2n (br * bm) (qr * qm) ((br + amt) * bm) ((qr - (qr * qm - y1) / qm + lpf) * qm).
Proof.
  intros Hb Hbm Hq Hqm Ha Hn Hl Hle Hx. apply exact_kept in Hx as [Hy Hk]; [|nia..]. intros k Hk0 Hlt. specialize (Hk k Hk0 Hlt).
  rewrite Z.mul_add_distr_r. eapply (within_more _ y1); [nia| |done..]. pose proof (Z.mul_div_le (qr * qm - y1) qm). nia.
Qed.

(** ** The fees of a swap *)

(** The fees and the output are in range, and the output is worth a fee. *)
Record fee_range (treasury_fee lp_fee : Ratio) (out : Z) : Prop := {
  fr_den : denom lp_fee = denom treasury_fee;
  fr_pos : 0 < denom lp_fee;
  fr_lp : 0 <= numer lp_fee;
  fr_treasury : 0 <= numer treasury_fee;
  fr_out : 0 < out;
  fr_u64 : out * denom lp_fee <= u64_max;
  fr_enough : 2 * denom lp_fee <= (denom lp_fee - numer lp_fee - numer treasury_fee) * out;
}.

Lemma raise_treasury_fee_spec n out lpf t f tf (v : bool) : 0 <= tf <= out - lpf -> 0 <= lpf -> 0 <= t -> 0 <= f -> out * (t + f) <= u64_max ->
  out <= u64_max -> (tf = out - lpf -> v = true) ->
  (forall r, raise_treasury_fee n out lpf t f tf v = Ok r -> tf <= r <= out - lpf) /\
  (out - lpf - tf <= Z.of_nat n -> exists r, raise_treasury_fee n out lpf t f tf v = Ok r).
Proof.
  intros Htf Hl Ht Hf Hu Ho. revert tf v Htf. induction n as [|n IH]; intros tf v Htf Hv.
  - destruct v; cbn; [split; [intros r [= <-]; lia|eauto]|split; [done|]]. assert (tf <> out - lpf) by (intros E; by specialize (Hv E)). lia.
  - destruct v; cbn [raise_treasury_fee]; [split; [intros r [= <-]; lia|eauto]|].
    assert (tf <> out - lpf) by (intros E; by specialize (Hv E)).
    rewrite (wrap_u64_small (tf + 1)) by (unfold is_u64; lia). rewrite !(wrap_u64_small (out - lpf)) by (unfold is_u64; lia).
    rewrite !(wrap_u64_small (out - lpf - (tf + 1))) by (unfold is_u64; lia).
    match goal with |- context [raise_treasury_fee n out lpf t f (tf + 1) ?w] => destruct (IH (tf + 1) w) as [I1 I2] end; [lia| |].
    + intros E. rewrite E, Z.sub_diag. rewrite (wrap_u64_small (0 * t)) by (unfold is_u64, u64_max; lia). apply Z.leb_le, wrap_u64_le. nia.
    + split; [intros r Hr; specialize (I1 r Hr); lia|intros; apply I2; lia].
Qed.

Lemma stable_fees_spec rounds p lp out : fee_range (sp_treasury_fee p) lp out ->
  (forall tf lpf, stable_fees rounds p lp out = Ok (tf, lpf) -> 0 <= tf /\ 0 < lpf /\ tf + lpf <= out) /\
  (out <= Z.of_nat rounds -> exists tf lpf, stable_fees rounds p lp out = Ok (tf, lpf)).
Proof.
  intros [Ed Hp Hl Ht Hout Hu He]. unfold stable_fees. rewrite <- Ed in *. set (den := denom lp) in *. set (l := numer lp) in *. set (t := numer (sp_treasury_fee p)) in *.
  destruct (Z.eqb_spec den 0); [lia|]. cbn [mbind outcome_bind]. assert (l + t <= den) by nia.
  set (a := out * l / den). set (b := out * t / den).
  assert (0 <= a /\ a * den <= out * l) as [Ha Ha'] by (unfold a; split; [apply Z.div_pos; nia|pose proof (Z.mul_div_le (out * l) den); lia]).
  assert (0 <= b /\ b * den <= out * t) as [Hb Hb'] by (unfold b; split; [apply Z.div_pos; nia|pose proof (Z.mul_div_le (out * t) den); lia]).
  assert (a + b + 2 <= out) by nia. assert (out <= u64_max) by nia.
  rewrite (wrap_u64_small (out * l)), (wrap_u64_small (out * t)) by (unfold is_u64; nia). fold a b.
  rewrite (wrap_u64_small (a + 1)) by (unfold is_u64; lia). rewrite (wrap_u64_small (den - t)) by (unfold is_u64; nia).
  rewrite (wrap_u64_small (den - t - l)) by (unfold is_u64; nia).
  rewrite (wrap_u64_small (out - (a + 1))), (wrap_u64_small (out - (a + 1) - b)), (wrap_u64_small (out - (a + 1) - b - 1)) by (unfold is_u64; lia).
  set (v := _ <=? _). destruct (raise_treasury_fee_spec rounds out (a + 1) t (den - t - l) b v) as [R1 R2]; [nia..|lia|].
  destruct (v || (t =? 0)) eqn:Ev; cbn [mbind outcome_bind]; [split; [intros tf lpf [= <- <-]; lia|eauto]|].
  split.
  - intros tf lpf (r & Hr & [= <- <-])%bind_Ok_inv. specialize (R1 r Hr). lia.
  - intros Hn. destruct R2 as [r ->]; [lia|]. cbn. eauto.
Qed.

(** ** The swap *)

(** A pool's amounts, scaled, fit the machine; its treasury is in its reserves. *)
Record stable_sound (p : StablePoolT2T) : Prop := {
  ss_an2n : NN <= sp_an2n p;
  ss_treasury_x : 0 <= sp_treasury_x p <= sp_reserves_x p;
  ss_treasury_y : 0 <= sp_treasury_y p <= sp_reserves_y p;
  ss_mult_x : 0 < sp_multiplier_x p;
  ss_mult_y : 0 < sp_multiplier_y p;
  ss_reserves_x : sp_reserves_x p <= u64_max;
  ss_reserves_y : sp_reserves_y p <= u64_max;
  ss_scaled_x : sp_tradable_x p * sp_multiplier_x p <= u64_max;
  ss_scaled_y : sp_tradable_y p * sp_multiplier_y p <= u64_max;
}.

Definition scaled_x (p : StablePoolT2T) : Z := sp_tradable_x p * sp_multiplier_x p.
Definition scaled_y (p : StablePoolT2T) : Z := sp_tradable_y p * sp_multiplier_y p.

(** The input, on top of the reserves, fits too. *)
Definition stable_input (p : StablePoolT2T) (input : OnSide Z) : Prop :=
  match input with
  | OnBid amt => 0 <= amt /\ sp_reserves_y p + amt <= u64_max /\ (sp_tradable_y p + amt) * sp_multiplier_y p <= u64_max
  | OnAsk amt => 0 <= amt /\ sp_reserves_x p + amt <= u64_max /\ (sp_tradable_x p + amt) * sp_multiplier_x p <= u64_max
  end.

(** None of the 256 quotes that are tried passes the exact check. *)
Definition quotes_exhausted (p : StablePoolT2T) (input : OnSide Z) : Prop :=
  exists d y0,
    match input with
    | OnBid amt => tried_out (sp_multiplier_x p) (scaled_y p) (scaled_x p) ((sp_tradable_y p + amt) * sp_multiplier_y p) d (sp_an2n p) y0 255
    | OnAsk amt => tried_out (sp_multiplier_y p) (scaled_x p) (scaled_y p) ((sp_tradable_x p + amt) * sp_multiplier_x p) d (sp_an2n p) y0 255
    end.

Lemma tradable_x_eq p : stable_sound p -> sp_tradable_x p = sp_reserves_x p - sp_treasury_x p.
Proof. intros []. apply wrap_u64_small. unfold is_u64. lia. Qed.
Lemma tradable_y_eq p : stable_sound p -> sp_tradable_y p = sp_reserves_y p - sp_treasury_y p.
Proof. intros []. apply wrap_u64_small. unfold is_u64. lia. Qed.

(** An output comes from a quote that passed the check, or all were tried. *)
Lemma output_spec rounds p input out : order_canonical (sp_asset_x p) (sp_asset_y p) = (sp_asset_x p, sp_asset_y p) -> sp_asset_x p <> sp_asset_y p ->
  stable_sound p -> stable_input p input -> stable_pool_output rounds p input = Ok out -> 0 < out ->
  quotes_exhausted p input \/
  exists d y1,
    match input with
    | OnBid amt => y1 <= scaled_x p /\ out = (scaled_x p - y1) / sp_multiplier_x p /\
        exact_at (sp_multiplier_x p) (scaled_y p) (scaled_x p) (scaled_y p + amt * sp_multiplier_y p) d (sp_an2n p) y1
    | OnAsk amt => y1 <= scaled_y p /\ out = (scaled_y p - y1) / sp_multiplier_y p /\
        exact_at (sp_multiplier_y p) (scaled_x p) (scaled_y p) (scaled_x p + amt * sp_multiplier_x p) d (sp_an2n p) y1
    end.
Proof.
  intros Hc Hne Hs Hi Ho Hpos. pose proof (tradable_x_eq p Hs). pose proof (tradable_y_eq p Hs). pose proof Hs as [].
  unfold stable_pool_output, pool_base, pool_quote, stable_output_amount in Ho. rewrite Hc in Ho. cbn [fst snd] in Ho.
  unfold quotes_exhausted, scaled_x, scaled_y, is_u64 in *.
  destruct input as [amt|amt]; apply bind_Ok_inv in Ho as ([o|] & Ho & [= <-]); try (cbn in Hpos; lia); apply calc_stable_swap_spec in Ho; cbn in Hi.
  - rewrite bool_decide_eq_false_2 in Ho by done. cbn zeta iota in Ho.
    rewrite !(wrap_u64_small (_ * _)) in Ho by (unfold is_u64; nia). destruct Ho as (d & y0 & y1 & H1 & _ & H3 & [H4|H4]); [right|left].
    + by exists d, y1. + exists d, y0. by rewrite Z.mul_add_distr_r.
  - rewrite bool_decide_eq_true_2 in Ho by done. cbn zeta iota in Ho.
    rewrite !(wrap_u64_small (_ * _)) in Ho by (unfold is_u64; nia). destruct Ho as (d & y0 & y1 & H1 & _ & H3 & [H4|H4]); [right|left].
    + by exists d, y1. + exists d, y0. by rewrite Z.mul_add_distr_r.
Qed.

Lemma stable_with_sound p rx ry lq tx ty : stable_sound p -> 0 <= tx <= rx -> 0 <= ty <= ry -> rx <= u64_max -> ry <= u64_max ->
  (rx - tx) * sp_multiplier_x p <= u64_max -> (ry - ty) * sp_multiplier_y p <= u64_max ->
  stable_sound (stable_with p rx ry lq tx ty) /\ scaled_x (stable_with p rx ry lq tx ty) = (rx - tx) * sp_multiplier_x p /\
  scaled_y (stable_with p rx ry lq tx ty) = (ry - ty) * sp_multiplier_y p.
Proof.
  intros [] Hx Hy Ux Uy Sx Sy.
  assert (wrap_u64 (rx - tx) = rx - tx) as Ex by (apply wrap_u64_small; unfold is_u64; lia).
  assert (wrap_u64 (ry - ty) = ry - ty) as Ey by (apply wrap_u64_small; unfold is_u64; lia).
  unfold scaled_x, scaled_y, sp_tradable_x, sp_tradable_y. cbn. rewrite Ex, Ey. split; [|done].
  split; unfold sp_tradable_x, sp_tradable_y; cbn; rewrite ?Ex, ?Ey; done.
Qed.


(** ** Deposits *)

Lemma stable_deposit_inv `{BN : BigNumberLib} validators p d p' r : stable_apply_deposit validators p d = Ok (p', r) ->
  exists nx ny u cx cy,
    net_amount (dp_token_x (co_order d)) (dp_token_x_amount (co_order d)) (dp_ex_fee (co_order d)) (dp_collateral_ada (co_order d)) = Some nx /\
    net_amount (dp_token_y (co_order d)) (dp_token_y_amount (co_order d)) (dp_ex_fee (co_order d)) (dp_collateral_ada (co_order d)) = Some ny /\
    stable_cfmm_reward_lp (sp_tradable_x p) (sp_tradable_y p) (sp_liquidity p) nx ny = Ok (Some (u, cx, cy)) /\
    p' = stable_with p (sp_reserves_x p + nx - cx) (sp_reserves_y p + ny - cy) (sp_liquidity p + u) (sp_treasury_x p) (sp_treasury_y p) /\
    sp_reserves_y p + ny <= u64_max /\
    do_token_x_charge_amount (or_output r) = cx /\ do_token_y_charge_amount (or_output r) = cy /\ do_token_lq_amount (or_output r) = u.
Proof.
  unfold stable_apply_deposit. intros (nx & Nx%ok_or_Ok & E)%bind_Ok_inv. apply bind_Ok_inv in E as (ny & Ny%ok_or_Ok & E).
  apply bind_Ok_inv in E as (rw & Er & E). apply bind_Ok_inv in E as ([[u cx] cy] & ->%ok_or_Ok & E).
  apply bind_Ok_inv in E as (rx & Hx%ok_or_Ok & E). apply bind_Ok_inv in E as (ry & Hy%ok_or_Ok & E). apply bind_Ok_inv in E as (lq & Hl%ok_or_Ok & E).
  destruct (checked_add (sp_reserves_x p) nx) as [ax|] eqn:Ax; [|done]. apply checked_add_inv in Ax as [-> _]. apply checked_sub_inv in Hx as [_ ->].
  destruct (checked_add (sp_reserves_y p) ny) as [ay|] eqn:Ay; [|done]. apply checked_add_inv in Ay as [-> ?]. apply checked_sub_inv in Hy as [_ ->].
  apply checked_add_inv in Hl as [-> _]. injection E as <- <-. exists nx, ny, u, cx, cy. split_and!; try done.
  by destruct (stable_cfmm_reward_lp _ _ _ _ _) as [o| |]; simplify_eq/=.
Qed.

(** A deposit that has more of asset x than goes with its asset y is paid
    the surplus count in units of y, out of the pool, and nothing of x; where
    that is worth a share, the other providers' shares lose value in y. *)
Theorem stable_deposit_dilutes `{BN : BigNumberLib} validators p d p' r nx ny :
  stable_apply_deposit validators p d = Ok (p', r) ->
  net_amount (dp_token_x (co_order d)) (dp_token_x_amount (co_order d)) (dp_ex_fee (co_order d)) (dp_collateral_ada (co_order d)) = Some nx ->
  net_amount (dp_token_y (co_order d)) (dp_token_y_amount (co_order d)) (dp_ex_fee (co_order d)) (dp_collateral_ada (co_order d)) = Some ny ->
  stable_sound p -> 0 < sp_tradable_x p -> 0 < sp_tradable_y p -> 0 <= nx -> 0 <= ny -> 0 < sp_liquidity p ->
  ny * sp_liquidity p / sp_tradable_y p < nx * sp_liquidity p / sp_tradable_x p <= u64_max ->
  sp_treasury_y p <= sp_reserves_y p' ->
  sp_tradable_y p <= do_token_y_charge_amount (or_output r) * sp_liquidity p ->
  do_token_x_charge_amount (or_output r) = 0 /\ sp_tradable_y p' * sp_liquidity p < sp_tradable_y p * sp_liquidity p'.
Proof.
  intros (nx' & ny' & u & cx & cy & Nx' & Ny' & Er & -> & Hu & -> & -> & _)%stable_deposit_inv Nx Ny Hs Hx Hy Hnx Hny HL Hm Ht Hc.
  rewrite Nx in Nx'. rewrite Ny in Ny'. injection Nx' as <-. injection Ny' as <-. unfold stable_cfmm_reward_lp, checked_div in Er.
  destruct (Z.eqb_spec (sp_tradable_x p) 0), (Z.eqb_spec (sp_tradable_y p) 0); try lia.
  assert (0 <= ny * sp_liquidity p / sp_tradable_y p) by (apply Z.div_pos; nia).
  rewrite !(wrap_u64_small (_ / _)) in Er by (unfold is_u64; lia).
  destruct (Z.eqb_spec (nx * sp_liquidity p / sp_tradable_x p) (ny * sp_liquidity p / sp_tradable_y p)); [lia|].
  destruct (Z.ltb_spec (nx * sp_liquidity p / sp_tradable_x p) (ny * sp_liquidity p / sp_tradable_y p)); [lia|].
  apply bind_Ok_inv in Er as ([a b] & Ec & [= <- <- <-]). apply bind_Ok_inv in Ec as (z & _ & [= <- Eb]). split; [done|].
  assert (0 <= b) by (rewrite <- Eb; unfold wrap_u64; apply Z.mod_pos_bound; lia). clear Eb.
  rewrite Z.min_r by lia. pose proof (Z.mod_pos_bound (ny * sp_liquidity p) (sp_tradable_y p) Hy).
  pose proof (Z.div_mod (ny * sp_liquidity p) (sp_tradable_y p) ltac:(lia)). pose proof (tradable_y_eq p Hs) as Ty.
  unfold sp_tradable_y at 1. cbn in Ht |- *.
  set (m := ny * sp_liquidity p / sp_tradable_y p) in *. set (t := sp_tradable_y p) in *. clearbody m t.
  rewrite (wrap_u64_small (_ - sp_treasury_y p)); [|unfold is_u64; pose proof (ss_treasury_y _ Hs); lia].
  replace (sp_reserves_y p + ny - b - sp_treasury_y p) with (t + ny - b) by lia. nia.
Qed.

(** ** The pool in its output *)

Section Ledger.
Context `{BU : BigUintLib} `{BUL : !BigUintLaws}.

Record stable_fields (fs : list PlutusData) (conf : StablePoolT2TConfig) : Prop := {
  sf_0 : exists d, fs !! 0%nat = Some d /\ asset_try_from_pd d = Some (sc_pool_nft conf);
  sf_1 : exists d, fs !! 1%nat = Some d /\ into_u64 d = Some (sc_an2n conf);
  sf_2 : exists d, fs !! 2%nat = Some d /\ asset_try_from_pd d = Some (sc_asset_x conf);
  sf_3 : exists d, fs !! 3%nat = Some d /\ asset_try_from_pd d = Some (sc_asset_y conf);
  sf_4 : exists d, fs !! 4%nat = Some d /\ into_u64 d = Some (sc_multiplier_x conf);
  sf_5 : exists d, fs !! 5%nat = Some d /\ into_u64 d = Some (sc_multiplier_y conf);
  sf_6 : exists d, fs !! 6%nat = Some d /\ asset_try_from_pd d = Some (sc_asset_lq conf);
  sf_9 : exists d, fs !! 9%nat = Some d /\ into_u64 d = Some (sc_lp_fee_num conf);
  sf_10 : exists d, fs !! 10%nat = Some d /\ into_u64 d = Some (sc_treasury_fee_num conf);
  sf_13 : exists d, fs !! 13%nat = Some d /\ into_u64 d = Some (sc_treasury_x conf);
  sf_14 : exists d, fs !! 14%nat = Some d /\ into_u64 d = Some (sc_treasury_y conf);
}.

Lemma stable_fields_of data conf : stable_config_try_from_pd data = Some conf -> exists alt fs, data = PdConstr alt fs /\ stable_fields fs conf.
Proof.
  unfold stable_config_try_from_pd. destruct data as [alt fs| | | |]; try done. cbn [into_constr_pd mbind option_bind]. unfold take_field.
  read_field fs 0%nat. read_as (asset_try_from_pd d). read_field fs 1%nat. read_as (into_u64 d0). read_field fs 2%nat. read_as (asset_try_from_pd d1).
  read_field fs 3%nat. read_as (asset_try_from_pd d2). read_field fs 4%nat. read_as (into_u64 d3). read_field fs 5%nat. read_as (into_u64 d4).
  read_field fs 6%nat. read_as (asset_try_from_pd d5). read_field fs 9%nat. read_as (into_u64 d6). read_field fs 10%nat. read_as (into_u64 d7).
  read_field fs 13%nat. read_as (into_u64 d8). read_field fs 14%nat. read_as (into_u64 d9).
  intros [= <-]. exists alt, fs. split; [done|]. split; cbn; eauto.
Qed.

Lemma stable_of_fields alt fs conf : stable_fields fs conf -> stable_config_try_from_pd (PdConstr alt fs) = Some conf.
Proof.
  intros [(d0 & E0 & P0) (d1 & E1 & P1) (d2 & E2 & P2) (d3 & E3 & P3) (d4 & E4 & P4) (d5 & E5 & P5) (d6 & E6 & P6) (d9 & E9 & P9)
    (d10 & E10 & P10) (d13 & E13 & P13) (d14 & E14 & P14)].
  unfold stable_config_try_from_pd. cbn [into_constr_pd mbind option_bind]. unfold take_field.
  put_field E0 P0. put_field E1 P1. put_field E2 P2. put_field E3 P3. put_field E4 P4. put_field E5 P5. put_field E6 P6. put_field E9 P9.
  put_field E10 P10. put_field E13 P13. put_field E14 P14. by destruct conf.
Qed.

Definition traded_stable (conf : StablePoolT2TConfig) (tx ty : Z) : StablePoolT2TConfig :=
  mkStableConfig (sc_pool_nft conf) (sc_an2n conf) (sc_asset_x conf) (sc_asset_y conf) (sc_multiplier_x conf) (sc_multiplier_y conf)
    (sc_asset_lq conf) (sc_lp_fee_num conf) (sc_treasury_fee_num conf) tx ty.

Lemma update_stable data conf tx ty : stable_config_try_from_pd data = Some conf -> is_u64 tx -> is_u64 ty ->
  exists data', update_pd_stable data tx ty = Ok data' /\ stable_config_try_from_pd data' = Some (traded_stable conf tx ty).
Proof.
  intros (alt & fs & -> & Hc)%stable_fields_of Hx Hy.
  assert (14 < length fs)%nat as Hlen by (destruct (sf_14 _ _ Hc) as (d & Hd & _); by eapply lookup_lt_Some).
  unfold update_pd_stable. cbn [into_constr_pd].
  repeat (rewrite set_field_Ok by (rewrite ?length_insert; lia); cbn [mbind outcome_bind]).
  eexists. split; [reflexivity|]. cbn [alternative fields]. apply stable_of_fields. destruct Hc as [H0 H1 H2 H3 H4 H5 H6 H9 H10 _ _].
  split; cbn; repeat rewrite list_lookup_insert_ne by done; try done;
    rewrite list_lookup_insert_eq by (rewrite ?length_insert; lia); (eexists; split; [reflexivity|by apply into_u64_int]).
Qed.

Lemma stable_reads script bounds o p : stable_try_from_ledger script bounds o = Some p ->
  exists d conf,
    test_address (script_hash script) o = true /\ out_datum o = Some d /\ stable_config_try_from_pd d = Some conf /\
    into_token (sc_pool_nft conf) = Some (sp_id p) /\
    is_native (sc_asset_x conf) || is_native (sc_asset_y conf) || (min_t2t_lovelace bounds <=? coin (out_value o)) = true /\
    p = mkStable (sp_id p) (sc_an2n conf) (sp_reserves_x p) (sc_multiplier_x conf) (sp_reserves_y p) (sc_multiplier_y conf) (sp_liquidity p)
          (sc_asset_x conf) (sc_asset_y conf) (sc_asset_lq conf) (mkRatio (sc_lp_fee_num conf) FEE_DEN) (mkRatio (sc_lp_fee_num conf) FEE_DEN)
          (mkRatio (sc_treasury_fee_num conf) FEE_DEN) (sp_treasury_x p) (sp_treasury_y p) (info_marginal_cost script).
Proof.
  unfold stable_try_from_ledger. destruct (test_address _ _) eqn:Et; [|done].
  destruct (out_datum o) as [d|]; [|done]. cbn [mbind option_bind]. destruct (stable_config_try_from_pd d) as [conf|] eqn:Ec; [|done]. cbn [mbind option_bind].
  read_as (amount_of (out_value o) (sc_asset_lq conf)). cbn [amount_of mbind option_bind].
  read_as (amount_of (out_value o) (sc_asset_x conf)). read_as (amount_of (out_value o) (sc_asset_y conf)).
  destruct (_ && _) eqn:Eb; [|done]. apply andb_true_iff in Eb as [_ Eb]. read_as (into_token (sc_pool_nft conf)). intros [= <-]. by exists d, conf.
Qed.

(** A stable pool whose reserves, liquidity and treasury changed is read
    back, exactly, from the output it is written to, as long as it holds more
    of both assets than the treasury's. *)
Theorem stable_reads_back script bounds o p rx ry lq tx ty o' : stable_try_from_ledger script bounds o = Some p ->
  pool_assets (sp_asset_x p) (sp_asset_y p) (sp_asset_lq p) (sp_id p) -> is_u64 tx -> is_u64 ty -> (0 <= lq <= MAX_LQ_CAP)%Z ->
  stable_into_ledger (stable_with p rx ry lq tx ty) (immutable_of o) = Ok o' ->
  tx < rx -> ty < ry -> stable_try_from_ledger script bounds o' = Some (stable_with p rx ry lq tx ty).
Proof.
  intros Hp Ha Hx Hy Hl E Lx Ly. destruct (stable_reads _ _ _ _ Hp) as (d & conf & Et & Ed & Ec & Ei & Hlov & Ep).
  rewrite Ep in Ha, E |- *. clear Hp Ep.
  unfold stable_into_ledger in E. cbn [immutable_of im_value im_datum im_script_ref im_address stable_with
    sp_id sp_reserves_x sp_reserves_y sp_liquidity sp_asset_x sp_asset_y sp_asset_lq sp_treasury_x sp_treasury_y] in *.
  apply bind_Ok_inv in E as (v & Epv & E). rewrite Ed in E.
  destruct (update_stable d conf tx ty Ec Hx Hy) as (d' & Eu & Ec'). rewrite Eu in E. cbn [mbind outcome_bind] in E. injection E as <-.
  cbn [out_value out_datum] in *. destruct (pool_value_amounts _ _ _ _ _ _ _ _ _ Ha Epv) as (Ax & Ay & Al & Av).
  rewrite wrap_u64_small in Al by (unfold is_u64, u64_max, MAX_LQ_CAP in *; lia).
  unfold stable_try_from_ledger. replace (test_address _ _) with true. cbn [mbind option_bind out_datum out_value]. rewrite Ec'.
  cbn [mbind option_bind traded_stable sc_pool_nft sc_an2n sc_asset_x sc_asset_y sc_multiplier_x sc_multiplier_y sc_asset_lq sc_lp_fee_num
    sc_treasury_fee_num sc_treasury_x sc_treasury_y].
  rewrite Al. cbn [mbind option_bind amount_of]. rewrite Ax. cbn [mbind option_bind]. rewrite Ay. cbn [mbind option_bind].
  rewrite (proj2 (Z.ltb_lt _ _) Lx), (proj2 (Z.ltb_lt _ _) Ly), Ei. cbn [mbind option_bind andb].
  assert (is_native (sc_asset_x conf) || is_native (sc_asset_y conf) || (min_t2t_lovelace bounds <=? coin v) = true) as ->.
  { destruct (is_native (sc_asset_x conf) || is_native (sc_asset_y conf)); [done|]. by rewrite Av. }
  rewrite (wrap_u64_small (MAX_LQ_CAP - _)) by (unfold is_u64, u64_max, MAX_LQ_CAP in *; lia).
  by replace (MAX_LQ_CAP - (MAX_LQ_CAP - lq))%Z with lq by lia.
Qed.
End Ledger.

(** ** Depth *)

(** What is announced at a price is never more than the tradable reserves of the
    asset that is paid out, scaled. *)
Lemma stable_depth_bounded `{SN : StableNumberLib} rounds p worst_price a : stable_available_liquidity rounds p worst_price = Ok (Some a) ->
  available_output a <= match worst_price with
                 | OnBid _ => if bool_decide (pool_base (sp_asset_x p) (sp_asset_y p) = sp_asset_x p) then wrap_u64 (scaled_x p) else wrap_u64 (scaled_y p)
                 | OnAsk _ => if bool_decide (pool_base (sp_asset_x p) (sp_asset_y p) = sp_asset_x p) then wrap_u64 (scaled_y p) else wrap_u64 (scaled_x p)
                 end.
Proof.
  assert (forall an2n br bm qr qm f pr, stable_depth rounds an2n br bm qr qm f pr = Ok (Some a) -> available_output a <= wrap_u64 (qr * qm)) as H.
  { intros an2n br bm qr qm f pr. unfold stable_depth. intros ([d|] & _ & E)%bind_Ok_inv; [|done]. cbn [mbind option_bind] in E.
    injection E as E. apply bind_Some in E as ([x k] & _ & E). apply bind_Some in E as (i & _ & E). apply bind_Some in E as (o & _ & E).
    injection E as <-. cbn. destruct (Z.ltb_spec (wrap_u64 (qr * qm)) o); lia. }
  unfold stable_available_liquidity. repeat match goal with |- match ?o with Some _ => _ | None => _ end = _ -> _ => destruct o; [|done] end.
  destruct worst_price, (bool_decide _); intros E%H; exact E.
Qed.
