(* ===== verification/StablePoolExamples.v ===== *)
(** * A pool of two stable coins

    Witnesses of the theorems of [StablePoolProofs.v], a pool whose invariant is
    never found, a quote that is not exact, and the treasury of a pool whose
    assets are not in canonical order. *)

From stdpp Require Import base gmap list.
From Stdlib Require Import ZArith QArith Qround Lia Strings.Byte.
From S2P Require Import Prelude Mpf LbTypes Assets PlutusData Intention GreenOrder LbCore LbCoreProofs AccountStore.
From S2P Require Import AccountIndex RoyaltyPool LbState Containers Redeemers TxBlueprint RoyaltyDatum RoyaltyDatumProofs Graduation EventSink LimitOrder.
From S2P Require Import ConstFnPool ConstFnPoolProofs ConstFnPoolExamples PoolOrders StablePool StablePoolProofs.

Module Coins.
Import Liquidity.
Open Scope Z_scope.
#[local] Existing Instance u64_of_int.
#[local] Existing Instance u64_of_int_laws.

(** Exact fractions for the decimal arithmetic. *)
#[local] Instance fractions : BigNumberLib := {|
  f64 := Q; bignum := Q; as_f64 := inject_Z; f64_half := Qmake 1 2; ratio_to_f64 := fun _ => None; bn_from := fun q => q; bn_from_int := inject_Z;
  bn_add := Qplus; bn_sub := Qminus; bn_mul := Qmult; bn_div := Qdiv; bn_pow := fun b e => Qpower b (Qfloor e);
  bn_to_u64 := fun q => let z := Qfloor q in if (0 <=? z) && (z <=? u64_max) then Some z else None;
|}.

Definition silver : Token := mkToken (replicate 28 x0c) (mkAssetName 2 (replicate 32 x00)).
Definition stable_script : ScriptInfo := mkScriptInfo (replicate 28 x33) (mkExUnits 5 7).
Definition bounds : PoolValidation := mkPoolValidation 1000000 1500000.

(** Gold has six decimals and silver four: the multiplier makes up for it. *)
Definition coins_output : TransactionOutput :=
  mkTxOut (mkAddress (Some (ScriptCred (script_hash stable_script))) None [])
    (mkValue 2000000
       (asset_set (asset_set (asset_set (asset_set ∅ gold 200001000) silver 3000050) lp_token (MAX_LQ_CAP - 480000000)) nft 1))
    (Some (PdConstr 0 [token_pd nft; PdInteger 400; token_pd gold; token_pd silver; PdInteger 1; PdInteger 100; token_pd lp_token;
                       PdConstr 0 []; PdConstr 0 []; PdInteger 40; PdInteger 10; PdList []; PdBytes []; PdInteger 1000; PdInteger 50])) None.
Definition coins : StablePoolT2T :=
  mkStable nft 400 200001000 1 3000050 100 480000000 (TokenAsset gold) (TokenAsset silver) (TokenAsset lp_token)
    (mkRatio 40 100000) (mkRatio 40 100000) (mkRatio 10 100000) 1000 50 (mkExUnits 5 7).

Example coins_are_read : stable_try_from_ledger stable_script bounds coins_output = Some coins.
Proof. vm_compute. reflexivity. Qed.

(** Ten million gold, and what the fees leave of 100755 silver. *)
Definition sell : OnSide Z := OnAsk 10000000.
Definition sold : StablePoolT2T := stable_with coins 210001000 2899347 480000000 1000 61.
Example silver_quote : stable_pool_output 20 coins sell = Ok 100755.
Proof. vm_compute. reflexivity. Qed.

Lemma coins_sound : stable_sound coins.
Proof. split; vm_compute; done || (split; discriminate). Qed.
Lemma silver_fees out : stable_pool_output 20 coins sell = Ok out -> fee_range (sp_treasury_fee coins) (sp_lp_fee_y coins) out.
Proof. rewrite silver_quote. intros [= <-]. split; vm_compute; done. Qed.


Definition sold_output : TransactionOutput :=
  match stable_into_ledger sold (immutable_of coins_output) with Ok o => o | _ => coins_output end.
Lemma stable_reads_back_witness : stable_try_from_ledger stable_script bounds sold_output = Some sold.
Proof.
  apply (stable_reads_back stable_script bounds coins_output coins).
  - exact coins_are_read.
  - split; vm_compute; first [done|discriminate].
  - vm_compute. split; discriminate.
  - vm_compute. split; discriminate.
  - vm_compute. split; discriminate.
  - vm_compute. reflexivity.
  - vm_compute. reflexivity.
  - vm_compute. reflexivity.
Defined.

(** *** A deposit with five thousand gold too much *)

Definition surplus : ClassicalOrder Deposit :=
  mkOrder (replicate 32 x03, 0) nft
    (mkDeposit nft (TokenAsset gold) 2005000 (TokenAsset silver) 30000 (TokenAsset lp_token) 500000 (replicate 28 x71) None 1000000 StableFn).
Definition diluted : StablePoolT2T := stable_with coins 202006000 3025050 484800000 1000 50.
Definition surplus_paid : OperationResultBlueprint DepositOutput :=
  single_output (mkDepositOutput (TokenAsset gold) 0 (TokenAsset silver) 5000 (TokenAsset lp_token) 4800000 1000000 (replicate 28 x71) None)
    (validators StableFn).

(** Five thousand silver are paid for them. *)
Lemma stable_deposit_dilutes_witness : 0 = 0 /\ 3025000 * 480000000 < 3000000 * 484800000.
Proof.
  apply (stable_deposit_dilutes validators coins surplus diluted surplus_paid 2005000 30000);
    first [exact coins_sound|vm_compute; first [reflexivity|discriminate|split; discriminate||reflexivity]].
Defined.

(** *** Loops *)

(** Newton's method goes back and forth between 3 and 4. *)
Theorem invariant_never_found rounds : calculate_invariant rounds 1 3 16 = Err OutOfRounds.
Proof.
  assert (forall n, newton_d_loop n 1 3 4 3 = Err OutOfRounds /\ newton_d_loop n 1 3 4 4 = Err OutOfRounds) as H.
  { intros n. induction n as [|n [I1 I2]]; [done|]. split; cbn [newton_d_loop].
    - change (newton_d 1 3 4 3) with (Ok (E := Rounds) 4). exact I2.
    - change (newton_d 1 3 4 4) with (Ok (E := Rounds) 3). exact I1. }
  unfold calculate_invariant. change (Ok 1 + Ok 3)%u512 with (Ok (E := Rounds) 4). cbn [mbind outcome_bind].
  change (16 / NN) with 4. by rewrite (proj2 (H rounds)).
Qed.

(** After 256 quotes the last one is taken, although it fails the check too. *)
Example inexact_quote : calc_stable_swap 60 (TokenAsset gold) 112 1 24591750382 1 (TokenAsset gold) 99 16 = Ok (Some 6664619203).
Proof. vm_compute. reflexivity. Qed.
Example inexact_quote_fails :
  match calculate_invariant 60 112 24591750382 16 with
  | Ok (Some d) => check_exact_invariant 1 112 24591750382 211 (24591750382 - 6664619203) d NN 16
  | _ => Ok None
  end = Ok (Some false).
Proof. vm_compute. reflexivity. Qed.

(** *** Assets in another order *)

(** The same pool with silver as [x]: gold is the base, and the fee that is kept
    of the silver is added to the treasury of gold. *)
Definition reversed : StablePoolT2T :=
  mkStable nft 400 3000050 100 200001000 1 480000000 (TokenAsset silver) (TokenAsset gold) (TokenAsset lp_token)
    (mkRatio 40 100000) (mkRatio 40 100000) (mkRatio 10 100000) 50 1000 (mkExUnits 5 7).
Example treasury_of_the_other_asset :
  match stable_swap 20 reversed sell with
  | Ok p => (sp_asset_x p, sp_reserves_x p, sp_treasury_x p, sp_treasury_y p) = (TokenAsset silver, 2899347, 50, 1011)
  | _ => False
  end.
Proof. vm_compute. reflexivity. Qed.
End Coins.
