(* ===== verification/AdhocOrder.v ===== *)
(** * Instant and ad-hoc orders

    [orders/instant.rs] and [orders/adhoc.rs]: orders that are executed at once,
    the second kind with a fee on the side of the trade that is ADA, their
    behaviour in the book, the order an output carries, and ([instances.rs]) the
    execution of a fill.  Amounts are [u64]; sums and differences wrap around. *)

From stdpp Require Import base gmap list.
From Stdlib Require Import ZArith Lia Strings.Byte.
From S2P Require Import Prelude Mpf LbTypes Assets PlutusData Intention GreenOrder LbCore LbCoreProofs AccountStore.
From S2P Require Import AccountIndex RoyaltyPool LbState LbGreen Containers Redeemers TxBlueprint StateIndex Engine Interpreter.
From S2P Require Import GreenExec RoyaltyDatum Graduation EventSink LimitOrder.

#[local] Notation delete := base.delete.
#[local] Notation insert := base.insert.

(** ** The order *)

Record InstantOrder := mkInstant {
  io_beacon : Token;
  io_input_asset : AssetClass;
  io_input_amount : Z;
  io_output_asset : AssetClass;
  io_output_amount : Z;
  io_base_price : RelativePrice;
  io_fee_asset : AssetClass;
  io_execution_budget : Z;
  io_fee : Z;
  io_redeemer_address : PlutusAddress;
  io_cancellation_pkh : bytes;
  io_marginal_cost : ExUnits;
  io_virgin : bool;
  io_cancellation_after : Z;
}.

Definition set_instant (o : InstantOrder) (input output budget fee : Z) : InstantOrder :=
  mkInstant (io_beacon o) (io_input_asset o) input (io_output_asset o) output (io_base_price o) (io_fee_asset o) budget fee
    (io_redeemer_address o) (io_cancellation_pkh o) (io_marginal_cost o) (io_virgin o) (io_cancellation_after o).

(** The hash of the transaction and the index, padded to the length of a token. *)
Definition instant_beacon_from_oref (oref : OutputRef) : panics Token :=
  let tx_hash_with_index := oref.1 ++ to_be_bytes 8 oref.2 in
  match token_from_array (tx_hash_with_index ++ replicate (60 - length tx_hash_with_index) x00) with Some t => Ok t | None => Panic end.

Definition instant_terminal (o : InstantOrder) : TerminalTake :=
  mkTerminalTake (io_input_amount o) (io_output_amount o) (io_execution_budget o) (io_fee o).

(** Whatever is traded, the order ends. *)
Definition instant_applied_trade (o : InstantOrder) (removed_input added_output : Z) : Next InstantOrder TerminalTake :=
  Term (instant_terminal (set_instant o (sub_u64 (io_input_amount o) removed_input) (add_u64 (io_output_amount o) added_output)
                            (io_execution_budget o) (io_fee o))).

Definition instant_budget_corrected (o : InstantOrder) (delta : Z) : Z * InstantOrder :=
  let budget_remainder := u64_as_i64 (io_execution_budget o) in
  let corrected_remainder := wrap_i64 (budget_remainder + delta) in
  let updated_budget_remainder := Z.max corrected_remainder 0 in
  let real_delta := wrap_i64 (updated_budget_remainder - budget_remainder) in
  (real_delta, set_instant o (io_input_amount o) (io_output_amount o) (i64_as_u64 updated_budget_remainder) (io_fee o)).

#[export] Instance instant_behaviour : TakerBehaviour InstantOrder := {|
  with_updated_time := fun o _ => Succ o;
  with_applied_trade := instant_applied_trade;
  with_budget_corrected := instant_budget_corrected;
  with_fee_charged := fun o fee => set_instant o (io_input_amount o) (io_output_amount o) (io_execution_budget o) (sub_u64 (io_fee o) fee);
  with_output_added := fun o added => set_instant o (io_input_amount o) (add_u64 (io_output_amount o) added) (io_execution_budget o) (io_fee o);
  try_terminate := fun o => Term (instant_terminal o);
|}.

Definition instant_side (o : InstantOrder) : Side := side_of (io_input_asset o) (io_output_asset o).
Definition instant_operator_fee (o : InstantOrder) (input_consumed : Z) : Z :=
  if (io_input_amount o =? 0)%Z then 0%Z else (Z.min (io_fee o * input_consumed) u64_max / io_input_amount o)%Z.

#[export] Instance instant_taker `{RatioLib} : MarketTaker InstantOrder ExUnits := {|
  taker_side := instant_side;
  taker_input := io_input_amount;
  taker_output := io_output_amount;
  taker_price := fun o => from_price (instant_side o) (io_base_price o);
  operator_fee := instant_operator_fee;
  taker_fee := io_fee;
  budget := io_execution_budget;
  consumable_budget := io_execution_budget;
  taker_marginal_cost_hint := io_marginal_cost;
  min_marginal_output := fun o => wrap_u64 (numer (io_base_price o) / denom (io_base_price o));
  time_bounds := fun _ => Unbounded;
|}.

#[export] Instance instant_stable : Stable InstantOrder Token := io_beacon.
#[export] Instance instant_pair : Tradable InstantOrder (AssetClass * AssetClass) :=
  fun o => order_canonical (io_input_asset o) (io_output_asset o).

Definition instant_cmp `{RatioLib} (a b : InstantOrder) : comparison :=
  let by_price := ratio_cmp (taker_price a) (taker_price b) in
  let by_price := match taker_side a with Bid => CompOpp by_price | Ask => by_price end in
  lex by_price (lex (weight_cmp (LbState.weight a) (LbState.weight b)) (token_cmp (io_beacon a) (io_beacon b))).

(** ** The order in an output *)

Record InstantOrderValidation := mkInstantValidation {
  iv_min_lovelace : Z;
  iv_min_fee_lovelace : Z;
  iv_min_execution_budget_lovelace : Z;
}.

Record InstantDatum := mkInstantDatum {
  id_redeemer_address : PlutusAddress;
  id_input : AssetClass;
  id_output : AssetClass;
  id_base_price : RelativePrice;
  id_fee : Z;
  id_min_lovelace : Z;
  id_permitted_executor : bytes;
  id_cancellation_pkh : bytes;
  id_cancellation_after : Z;
}.

Record InstantContext := mkInstantContext {
  ic_script : ScriptInfo;
  ic_operator : bytes;
  ic_validation : InstantOrderValidation;
  ic_output_ref : OutputRef;
  ic_relative_fee_bps : Z;
}.

(** [AdhocFeeStructure::fee]: basis points, at most 10000. *)
Definition adhoc_fee (bps body : Z) : Z := wrap_u64 (wrap_u128 (body * bps) / 10000).

(** An instant order and the part of its input that is set aside for the fee. *)
Record AdhocOrder := mkAdhoc { ad_order : InstantOrder; ad_fee_input : Z }.

Section Datum.
Context `{BU : BigUintLib} `{BU128 : BigU128Lib}.

Definition instant_datum_try_from_pd (data : PlutusData) : option InstantDatum :=
  cpd ← into_constr_pd data;
  '(f, cpd) ← take_field cpd 2; input ← asset_try_from_pd f;
  '(f, cpd) ← take_field cpd 3; output ← asset_try_from_pd f;
  '(f, cpd) ← take_field cpd 4; base_price ← ratio_try_from_pd f;
  '(f, cpd) ← take_field cpd 5; fee ← into_u64 f;
  '(f, cpd) ← take_field cpd 6; min_lovelace ← into_u64 f;
  '(f, cpd) ← take_field cpd 1; redeemer ← plutus_address_try_from_pd f;
  '(f, cpd) ← take_field cpd 9; f ← into_bytes f; pkh ← try_array 28 f;
  '(f, cpd) ← take_field cpd 7; f ← into_bytes f; executor ← try_array 28 f;
  '(f, _) ← take_field cpd 8; cancellation_after ← into_u64 f;
  Some (mkInstantDatum redeemer input output base_price fee min_lovelace executor pkh cancellation_after).

Context `{RL : RatioLib}.

(** The sufficiency of the fee is computed for the log only. *)
Definition instant_try_from_ledger (c : InstantContext) (o : TransactionOutput) : panics (option InstantOrder) :=
  if negb (test_address (script_hash (ic_script c)) o) then Ok None
  else
    let value := out_value o in
    match out_datum o ≫= instant_datum_try_from_pd with
    | None => Ok None
    | Some conf =>
      match amount_of value (id_input conf) with
      | None => Ok None
      | Some total_input_asset_amount =>
        let tradable_input :=
          match id_input conf with
          | Native => wrap_u64 (wrap_u64 (coin value - id_fee conf) - id_min_lovelace conf)
          | TokenAsset _ => total_input_asset_amount
          end in
        match linear_output_relative tradable_input (id_base_price conf) with
        | None => Ok None
        | Some _ =>
          let v := ic_validation c in
          if (tradable_input <=? total_input_asset_amount)%Z && bool_decide (id_permitted_executor conf = ic_operator c) &&
             (iv_min_lovelace v <=? id_min_lovelace conf)%Z
          then
            beacon ← instant_beacon_from_oref (ic_output_ref c);
            Ok (Some (mkInstant beacon (id_input conf) tradable_input (id_output conf) (default 0%Z (amount_of value (id_output conf)))
                        (harden_price (id_base_price conf) tradable_input) Native (iv_min_execution_budget_lovelace v)
                        (wrap_u64 (id_fee conf - iv_min_execution_budget_lovelace v)) (id_redeemer_address conf) (id_cancellation_pkh conf)
                        (info_marginal_cost (ic_script c)) true (id_cancellation_after conf)))
          else Ok None
        end
      end
    end.

Definition subtract_adhoc_fee (body bps : Z) : Z := wrap_u64 (body - adhoc_fee bps body).

Definition adhoc_try_from_ledger (c : InstantContext) (o : TransactionOutput) : panics (option AdhocOrder) :=
  io ← instant_try_from_ledger c o;
  Ok (io ← io;
      let virtual_input_amount :=
        match io_input_asset io with
        | Native => subtract_adhoc_fee (io_input_amount io) (ic_relative_fee_bps c)
        | TokenAsset _ => io_input_amount io
        end in
      adhoc_fee_input ← (if is_native (io_input_asset io) then checked_sub (io_input_amount io) virtual_input_amount else Some 0%Z);
      match pa_stake (io_redeemer_address io) with
      | Some _ =>
        Some (mkAdhoc (set_instant io virtual_input_amount (io_output_amount io) (io_execution_budget io) (io_fee io)) adhoc_fee_input)
      | None => None
      end).
End Datum.

(** ** The ad-hoc order in the book *)

Definition next_adhoc (fee_input : Z) (n : Next InstantOrder TerminalTake) : Next AdhocOrder TerminalTake :=
  match n with Succ o => Succ (mkAdhoc o fee_input) | Term t => Term t end.

#[export] Instance adhoc_behaviour : TakerBehaviour AdhocOrder := {|
  with_updated_time := fun o _ => Succ o;
  with_applied_trade := fun o removed added => next_adhoc (ad_fee_input o) (with_applied_trade (ad_order o) removed added);
  with_budget_corrected := fun o delta => let '(d, s) := with_budget_corrected (ad_order o) delta in (d, mkAdhoc s (ad_fee_input o));
  with_fee_charged := fun o fee => mkAdhoc (with_fee_charged (ad_order o) fee) (ad_fee_input o);
  with_output_added := fun o added => mkAdhoc (with_output_added (ad_order o) added) (ad_fee_input o);
  try_terminate := fun o => next_adhoc (ad_fee_input o) (try_terminate (ad_order o));
|}.

#[export] Instance adhoc_taker `{RatioLib} : MarketTaker AdhocOrder ExUnits := {|
  taker_side := fun o => taker_side (ad_order o);
  taker_input := fun o => taker_input (ad_order o);
  taker_output := fun o => taker_output (ad_order o);
  taker_price := fun o => taker_price (ad_order o);
  operator_fee := fun o => operator_fee (ad_order o);
  taker_fee := fun o => taker_fee (ad_order o);
  budget := fun o => budget (ad_order o);
  consumable_budget := fun o => consumable_budget (ad_order o);
  taker_marginal_cost_hint := fun o => taker_marginal_cost_hint (ad_order o);
  min_marginal_output := fun o => min_marginal_output (ad_order o);
  time_bounds := fun o => time_bounds (ad_order o);
|}.

#[export] Instance adhoc_stable : Stable AdhocOrder Token := fun o => stable_id (ad_order o).
#[export] Instance adhoc_pair : Tradable AdhocOrder (AssetClass * AssetClass) := fun o => pair_of_entity (ad_order o).
Definition adhoc_cmp `{RatioLib} (a b : AdhocOrder) : comparison := instant_cmp (ad_order a) (ad_order b).

(** ** The execution of a fill *)

Definition INSTANT_EXEC_REDEEMER : PlutusData := PdConstr 1 [].

Record AdhocExecContext := mkAdhocExec {
  ae_network_id : Z;
  ae_operator : bytes;
  ae_order : DeployedValidatorErased;
  ae_witness : DeployedValidatorErased;
  ae_relative_fee_bps : Z;
}.

Section Exec.
Context `{RL : RatioLib} `{VL : ValueLib} `{AL : AddressLib}.

Notation AdhocTake := (Trans (AdhocOrder * FinalizedTxOut) AdhocOrder TerminalTake).

(** The fee that is charged on top of the declared one. *)
Definition proportional_fee (bps : Z) (o : AdhocOrder) (removed added : Z) : panics Z :=
  let ord := ad_order o in
  let full_adhoc_fee :=
    match io_input_asset ord, io_output_asset ord with
    | Native, _ => ad_fee_input o
    | _, Native => adhoc_fee bps added
    | _, _ => 0%Z
    end in
  if (io_input_amount ord =? 0)%Z then Panic
  else Ok (wrap_u64 (wrap_u128 (full_adhoc_fee * removed) / io_input_amount ord)).

Definition adhoc_value (v : Value) (ord : InstantOrder) (removed added charged : Z) : panics Value :=
  v ← sub_asset v (io_input_asset ord) removed;
  v ← add_asset v (io_output_asset ord) added;
  sub_asset v (io_fee_asset ord) charged.

Definition adhoc_exec (trans : AdhocTake) (state : ExecutionState) (c : AdhocExecContext)
    : panics (ExecutionState * EffectPreview AdhocOrder * AdhocExecContext) :=
  removed ← linked_removed_input trans;
  added ← linked_added_output trans;
  consumed_bdg ← consumed_budget trans;
  fee ← consumed_fee trans;
  let '(order, bearer) := target trans in
  let ord := ad_order order in
  let consumed_utxo := fin_output bearer in
  let v := ae_order c in
  let input := mkScriptInput (reference bearer) consumed_utxo (dv_hash v) (ReadyCost (dv_ex_budget v)) (ReadyRedeemer INSTANT_EXEC_REDEEMER)
                 [ae_operator c] in
  proportional_fee ← proportional_fee (ae_relative_fee_bps c) order removed added;
  value ← adhoc_value (out_value consumed_utxo) ord removed added (add_u64 (add_u64 consumed_bdg fee) proportional_fee);
  '(residual_order, effect) ←
    match result trans with
    | Term _ =>
      Ok (mkTxOut (to_address (io_redeemer_address ord) (ae_network_id c)) value None (out_script_ref consumed_utxo),
          EffEliminated (mkBundled order bearer))
    | Succ _ => Panic
    end;
  let state := add_operator_interest (add_tx_fee state consumed_bdg) (add_u64 fee proportional_fee) in
  let b := add_witness (tx_blueprint state) (ae_witness c) (PdList []) in
  let b := add_io b input residual_order in
  let b := add_ref_input b (ref_input v) (ref_output v) in
  Ok (set_blueprint state b, effect, c).

#[export] Instance adhoc_batch_exec : BatchExec AdhocTake (EffectPreview AdhocOrder) AdhocExecContext := adhoc_exec.
End Exec.

(** ** What the book relies on *)

Section Laws.
Context `{RL : RatioLib}.

#[export] Instance adhoc_trade_laws : TakerTradeLaws AdhocOrder ExUnits.
Proof.
  split; intros t r removed added Hr Ha Hm; cbn in *; unfold sub_u64, add_u64;
    (destruct (Z.leb_spec removed (io_input_amount (ad_order t))); [|lia]);
    (destruct (Z.leb_spec (io_output_amount (ad_order t) + added) u64_max); [|lia]); try done; by intros [= <-].
Qed.

#[export] Instance adhoc_final_laws : TakerFinalLaws AdhocOrder ExUnits.
Proof.
  split; cbn; try done. intros t added Ha Hm. unfold add_u64. destruct (Z.leb_spec (io_output_amount (ad_order t) + added) u64_max); [done|lia].
Qed.

#[export] Instance adhoc_stable_laws : TakerStableLaws AdhocOrder ExUnits Token.
Proof. intros t t' removed added. done. Qed.
End Laws.
