(* ===== verification/AdhocOrderProofs.v ===== *)
(** * What the owner of an ad-hoc order gets

    Theorem about [AdhocOrder.v]: the execution of an order that was read from an
    output returns to its owner everything but the traded input, the declared
    costs and an extra fee that never exceeds its share of the traded ADA. *)

From stdpp Require Import base gmap list.
From Stdlib Require Import ZArith Lia Strings.Byte.
From S2P Require Import Prelude Mpf LbTypes Assets PlutusData Intention GreenOrder LbCore LbCoreProofs AccountStore.
From S2P Require Import AccountIndex RoyaltyPool LbState LbGreen Containers Redeemers TxBlueprint StateIndex Engine Interpreter.
From S2P Require Import GreenExec RoyaltyDatum RoyaltyDatumProofs Graduation EventSink LimitOrder LimitOrderProofs ConstFnPoolProofs AdhocOrder.

#[local] Notation delete := base.delete.
#[local] Notation insert := base.insert.

(** ** The fee *)

Lemma adhoc_fee_bound bps body : (0 <= bps <= 10000)%Z -> is_u64 body ->
  (0 <= adhoc_fee bps body <= body /\ 10000 * adhoc_fee bps body <= bps * body)%Z.
Proof.
  intros Hb [H0 H1]. unfold adhoc_fee, wrap_u128. rewrite (Z.mod_small (body * bps)) by (unfold u64_max in *; nia).
  assert (0 <= body * bps / 10000)%Z by (apply Z.div_pos; nia). pose proof (Z.mul_div_le (body * bps) 10000 ltac:(lia)).
  rewrite wrap_u64_small by (unfold is_u64; nia). split; nia.
Qed.

Section Settle.
Context `{BU : BigUintLib} `{BUL : !BigUintLaws} `{BU128 : BigU128Lib} `{RL : RatioLib} `{VLaws : ValueLaws} `{AL : AddressLib}.

(** What an order that was read tells of its output. *)
Lemma instant_read c o io : instant_try_from_ledger c o = Ok (Some io) ->
  io_fee_asset io = Native /\ asset_wf (io_input_asset io) /\ asset_wf (io_output_asset io) /\
  (exists n, amount_of (out_value o) (io_input_asset io) = Some n /\ (io_input_amount io <= n)%Z) /\
  (is_native (io_input_asset io) = true -> (0 <= io_input_amount io)%Z).
Proof.
  unfold instant_try_from_ledger. destruct (negb _); [done|]. destruct (out_datum o) as [d|]; [|done]. cbn [mbind option_bind].
  destruct (instant_datum_try_from_pd d) as [conf|] eqn:Ec; [|done]. destruct (amount_of _ _) as [n|] eqn:En; [|done].
  set (tradable := match id_input conf with Native => _ | TokenAsset _ => n end).
  destruct (linear_output_relative _ _); [|done]. destruct ((tradable <=? n)%Z && _ && _) eqn:Eg; [|done].
  rewrite !andb_true_iff in Eg. destruct Eg as [[Eg _] _]. intros (b & _ & [= <-])%bind_Ok_inv. cbn [io_fee_asset io_input_asset io_output_asset io_input_amount].
  split; [done|].
  assert (asset_wf (id_input conf) /\ asset_wf (id_output conf)) as [W1 W2].
  { unfold instant_datum_try_from_pd in Ec. destruct (into_constr_pd d) as [cpd|]; [|done]. cbn [mbind option_bind] in Ec.
    apply bind_Some in Ec as ([f1 c1] & _ & Ec). apply bind_Some in Ec as (i & Hi & Ec).
    apply bind_Some in Ec as ([f2 c2] & _ & Ec). apply bind_Some in Ec as (u & Hu & Ec).
    repeat (apply bind_Some in Ec as (? & _ & Ec); try match type of Ec with context [match ?p with (_, _) => _ end] => destruct p end).
    injection Ec as <-. split; by eapply asset_parsed_wf. }
  split; [done|]. split; [done|]. split; [exists n; split; [done|lia]|].
  intros Hn. subst tradable. destruct (id_input conf); [|done]. unfold wrap_u64. apply Z.mod_pos_bound. lia.
Qed.

Lemma adhoc_read c o ad : adhoc_try_from_ledger c o = Ok (Some ad) -> (0 <= ic_relative_fee_bps c <= 10000)%Z ->
  (forall a n, amount_of (out_value o) a = Some n -> is_u64 n) ->
  exists io, instant_try_from_ledger c o = Ok (Some io) /\ ad_order ad = set_instant io (io_input_amount (ad_order ad)) (io_output_amount io) (io_execution_budget io) (io_fee io) /\ 
    match io_input_asset io with
    | Native => (0 <= ad_fee_input ad /\ io_input_amount (ad_order ad) + ad_fee_input ad = io_input_amount io /\ 
                 10000 * ad_fee_input ad <= ic_relative_fee_bps c * io_input_amount io)%Z
    | TokenAsset _ => ad_fee_input ad = 0%Z /\ io_input_amount (ad_order ad) = io_input_amount io
    end.
Proof.
  unfold adhoc_try_from_ledger. intros ([io|] & Hi & E)%bind_Ok_inv Hb Hu; [|done]. injection E as E. exists io. split; [done|].
  destruct (instant_read _ _ _ Hi) as (_ & _ & _ & (n & Hn & Hle) & H0). specialize (Hu _ _ Hn).
  cbn [mbind option_bind] in E. apply bind_Some in E as (f & Hf & E). destruct (pa_stake _); [|done]. injection E as <-. cbn.
  split; [done|]. destruct (io_input_asset io) as [|t]; [|by injection Hf as <-].
  specialize (H0 eq_refl). apply checked_sub_inv in Hf as [? ->]. unfold subtract_adhoc_fee in *.
  assert (is_u64 (io_input_amount io)) as Hw by (unfold is_u64 in *; lia).
  destruct (adhoc_fee_bound _ _ Hb Hw). rewrite wrap_u64_small in * by (unfold is_u64 in *; lia). lia.
Qed.

Lemma adhoc_value_amount v ord removed added charged v' : adhoc_value v ord removed added charged = Ok v' ->
  asset_wf (io_fee_asset ord) -> asset_wf (io_input_asset ord) -> asset_wf (io_output_asset ord) ->
  forall a, asset_wf a -> amount v' a = (amount v a - (if decide (io_input_asset ord = a) then removed else 0)
    + (if decide (io_output_asset ord = a) then added else 0) - (if decide (io_fee_asset ord = a) then charged else 0))%Z.
Proof.
  unfold adhoc_value, sub_asset, add_asset. intros E ? ? ? a ?.
  destruct (value_checked_sub v _) as [v1|] eqn:E1; [|done]. cbn [mbind outcome_bind] in E.
  destruct (value_checked_add v1 _) as [v2|] eqn:E2; [|done]. cbn [mbind outcome_bind] in E.
  destruct (value_checked_sub v2 _) as [v3|] eqn:E3; [|done]. injection E as <-.
  by rewrite (value_sub_amount _ _ _ a E3), (value_add_amount _ _ _ a E2), (value_sub_amount _ _ _ a E1), !into_value_amount by done.
Qed.

(** The extra fee of a trade: at most what was set aside, and at most its share
    of the ADA that is traded. *)
Lemma proportional_fee_bound bps ad removed added p : proportional_fee bps ad removed added = Ok p -> (0 <= bps <= 10000)%Z ->
  (0 <= removed <= io_input_amount (ad_order ad))%Z -> is_u64 (io_input_amount (ad_order ad)) -> is_u64 (ad_fee_input ad) -> is_u64 added ->
  (0 <= p)%Z /\
  match io_input_asset (ad_order ad), io_output_asset (ad_order ad) with
  | Native, _ => (p <= ad_fee_input ad)%Z
  | _, Native => (10000 * p <= bps * added)%Z /\ (p <= added)%Z
  | _, _ => p = 0%Z
  end.
Proof.
  intros E Hb Hr Hi Hf Ha. unfold proportional_fee in E. destruct (Z.eqb_spec (io_input_amount (ad_order ad)) 0); [done|].
  set (inp := io_input_amount (ad_order ad)) in *.
  assert (forall full, is_u64 full -> (0 <= wrap_u64 (wrap_u128 (full * removed) / inp) <= full)%Z) as Hw.
  { intros full Hfull. unfold wrap_u128, is_u64, u64_max in *. rewrite (Z.mod_small (full * removed)) by nia.
    assert (0 <= full * removed / inp <= full)%Z as [? ?].
    { split; [apply Z.div_pos; nia|]. apply Z.div_le_upper_bound; nia. }
    rewrite wrap_u64_small by (unfold is_u64, u64_max; lia). lia. }
  injection E as <-. destruct (io_input_asset (ad_order ad)); [specialize (Hw _ Hf); lia|].
  destruct (adhoc_fee_bound bps added Hb Ha) as [Hx Hy]. destruct (io_output_asset (ad_order ad)).
  - assert (is_u64 (adhoc_fee bps added)) as Hu by (unfold is_u64 in *; lia). specialize (Hw _ Hu). split_and!; lia.
  - assert (is_u64 0) as Hu by (unfold is_u64, u64_max; lia). specialize (Hw _ Hu). lia.
Qed.

(** What was traded and charged, as the book recorded it. *)
Record adhoc_trade (ad : AdhocOrder) (t : TerminalTake) (removed added bdg fee : Z) : Prop := {
  at_removed : removed = (io_input_amount (ad_order ad) - remaining_input t)%Z;
  at_added : added = (accumulated_output t - io_output_amount (ad_order ad))%Z;
  at_budget : bdg = (io_execution_budget (ad_order ad) - remaining_budget t)%Z;
  at_fee : fee = (io_fee (ad_order ad) - remaining_fee t)%Z;
  at_pos : (0 <= removed /\ 0 <= added /\ 0 <= bdg /\ 0 <= fee)%Z;
}.

Lemma adhoc_exec_Ok ad bearer t st e st' eff e' : adhoc_exec (mkTrans (ad, bearer) (Term t)) st e = Ok (st', eff, e') ->
  exists removed added bdg fee p v input,
    adhoc_trade ad t removed added bdg fee /\ proportional_fee (ae_relative_fee_bps e) ad removed added = Ok p /\
    adhoc_value (out_value (fin_output bearer)) (ad_order ad) removed added (add_u64 (add_u64 bdg fee) p) = Ok v /\
    si_utxo input = fin_output bearer /\ eff = EffEliminated (mkBundled ad bearer) /\
    script_io (tx_blueprint st') = script_io (tx_blueprint st) ++
      [(input, mkTxOut (to_address (io_redeemer_address (ad_order ad)) (ae_network_id e)) v None (out_script_ref (fin_output bearer)))] /\
    reserved_tx_fee st' = wrap_u64 (reserved_tx_fee st + bdg) /\ operator_interest st' = wrap_u64 (operator_interest st + add_u64 fee p).
Proof.
  unfold adhoc_exec, linked_removed_input, linked_added_output, consumed_budget, consumed_fee. cbn [target result fst snd taker_input taker_output
    taker_fee budget adhoc_taker instant_taker rest_input rest_output rest_budget].
  destruct (checked_sub (io_input_amount _) _) as [removed|] eqn:E1; [|done]. apply checked_sub_inv in E1 as [? ->]. cbn [mbind outcome_bind].
  destruct (checked_sub (accumulated_output t) _) as [added|] eqn:E2; [|done]. apply checked_sub_inv in E2 as [? ->]. cbn [mbind outcome_bind].
  destruct (checked_sub (io_execution_budget _) _) as [bdg|] eqn:E3; [|done]. apply checked_sub_inv in E3 as [? ->]. cbn [mbind outcome_bind].
  destruct (checked_sub (io_fee _) _) as [fee|] eqn:E4; [|done]. apply checked_sub_inv in E4 as [? ->]. cbn [mbind outcome_bind].
  intros (p & Hp & E)%bind_Ok_inv. apply bind_Ok_inv in E as (v & Hv & E). cbn [mbind outcome_bind] in E. injection E as <- <- <-.
  eexists _, _, _, _, p, v, _. split; [split; try reflexivity; lia|]. split; [exact Hp|]. split; [exact Hv|]. refine (conj _ (conj eq_refl (conj eq_refl (conj eq_refl eq_refl)))). reflexivity.
Qed.

End Settle.
