(* ===== verification/AdhocOrderExamples.v ===== *)
(** * Gold for a hundred ADA

    The witness of the theorem of [AdhocOrderProofs.v], and an instant order
    whose fee does not cover the execution budget. *)

From stdpp Require Import base gmap list.
From Stdlib Require Import ZArith Lia Strings.Byte.
From S2P Require Import Prelude Mpf LbTypes Assets PlutusData Intention GreenOrder LbCore LbCoreProofs AccountStore.
From S2P Require Import AccountIndex RoyaltyPool LbState LbGreen Containers Redeemers TxBlueprint StateIndex Engine Interpreter.
From S2P Require Import GreenExec RoyaltyDatum RoyaltyDatumProofs Graduation EventSink LimitOrder LimitOrderProofs LimitOrderExamples.
From S2P Require Import AdhocOrder AdhocOrderProofs.

#[local] Existing Instance exact_ratio.
#[local] Existing Instance pointwise_value.
#[local] Existing Instance pointwise_value_laws.

Module Purchase.
#[local] Existing Instance Sale.plain_u64.
#[local] Existing Instance Sale.plain_u64_laws.
#[local] Existing Instance Sale.plain_u128.
#[local] Existing Instance Sale.plain_address.
Open Scope Z_scope.

Definition gold : Token := Sale.gold.
Definition script : ScriptInfo := mkScriptInfo (replicate 28 x3e) (mkExUnits 5 7).
Definition operator : bytes := replicate 28 x07.

(** Ten gold at least for a hundred ADA, with a given fee. *)
Definition purchase_output (fee : Z) : TransactionOutput :=
  mkTxOut (mkAddress (Some (ScriptCred (script_hash script))) None []) (mkValue 102500000 ∅)
    (Some (PdConstr 0
       [PdBytes [x00]; PdConstr 0 [PdConstr 0 [PdBytes (replicate 28 x71)]; PdConstr 0 [PdConstr 0 [PdConstr 0 [PdBytes (replicate 28 x73)]]]];
        PdConstr 0 [PdBytes []; PdBytes []]; PdConstr 0 [PdBytes (policy gold); PdBytes (cml_name (asset_name gold))];
        PdConstr 0 [PdInteger 1; PdInteger 10]; PdInteger fee; PdInteger 1500000; PdBytes operator; PdInteger 0;
        PdBytes (replicate 28 x72)])) None.
Definition reader : InstantContext :=
  mkInstantContext script operator (mkInstantValidation 1500000 100000 400000) (replicate 32 x01, 0) 50.

Definition purchase : AdhocOrder :=
  match adhoc_try_from_ledger reader (purchase_output 1000000) with
  | Ok (Some ad) => ad
  | _ => mkAdhoc (mkInstant gold Native 0 Native 0 (mkRatio 0 1) Native 0 0 (mkPlutusAddress (PubKeyCred []) None) [] (mkExUnits 0 0) false 0) 0
  end.

(** Half a percent is set aside. *)
Example purchase_amounts :
  (io_input_amount (ad_order purchase), ad_fee_input purchase, io_execution_budget (ad_order purchase), io_fee (ad_order purchase)) =
  (99500000, 500000, 400000, 600000).
Proof. vm_compute. reflexivity. Qed.

Definition executor : AdhocExecContext :=
  let validator h := mkValidator (replicate 32 x30, 0) (purchase_output 1000000) h (mkExUnits 100 200) (mkExUnits 5 7) in
  mkAdhocExec 1 operator (validator (script_hash script)) (validator (replicate 28 x3d)) 50.
Definition bearer : FinalizedTxOut := mkFinalized (purchase_output 1000000) (replicate 32 x01, 0).
Definition bought : TerminalTake := mkTerminalTake 0 10000000 100000 0.
#[local] Notation purchase_exec := (adhoc_exec (mkTrans (purchase, bearer) (Term bought)) execution_state_new executor).


(** A fee below the budget that the reader assigns: the order is read with a fee
    close to [2 ^ 64]. *)
Example fee_below_budget :
  match instant_try_from_ledger reader (purchase_output 300000) with Ok (Some io) => io_fee io = 2 ^ 64 - 100000 | _ => False end.
Proof. vm_compute. reflexivity. Qed.
End Purchase.
