(* ===== verification/GridOrder.v ===== *)
(** * Grid orders

    [orders/grid.rs]: an order that buys and sells a token for ADA in turns, its
    behaviour in the book, its datum and ([instances.rs]) its execution.  Amounts
    are [u64]; sums and differences wrap around. *)

From stdpp Require Import base gmap list.
From Stdlib Require Import ZArith Lia Strings.Byte.
From S2P Require Import Prelude Mpf LbTypes Assets PlutusData Intention GreenOrder LbCore LbCoreProofs AccountStore.
From S2P Require Import AccountIndex RoyaltyPool LbState LbGreen Containers Redeemers TxBlueprint StateIndex Engine Interpreter.
From S2P Require Import GreenExec RoyaltyDatum Graduation EventSink LimitOrder.

#[local] Notation delete := base.delete.
#[local] Notation insert := base.insert.

Record GridOrder := mkGrid {
  gr_beacon : bytes;
  gr_base_asset : AssetClass;
  gr_quote_asset : AssetClass;
  gr_buy_shift_factor : Ratio;
  gr_sell_shift_factor : Ratio;
  gr_base_reserves : Z;
  gr_quote_reserves : Z;
  gr_quote_offer : Z;
  gr_price : Ratio;
  gr_side : Side;
  gr_min_marginal_output_base : Z;
  gr_min_marginal_output_quote : Z;
  gr_max_execution_budget_per_step : Z;
  gr_remaining_execution_budget : Z;
  gr_redeemer_address : PlutusAddress;
  gr_marginal_cost : ExUnits;
}.

Definition set_grid (o : GridOrder) (base quote offer budget : Z) (price : Ratio) (side : Side) : GridOrder :=
  mkGrid (gr_beacon o) (gr_base_asset o) (gr_quote_asset o) (gr_buy_shift_factor o) (gr_sell_shift_factor o) base quote offer price side
    (gr_min_marginal_output_base o) (gr_min_marginal_output_quote o) (gr_max_execution_budget_per_step o) budget
    (gr_redeemer_address o) (gr_marginal_cost o).

Definition relative_io (o : GridOrder) : AssetClass * AssetClass :=
  match gr_side o with Bid => (gr_quote_asset o, gr_base_asset o) | Ask => (gr_base_asset o, gr_quote_asset o) end.

Definition grid_side (o : GridOrder) : Side := let '(input, output) := relative_io o in side_of input output.

Definition absolute_io (o : GridOrder) : AssetClass * AssetClass :=
  if bool_decide (grid_side o = gr_side o) then
    match gr_side o with Bid => (gr_quote_asset o, gr_base_asset o) | Ask => (gr_base_asset o, gr_quote_asset o) end
  else
    match gr_side o with Ask => (gr_quote_asset o, gr_base_asset o) | Bid => (gr_base_asset o, gr_quote_asset o) end.

(** The reserves the trade is taken from and added to: quote to base, or base to
    quote.  The offer of quote changes with the base. *)
Definition trades_quote_for_base (o : GridOrder) : bool :=
  if bool_decide (gr_side o = grid_side o) then match gr_side o with Bid => true | Ask => false end
  else match gr_side o with Ask => true | Bid => false end.

Definition shift_price (p f : Ratio) : Ratio := mkRatio (wrap_u128 (numer p * numer f)) (wrap_u128 (denom p * denom f)).

Definition grid_applied_trade (o : GridOrder) (removed_input added_output : Z) : Next GridOrder TerminalTake :=
  let '(base, quote, offer) :=
    if trades_quote_for_base o
    then (add_u64 (gr_base_reserves o) added_output, sub_u64 (gr_quote_reserves o) removed_input, add_u64 (gr_quote_offer o) added_output)
    else (sub_u64 (gr_base_reserves o) removed_input, add_u64 (gr_quote_reserves o) added_output, sub_u64 (gr_quote_offer o) removed_input) in
  let budget := sub_u64 (gr_remaining_execution_budget o) (gr_max_execution_budget_per_step o) in
  let '(side, price) :=
    match gr_side o with
    | Bid => if (quote =? 0)%Z then (Ask, shift_price (gr_price o) (gr_buy_shift_factor o)) else (Bid, gr_price o)
    | Ask => if (offer =? 0)%Z then (Bid, shift_price (gr_price o) (gr_sell_shift_factor o)) else (Ask, gr_price o)
    end in
  Succ (set_grid o base quote offer budget price side).

Definition grid_budget_corrected (o : GridOrder) (delta : Z) : Z * GridOrder :=
  let budget_remainder := u64_as_i64 (gr_remaining_execution_budget o) in
  let corrected_remainder := wrap_i64 (budget_remainder + delta) in
  let updated_budget_remainder := Z.max corrected_remainder 0 in
  let real_delta := wrap_i64 (updated_budget_remainder - budget_remainder) in
  (real_delta, set_grid o (gr_base_reserves o) (gr_quote_reserves o) (gr_quote_offer o) (i64_as_u64 updated_budget_remainder) (gr_price o) (gr_side o)).

Definition grid_output_added (o : GridOrder) (added_output : Z) : GridOrder :=
  if trades_quote_for_base o
  then set_grid o (add_u64 (gr_base_reserves o) added_output) (gr_quote_reserves o) (add_u64 (gr_quote_offer o) added_output)
         (gr_remaining_execution_budget o) (gr_price o) (gr_side o)
  else set_grid o (gr_base_reserves o) (add_u64 (gr_quote_reserves o) added_output) (gr_quote_offer o)
         (gr_remaining_execution_budget o) (gr_price o) (gr_side o).

#[export] Instance grid_behaviour : TakerBehaviour GridOrder := {|
  with_updated_time := fun o _ => Succ o;
  with_applied_trade := grid_applied_trade;
  with_budget_corrected := grid_budget_corrected;
  with_fee_charged := fun o _ => o;
  with_output_added := grid_output_added;
  try_terminate := Succ;
|}.

#[export] Instance grid_taker `{RatioLib} : MarketTaker GridOrder ExUnits := {|
  taker_side := grid_side;
  taker_input := fun o => match gr_side o with Bid => gr_quote_offer o | Ask => gr_base_reserves o end;
  taker_output := fun o => match gr_side o with Ask => gr_quote_reserves o | Bid => gr_base_reserves o end;
  taker_price := fun o => if bool_decide (gr_side o = grid_side o) then gr_price o else ratio_recip (gr_price o);
  operator_fee := fun _ _ => 0%Z;
  taker_fee := fun _ => 0%Z;
  budget := gr_max_execution_budget_per_step;
  consumable_budget := gr_max_execution_budget_per_step;
  taker_marginal_cost_hint := gr_marginal_cost;
  min_marginal_output := gr_min_marginal_output_base;
  time_bounds := fun _ => Unbounded;
|}.

#[export] Instance grid_stable : Stable GridOrder Token := fun o => mkToken (gr_beacon o) (mkAssetName 0 (replicate 32 x00)).
#[export] Instance grid_pair : Tradable GridOrder (AssetClass * AssetClass) := fun o => order_canonical (gr_quote_asset o) (gr_base_asset o).

Definition grid_cmp `{RatioLib} (a b : GridOrder) : comparison :=
  let by_price := ratio_cmp (taker_price a) (taker_price b) in
  let by_price := match taker_side a with Bid => CompOpp by_price | Ask => by_price end in
  lex by_price (lex (weight_cmp (LbState.weight a) (LbState.weight b)) (token_cmp (stable_id a) (stable_id b))).

(** ** The datum *)

Record DatumNative := mkDatumNative {
  gd_beacon : bytes;
  gd_token : AssetClass;
  gd_buy_shift_factor : Ratio;
  gd_sell_shift_factor : Ratio;
  gd_max_lovelace_offer : Z;
  gd_lovelace_offer : Z;
  gd_price : Ratio;
  gd_side : Side;
  gd_budget_per_transaction : Z;
  gd_min_marginal_output_lovelace : Z;
  gd_min_marginal_output_token : Z;
  gd_redeemer_address : PlutusAddress;
  gd_cancellation_pkh : bytes;
}.

Definition bool_try_from_pd (data : PlutusData) : option bool :=
  cpd ← into_constr_pd data;
  if (alternative cpd =? 0)%Z then Some false else if (alternative cpd =? 1)%Z then Some true else None.
Definition side_into_pd (s : Side) : PlutusData := PdConstr (match s with Bid => 1 | Ask => 0 end) [].
Definition ratio_into_pd (r : Ratio) : PlutusData := PdConstr 0 [int_into_pd (numer r); int_into_pd (denom r)].

Definition harden_grid_price (p : Ratio) (side : Side) : Ratio :=
  match side with Bid => mkRatio (numer p) (wrap_u128 (denom p + 1)) | Ask => mkRatio (wrap_u128 (numer p + 1)) (denom p) end.

(** The lovelace covers the offer of a bid and the budget. *)
Definition with_consistency_verified_native (o : GridOrder) : option GridOrder :=
  let min_real_lovelace :=
    match gr_side o with
    | Bid => wrap_u64 (gr_quote_offer o + gr_remaining_execution_budget o)
    | Ask => gr_remaining_execution_budget o
    end in
  if (min_real_lovelace <=? gr_quote_reserves o)%Z then Some o else None.

Section Datum.
Context `{BU : BigUintLib} `{BU128 : BigU128Lib}.

Definition datum_native_try_from_pd (data : PlutusData) : option DatumNative :=
  cpd ← into_constr_pd data;
  '(f, cpd) ← take_field cpd 0; f ← into_bytes f; beacon ← try_array 28 f;
  '(f, cpd) ← take_field cpd 1; token ← asset_try_from_pd f;
  '(f, cpd) ← take_field cpd 2; buy ← ratio_try_from_pd f;
  '(f, cpd) ← take_field cpd 3; sell ← ratio_try_from_pd f;
  '(f, cpd) ← take_field cpd 4; max_offer ← into_u64 f;
  '(f, cpd) ← take_field cpd 5; offer ← into_u64 f;
  '(f, cpd) ← take_field cpd 6; price ← ratio_try_from_pd f;
  '(f, cpd) ← take_field cpd 7; flag ← bool_try_from_pd f;
  '(f, cpd) ← take_field cpd 8; budget ← into_u64 f;
  '(f, cpd) ← take_field cpd 9; min_lovelace ← into_u64 f;
  '(f, cpd) ← take_field cpd 10; min_token ← into_u64 f;
  '(f, cpd) ← take_field cpd 11; redeemer ← plutus_address_try_from_pd f;
  '(f, _) ← take_field cpd 12; f ← into_bytes f; pkh ← try_array 28 f;
  Some (mkDatumNative beacon token buy sell max_offer offer price (if flag : bool then Bid else Ask) budget min_lovelace min_token redeemer pkh).

Definition grid_try_from_ledger (script : ScriptInfo) (o : TransactionOutput) : option GridOrder :=
  if test_address (script_hash script) o then
    d ← out_datum o;
    conf ← datum_native_try_from_pd d;
    total_lovelace ← amount_of (out_value o) Native;
    let total_base := default 0%Z (amount_of (out_value o) (gd_token conf)) in
    with_consistency_verified_native
      (mkGrid (gd_beacon conf) (gd_token conf) Native (gd_buy_shift_factor conf) (gd_sell_shift_factor conf) total_base total_lovelace
         (gd_lovelace_offer conf) (harden_grid_price (gd_price conf) (gd_side conf)) (gd_side conf)
         (gd_min_marginal_output_token conf) (gd_min_marginal_output_lovelace conf) (gd_budget_per_transaction conf)
         (gd_budget_per_transaction conf) (gd_redeemer_address conf) (info_marginal_cost script))
  else None.
End Datum.

Definition update_grid_datum (data : PlutusData) (lovelace_offer : Z) (price : Ratio) (side : Side) : panics PlutusData :=
  match into_constr_pd data with
  | Some cpd =>
    cpd ← set_field cpd 5 (int_into_pd lovelace_offer);
    cpd ← set_field cpd 6 (ratio_into_pd price);
    cpd ← set_field cpd 7 (side_into_pd side);
    Ok (PdConstr (alternative cpd) (fields cpd))
  | None => Panic
  end.

(** ** The execution of a fill *)

Record GridExecContext := mkGridExec { ge_network_id : Z; ge_order : DeployedValidatorErased }.

Section Exec.
Context `{RL : RatioLib} `{VL : ValueLib} `{AL : AddressLib}.

Notation GridTake := (Trans (GridOrder * FinalizedTxOut) GridOrder TerminalTake).

Definition grid_exec (trans : GridTake) (state : ExecutionState) (c : GridExecContext)
    : panics (ExecutionState * EffectPreview GridOrder * GridExecContext) :=
  removed ← linked_removed_input trans;
  added ← linked_added_output trans;
  consumed_bdg ← consumed_budget trans;
  fee ← consumed_fee trans;
  let '(ord, bearer) := target trans in
  let consumed_out := fin_output bearer in
  let v := ge_order c in
  let input := mkScriptInput (reference bearer) consumed_out (dv_hash v) (ReadyCost (dv_ex_budget v)) (ReadyRedeemer EXEC_REDEEMER) [] in
  let '(input_asset, output_asset) := absolute_io ord in
  value ← sub_asset (out_value consumed_out) Native (add_u64 consumed_bdg fee);
  value ← sub_asset value input_asset removed;
  value ← add_asset value output_asset added;
  '(residual_order, effect) ←
    match result trans with
    | Succ next =>
      datum ← match out_datum consumed_out with
              | Some d => d ← update_grid_datum d (gr_quote_offer next) (gr_price next) (gr_side next); Ok (Some d)
              | None => Ok None
              end;
      let candidate := mkTxOut (out_address consumed_out) value datum (out_script_ref consumed_out) in
      Ok (candidate, EffUpdated (mkBundled ord bearer) (mkBundled next candidate))
    | Term _ =>
      Ok (mkTxOut (to_address (gr_redeemer_address ord) (ge_network_id c)) value None (out_script_ref consumed_out),
          EffEliminated (mkBundled ord bearer))
    end;
  let state := add_operator_interest (add_tx_fee state consumed_bdg) fee in
  let b := add_io (tx_blueprint state) input residual_order in
  let b := add_ref_input b (ref_input v) (ref_output v) in
  Ok (set_blueprint state b, effect, c).
End Exec.
