(* ===== verification/GridOrderProofs.v ===== *)
(** * What a grid order writes, and what it trades

    The datum that an execution writes is read back with the new offer, price and
    side.  An order against ADA is on opposite sides in its own terms and in the
    book's, so that every trade is applied to the wrong reserves; and the price
    that is written is the hardened one, which is hardened again when it is read. *)

From stdpp Require Import base gmap list.
From Stdlib Require Import ZArith Lia Strings.Byte.
From S2P Require Import Prelude Mpf LbTypes Assets PlutusData Intention GreenOrder LbCore LbCoreProofs AccountStore.
From S2P Require Import AccountIndex RoyaltyPool LbState LbGreen Containers Redeemers TxBlueprint StateIndex Engine Interpreter.
From S2P Require Import GreenExec RoyaltyDatum RoyaltyDatumProofs Graduation EventSink LimitOrder LimitOrderExamples GridOrder.

#[local] Notation delete := base.delete.
#[local] Notation insert := base.insert.

(** ** The datum *)

Section Datum.
Context `{BU : BigUintLib} `{BUL : !BigUintLaws} `{BU128 : BigU128Lib}.

(** The fields of the datum and what each is read as. *)
Record grid_fields (fs : list PlutusData) (conf : DatumNative) : Prop := {
  gf_0 : exists d, fs !! 0 = Some d /\ (into_bytes d ≫= try_array 28) = Some (gd_beacon conf);
  gf_1 : exists d, fs !! 1 = Some d /\ asset_try_from_pd d = Some (gd_token conf);
  gf_2 : exists d, fs !! 2 = Some d /\ ratio_try_from_pd d = Some (gd_buy_shift_factor conf);
  gf_3 : exists d, fs !! 3 = Some d /\ ratio_try_from_pd d = Some (gd_sell_shift_factor conf);
  gf_4 : exists d, fs !! 4 = Some d /\ into_u64 d = Some (gd_max_lovelace_offer conf);
  gf_5 : exists d, fs !! 5 = Some d /\ into_u64 d = Some (gd_lovelace_offer conf);
  gf_6 : exists d, fs !! 6 = Some d /\ ratio_try_from_pd d = Some (gd_price conf);
  gf_7 : exists d, fs !! 7 = Some d /\ bool_try_from_pd d = Some (match gd_side conf with Bid => true | Ask => false end);
  gf_8 : exists d, fs !! 8 = Some d /\ into_u64 d = Some (gd_budget_per_transaction conf);
  gf_9 : exists d, fs !! 9 = Some d /\ into_u64 d = Some (gd_min_marginal_output_lovelace conf);
  gf_10 : exists d, fs !! 10 = Some d /\ into_u64 d = Some (gd_min_marginal_output_token conf);
  gf_11 : exists d, fs !! 11 = Some d /\ plutus_address_try_from_pd d = Some (gd_redeemer_address conf);
  gf_12 : exists d, fs !! 12 = Some d /\ (into_bytes d ≫= try_array 28) = Some (gd_cancellation_pkh conf);
}.

Lemma bind_bytes {A} d (k : bytes -> option A) : (f ← into_bytes d; a ← try_array 28 f; k a) = (a ← (into_bytes d ≫= try_array 28); k a).
Proof. by destruct (into_bytes d). Qed.

Lemma grid_fields_iff alt fs conf : datum_native_try_from_pd (PdConstr alt fs) = Some conf <-> grid_fields fs conf.
Proof.
  unfold datum_native_try_from_pd. cbn [into_constr_pd mbind option_bind]. unfold take_field. split.
  - intros E. repeat (let Hf := fresh "Hf" in apply bind_Some in E as ([? ?] & Hf & E); cbn [fields alternative] in Hf; apply bind_Some in Hf as (? & Hf & [= <- <-]);
      repeat rewrite list_lookup_insert_ne in Hf by done; try rewrite bind_bytes in E; apply bind_Some in E as (? & ? & E)).
    injection E as <-. split; cbn; (eexists; split; [eassumption|]); first [assumption|match goal with b : bool |- _ => by destruct b end].
  - intros [(d0 & E0 & P0) (d1 & E1 & P1) (d2 & E2 & P2) (d3 & E3 & P3) (d4 & E4 & P4) (d5 & E5 & P5) (d6 & E6 & P6) (d7 & E7 & P7)
            (d8 & E8 & P8) (d9 & E9 & P9) (d10 & E10 & P10) (d11 & E11 & P11) (d12 & E12 & P12)].
    apply bind_Some in P0 as (b0 & B0 & P0). apply bind_Some in P12 as (b12 & B12 & P12).
    put_field E0 B0. rewrite P0. cbn [mbind option_bind]. put_field E1 P1. put_field E2 P2. put_field E3 P3. put_field E4 P4. put_field E5 P5.
    put_field E6 P6. put_field E7 P7. put_field E8 P8. put_field E9 P9. put_field E10 P10. put_field E11 P11. put_field E12 B12. rewrite P12.
    cbn. destruct conf as [? ? ? ? ? ? ? [] ? ? ? ? ?]; done.
Qed.

Definition traded_datum (conf : DatumNative) (offer : Z) (price : Ratio) (side : Side) : DatumNative :=
  mkDatumNative (gd_beacon conf) (gd_token conf) (gd_buy_shift_factor conf) (gd_sell_shift_factor conf) (gd_max_lovelace_offer conf) offer price side
    (gd_budget_per_transaction conf) (gd_min_marginal_output_lovelace conf) (gd_min_marginal_output_token conf) (gd_redeemer_address conf)
    (gd_cancellation_pkh conf).

Definition writable_price (p : Ratio) : Prop := as_u128 (numer p) = Some (numer p) /\ as_u128 (denom p) = Some (denom p) /\ denom p <> 0%Z.

Lemma ratio_reads_back p : writable_price p -> ratio_try_from_pd (ratio_into_pd p) = Some p.
Proof.
  intros (Hn & Hd & H0). unfold ratio_try_from_pd, ratio_into_pd, int_into_pd. cbn. rewrite Hd. cbn. rewrite (proj2 (Z.eqb_neq _ _) H0). cbn.
  rewrite Hn. by destruct p.
Qed.

(** The datum of an executed order is written without a panic and is read back
    with the new offer, price and side, everything else kept. *)
Theorem grid_datum_reads_back data conf offer price side : datum_native_try_from_pd data = Some conf -> is_u64 offer -> writable_price price ->
  exists data', update_grid_datum data offer price side = Ok data' /\
    datum_native_try_from_pd data' = Some (traded_datum conf offer price side).
Proof.
  intros Hc Ho Hp. destruct data as [alt fs| | | |]; try done. apply grid_fields_iff in Hc.
  assert (12 < length fs) as Hlen by (destruct (gf_12 _ _ Hc) as (d & Hd & _); by eapply lookup_lt_Some).
  unfold update_grid_datum. cbn [into_constr_pd]. repeat (rewrite set_field_Ok by (rewrite ?length_insert; lia); cbn [mbind outcome_bind]).
  eexists. split; [reflexivity|]. cbn [alternative fields]. apply grid_fields_iff. destruct Hc as [H0 H1 H2 H3 H4 _ _ _ H8 H9 H10 H11 H12].
  split; cbn; repeat rewrite list_lookup_insert_ne by done; try done; rewrite list_lookup_insert_eq by (rewrite ?length_insert; lia);
    (eexists; split; [reflexivity|]); [by apply into_u64_int|by apply ratio_reads_back|by destruct side].
Qed.
End Datum.

(** ** The reserves of an order against ADA *)

(** An order that buys for ADA sells in the book, and the other way round. *)
Lemma ada_grid_side o t : gr_quote_asset o = Native -> gr_base_asset o = TokenAsset t -> grid_side o = side_not (gr_side o).
Proof. intros Eq Eb. unfold grid_side, relative_io, side_of, order_canonical. rewrite Eq, Eb. by destruct (gr_side o). Qed.

Theorem ada_grid_trades_backwards o t removed added : gr_quote_asset o = Native -> gr_base_asset o = TokenAsset t ->
  absolute_io o = ((relative_io o).2, (relative_io o).1) /\
  exists o', with_applied_trade o removed added = Succ o' /\
    match gr_side o with
    | Bid => gr_base_reserves o' = sub_u64 (gr_base_reserves o) removed /\ gr_quote_reserves o' = add_u64 (gr_quote_reserves o) added
    | Ask => gr_quote_reserves o' = sub_u64 (gr_quote_reserves o) removed /\ gr_base_reserves o' = add_u64 (gr_base_reserves o) added
    end.
Proof.
  intros Eq Eb. pose proof (ada_grid_side o t Eq Eb) as Es. unfold absolute_io, relative_io. cbn. unfold grid_applied_trade, trades_quote_for_base. rewrite Es.
  split; [by destruct (gr_side o)|]. destruct (gr_side o); cbn; rewrite (bool_decide_eq_false_2 _) by done;
    [destruct (add_u64 (gr_quote_reserves o) added =? 0)%Z|destruct (add_u64 (gr_quote_offer o) added =? 0)%Z]; (eexists; split; [reflexivity|done]).
Qed.

(** ** The budget *)

(** The book sees the budget per step, which neither a trade nor a correction
    changes: the execution of an order charges it nothing. *)
Lemma grid_charged_nothing `{RatioLib} o (bearer : FinalizedTxOut) removed added o' delta : with_applied_trade o removed added = Succ o' ->
  consumed_budget (mkTrans (o, bearer) (Succ (with_budget_corrected o' delta).2)) = Ok 0%Z.
Proof.
  cbn [with_applied_trade with_budget_corrected grid_behaviour]. unfold grid_applied_trade, grid_budget_corrected, consumed_budget. intros E.
  assert (gr_max_execution_budget_per_step o' = gr_max_execution_budget_per_step o) as Eb.
  { repeat case_match; by simplify_eq. }
  cbn. rewrite Eb. unfold checked_sub. rewrite Z.leb_refl, Z.sub_diag. done.
Qed.

(** ** A bid of a hundred ADA *)

Module Ladder.
#[local] Existing Instance exact_ratio.
#[local] Existing Instance Sale.plain_u64.
#[local] Existing Instance Sale.plain_u64_laws.
#[local] Existing Instance Sale.plain_u128.
Open Scope Z_scope.

Definition script : ScriptInfo := mkScriptInfo (replicate 28 x3e) (mkExUnits 5 7).
Definition ladder_datum : PlutusData :=
  PdConstr 0
    [PdBytes (replicate 28 x09); PdConstr 0 [PdBytes (policy Sale.gold); PdBytes (cml_name (asset_name Sale.gold))];
     PdConstr 0 [PdInteger 11; PdInteger 10]; PdConstr 0 [PdInteger 10; PdInteger 11]; PdInteger 100000000; PdInteger 100000000;
     PdConstr 0 [PdInteger 1; PdInteger 10]; PdConstr 1 []; PdInteger 1000000; PdInteger 1; PdInteger 1;
     PdConstr 0 [PdConstr 0 [PdBytes (replicate 28 x71)]; PdConstr 1 []]; PdBytes (replicate 28 x72)].
Definition ladder_output (datum : PlutusData) : TransactionOutput :=
  mkTxOut (mkAddress (Some (ScriptCred (script_hash script))) None []) (mkValue 110000000 ∅) (Some datum) None.
#[local] Notation ladder := (grid_try_from_ledger script (ladder_output ladder_datum)).

Lemma grid_datum_reads_back_witness :
  match datum_native_try_from_pd ladder_datum with
  | Some conf => exists data', update_grid_datum ladder_datum 50000000 (mkRatio 1 11) Bid = Ok data' /\
      datum_native_try_from_pd data' = Some (traded_datum conf 50000000 (mkRatio 1 11) Bid)
  | None => False
  end.
Proof.
  destruct (datum_native_try_from_pd ladder_datum) as [conf|] eqn:E; [|vm_compute in E; discriminate].
  apply (grid_datum_reads_back ladder_datum conf 50000000 (mkRatio 1 11) Bid); [exact E|vm_compute; split; discriminate|].
  vm_compute. split_and!; [reflexivity|reflexivity|discriminate].
Defined.

(** The bid offers a hundred ADA for gold.  When ten million lovelace of it buy a
    million gold, it is the (empty) gold reserves that pay, and the lovelace reserves
    get the gold. *)
Example bid_pays_gold :
  match ladder with
  | Some o => gr_side o = Bid /\ taker_input o = 100000000 /\
      match with_applied_trade o 10000000 1000000 with
      | Succ o' => gr_base_reserves o' = 2 ^ 64 - 10000000 /\ gr_quote_reserves o' = 111000000 /\ taker_output o' <> taker_output o + 1000000
      | Term _ => False
      end
  | None => False
  end.
Proof. vm_compute. split_and!; [reflexivity..|discriminate]. Qed.

(** The price of a bid, written by a partial fill and read again, is not the price
    of the order that wrote it. *)
Example price_hardened_twice :
  match ladder with
  | Some o => gr_price o = mkRatio 1 11 /\
      match update_grid_datum ladder_datum (gr_quote_offer o) (gr_price o) (gr_side o) with
      | Ok d => gr_price <$> grid_try_from_ledger script (ladder_output d) = Some (mkRatio 1 12)
      | _ => False
      end
  | None => False
  end.
Proof. vm_compute. split; reflexivity. Qed.
End Ladder.
