(* ===== verification/QuadraticPool.v ===== *)
(** * Launchpad pools

    [data/quadratic_pool.rs] and [pool_math/degen_quadratic_math.rs]: pools that
    sell a token along the curve [a * supply ^ 2 + b] until they have collected a
    given amount, against ADA or, with a fee, against another token.  The decimal
    arithmetic is a library's; [u64] and [u128] arithmetic wraps around.  (The
    formats of their data are in [Graduation.v].) *)

From stdpp Require Import base gmap list.
From Stdlib Require Import ZArith QArith Qabs Lia Strings.Byte.
From S2P Require Import Prelude Mpf LbTypes Assets PlutusData Intention GreenOrder LbCore AccountStore AccountIndex RoyaltyPool LbState Containers.
From S2P Require Import RoyaltyDatum Graduation EventSink LimitOrder ConstFnPool.

#[local] Notation delete := base.delete.
#[local] Notation insert := base.insert.
#[local] Open Scope Z_scope.

(** ** Decimal arithmetic *)

(** [bigdecimal::BigDecimal].  A division by zero panics. *)
Class BigDecimalLib := {
  bigdec : Type;
  bd_from : Z -> bigdec;
  bd_add : bigdec -> bigdec -> bigdec;
  bd_sub : bigdec -> bigdec -> bigdec;
  bd_mul : bigdec -> bigdec -> bigdec;
  bd_div : bigdec -> bigdec -> panics bigdec;
  bd_sqrt : bigdec -> option bigdec;
  bd_cbrt : bigdec -> bigdec;
  bd_to_u64 : bigdec -> option Z;
}.

(** Sums and products are exact, quotients keep at least 90 of their 100 digits,
    and the conversion to an integer truncates and refuses negative numbers. *)
Class BigDecimalLaws `{BigDecimalLib} := {
  bd_val : bigdec -> Q;
  bd_from_val : forall z, (bd_val (bd_from z) == inject_Z z)%Q;
  bd_add_val : forall a b, (bd_val (bd_add a b) == bd_val a + bd_val b)%Q;
  bd_sub_val : forall a b, (bd_val (bd_sub a b) == bd_val a - bd_val b)%Q;
  bd_mul_val : forall a b, (bd_val (bd_mul a b) == bd_val a * bd_val b)%Q;
  bd_div_ok : forall a b, (~ bd_val b == 0)%Q -> exists c, bd_div a b = Ok c;
  bd_div_val : forall a b c, bd_div a b = Ok c ->
    (Qabs (bd_val c - bd_val a / bd_val b) * inject_Z (10 ^ 90) <= Qabs (bd_val a / bd_val b))%Q;
  bd_to_u64_val : forall a n, bd_to_u64 a = Some n -> is_u64 n /\ (inject_Z n <= bd_val a)%Q;
}.

(** ** The curve *)

Definition MIN_ADA : Z := 3000000.
Definition A_DENOM : Z := 10 ^ 27.
Definition B_DENOM : Z := 1000000.
Definition TOKEN_EMISSION : Z := 1000000000.
Definition MAX_ALLOWED_ADA_EXTRAS_PERCENTILE : Z := 1.
Definition FULL_PERCENTILE : Z := 1000.

Section Curve.
Context `{BD : BigDecimalLib}.
#[local] Infix "+" := bd_add.
#[local] Infix "-" := bd_sub.
#[local] Infix "*" := bd_mul.
#[local] Notation "$ n" := (bd_from n%Z) (at level 1, format "$ n").

(** The supply after [x] has paid for tokens: the root of the integral of the
    curve. *)
Definition supply_bought (token_supply0 amount a_num b_num : bigdec) : panics bigdec :=
  let a_denom := $A_DENOM in
  let b_denom := $B_DENOM in
  let token_supply0_x3 := token_supply0 * token_supply0 * token_supply0 in
  let a_denom_const_81_a_num_x2 := a_denom * $81 * a_num * a_num in
  let a_num_x3 := a_num * a_num * a_num in
  let a_denom_x3 := a_denom * a_denom * a_denom in
  brackets ← bd_div (b_denom * $27 * a_num_x3 * token_supply0_x3 + a_denom_const_81_a_num_x2 * b_num * token_supply0
                     + b_denom * a_denom_const_81_a_num_x2 * amount) (b_denom * a_denom_x3);
  let b_num_x3 := b_num * b_num * b_num in
  let b_denom_x3 := b_denom * b_denom * b_denom in
  radicand ← bd_div ($2916 * a_num_x3 * b_num_x3 + a_denom_x3 * b_denom_x3 * brackets * brackets) (a_denom_x3 * b_denom_x3);
  root ← match bd_sqrt radicand with Some r => Ok r | None => Panic end;
  let brackets_comb := bd_cbrt (brackets + root) in
  s ← bd_div (a_denom * brackets_comb) (bd_cbrt ($54 * a_num_x3));
  t ← bd_div (bd_cbrt ($54 * b_num_x3)) (brackets_comb * b_denom);
  Ok (s - t).

(** What the tokens that return to the pool are worth. *)
Definition supply_sold (token_supply0 amount a_num b_num : bigdec) : panics bigdec :=
  let token_supply0_x3 := token_supply0 * token_supply0 * token_supply0 in
  let token_supply1 := token_supply0 - amount in
  cubic ← bd_div (token_supply0_x3 - token_supply1 * token_supply1 * token_supply1) ($3 * $A_DENOM);
  linear ← bd_div (token_supply0 - token_supply1) $B_DENOM;
  Ok (a_num * cubic + b_num * linear).

(** The accumulated fee, the last argument of the source, is not read. *)
Definition degen_quadratic_output_amount (asset_x : AssetClass) (reserves_y : Z) (base_asset : AssetClass) (base_amount a_num b_num : Z) : panics Z :=
  let token_supply0 := bd_from (sub_u64 TOKEN_EMISSION reserves_y) in
  let available_base_amount := bd_from base_amount in
  quote_amount ←
    (if bool_decide (base_asset = asset_x) then
       token_supply1 ← supply_bought token_supply0 available_base_amount (bd_from a_num) (bd_from b_num);
       Ok (token_supply1 - token_supply0)
     else supply_sold token_supply0 available_base_amount (bd_from a_num) (bd_from b_num));
  Ok (default 0%Z (bd_to_u64 quote_amount)).
End Curve.

(** ** The pool *)

Inductive QuadraticPoolVer := QuadV1 | QuadV1T2T.
#[export] Instance quad_ver_eq_dec : EqDecision QuadraticPoolVer.
Proof. solve_decision. Defined.

Record QuadraticPool := mkQuad {
  qp_id : Token;
  qp_reserves_x : Z;
  qp_reserves_y : Z;
  qp_asset_x : AssetClass;
  qp_asset_y : AssetClass;
  qp_a_num : Z;
  qp_b_num : Z;
  qp_cap_thr : Z;
  qp_ver : QuadraticPoolVer;
  qp_accumulated_x_fee : Z;
  qp_x_fee_num : Z;
  qp_marginal_cost : ExUnits;
  qp_bounds : PoolValidation;
  qp_virgin : bool;
  qp_capped : bool;
}.

Definition quad_with (p : QuadraticPool) (rx ry fee : Z) : QuadraticPool :=
  mkQuad (qp_id p) rx ry (qp_asset_x p) (qp_asset_y p) (qp_a_num p) (qp_b_num p) (qp_cap_thr p) (qp_ver p) fee (qp_x_fee_num p)
    (qp_marginal_cost p) (qp_bounds p) (qp_virgin p) (qp_capped p).

Definition T2T_FEE_NUM : Z := 1.
Definition T2T_FEE_DENOM : Z := 100.

Definition adjusted_x_input (x_fee_num input : Z) : Z :=
  let input_num := sub_u64 T2T_FEE_DENOM x_fee_num in
  let raw_input := wrap_u64 (input * input_num) / T2T_FEE_DENOM in
  let input_correction := if wrap_u64 (input * input_num) mod T2T_FEE_DENOM =? 0 then 2 else 1 in
  sub_u64 raw_input input_correction.

Definition adjust_x_output (x_fee_num output : Z) : Z :=
  let output_num := sub_u64 T2T_FEE_DENOM x_fee_num in
  let raw_output := wrap_u64 (output * output_num) / T2T_FEE_DENOM in
  let output_correction := if wrap_u64 (output * output_num) mod T2T_FEE_DENOM =? 0 then 1 else 0 in
  sub_u64 raw_output output_correction.

Definition adjust_x_fee (x_fee_num input : Z) : Z :=
  let raw_fee := wrap_u64 (input * x_fee_num) / T2T_FEE_DENOM in
  let fee_correction := if wrap_u64 (input * x_fee_num) mod T2T_FEE_DENOM =? 0 then 0 else 1 in
  add_u64 raw_fee fee_correction.

Definition quad_asset_mapping (p : QuadraticPool) (side : Side) : PoolAssetMapping :=
  let x := qp_asset_x p in
  let y := qp_asset_y p in
  if bool_decide (pool_base x y = x) then
    match side with Bid => mkMapping x y | Ask => mkMapping y x end
  else
    match side with Bid => mkMapping y x | Ask => mkMapping x y end.

Definition quad_redeemer (pool_in_idx pool_out_idx : Z) : PlutusData :=
  PdConstr 0 [PdInteger pool_in_idx; PdInteger pool_out_idx; PdConstr 0 []].

Section Pool.
Context `{BD : BigDecimalLib}.

Definition quad_output_amount (p : QuadraticPool) (base_asset : AssetClass) (base_amount : Z) : panics Z :=
  degen_quadratic_output_amount (qp_asset_x p) (qp_reserves_y p) base_asset base_amount (qp_a_num p) (qp_b_num p).

(** *** Swaps *)

(** [(base_reserves, quote_reserves)], and the reserves written back. *)
Definition quad_reserves (p : QuadraticPool) : Z * Z :=
  if bool_decide (qp_asset_x p = pool_base (qp_asset_x p) (qp_asset_y p)) then (qp_reserves_x p, qp_reserves_y p)
  else (qp_reserves_y p, qp_reserves_x p).
Definition quad_put_reserves (p : QuadraticPool) (base quote fee : Z) : QuadraticPool :=
  if bool_decide (qp_asset_x p = pool_base (qp_asset_x p) (qp_asset_y p)) then quad_with p base quote fee else quad_with p quote base fee.

Definition quad_side_asset (p : QuadraticPool) (input : OnSide Z) : AssetClass :=
  match input with OnBid _ => pool_quote (qp_asset_x p) (qp_asset_y p) | OnAsk _ => pool_base (qp_asset_x p) (qp_asset_y p) end.

(** The output, capped by the reserves.  A bid on a pool that has ADA to keep takes
    all of the base when its output would not leave that ADA. *)
Definition quad_safe_output (p : QuadraticPool) (input : OnSide Z) (output_candidate : Z) : Z :=
  let '(base_reserves, quote_reserves) := quad_reserves p in
  match input with
  | OnBid _ =>
    match qp_ver p with
    | QuadV1 => if add_u64 output_candidate MIN_ADA <=? base_reserves then output_candidate else base_reserves
    | QuadV1T2T => output_candidate
    end
  | OnAsk _ => if output_candidate <=? quote_reserves then output_candidate else quote_reserves
  end.

Definition quad_swap_v1 (p : QuadraticPool) (input : OnSide Z) : panics QuadraticPool :=
  output_candidate ← quad_output_amount p (quad_side_asset p input) (LbTypes.unwrap input);
  let '(base_reserves, quote_reserves) := quad_reserves p in
  let safe_output := quad_safe_output p input output_candidate in
  Ok (match input with
      | OnBid input => quad_put_reserves p (sub_u64 base_reserves safe_output) (add_u64 quote_reserves input) (qp_accumulated_x_fee p)
      | OnAsk input => quad_put_reserves p (add_u64 base_reserves input) (sub_u64 quote_reserves safe_output) (qp_accumulated_x_fee p)
      end).

(** [OnSide::Bid(_) if x == quote] and [OnSide::Ask(_) if x == base]. *)
Definition quad_pays_x (p : QuadraticPool) (input : OnSide Z) : bool := bool_decide (qp_asset_x p = quad_side_asset p input).

Definition quad_swap_t2t (p : QuadraticPool) (input : OnSide Z) : panics QuadraticPool :=
  let amount := LbTypes.unwrap input in
  let adjusted_input := if quad_pays_x p input then adjusted_x_input (qp_x_fee_num p) amount else amount in
  output_candidate ← quad_output_amount p (quad_side_asset p input) adjusted_input;
  let '(base_reserves, quote_reserves) := quad_reserves p in
  let safe_output := quad_safe_output p input output_candidate in
  let additional_fee := adjust_x_fee (qp_x_fee_num p) (if quad_pays_x p input then amount else safe_output) in
  let accumulated_x_fee := add_u64 (qp_accumulated_x_fee p) additional_fee in
  let paid := if quad_pays_x p input then safe_output else adjust_x_output (qp_x_fee_num p) safe_output in
  Ok (match input with
      | OnBid input => quad_put_reserves p (sub_u64 base_reserves paid) (add_u64 quote_reserves input) accumulated_x_fee
      | OnAsk input => quad_put_reserves p (add_u64 base_reserves input) (sub_u64 quote_reserves paid) accumulated_x_fee
      end).

Definition quad_swap (p : QuadraticPool) (input : OnSide Z) : panics QuadraticPool :=
  match qp_ver p with QuadV1 => quad_swap_v1 p input | QuadV1T2T => quad_swap_t2t p input end.

(** *** Prices and liquidity *)

Definition quad_static_price (p : QuadraticPool) : AbsolutePrice :=
  let supply := sub_u64 TOKEN_EMISSION (qp_reserves_y p) in
  let price_num := wrap_u128 (wrap_u128 (wrap_u128 (wrap_u128 (supply * supply) * qp_a_num p) * B_DENOM) + wrap_u128 (A_DENOM * qp_b_num p)) in
  let price_denom := A_DENOM * B_DENOM in
  if bool_decide (qp_asset_x p = pool_base (qp_asset_x p) (qp_asset_y p)) then mkRatio price_denom price_num else mkRatio price_num price_denom.

(** An ask that would overfill the pool has no price. *)
Definition quad_real_price (p : QuadraticPool) (input : OnSide Z) : panics (option AbsolutePrice) :=
  match input with
  | OnBid input => base ← quad_output_amount p (pool_quote (qp_asset_x p) (qp_asset_y p)) input; Ok (price_new input base)
  | OnAsk input =>
    if sub_u64 (add_u64 (qp_reserves_x p) input) (qp_accumulated_x_fee p) <=? qp_cap_thr p
    then quote ← quad_output_amount p (pool_base (qp_asset_x p) (qp_asset_y p)) input; Ok (price_new quote input)
    else Ok None
  end.

Definition quad_quality (p : QuadraticPool) : Z :=
  if is_native (qp_asset_x p) && (MIN_ADA <=? qp_reserves_x p) then qp_reserves_x p - MIN_ADA
  else if negb (is_native (qp_asset_x p)) then sub_u64 (qp_reserves_x p) (qp_accumulated_x_fee p)
  else 0.

Definition quad_is_active (p : QuadraticPool) : bool :=
  let cap := wrap_u64 (qp_cap_thr p * (MAX_ALLOWED_ADA_EXTRAS_PERCENTILE + FULL_PERCENTILE)) / FULL_PERCENTILE in
  match qp_ver p with
  | QuadV1 => qp_reserves_x p <? cap
  | QuadV1T2T => sub_u64 (qp_reserves_x p) (qp_accumulated_x_fee p) <? cap
  end.

Definition quad_liquidity (p : QuadraticPool) : AbsoluteReserves :=
  let available_reserves_x :=
    if is_native (qp_asset_x p) && (MIN_ADA <=? qp_reserves_x p) then qp_reserves_x p - MIN_ADA
    else if negb (is_native (qp_asset_x p)) then qp_reserves_x p
    else 0 in
  if bool_decide (pool_base (qp_asset_x p) (qp_asset_y p) = qp_asset_x p) then mkReserves available_reserves_x (qp_reserves_y p)
  else mkReserves (qp_reserves_y p) available_reserves_x.

(** Half a percent over the threshold may be collected. *)
Definition quad_estimated_trade (p : QuadraticPool) (input : OnSide Z) : panics (option AvailableLiquidity) :=
  match input with
  | OnBid input => output ← quad_output_amount p (qp_asset_y p) input; Ok (Some (mkAvailable input output))
  | OnAsk input_candidate =>
    let token_x_reserves := sub_u64 (qp_reserves_x p) (qp_accumulated_x_fee p) in
    let max_ada_required := sub_u64 (wrap_u64 (qp_cap_thr p * (1000 + 5)) / 1000) token_x_reserves in
    max_token_available ← quad_output_amount p (qp_asset_x p) max_ada_required;
    output_candidate ← quad_output_amount p (qp_asset_x p) input_candidate;
    Ok (Some (if output_candidate <=? max_token_available then mkAvailable input_candidate output_candidate
              else mkAvailable max_ada_required max_token_available))
  end.
End Pool.

#[export] Instance quad_stable : Stable QuadraticPool Token := qp_id.
#[export] Instance quad_pair : Tradable QuadraticPool (AssetClass * AssetClass) := fun p => order_canonical (qp_asset_x p) (qp_asset_y p).

(** *** Outputs *)

(** [minted]: the transaction mints the token; [capped]: its metadata have 1 under
    the key 7. *)
Record QuadContext := mkQuadContext {
  qx_v1 : ScriptInfo;
  qx_v1_t2t : ScriptInfo;
  qx_bounds : PoolValidation;
  qx_operator : bytes;
  qx_minted : Token -> bool;
  qx_metadata_7 : option (option Z);
}.

Definition quad_ver_try_from_address (c : QuadContext) (o : TransactionOutput) : option QuadraticPoolVer :=
  hash ← out_script_hash o;
  if bool_decide (script_hash (qx_v1 c) = hash) then Some QuadV1
  else if bool_decide (script_hash (qx_v1_t2t c) = hash) then Some QuadV1T2T
  else None.

Definition CAP_META_VALUE : Z := 1.

(** The entry under the key 7, if there is one, and its value if it is an unsigned
    integer. *)
Definition is_capped (entry : option (option Z)) : bool :=
  match entry with Some (Some value) => value =? CAP_META_VALUE | _ => false end.

Section Ledger.
Context `{BU : BigUintLib}.

Definition quad_read (c : QuadContext) (o : TransactionOutput) (ver : QuadraticPoolVer) (info : ScriptInfo) (nft ax ay : AssetClass) (a_num b_num : Z)
    (operator : bytes) (cap fee fee_num : Z) : option QuadraticPool :=
  let reserves_x := default 0 (amount_of (out_value o) ax) in
  let executable := bool_decide (operator = qx_operator c) in
  let reserves_in_bounds := (match ver with QuadV1 => reserves_x | QuadV1T2T => sub_u64 reserves_x fee end) <? cap in
  id ← into_token nft;
  if executable && reserves_in_bounds then
    reserves_y ← amount_of (out_value o) ay;
    Some (mkQuad id reserves_x reserves_y ax ay a_num b_num cap ver fee fee_num (info_marginal_cost info) (qx_bounds c) (qx_minted c id)
            (is_capped (qx_metadata_7 c)))
  else None.

Definition quad_try_from_ledger (c : QuadContext) (o : TransactionOutput) : option QuadraticPool :=
  ver ← quad_ver_try_from_address c o;
  pd ← out_datum o;
  match ver with
  | QuadV1 =>
    conf ← quad_config_try_from_pd pd;
    quad_read c o ver (qx_v1 c) (qc_pool_nft conf) (qc_asset_x conf) (qc_asset_y conf) (qc_a_num conf) (qc_b_num conf) (qc_operator_pkh conf)
      (qc_x_cap_thr conf) 0 0
  | QuadV1T2T =>
    conf ← quad_t2t_config_try_from_pd pd;
    quad_read c o ver (qx_v1_t2t c) (qt_pool_nft conf) (qt_asset_x conf) (qt_asset_y conf) (qt_a_num conf) (qt_b_num conf) (qt_operator_pkh conf)
      (qt_x_cap_thr conf) (qt_accumulated_x_fee conf) T2T_FEE_NUM
  end.
End Ledger.

Definition update_t2t_pd (data : PlutusData) (new_accumulated_x_fee : Z) : panics PlutusData :=
  match into_constr_pd data with
  | Some cpd => cpd ← set_field cpd 7 (int_into_pd new_accumulated_x_fee); Ok (PdConstr (alternative cpd) (fields cpd))
  | None => Panic
  end.

Definition quad_into_ledger (p : QuadraticPool) (im : ImmutablePoolUtxo) : panics TransactionOutput :=
  '(coins, ma) ←
    (if is_native (qp_asset_x p) then y ← unwrap_token (qp_asset_y p); Ok (qp_reserves_x p, asset_set ∅ y (qp_reserves_y p))
     else if is_native (qp_asset_y p) then x ← unwrap_token (qp_asset_x p); Ok (qp_reserves_y p, asset_set ∅ x (qp_reserves_x p))
     else x ← unwrap_token (qp_asset_x p); y ← unwrap_token (qp_asset_y p);
          Ok (im_value im, asset_set (asset_set ∅ x (qp_reserves_x p)) y (qp_reserves_y p)));
  Ok (mkTxOut (im_address im) (mkValue coins (asset_set ma (qp_id p) 1)) (im_datum im) (im_script_ref im)).
