(* ===== verification/QuadraticPoolProofs.v ===== *)
(** * Launchpad pools pay what they owe

    The tokens in circulation are backed: what the pool has collected covers the
    area under its curve, every sale back to the pool keeps it so, and the pool
    buys back the whole supply in whatever portions it is returned.  The pool with
    a fee keeps the fee apart. *)

From stdpp Require Import base gmap list.
From Stdlib Require Import ZArith QArith Qabs Lqa Lia Strings.Byte.
From S2P Require Import Prelude Mpf LbTypes Assets PlutusData Intention GreenOrder LbCore AccountStore AccountIndex RoyaltyPool LbState Containers.
From S2P Require Import RoyaltyDatum Graduation EventSink LimitOrder ConstFnPool QuadraticPool.

#[local] Notation delete := base.delete.
#[local] Notation insert := base.insert.
#[local] Open Scope Z_scope.

(** ** The fee of a pool against a token *)

Lemma x_fee_ceil n : 0 <= n <= u64_max -> adjust_x_fee 1 n = (n + 99) / 100.
Proof.
  intros Hn. unfold adjust_x_fee, T2T_FEE_DENOM, add_u64. rewrite Z.mul_1_r, wrap_u64_small by (unfold is_u64; lia). unfold u64_max in *.
  destruct (Z.eqb_spec (n mod 100) 0); rewrite (proj2 (Z.leb_le _ _)) by (Z.to_euclidean_division_equations; lia); Z.to_euclidean_division_equations; lia.
Qed.

(** What the seller gets and the fee are the output, less one unit where the
    fee is exact. *)
Lemma x_output_split n : 0 < n -> n * 99 <= u64_max ->
  0 <= adjust_x_output 1 n < n /\ n - 1 <= adjust_x_output 1 n + adjust_x_fee 1 n <= n.
Proof.
  intros H0 Hn. rewrite x_fee_ceil by (unfold u64_max in *; lia). unfold adjust_x_output, T2T_FEE_DENOM, sub_u64.
  change (if 1 <=? 100 then 100 - 1 else wrap_u64 (100 - 1)) with 99. rewrite wrap_u64_small by (unfold is_u64; lia).
  destruct (Z.eqb_spec ((n * 99) mod 100) 0); rewrite (proj2 (Z.leb_le _ _)) by (Z.to_euclidean_division_equations; lia); Z.to_euclidean_division_equations; lia.
Qed.

(** The input that is priced and the fee leave at least one unit. *)
Lemma x_input_split n : 2 <= n -> n * 99 <= u64_max ->
  0 <= adjusted_x_input 1 n /\ n - 2 <= adjusted_x_input 1 n + adjust_x_fee 1 n <= n - 1.
Proof.
  intros H0 Hn. rewrite x_fee_ceil by (unfold u64_max in *; lia). unfold adjusted_x_input, T2T_FEE_DENOM, sub_u64.
  change (if 1 <=? 100 then 100 - 1 else wrap_u64 (100 - 1)) with 99. rewrite wrap_u64_small by (unfold is_u64; lia).
  destruct (Z.eqb_spec ((n * 99) mod 100) 0); rewrite (proj2 (Z.leb_le _ _)) by (Z.to_euclidean_division_equations; lia); Z.to_euclidean_division_equations; lia.
Qed.

(** ** The value of a sale *)

(** The area under the curve up to a supply, in units of [1 / (3 * A_DENOM * B_DENOM)]. *)
Definition AREA_DENOM : Z := 3 * A_DENOM * B_DENOM.
Definition curve_area (a_num b_num supply : Z) : Z := a_num * B_DENOM * (supply * supply * supply) + 3 * A_DENOM * b_num * supply.

Lemma quotient_upper (a b : Z) (K c : Q) : (0 <= a)%Z -> (0 < b)%Z -> (Qabs (c - inject_Z a / inject_Z b) * K <= Qabs (inject_Z a / inject_Z b))%Q -> (0 <= K)%Q ->
  (c * inject_Z b * K <= inject_Z a * (K + 1))%Q.
Proof.
  intros Ha Hb H HK.
  assert (0 <= inject_Z a)%Q as Ha' by (by rewrite (Zle_Qle 0 a) in Ha).
  assert (0 < inject_Z b)%Q as Hb' by (by rewrite (Zlt_Qlt 0 b) in Hb).
  set (q := (inject_Z a / inject_Z b)%Q) in *.
  assert (q * inject_Z b == inject_Z a)%Q as Eq by (unfold q; field; lra).
  assert (0 <= q)%Q as Hq by (unfold q; by apply Qle_shift_div_l; [done|lra]).
  rewrite (Qabs_pos q Hq) in H. pose proof (Qle_Qabs (c - q)) as Hle.
  assert ((c - q) * K <= q)%Q as H1 by (eapply Qle_trans; [|exact H]; by apply Qmult_le_compat_r).
  rewrite <- Eq. nra.
Qed.

Lemma scale_le (x y z : Q) : (x <= y -> 0 <= z -> x * z <= y * z)%Q.
Proof. intros. by apply Qmult_le_compat_r. Qed.

Lemma cube_mono (a b : Z) : 0 <= a <= b -> 0 <= a * a * a <= b * b * b.
Proof. intros H. assert (0 <= a * a <= b * b) by nia. nia. Qed.

Section Sale.
Context `{BL : BigDecimalLaws}.

(** A division of integers by a positive integer, bounded from above. *)
Lemma bd_div_upper a b na nb c : bd_div a b = Ok c -> (bd_val a == inject_Z na)%Q -> (bd_val b == inject_Z nb)%Q -> (0 <= na)%Z -> (0 < nb)%Z ->
  (bd_val c * inject_Z nb * inject_Z (10 ^ 90) <= inject_Z na * (inject_Z (10 ^ 90) + 1))%Q.
Proof.
  intros E Ea Eb Ha Hb. apply bd_div_val in E. rewrite Ea, Eb in E. apply quotient_upper in E; [done..|]. by rewrite <- (Zle_Qle 0).
Qed.

Lemma sold_parts s0 n a b : 0 <= n <= s0 -> 
  exists c l, supply_sold (bd_from s0) (bd_from n) (bd_from a) (bd_from b) = Ok (bd_add (bd_mul (bd_from a) c) (bd_mul (bd_from b) l)) /\
    (bd_val c * inject_Z (3 * A_DENOM) * inject_Z (10 ^ 90) <= inject_Z (s0 * s0 * s0 - (s0 - n) * (s0 - n) * (s0 - n)) * (inject_Z (10 ^ 90) + 1))%Q /\
    (bd_val l * inject_Z B_DENOM * inject_Z (10 ^ 90) <= inject_Z n * (inject_Z (10 ^ 90) + 1))%Q.
Proof.
  intros Hn. unfold supply_sold. set (s1 := bd_sub (bd_from s0) (bd_from n)).
  assert (bd_val s1 == inject_Z (s0 - n))%Q as E1.
  { unfold s1. rewrite bd_sub_val, !bd_from_val. unfold Z.sub. by rewrite inject_Z_plus, inject_Z_opp. }
  set (num := bd_sub _ (bd_mul _ s1)).
  assert (bd_val num == inject_Z (s0 * s0 * s0 - (s0 - n) * (s0 - n) * (s0 - n)))%Q as En.
  { unfold num. rewrite bd_sub_val, !bd_mul_val, E1, !bd_from_val. rewrite <- !inject_Z_mult. unfold Z.sub at 4. by rewrite inject_Z_plus, inject_Z_opp. }
  assert (bd_val (bd_mul (bd_from 3) (bd_from A_DENOM)) == inject_Z (3 * A_DENOM))%Q as Ed by (by rewrite bd_mul_val, !bd_from_val, <- inject_Z_mult).
  assert (bd_val (bd_sub (bd_from s0) s1) == inject_Z n)%Q as El.
  { rewrite bd_sub_val, E1, bd_from_val. replace n with (s0 + - (s0 - n))%Z at 2 by lia. by rewrite inject_Z_plus, inject_Z_opp. }
  destruct (bd_div_ok num (bd_mul (bd_from 3) (bd_from A_DENOM))) as [c Ec]; [by rewrite Ed|].
  destruct (bd_div_ok (bd_sub (bd_from s0) s1) (bd_from B_DENOM)) as [l Hl]; [by rewrite bd_from_val|].
  exists c, l. rewrite Ec, Hl. split; [done|]. split; [eapply bd_div_upper; [exact Ec|done|done| |done]; pose proof (cube_mono (s0 - n) s0); lia|].
  eapply bd_div_upper; [exact Hl|done|apply bd_from_val|lia|done].
Qed.

(** The pool never pays more for returned tokens than the area under the curve. *)
Lemma sold_value s0 n a b : is_u64 a -> is_u64 b -> 0 <= n <= s0 -> s0 <= TOKEN_EMISSION ->
  exists v, supply_sold (bd_from s0) (bd_from n) (bd_from a) (bd_from b) = Ok v /\
    forall out, bd_to_u64 v = Some out -> AREA_DENOM * out <= curve_area a b s0 - curve_area a b (s0 - n).
Proof.
  intros Ha Hb Hn Hs. destruct (sold_parts s0 n a b Hn) as (c & l & E & Hc & Hl). eexists. split; [exact E|].
  intros out [_ Ho]%bd_to_u64_val. rewrite bd_add_val, !bd_mul_val, !bd_from_val in Ho.
  set (X := s0 * s0 * s0 - (s0 - n) * (s0 - n) * (s0 - n)) in *. set (K := (inject_Z (10 ^ 90))%Q) in *.
  assert (0 <= X <= TOKEN_EMISSION * TOKEN_EMISSION * TOKEN_EMISSION)%Z as HX.
  { pose proof (cube_mono (s0 - n) s0). pose proof (cube_mono s0 TOKEN_EMISSION). unfold X. lia. }
  assert (curve_area a b s0 - curve_area a b (s0 - n) = a * B_DENOM * X + 3 * A_DENOM * b * n)%Z as -> by (unfold curve_area, X; ring).
  set (N := (a * B_DENOM * X + 3 * A_DENOM * b * n)%Z) in *.
  assert (0 <= N < 10 ^ 90)%Z as HN by (unfold N, is_u64, u64_max, B_DENOM, A_DENOM, TOKEN_EMISSION in *; nia).
  assert (inject_Z (AREA_DENOM * out * 10 ^ 90) <= inject_Z (N * (10 ^ 90 + 1)))%Q as HQ.
  { rewrite !inject_Z_mult. fold K. rewrite (inject_Z_plus (10 ^ 90) 1). fold K. change (inject_Z 1) with 1%Q.
    unfold N, AREA_DENOM. rewrite inject_Z_plus, !inject_Z_mult in *.
    assert (0 <= inject_Z a)%Q by (rewrite <- (Zle_Qle 0); unfold is_u64 in *; lia).
    assert (0 <= inject_Z b)%Q by (rewrite <- (Zle_Qle 0); unfold is_u64 in *; lia).
    assert (0 <= inject_Z A_DENOM)%Q by done. assert (0 <= inject_Z B_DENOM)%Q by done. assert (0 <= K)%Q by done.
    pose proof (scale_le _ _ (inject_Z a * inject_Z B_DENOM) Hc ltac:(repeat apply Qmult_le_0_compat; done)).
    pose proof (scale_le _ _ (inject_Z 3 * inject_Z A_DENOM * inject_Z b) Hl ltac:(repeat apply Qmult_le_0_compat; done)).
    pose proof (scale_le _ _ (inject_Z 3 * inject_Z A_DENOM * inject_Z B_DENOM * K) Ho ltac:(repeat apply Qmult_le_0_compat; done)).
    lra. }
  rewrite <- Zle_Qle in HQ. nia.
Qed.

(** ** Backing *)

Definition quad_supply (p : QuadraticPool) : Z := TOKEN_EMISSION - qp_reserves_y p.

(** What a pool may pay out: all but the ADA that stays with it, or the fee. *)
Definition quad_kept (p : QuadraticPool) : Z := match qp_ver p with QuadV1 => MIN_ADA | QuadV1T2T => qp_accumulated_x_fee p end.
Definition quad_backed (p : QuadraticPool) : Prop :=
  curve_area (qp_a_num p) (qp_b_num p) (quad_supply p) <= AREA_DENOM * (qp_reserves_x p - quad_kept p).

Record quad_wf (p : QuadraticPool) : Prop := {
  qw_assets : qp_asset_x p <> qp_asset_y p;
  qw_a : is_u64 (qp_a_num p);
  qw_b : is_u64 (qp_b_num p);
  qw_x : 0 <= qp_reserves_x p /\ qp_reserves_x p * 99 <= u64_max;
  qw_y : 0 <= qp_reserves_y p <= TOKEN_EMISSION;
  qw_fee : 0 <= qp_accumulated_x_fee p;
  qw_num : qp_ver p = QuadV1T2T -> qp_x_fee_num p = T2T_FEE_NUM;
}.

Lemma base_quote_cases x y : (pool_base x y = x /\ pool_quote x y = y) \/ (pool_base x y = y /\ pool_quote x y = x).
Proof. unfold pool_base, pool_quote, order_canonical. destruct (asset_cmp x y); auto. Qed.

(** A sale: the tokens return to the pool, which pays in the other asset. *)
Lemma sale_reserves p input : qp_asset_x p <> qp_asset_y p -> quad_pays_x p input = false ->
  quad_side_asset p input = qp_asset_y p /\
  match input with
  | OnBid _ => quad_reserves p = (qp_reserves_x p, qp_reserves_y p) /\ forall b q f, quad_put_reserves p b q f = quad_with p b q f
  | OnAsk _ => quad_reserves p = (qp_reserves_y p, qp_reserves_x p) /\ forall b q f, quad_put_reserves p b q f = quad_with p q b f
  end.
Proof.
  intros Hne Hs%bool_decide_eq_false_1. unfold quad_reserves, quad_put_reserves. unfold quad_side_asset in *.
  destruct (base_quote_cases (qp_asset_x p) (qp_asset_y p)) as [[Eb Eq]|[Eb Eq]], input; rewrite ?Eb, ?Eq in *; try done; (split; [done|]);
    rewrite ?bool_decide_eq_true_2, ?bool_decide_eq_false_2 by done; done.
Qed.


(** The quote of a sale: computed without a panic, and within the backing of the
    tokens that are returned. *)
Lemma sale_quote p n : quad_wf p -> 0 <= n -> qp_reserves_y p + n <= TOKEN_EMISSION ->
  exists out, quad_output_amount p (qp_asset_y p) n = Ok out /\ 0 <= out /\
    AREA_DENOM * out <= curve_area (qp_a_num p) (qp_b_num p) (quad_supply p) - curve_area (qp_a_num p) (qp_b_num p) (quad_supply p - n).
Proof.
  intros W Hn Hs. pose proof (qw_y _ W) as Hy. unfold quad_output_amount, degen_quadratic_output_amount.
  assert (sub_u64 TOKEN_EMISSION (qp_reserves_y p) = quad_supply p) as ->.
  { unfold sub_u64, quad_supply. by rewrite (proj2 (Z.leb_le _ _)) by lia. }
  rewrite bool_decide_eq_false_2 by (pose proof (qw_assets _ W); congruence).
  destruct (sold_value (quad_supply p) n (qp_a_num p) (qp_b_num p)) as (v & E & Hv);
    [exact (qw_a _ W)|exact (qw_b _ W)|unfold quad_supply; lia..|].
  rewrite E. cbn [mbind outcome_bind]. eexists. split; [reflexivity|]. destruct (bd_to_u64 v) as [out|] eqn:Eo; cbn [default].
  - split; [by apply bd_to_u64_val in Eo as [[? ?] _]|]. by apply Hv.
  - split; [done|]. pose proof (cube_mono (quad_supply p - n) (quad_supply p)). destruct (qw_a _ W), (qw_b _ W).
    unfold curve_area, A_DENOM, B_DENOM, quad_supply in *. nia.
Qed.

(** What a sale of [n] tokens that is quoted at [out] does to a pool. *)
Record sale_done (p p' : QuadraticPool) (n out : Z) : Prop := {
  sd_pool : p' = quad_with p (qp_reserves_x p') (qp_reserves_y p') (qp_accumulated_x_fee p');
  sd_y : qp_reserves_y p' = qp_reserves_y p + n;
  sd_fee : qp_accumulated_x_fee p <= qp_accumulated_x_fee p';
  sd_paid : 0 <= qp_reserves_x p - qp_reserves_x p' <= out;
  sd_kept : qp_reserves_x p' - quad_kept p' >= qp_reserves_x p - quad_kept p - out;
}.

Lemma sale_runs p input out : quad_wf p -> quad_pays_x p input = false -> 0 <= LbTypes.unwrap input ->
  qp_reserves_y p + LbTypes.unwrap input <= TOKEN_EMISSION ->
  quad_output_amount p (qp_asset_y p) (LbTypes.unwrap input) = Ok out -> 0 <= out <= qp_reserves_x p - quad_kept p ->
  (qp_ver p = QuadV1T2T -> 0 < out) ->
  exists p', quad_swap p input = Ok p' /\ sale_done p p' (LbTypes.unwrap input) out.
Proof.
  intros W Hp Hn Hs Hq Ho Hpos. pose proof (qw_x _ W) as [Hx0 Hx]. pose proof (qw_y _ W) as Hy. pose proof (qw_fee _ W) as Hf. pose proof (qw_num _ W) as Hnum.
  destruct (sale_reserves p input (qw_assets _ W) Hp) as [Ea Hr]. unfold quad_kept in *. unfold quad_swap.
  assert (forall a b, a + b <= u64_max -> add_u64 a b = a + b) as Hadd by (intros a b ?; unfold add_u64; by rewrite (proj2 (Z.leb_le _ _)) by lia).
  assert (forall a b, b <= a -> sub_u64 a b = a - b) as Hsub by (intros a b ?; unfold sub_u64; by rewrite (proj2 (Z.leb_le _ _)) by lia).
  assert (TOKEN_EMISSION * 99 <= u64_max) as HE by (vm_compute; discriminate).
  assert (quad_safe_output p input out = out) as Hsafe.
  { unfold quad_safe_output. destruct input, Hr as [-> _], (qp_ver p); unfold MIN_ADA in *; rewrite ?Hadd by lia; try done; by rewrite (proj2 (Z.leb_le _ _)) by lia. }
  destruct (qp_ver p) eqn:Ev.
  - unfold quad_swap_v1. rewrite Ea, Hq. cbn [mbind outcome_bind]. unfold MIN_ADA in *.
    destruct input as [n|n], Hr as [Er Hput]; rewrite Er, Hsafe, Hput, Hadd, Hsub by (cbn [LbTypes.unwrap] in *; lia);
      (eexists; split; [reflexivity|]; split; cbn [LbTypes.unwrap quad_with qp_reserves_x qp_reserves_y qp_accumulated_x_fee quad_kept qp_ver] in *; unfold quad_kept; cbn; rewrite ?Ev; unfold MIN_ADA; try done; lia).
  - specialize (Hnum eq_refl). specialize (Hpos eq_refl). unfold T2T_FEE_NUM in Hnum.
    destruct (x_output_split out) as [Hpay Hsplit]; [lia..|].
    unfold quad_swap_t2t. rewrite Hp, Ea, Hq, Hnum. cbn [mbind outcome_bind].
    destruct input as [n|n], Hr as [Er Hput]; rewrite Er, Hsafe, Hput, !Hadd, Hsub by (cbn [LbTypes.unwrap] in *; lia);
      (eexists; split; [reflexivity|]; split; cbn [LbTypes.unwrap quad_with qp_reserves_x qp_reserves_y qp_accumulated_x_fee quad_kept qp_ver] in *; unfold quad_kept; cbn; rewrite ?Ev; try done; lia).
Qed.

Lemma wf_after_sale p p' n out : quad_wf p -> 0 <= n -> qp_reserves_y p + n <= TOKEN_EMISSION -> 0 <= out <= qp_reserves_x p - quad_kept p ->
  sale_done p p' n out -> quad_wf p'.
Proof.
  intros [? ? ? Hx Hy Hf ?] Hn Hs Ho [Ep Ey Hfee Hpaid _]. assert (0 <= quad_kept p) by (unfold quad_kept, MIN_ADA; destruct (qp_ver p); lia).
  split; [by rewrite Ep..|lia|lia|lia|by rewrite Ep].
Qed.

Lemma sale_done_backed p p' n out : quad_wf p -> quad_backed p -> 0 <= n -> qp_reserves_y p + n <= TOKEN_EMISSION ->
  AREA_DENOM * out <= curve_area (qp_a_num p) (qp_b_num p) (quad_supply p) - curve_area (qp_a_num p) (qp_b_num p) (quad_supply p - n) ->
  sale_done p p' n out -> quad_backed p'.
Proof.
  intros W B Hn Hs Hq [Ep Ey Hfee Hpaid Hkept]. unfold quad_backed in *. assert (qp_a_num p' = qp_a_num p) as ->. { by rewrite Ep. }
  assert (qp_b_num p' = qp_b_num p) as ->. { by rewrite Ep. } replace (quad_supply p') with (quad_supply p - n) by (unfold quad_supply; lia).
  unfold AREA_DENOM, A_DENOM, B_DENOM in *. lia.
Qed.

Lemma curve_area_nonneg a b s : is_u64 a -> is_u64 b -> 0 <= s -> 0 <= curve_area a b s.
Proof. intros [? _] [? _] ?. unfold curve_area, A_DENOM, B_DENOM. nia. Qed.

Lemma backed_quote p n out : quad_wf p -> quad_backed p -> qp_reserves_y p + n <= TOKEN_EMISSION ->
  AREA_DENOM * out <= curve_area (qp_a_num p) (qp_b_num p) (quad_supply p) - curve_area (qp_a_num p) (qp_b_num p) (quad_supply p - n) ->
  out <= qp_reserves_x p - quad_kept p.
Proof.
  intros W B Hs Harea. pose proof (curve_area_nonneg _ _ (quad_supply p - n) (qw_a _ W) (qw_b _ W) ltac:(unfold quad_supply; lia)).
  unfold quad_backed, AREA_DENOM, A_DENOM, B_DENOM in *. lia.
Qed.

(** A backed pool buys returned tokens: the quote does not panic and is within
    what the pool may pay; when the quote of a pool with a fee is not zero, the swap
    takes the tokens, pays no more than the quote and leaves the pool backed. *)
Theorem sale_keeps_backing p input : quad_wf p -> quad_backed p -> quad_pays_x p input = false -> 0 <= LbTypes.unwrap input ->
  qp_reserves_y p + LbTypes.unwrap input <= TOKEN_EMISSION ->
  exists out, quad_output_amount p (qp_asset_y p) (LbTypes.unwrap input) = Ok out /\ 0 <= out <= qp_reserves_x p - quad_kept p /\
    ((qp_ver p = QuadV1T2T -> 0 < out) ->
     exists p', quad_swap p input = Ok p' /\ sale_done p p' (LbTypes.unwrap input) out /\ quad_backed p').
Proof.
  intros W B Hp Hn Hs. destruct (sale_quote p _ W Hn Hs) as (out & Hq & Ho & Harea). exists out. split; [done|].
  pose proof (backed_quote _ _ _ W B Hs Harea) as Hle.
  split; [done|]. intros Hpos. destruct (sale_runs p input out W Hp Hn Hs Hq (conj Ho Hle) Hpos) as (p' & Hsw & Hd).
  exists p'. split; [done|]. split; [done|]. exact (sale_done_backed _ _ _ _ W B Hn Hs Harea Hd).
Qed.

(** Every holder can leave a pool against ADA that is backed: in whatever portions
    and on whichever side the supply is returned, each swap succeeds, and the pool
    stays backed. *)
Fixpoint quad_swaps (p : QuadraticPool) (l : list (OnSide Z)) : panics QuadraticPool :=
  match l with [] => Ok p | i :: l => p' ← quad_swap p i; quad_swaps p' l end.

Definition amounts (l : list (OnSide Z)) : Z := foldr (fun i s => LbTypes.unwrap i + s) 0 l.

Theorem holders_can_exit p l : qp_ver p = QuadV1 -> quad_wf p -> quad_backed p ->
  Forall (fun i => quad_pays_x p i = false /\ 0 <= LbTypes.unwrap i) l -> qp_reserves_y p + amounts l <= TOKEN_EMISSION ->
  exists p', quad_swaps p l = Ok p' /\ quad_backed p' /\ qp_reserves_y p' = qp_reserves_y p + amounts l /\ MIN_ADA <= qp_reserves_x p' <= qp_reserves_x p.
Proof.
  intros Ev W B Hl. revert p Ev W B Hl. induction l as [|i l IH]; intros p Ev W B Hl Hs.
  { exists p. cbn in *. pose proof (backed_quote p 0 0 W B ltac:(lia) ltac:(rewrite Z.sub_0_r; lia)) as H0. unfold quad_kept in H0. rewrite Ev in H0.
    split_and!; [done|done|lia..]. }
  apply Forall_cons in Hl as [[Hp Hn] Hl]. change (amounts (i :: l)) with (LbTypes.unwrap i + amounts l) in *. cbn [quad_swaps].
  assert (0 <= amounts l) as Ha by (clear -Hl; unfold amounts; induction Hl as [|? ? [_ ?]]; cbn [foldr]; lia).
  destruct (sale_quote p _ W Hn ltac:(lia)) as (out & Hq & Ho & Harea).
  pose proof (backed_quote p (LbTypes.unwrap i) _ W B ltac:(lia) Harea) as Hle.
  destruct (sale_runs p i out W Hp Hn ltac:(lia) Hq (conj Ho Hle)) as (p' & -> & Hd); [by rewrite Ev|]. cbn [mbind outcome_bind].
  pose proof (sale_done_backed _ _ _ _ W B Hn ltac:(lia) Harea Hd) as B'.
  pose proof (wf_after_sale _ _ _ _ W Hn ltac:(lia) (conj Ho Hle) Hd) as W'. destruct Hd as [Ep Ey Hfee Hpaid Hkept].
  destruct (IH p') as (p'' & E & B'' & Ey'' & Hx).
  - by rewrite Ep.
  - done.
  - done.
  - eapply Forall_impl; [exact Hl|]. intros j. by rewrite Ep.
  - lia.
  - exists p''. split_and!; [done|done|lia|lia|lia].
Qed.

(** ** Purchases with a fee *)

Lemma purchase_reserves p input : qp_asset_x p <> qp_asset_y p -> quad_pays_x p input = true ->
  quad_side_asset p input = qp_asset_x p /\
  match input with
  | OnBid _ => quad_reserves p = (qp_reserves_y p, qp_reserves_x p) /\ forall b q f, quad_put_reserves p b q f = quad_with p q b f
  | OnAsk _ => quad_reserves p = (qp_reserves_x p, qp_reserves_y p) /\ forall b q f, quad_put_reserves p b q f = quad_with p b q f
  end.
Proof.
  intros Hne Hs%bool_decide_eq_true_1. unfold quad_reserves, quad_put_reserves. unfold quad_side_asset in *.
  destruct (base_quote_cases (qp_asset_x p) (qp_asset_y p)) as [[Eb Eq]|[Eb Eq]], input; rewrite ?Eb, ?Eq in *; try done; (split; [done|]);
    rewrite ?bool_decide_eq_true_2, ?bool_decide_eq_false_2 by done; done.
Qed.

(** A purchase from a pool with a fee: what the pool may pay out grows by more than
    the input that was priced, by one or two units; the rest of the input is the
    fee, at least one part in a hundred. *)
Theorem purchase_covers_quote p input out : qp_ver p = QuadV1T2T -> quad_wf p -> quad_pays_x p input = true -> 2 <= LbTypes.unwrap input ->
  (qp_reserves_x p + LbTypes.unwrap input) * 99 <= u64_max -> qp_accumulated_x_fee p <= qp_reserves_x p ->
  let priced := adjusted_x_input 1 (LbTypes.unwrap input) in
  quad_output_amount p (qp_asset_x p) priced = Ok out -> 0 <= out <= qp_reserves_y p ->
  exists p', quad_swap p input = Ok p' /\ p' = quad_with p (qp_reserves_x p + LbTypes.unwrap input) (qp_reserves_y p - out) (qp_accumulated_x_fee p') /\
    priced + 1 <= (qp_reserves_x p' - quad_kept p') - (qp_reserves_x p - quad_kept p) <= priced + 2 /\
    LbTypes.unwrap input <= 100 * (qp_accumulated_x_fee p' - qp_accumulated_x_fee p).
Proof.
  intros Ev W Hp Hn Hx Hf priced Hq Ho. destruct (purchase_reserves p input (qw_assets _ W) Hp) as [Ea Hr].
  pose proof (qw_num _ W Ev) as Hnum. unfold T2T_FEE_NUM in Hnum. pose proof (qw_x _ W) as [Hx0 _]. pose proof (qw_y _ W). pose proof (qw_fee _ W).
  assert (TOKEN_EMISSION * 99 <= u64_max) as HE by (vm_compute; discriminate).
  destruct (x_input_split (LbTypes.unwrap input)) as [Hpr Hsplit]; [lia..|]. fold priced in Hpr, Hsplit.
  pose proof (x_fee_ceil (LbTypes.unwrap input) ltac:(lia)) as Hceil.
  assert (0 <= adjust_x_fee 1 (LbTypes.unwrap input) /\ LbTypes.unwrap input <= 100 * adjust_x_fee 1 (LbTypes.unwrap input)) as [Hc0 Hc]
    by (rewrite Hceil; Z.to_euclidean_division_equations; lia).
  assert (quad_safe_output p input out = out) as Hsafe.
  { unfold quad_safe_output. destruct input, Hr as [-> _]; rewrite ?Ev; [done|]. by rewrite (proj2 (Z.leb_le _ _)) by lia. }
  unfold quad_swap. rewrite Ev. unfold quad_swap_t2t. rewrite Hp, Ea, Hnum. fold priced. rewrite Hq. cbn [mbind outcome_bind].
  destruct input as [n|n], Hr as [Er Hput]; rewrite Er, Hsafe, Hput; cbn [LbTypes.unwrap] in *; unfold add_u64, sub_u64;
    rewrite !(proj2 (Z.leb_le _ _)) by lia; (eexists; split; [reflexivity|]); split; try done; unfold quad_kept; cbn; rewrite Ev; lia.
Qed.
End Sale.
