(* ===== verification/QuadraticPoolExamples.v ===== *)
(** * A launch at a hundred lovelace

    The theorems of [QuadraticPoolProofs.v] on concrete pools, over rational
    numbers, and the inputs on which the pools go wrong. *)

From stdpp Require Import base gmap list.
From Stdlib Require Import ZArith QArith Qabs Lqa Lia Strings.Byte.
From S2P Require Import Prelude Mpf LbTypes Assets PlutusData Intention GreenOrder LbCore AccountStore AccountIndex RoyaltyPool LbState Containers.
From S2P Require Import RoyaltyDatum Graduation EventSink LimitOrder ConstFnPool QuadraticPool QuadraticPoolProofs.

#[local] Open Scope Z_scope.

(** ** Rational numbers as decimals *)

(** The cube root of an integer, rounded down, by bisection. *)
Fixpoint cube_root (fuel : nat) (n lo hi : Z) : Z :=
  match fuel with
  | O => lo
  | S fuel =>
    if hi - lo <=? 1 then lo
    else let mid := (lo + hi) / 2 in if mid * mid * mid <=? n then cube_root fuel n mid hi else cube_root fuel n lo mid
  end.
Definition ROOT_SCALE : Z := 10 ^ 30.

Definition rational_cbrt (q : Q) : Q :=
  let n := Qnum q * ROOT_SCALE * ROOT_SCALE * ROOT_SCALE / Zpos (Qden q) in
  Qred (inject_Z (cube_root 2000 n 0 (n + 2)) / inject_Z ROOT_SCALE)%Q.

#[export] Instance rational_decimal : BigDecimalLib := {|
  bigdec := Q;
  bd_from := inject_Z;
  bd_add := fun a b => Qred (a + b);
  bd_sub := fun a b => Qred (a - b);
  bd_mul := fun a b => Qred (a * b);
  bd_div := fun a b => if Qeq_bool b 0 then Panic else Ok (Qred (a / b));
  bd_sqrt := fun a => if Qle_bool 0 a then Some (Qred (inject_Z (Z.sqrt (Qnum a * ROOT_SCALE * ROOT_SCALE / Zpos (Qden a))) / inject_Z ROOT_SCALE)) else None;
  bd_cbrt := rational_cbrt;
  bd_to_u64 := fun a => let n := Qnum a / Zpos (Qden a) in if (0 <=? n) && (n <=? u64_max) then Some n else None;
|}.

#[export] Instance rational_decimal_laws : @BigDecimalLaws rational_decimal.
Proof.
  refine (@Build_BigDecimalLaws rational_decimal (fun q : Q => q) _ _ _ _ _ _ _).
  - reflexivity.
  - intros. apply Qred_correct.
  - intros. apply Qred_correct.
  - intros. apply Qred_correct.
  - intros a b Hb. cbn. destruct (Qeq_bool b 0) eqn:E; [apply Qeq_bool_eq in E; done|]. eauto.
  - intros a b c E. cbn in E. destruct (Qeq_bool b 0); [done|]. injection E as <-. rewrite Qred_correct.
    assert ((a : Q) / b - (a : Q) / b == 0)%Q as -> by ring. cbn [Qabs]. change (Qabs 0) with 0%Q. rewrite Qmult_0_l. apply Qabs_nonneg.
  - intros a n E. cbn in E. destruct ((0 <=? _) && _) eqn:Eb; [|done]. injection E as <-. apply andb_prop in Eb as [H1%Z.leb_le H2%Z.leb_le].
    split; [done|]. unfold Qle. cbn. rewrite Z.mul_1_r, Z.mul_comm. apply Z.mul_div_le. lia.
Defined.

(** ** Pools *)

Module Launch.
Definition coin_x : Token := mkToken (replicate 28 x51) (mkAssetName 1 (x47 :: replicate 31 x00)).
Definition launched : Token := mkToken (replicate 28 x52) (mkAssetName 1 (x48 :: replicate 31 x00)).

(** The price is a hundred lovelace, and rises. *)
Definition launch (ver : QuadraticPoolVer) (x : AssetClass) (reserves_x sold fee : Z) : QuadraticPool :=
  mkQuad launched reserves_x (TOKEN_EMISSION - sold) x (TokenAsset launched) 200000000000 100000000 50000000000 ver fee
    (match ver with QuadV1 => 0 | QuadV1T2T => 1 end) (mkExUnits 5 7) (mkPoolValidation 0 0) false false.

(** The first tokens of a pool against ADA, and their return. *)
Definition bought : QuadraticPool := launch QuadV1 Native 1003000000 9999333 0.

Example buy_and_sell_back :
  quad_swap (launch QuadV1 Native MIN_ADA 0 0) (OnAsk 1000000000) = Ok bought /\
  quad_swap bought (OnBid 9999333) = Ok (launch QuadV1 Native 3000047 0 0).
Proof. vm_compute. split; reflexivity. Qed.

Lemma bought_wf : quad_wf bought.
Proof. split; try (vm_compute; split; discriminate); [discriminate|vm_compute; discriminate|discriminate]. Qed.

Lemma sale_keeps_backing_witness :
  exists out, quad_output_amount bought (TokenAsset launched) 5000000 = Ok out /\ 0 <= out <= 1003000000 - MIN_ADA /\
    ((qp_ver bought = QuadV1T2T -> 0 < out) ->
     exists p', quad_swap bought (OnBid 5000000) = Ok p' /\ sale_done bought p' 5000000 out /\ quad_backed p').
Proof.
  apply (sale_keeps_backing bought (OnBid 5000000)); [exact bought_wf|vm_compute; discriminate|reflexivity|vm_compute; discriminate..].
Defined.

Lemma holders_can_exit_witness :
  exists p', quad_swaps bought [OnBid 9000000; OnBid 0; OnBid 999333] = Ok p' /\ quad_backed p' /\
    qp_reserves_y p' = qp_reserves_y bought + 9999333 /\ MIN_ADA <= qp_reserves_x p' <= 1003000000.
Proof.
  apply (holders_can_exit bought [OnBid 9000000; OnBid 0; OnBid 999333]);
    [reflexivity|exact bought_wf|vm_compute; discriminate| |vm_compute; discriminate].
  repeat constructor; vm_compute; discriminate.
Defined.

Definition with_fee : QuadraticPool := launch QuadV1T2T (TokenAsset coin_x) 1000000000 9900000 0.

Lemma purchase_covers_quote_witness :
  let priced := adjusted_x_input 1 9900000 in
  exists p', quad_swap with_fee (OnAsk 9900000) = Ok p' /\ p' = quad_with with_fee 1009900000 (qp_reserves_y with_fee - 97990) (qp_accumulated_x_fee p') /\
    priced + 1 <= (qp_reserves_x p' - quad_kept p') - 1000000000 <= priced + 2 /\ 9900000 <= 100 * (qp_accumulated_x_fee p' - 0).
Proof.
  apply (purchase_covers_quote with_fee (OnAsk 9900000) 97990);
    [reflexivity| |reflexivity|vm_compute; discriminate..|vm_compute; reflexivity|vm_compute; split; discriminate].
  split; try (vm_compute; split; discriminate); [discriminate|vm_compute; discriminate].
Defined.

(** A pool against ADA that is not backed pays everything it has, more than the
    quote, where the quote would leave it less than three ADA. *)
Example unbacked_pool_drained :
  let p := launch QuadV1 Native 1000000000 9993355 0 in
  match quad_output_amount p (TokenAsset launched) 9993355, quad_swap p (OnBid 9993355) with
  | Ok out, Ok p' => out < 1000000000 /\ qp_reserves_x p' = 0
  | _, _ => False
  end.
Proof. vm_compute. split; reflexivity. Qed.

(** One unit of the token buys every launched token: the input less its
    correction wraps around. *)
Example unit_buys_everything :
  adjusted_x_input 1 1 = u64_max /\
  match quad_swap with_fee (OnAsk 1) with Ok p' => qp_reserves_y p' = 0 /\ qp_reserves_x p' = qp_reserves_x with_fee + 1 | _ => False end.
Proof. vm_compute. repeat split. Qed.
End Launch.
