(* ===== verification/BalancePool.v ===== *)
(** * Weighted pools

    [data/balance_pool.rs] and [pool_math/balance_math.rs]: pools that keep
    [x ^ weight_x * y ^ weight_y], with a fee for the treasury, and the deposits
    and redemptions of their liquidity.  The quote is estimated in decimal
    arithmetic, a library's, and lowered until the invariant holds on 512-bit
    integers, whose overflow panics; [u64] and [u128] arithmetic wraps around. *)

From stdpp Require Import base gmap list.
From Stdlib Require Import ZArith Lia Strings.Byte.
From S2P Require Import Prelude Mpf LbTypes Assets PlutusData Intention GreenOrder LbCore LbCoreProofs AccountStore.
From S2P Require Import AccountIndex RoyaltyPool LbState Containers Redeemers TxBlueprint RoyaltyDatum Graduation EventSink LimitOrder.
From S2P Require Import ConstFnPool PoolOrders StablePool.

#[local] Notation delete := base.delete.
#[local] Notation insert := base.insert.
#[local] Open Scope Z_scope.

Definition ADA_WEIGHT : Z := 1.
Definition TOKEN_WEIGHT : Z := 4.
Definition WEIGHT_FEE_DEN : Z := 5.

(** ** The quote *)

(** [U512::pow]: by squaring, no intermediate result exceeds the last. *)
Definition u512_pow (a : looping Z) (n : Z) : looping Z := x ← a; u512_check (x ^ n).

Section Quote.
Context `{SN : StableNumberLib}.
#[local] Open Scope u512_scope.

Definition weighted_invariant (base_reserves base_weight quote_reserves quote_weight : Z) : looping Z :=
  u512_pow #base_reserves base_weight * u512_pow #quote_reserves quote_weight.

Definition calculate_base_part_with_fee (base_reserves base_weight base_amount : Z) (pool_fee : Ratio) : looping Z :=
  u512_pow (#base_reserves + #base_amount * #(numer pool_fee) / #(denom pool_fee)) base_weight.

(** The fee is taken from the input in [u64] here. *)
Definition calculate_new_invariant_bn_u (base_reserves base_weight base_amount quote_reserves quote_weight quote_output : Z) (pool_fee : Ratio)
    : looping Z :=
  if (denom pool_fee =? 0)%Z then Panic
  else
    let additional_part := (wrap_u64 (base_amount * numer pool_fee) / denom pool_fee)%Z in
    u512_pow (#base_reserves + #additional_part) base_weight * u512_pow (#quote_reserves - #quote_output) quote_weight.

(** The quote reserves that the invariant asks for, in decimal arithmetic. *)
Definition quote_estimate (invariant base_new_part quote_weight : Z) : option Z :=
  bn_to_u64 (bn_pow (bn_div (bn_from_u512 invariant) (bn_from_u512 base_new_part)) (bn_div (bn_from_int 1) (bn_from (as_f64 quote_weight)))).

Fixpoint lower_output (rounds : nat) (new_invariant : Z -> looping Z) (invariant output : Z) : looping Z :=
  new ← new_invariant output;
  if (new <? invariant)%Z then
    match rounds with O => Err OutOfRounds | S rounds => lower_output rounds new_invariant invariant (sub_u64 output 1) end
  else Ok output.

Definition weighted_output (rounds : nat) (base_reserves base_weight quote_reserves quote_weight base_amount : Z) (pool_fee : Ratio) : looping Z :=
  invariant ← weighted_invariant base_reserves base_weight quote_reserves quote_weight;
  base_new_part ← calculate_base_part_with_fee base_reserves base_weight base_amount pool_fee;
  delta_y_rounded ← match quote_estimate invariant base_new_part quote_weight with Some d => Ok d | None => Panic end;
  lower_output rounds
    (fun output => calculate_new_invariant_bn_u base_reserves base_weight base_amount quote_reserves quote_weight output pool_fee)
    invariant (sub_u64 quote_reserves delta_y_rounded).

Definition balance_cfmm_output_amount (rounds : nat) (asset_x : AssetClass) (reserves_x x_weight reserves_y y_weight : Z) (base_asset : AssetClass)
    (base_amount : Z) (pool_fee_x pool_fee_y : Ratio) : looping Z :=
  if bool_decide (asset_x = base_asset) then weighted_output rounds reserves_x x_weight reserves_y y_weight base_amount pool_fee_x
  else weighted_output rounds reserves_y y_weight reserves_x x_weight base_amount pool_fee_y.
End Quote.

(** ** The pool *)

Record BalancePoolConfig := mkBalanceConfig {
  bc_pool_nft : AssetClass;
  bc_asset_x : AssetClass;
  bc_asset_y : AssetClass;
  bc_asset_lq : AssetClass;
  bc_lp_fee_num : Z;
  bc_treasury_fee_num : Z;
  bc_treasury_x : Z;
  bc_treasury_y : Z;
}.

Inductive BalancePoolVer := BalanceV1 | BalanceV2.

Record BalancePool := mkBalance {
  bp_id : Token;
  bp_reserves_x : Z;
  bp_weight_x : Z;
  bp_reserves_y : Z;
  bp_weight_y : Z;
  bp_liquidity : Z;
  bp_asset_x : AssetClass;
  bp_asset_y : AssetClass;
  bp_asset_lq : AssetClass;
  bp_lp_fee_x : Ratio;
  bp_lp_fee_y : Ratio;
  bp_treasury_fee : Ratio;
  bp_treasury_x : Z;
  bp_treasury_y : Z;
  bp_ver : BalancePoolVer;
  bp_marginal_cost : ExUnits;
  bp_min_pool_lovelace : Z;
}.

Definition balance_with (p : BalancePool) (rx ry lq tx ty : Z) : BalancePool :=
  mkBalance (bp_id p) rx (bp_weight_x p) ry (bp_weight_y p) lq (bp_asset_x p) (bp_asset_y p) (bp_asset_lq p) (bp_lp_fee_x p) (bp_lp_fee_y p)
    (bp_treasury_fee p) tx ty (bp_ver p) (bp_marginal_cost p) (bp_min_pool_lovelace p).

Definition bp_tradable_x (p : BalancePool) : Z := sub_u64 (bp_reserves_x p) (bp_treasury_x p).
Definition bp_tradable_y (p : BalancePool) : Z := sub_u64 (bp_reserves_y p) (bp_treasury_y p).

#[export] Instance balance_stable : Stable BalancePool Token := bp_id.

Definition balance_asset_deltas (p : BalancePool) (side : Side) : PoolAssetMapping :=
  let x := bp_asset_x p in
  let y := bp_asset_y p in
  if bool_decide (pool_base x y = x) then
    match side with Bid => mkMapping x y | Ask => mkMapping y x end
  else
    match side with Bid => mkMapping y x | Ask => mkMapping x y end.

Definition balance_redeemer (pool_action : CFMMPoolAction) (pool_idx : Z) : PlutusData :=
  PdConstr 0 [pool_action_into_pd pool_action; PdInteger pool_idx].

(** *** Outputs *)

Record BalanceContext := mkBalanceContext {
  bx_v1 : ScriptInfo;
  bx_v2 : ScriptInfo;
  bx_bounds : PoolValidation;
}.

Definition balance_ver_try_from_address (c : BalanceContext) (o : TransactionOutput) : option BalancePoolVer :=
  hash ← out_script_hash o;
  if bool_decide (script_hash (bx_v1 c) = hash) then Some BalanceV1
  else if bool_decide (script_hash (bx_v2 c) = hash) then Some BalanceV2
  else None.

Section Ledger.
Context `{BU : BigUintLib}.

Definition balance_config_try_from_pd (data : PlutusData) : option BalancePoolConfig :=
  cpd ← into_constr_pd data;
  '(f, cpd) ← take_field cpd 0; pool_nft ← asset_try_from_pd f;
  '(f, cpd) ← take_field cpd 1; ax ← asset_try_from_pd f;
  '(f, cpd) ← take_field cpd 2; ay ← asset_try_from_pd f;
  '(f, cpd) ← take_field cpd 3; alq ← asset_try_from_pd f;
  '(f, cpd) ← take_field cpd 4; lp_fee_num ← into_u64 f;
  '(f, cpd) ← take_field cpd 5; treasury_fee_num ← into_u64 f;
  '(f, cpd) ← take_field cpd 6; tx ← into_u64 f;
  '(f, _) ← take_field cpd 7; ty ← into_u64 f;
  Some (mkBalanceConfig pool_nft ax ay alq lp_fee_num treasury_fee_num tx ty).

(** The marginal cost is that of the first version, whatever the pool's. *)
Definition balance_try_from_ledger (c : BalanceContext) (o : TransactionOutput) : option BalancePool :=
  ver ← balance_ver_try_from_address c o;
  let value := out_value o in
  pd ← out_datum o;
  conf ← balance_config_try_from_pd pd;
  liquidity_neg ← amount_of value (bc_asset_lq conf);
  lov ← amount_of value Native;
  if is_native (bc_asset_x conf) || is_native (bc_asset_y conf) || (min_t2t_lovelace (bx_bounds c) <=? lov) then
    id ← into_token (bc_pool_nft conf);
    rx ← amount_of value (bc_asset_x conf);
    ry ← amount_of value (bc_asset_y conf);
    Some (mkBalance id rx ADA_WEIGHT ry TOKEN_WEIGHT (wrap_u64 (MAX_LQ_CAP - liquidity_neg)) (bc_asset_x conf) (bc_asset_y conf) (bc_asset_lq conf)
            (mkRatio (bc_lp_fee_num conf) FEE_DEN) (mkRatio (bc_lp_fee_num conf) FEE_DEN) (mkRatio (bc_treasury_fee_num conf) FEE_DEN)
            (bc_treasury_x conf) (bc_treasury_y conf) ver (info_marginal_cost (bx_v1 c)) (min_n2t_lovelace (bx_bounds c)))
  else None.
End Ledger.

Definition update_pd_balance (data : PlutusData) (tx ty : Z) : panics PlutusData :=
  match into_constr_pd data with
  | Some cpd =>
    cpd ← set_field cpd 6 (int_into_pd tx);
    cpd ← set_field cpd 7 (int_into_pd ty);
    Ok (PdConstr (alternative cpd) (fields cpd))
  | None => Panic
  end.

Definition balance_into_ledger (p : BalancePool) (im : ImmutablePoolUtxo) : panics TransactionOutput :=
  value ← pool_value (bp_asset_x p) (bp_asset_y p) (bp_asset_lq p) (bp_id p) (bp_reserves_x p) (bp_reserves_y p) (bp_liquidity p) (im_value im);
  datum ← match im_datum im with
          | Some d => d ← update_pd_balance d (bp_treasury_x p) (bp_treasury_y p); Ok (Some d)
          | None => Ok None
          end;
  Ok (mkTxOut (im_address im) value datum (im_script_ref im)).

Definition balance_validator (v1 v2 : DeployedValidatorErased) (p : BalancePool) : DeployedValidatorErased :=
  match bp_ver p with BalanceV1 => v1 | BalanceV2 => v2 end.

(** *** Swaps *)

Section Swap.
Context (rounds : nat) `{SN : StableNumberLib} `{FL : FeeLib}.

Definition balance_output_amount (p : BalancePool) (base_asset : AssetClass) (base_amount : Z) : looping Z :=
  balance_cfmm_output_amount rounds (bp_asset_x p) (bp_tradable_x p) (bp_weight_x p) (bp_tradable_y p) (bp_weight_y p) base_asset base_amount
    (fee_sub (bp_lp_fee_x p) (bp_treasury_fee p)) (fee_sub (bp_lp_fee_y p) (bp_treasury_fee p)).

Definition balance_pool_output (p : BalancePool) (input : OnSide Z) : looping Z :=
  match input with
  | OnBid input => balance_output_amount p (pool_quote (bp_asset_x p) (bp_asset_y p)) input
  | OnAsk input => balance_output_amount p (pool_base (bp_asset_x p) (bp_asset_y p)) input
  end.

(** The treasury's part of the input. *)
Definition balance_treasury_part (p : BalancePool) (input : Z) : looping Z :=
  if denom (bp_treasury_fee p) =? 0 then Panic else Ok (wrap_u64 (input * numer (bp_treasury_fee p)) / denom (bp_treasury_fee p)).

Definition balance_swap (p : BalancePool) (input : OnSide Z) : looping BalancePool :=
  output ← balance_pool_output p input;
  let amount := LbTypes.unwrap input in
  treasury ← balance_treasury_part p amount;
  let x_is_base := bool_decide (bp_asset_x p = pool_base (bp_asset_x p) (bp_asset_y p)) in
  let pays_x := match input with OnBid _ => negb x_is_base | OnAsk _ => x_is_base end in
  Ok (if pays_x : bool
      then balance_with p (add_u64 (bp_reserves_x p) amount) (sub_u64 (bp_reserves_y p) output) (bp_liquidity p)
             (add_u64 (bp_treasury_x p) treasury) (bp_treasury_y p)
      else balance_with p (sub_u64 (bp_reserves_x p) output) (add_u64 (bp_reserves_y p) amount) (bp_liquidity p)
             (bp_treasury_x p) (add_u64 (bp_treasury_y p) treasury)).

(** *** Prices and liquidity *)

Definition balance_static_price (p : BalancePool) : panics AbsolutePrice :=
  if (bp_weight_x p =? 0) || (bp_weight_y p =? 0) then Panic
  else
    let x := wrap_u64 (bp_tradable_x p * WEIGHT_FEE_DEN) / bp_weight_x p in
    let y := wrap_u64 (bp_tradable_y p * WEIGHT_FEE_DEN) / bp_weight_y p in
    Ok (if bool_decide (bp_asset_x p = pool_base (bp_asset_x p) (bp_asset_y p)) then mkRatio y x else mkRatio x y).

Definition balance_real_price (p : BalancePool) (input : OnSide Z) : looping (option AbsolutePrice) :=
  output ← balance_pool_output p input;
  Ok (match input with OnBid input => price_new input output | OnAsk input => price_new output input end).

Definition balance_is_active (p : BalancePool) : bool :=
  if is_native (bp_asset_x p) then bp_min_pool_lovelace p <=? bp_reserves_x p
  else if is_native (bp_asset_y p) then bp_min_pool_lovelace p <=? bp_reserves_y p
  else true.

Definition balance_liquidity (p : BalancePool) : AbsoluteReserves :=
  if bool_decide (pool_base (bp_asset_x p) (bp_asset_y p) = bp_asset_x p) then mkReserves (bp_reserves_x p) (bp_reserves_y p)
  else mkReserves (bp_reserves_y p) (bp_reserves_x p).

Definition balance_estimated_trade (p : BalancePool) (input : OnSide Z) : looping (option AvailableLiquidity) :=
  output ← balance_pool_output p input;
  Ok (Some (mkAvailable (LbTypes.unwrap input) output)).
End Swap.

(** *** Depth at a price *)

(** Functions of the decimal library that only this pool uses. *)
Class BalanceNumberLib `{SN : StableNumberLib} := {
  bn_eleven_tenths : bignum;                  (* [BigNumber::from(1.1)] *)
  bn_to_precision : bignum -> nat -> bignum;
  bn_powi : bignum -> Z -> bignum;
  bn_at_least_one : bignum -> bool;           (* [value.ge(&DBig::from(1))] *)
  bn_positive : bignum -> bool;               (* [value.to_f64().value() > 0] *)
  bn_abs_f32 : bignum -> bignum;              (* [BigNumber::from(value.to_f32().value().abs())] *)
}.

Section Depth.
Context `{BL : BalanceNumberLib}.
#[local] Infix "+" := bn_add.
#[local] Infix "-" := bn_sub.
#[local] Infix "*" := bn_mul.
#[local] Infix "/" := bn_div.
#[local] Infix "**" := bn_pow (at level 30, right associativity).
#[local] Notation ONE := (bn_from_int 1).

(** One correction of the base reserves. *)
Definition weighted_depth_step (k b x0 avg_sell_price total_fee_mult x1 : bignum) : bignum :=
  let f_x := avg_sell_price / total_fee_mult - k * (x1 ** b - x0 ** b) / (x1 - x0) in
  let f_x_der := k * ((b - ONE) * x1 ** (b + ONE) + x1 * x0 ** b - b * x0 * x1 ** b) / (x1 * bn_powi (x1 - x0) 2) in
  f_x / f_x_der.

Fixpoint weighted_depth_loop (iters : nat) (step : bignum -> bignum) (x1 err : bignum) : bignum :=
  match iters with
  | O => x1
  | S iters =>
    if bn_at_least_one (bn_to_precision err 10) then
      let add := step x1 in
      if bn_positive (x1 + add) then weighted_depth_loop iters step (x1 + add) (bn_abs_f32 add) else x1
    else x1
  end.

Definition weighted_depth (base_reserves w_base quote_reserves w_quote total_fee_mult avg_sell_price : bignum) : option AvailableLiquidity :=
  let lq_balance := base_reserves ** w_base * quote_reserves ** w_quote in
  let a := (w_base + w_quote) / w_quote in
  let b := ONE - a in
  let c := lq_balance ** (ONE / w_quote) * w_base / w_quote in
  let k := c / b in
  let x0 := base_reserves in
  let x1 := weighted_depth_loop 25 (weighted_depth_step k b x0 avg_sell_price total_fee_mult) (bn_to_precision (x0 * bn_eleven_tenths) 0) base_reserves in
  let input_amount := (x1 - base_reserves) / total_fee_mult in
  let quote_final := (lq_balance / x1 ** w_base) ** (ONE / w_quote) in
  let output_amount := quote_reserves - quote_final in
  input_amount_val ← bn_to_u64 input_amount;
  output_amount_val ← bn_to_u64 output_amount;
  Some (mkAvailable input_amount_val output_amount_val).

Definition balance_available_liquidity (p : BalancePool) (worst_price : OnSide AbsolutePrice) : option AvailableLiquidity :=
  let of_u64 n := bn_from (as_f64 n) in
  let weight w := of_u64 w / of_u64 WEIGHT_FEE_DEN in
  raw_fee_x ← ratio_checked_sub (bp_lp_fee_x p) (bp_treasury_fee p); fee_x ← ratio_to_f64 raw_fee_x;
  raw_fee_y ← ratio_checked_sub (bp_lp_fee_y p) (bp_treasury_fee p); fee_y ← ratio_to_f64 raw_fee_y;
  let price := LbTypes.unwrap worst_price in
  let bid_price := of_u64 (denom price) / of_u64 (numer price) in
  let ask_price := of_u64 (numer price) / of_u64 (denom price) in
  let from_x := weighted_depth (of_u64 (bp_tradable_x p)) (weight (bp_weight_x p)) (of_u64 (bp_tradable_y p)) (weight (bp_weight_y p)) (bn_from fee_x) in
  let from_y := weighted_depth (of_u64 (bp_tradable_y p)) (weight (bp_weight_y p)) (of_u64 (bp_tradable_x p)) (weight (bp_weight_x p)) (bn_from fee_y) in
  let x_is_base := bool_decide (pool_base (bp_asset_x p) (bp_asset_y p) = bp_asset_x p) in
  match worst_price with
  | OnBid _ => if x_is_base then from_y bid_price else from_x bid_price
  | OnAsk _ => if x_is_base then from_x ask_price else from_y ask_price
  end.
End Depth.

(** *** Liquidity *)

(** The change is what the shares do not need. *)
Definition balance_reward_lp (p : BalancePool) (in_x_amount in_y_amount : Z) : panics (option (Z * Z * Z)) :=
  match classic_cfmm_reward_lp (bp_tradable_x p) (bp_tradable_y p) (bp_liquidity p) in_x_amount in_y_amount with
  | None => Ok None
  | Some (unlocked_lq, _, _) =>
    if bp_liquidity p =? 0 then Panic
    else
      let x_to_deposit := wrap_u64 (wrap_u128 (unlocked_lq * bp_tradable_x p) / bp_liquidity p) in
      let y_to_deposit := wrap_u64 (wrap_u128 (unlocked_lq * bp_tradable_y p) / bp_liquidity p) in
      Ok (Some (unlocked_lq, sub_u64 in_x_amount x_to_deposit, sub_u64 in_y_amount y_to_deposit))
  end.

Definition balance_shares_amount (p : BalancePool) (burned_lq : Z) : option (Z * Z) :=
  classic_cfmm_shares_amount (bp_tradable_x p) (bp_tradable_y p) (bp_liquidity p) burned_lq.

Definition balance_apply_deposit (validators : OrderType -> DeployedValidatorErased) (p : BalancePool) (deposit : ClassicalOrder Deposit)
    : outcome (ApplyOrderError (ClassicalOrder Deposit)) (BalancePool * OperationResultBlueprint DepositOutput) :=
  let order := co_order deposit in
  let validator := validators (dp_order_type order) in
  let or_incompatible {A} (o : option A) := ok_or o (Incompatible deposit) in
  net_x ← or_incompatible (net_amount (dp_token_x order) (dp_token_x_amount order) (dp_ex_fee order) (dp_collateral_ada order));
  net_y ← or_incompatible (net_amount (dp_token_y order) (dp_token_y_amount order) (dp_ex_fee order) (dp_collateral_ada order));
  reward ← of_panics (balance_reward_lp p net_x net_y);
  '(unlocked_lq, change_x, change_y) ← or_incompatible reward;
  rx ← or_incompatible (r ← checked_add (bp_reserves_x p) net_x; checked_sub r change_x);
  ry ← or_incompatible (r ← checked_add (bp_reserves_y p) net_y; checked_sub r change_y);
  lq ← or_incompatible (checked_add (bp_liquidity p) unlocked_lq);
  Ok (balance_with p rx ry lq (bp_treasury_x p) (bp_treasury_y p),
      single_output (mkDepositOutput (dp_token_x order) change_x (dp_token_y order) change_y (dp_token_lq order) unlocked_lq
                       (dp_collateral_ada order) (dp_reward_pkh order) (dp_reward_stake_pkh order)) validator).

Definition balance_apply_redeem (validators : OrderType -> DeployedValidatorErased) (p : BalancePool) (redeem : ClassicalOrder Redeem)
    : outcome (ApplyOrderError (ClassicalOrder Redeem)) (BalancePool * OperationResultBlueprint RedeemOutput) :=
  let order := co_order redeem in
  let validator := validators (rd_order_type order) in
  let or_incompatible {A} (o : option A) := ok_or o (Incompatible redeem) in
  '(x_amount, y_amount) ← or_incompatible (balance_shares_amount p (rd_token_lq_amount order));
  rx ← or_incompatible (checked_sub (bp_reserves_x p) x_amount);
  ry ← or_incompatible (checked_sub (bp_reserves_y p) y_amount);
  lq ← or_incompatible (checked_sub (bp_liquidity p) (rd_token_lq_amount order));
  Ok (balance_with p rx ry lq (bp_treasury_x p) (bp_treasury_y p),
      single_output (mkRedeemOutput (rd_token_x order) x_amount (rd_token_y order) y_amount (rd_collateral_ada order)
                       (rd_reward_pkh order) (rd_reward_stake_pkh order)) validator).
