(* ===== verification/BalancePoolProofs.v ===== *)
(** * Swaps on weighted pools

    Whatever the decimal estimate of the quote is, a swap that succeeds does not
    lower the pool's invariant; and the search for the quote ends. *)

From stdpp Require Import base gmap list.
From Stdlib Require Import ZArith Lia Strings.Byte.
From S2P Require Import Prelude Mpf LbTypes Assets PlutusData Intention GreenOrder LbCore LbCoreProofs AccountStore.
From S2P Require Import AccountIndex RoyaltyPool LbState Containers Redeemers TxBlueprint RoyaltyDatum RoyaltyDatumProofs Graduation EventSink LimitOrder.
From S2P Require Import ConstFnPool ConstFnPoolProofs PoolOrders StablePool StablePoolProofs QuadraticPool QuadraticPoolProofs BalancePool.

#[local] Notation delete := base.delete.
#[local] Notation insert := base.insert.
#[local] Open Scope Z_scope.

(** ** The quote *)

Lemma u512_pow_Ok a n r : u512_pow a n = Ok r -> exists x, a = Ok x /\ r = x ^ n /\ 0 <= r.
Proof. unfold u512_pow. intros (x & -> & [-> ?]%u512_check_Ok)%bind_Ok_inv. by exists x. Qed.

Lemma lower_output_Ok rounds f inv o o' : lower_output rounds f inv o = Ok o' -> exists new, f o' = Ok new /\ inv <= new.
Proof.
  revert o. induction rounds as [|rounds IH]; intros o; cbn [lower_output]; intros (new & E & H)%bind_Ok_inv;
    (destruct (Z.ltb_spec new inv); [|injection H as <-; by exists new]); [done|by eapply IH].
Qed.

(** What of an input the check of the invariant counts. *)
Definition input_after_fee (base_amount : Z) (pool_fee : Ratio) : Z := wrap_u64 (base_amount * numer pool_fee) / denom pool_fee.

Lemma new_invariant_Ok b bw n q qw o fee r : calculate_new_invariant_bn_u b bw n q qw o fee = Ok r ->
  r = (b + input_after_fee n fee) ^ bw * (q - o) ^ qw /\ o <= q.
Proof.
  unfold calculate_new_invariant_bn_u. destruct (denom fee =? 0); [done|]. fold (input_after_fee n fee).
  intros (x & y & (x' & Hx & -> & ?)%u512_pow_Ok & (y' & Hy & -> & ?)%u512_pow_Ok & -> & ?)%u512_mul_Ok.
  apply u512_add_Ok in Hx as (? & ? & [= <-] & [= <-] & -> & ?). apply u512_sub_Ok in Hy as (? & ? & [= <-] & [= <-] & -> & ?). split; [done|lia].
Qed.

Section Quote.
Context `{SN : StableNumberLib}.

Lemma weighted_output_Ok rounds b bw q qw n fee out : weighted_output rounds b bw q qw n fee = Ok out ->
  b ^ bw * q ^ qw <= (b + input_after_fee n fee) ^ bw * (q - out) ^ qw /\ out <= q.
Proof.
  unfold weighted_output, weighted_invariant. intros (inv & Hi & H)%bind_Ok_inv. apply bind_Ok_inv in H as (part & _ & H).
  destruct (quote_estimate _ _ _) as [d|]; [|done]. cbn [mbind outcome_bind] in H.
  apply lower_output_Ok in H as (new & Hn & Hle). apply new_invariant_Ok in Hn as [-> ?].
  apply u512_mul_Ok in Hi as (x & y & (x' & [= <-] & -> & ?)%u512_pow_Ok & (y' & [= <-] & -> & ?)%u512_pow_Ok & -> & ?). done.
Qed.

(** *** The search ends *)

Lemma invariant_total b bw q qw : is_u64 b -> is_u64 q -> 0 <= bw -> 0 <= qw -> bw + qw <= 5 -> weighted_invariant b bw q qw = Ok (b ^ bw * q ^ qw).
Proof.
  intros Hb Hq Hbw Hqw Hw. unfold is_u64 in *.
  assert (forall x k, 0 <= x <= u64_max -> 0 <= k <= 5 -> 0 <= x ^ k <= u64_max ^ k) as Hp.
  { intros x k Hx Hk. split; [apply Z.pow_nonneg; lia|apply Z.pow_le_mono_l; lia]. }
  pose proof (Hp b bw ltac:(lia) ltac:(lia)) as H1. pose proof (Hp q qw ltac:(lia) ltac:(lia)) as H2.
  assert (u64_max ^ bw * u64_max ^ qw <= u64_max ^ 5) as H3 by (rewrite <- Z.pow_add_r by lia; apply Z.pow_le_mono_r; unfold u64_max; lia).
  assert (u64_max ^ bw <= u64_max ^ 5 /\ u64_max ^ qw <= u64_max ^ 5) as [H4 H5] by (split; apply Z.pow_le_mono_r; unfold u64_max; lia).
  assert (u64_max ^ 5 <= u512_max) as H6 by (vm_compute; discriminate).
  unfold weighted_invariant, u512_pow, u512_mul, lift2. cbn [mbind outcome_bind]. unfold u512_check.
  rewrite !(proj2 (andb_true_iff _ _)) by (split; apply Z.leb_le; nia). cbn [mbind outcome_bind].
  rewrite !(proj2 (andb_true_iff _ _)) by (split; apply Z.leb_le; nia). done.
Qed.

Lemma new_invariant_total b bw n q qw o fee : denom fee <> 0 -> 0 <= b -> is_u64 q -> 0 <= bw -> 0 <= qw -> bw + qw <= 5 ->
  0 <= input_after_fee n fee -> b + input_after_fee n fee <= u64_max -> 0 <= o <= q ->
  calculate_new_invariant_bn_u b bw n q qw o fee = Ok ((b + input_after_fee n fee) ^ bw * (q - o) ^ qw).
Proof.
  intros Hd Hb Hq Hbw Hqw Hw Ha Hs Ho. unfold is_u64 in *. unfold calculate_new_invariant_bn_u. rewrite (proj2 (Z.eqb_neq _ _) Hd). fold (input_after_fee n fee).
  rewrite <- invariant_total by (unfold is_u64; lia). unfold weighted_invariant. f_equal; f_equal; unfold u512_add, u512_sub, lift2; cbn [mbind outcome_bind];
    unfold u512_check; rewrite (proj2 (andb_true_iff _ _)); try done; split; apply Z.leb_le; unfold u64_max, u512_max in *; lia.
Qed.

(** The output is lowered at most to nothing, where the invariant holds. *)
Lemma lower_output_total rounds f inv o g : (forall i, 0 <= i <= o -> f i = Ok (g i)) -> inv <= g 0 -> 0 <= o <= Z.of_nat rounds ->
  exists out, lower_output rounds f inv o = Ok out /\ 0 <= out <= o.
Proof.
  intros Hf H0. revert o Hf. induction rounds as [|rounds IH]; intros o Hf Ho; cbn [lower_output]; rewrite Hf by lia; cbn [mbind outcome_bind];
    (destruct (Z.ltb_spec (g o) inv); [|exists o; by split; [|lia]]).
  - replace o with 0 in * by lia. lia.
  - assert (o <> 0) by (intros ->; lia). unfold sub_u64. rewrite (proj2 (Z.leb_le _ _)) by lia.
    destruct (IH (o - 1)) as (out & -> & ?); [intros; apply Hf; lia|lia|]. exists out. split; [done|lia].
Qed.

Lemma fee_share n fee : is_u64 n -> ratio_wf fee -> 0 <= input_after_fee n fee /\ input_after_fee n fee * denom fee <= n * numer fee.
Proof.
  intros [? ?] [Hn Hd]. unfold input_after_fee, wrap_u64. pose proof (Z.mod_pos_bound (n * numer fee) (2 ^ 64) ltac:(lia)).
  pose proof (Z.mod_le (n * numer fee) (2 ^ 64) ltac:(nia) ltac:(lia)). pose proof (Z.mul_div_le ((n * numer fee) mod 2 ^ 64) (denom fee) Hd).
  split; [apply Z.div_pos; lia|nia].
Qed.

(** The search for the quote ends: when the estimate of the remaining quote reserves
    is not above the reserves, as many rounds as it leaves suffice. *)
Theorem weighted_quote_found rounds b bw q qw n fee part d : is_u64 b -> is_u64 q -> is_u64 n -> 0 <= bw -> 0 <= qw -> bw + qw <= 5 -> ratio_wf fee ->
  b + input_after_fee n fee <= u64_max -> calculate_base_part_with_fee b bw n fee = Ok part ->
  quote_estimate (b ^ bw * q ^ qw) part qw = Some d -> 0 <= d <= q -> q - d <= Z.of_nat rounds ->
  exists out, weighted_output rounds b bw q qw n fee = Ok out /\ 0 <= out <= q - d.
Proof.
  intros [Hb ?] [Hq ?] Hn Hbw Hqw Hw Hfee Hs Hpart Hest Hd Hr. destruct (fee_share n fee Hn Hfee) as [Ha _].
  assert (denom fee <> 0) as Hden by (destruct Hfee; lia).
  unfold weighted_output. rewrite (invariant_total b bw q qw) by (unfold is_u64; lia). cbn [mbind outcome_bind]. rewrite Hpart. cbn [mbind outcome_bind]. rewrite Hest. cbn [mbind outcome_bind].
  assert (sub_u64 q d = q - d) as -> by (unfold sub_u64; by rewrite (proj2 (Z.leb_le _ _)) by lia).
  apply (lower_output_total rounds _ _ _ (fun o => (b + input_after_fee n fee) ^ bw * (q - o) ^ qw)); [|..|lia].
  - intros i Hi'. apply new_invariant_total; unfold is_u64; try done; lia.
  - rewrite Z.sub_0_r. apply Z.mul_le_mono_nonneg_r; [apply Z.pow_nonneg; lia|]. apply Z.pow_le_mono_l. lia.
Qed.
End Quote.

(** ** Swaps *)

Definition balance_value (p : BalancePool) : Z :=
  (bp_reserves_x p - bp_treasury_x p) ^ bp_weight_x p * (bp_reserves_y p - bp_treasury_y p) ^ bp_weight_y p.

Record balance_wf (p : BalancePool) : Prop := {
  bw_assets : bp_asset_x p <> bp_asset_y p;
  bw_weights : 0 <= bp_weight_x p /\ 0 <= bp_weight_y p;
  bw_x : 0 <= bp_treasury_x p <= bp_reserves_x p;
  bw_y : 0 <= bp_treasury_y p <= bp_reserves_y p;
  bw_treasury : ratio_wf (bp_treasury_fee p);
  bw_fee_x : ratio_wf (bp_lp_fee_x p) /\ ratio_le (bp_treasury_fee p) (bp_lp_fee_x p) /\ numer (bp_lp_fee_x p) <= denom (bp_lp_fee_x p);
  bw_fee_y : ratio_wf (bp_lp_fee_y p) /\ ratio_le (bp_treasury_fee p) (bp_lp_fee_y p) /\ numer (bp_lp_fee_y p) <= denom (bp_lp_fee_y p);
}.

Section Swap.
Context `{SN : StableNumberLib} `{FLaws : FeeLaws}.

(** The treasury's part and the part that the check counts fit in the input. *)
Lemma fee_parts n lp t : is_u64 n -> ratio_wf lp -> ratio_wf t -> ratio_le t lp -> numer lp <= denom lp ->
  0 <= input_after_fee n (fee_sub lp t) /\ 0 <= input_after_fee n t /\ input_after_fee n (fee_sub lp t) + input_after_fee n t <= n.
Proof.
  intros Hn Wl Wt Hle Hone. destruct (fee_sub_eq lp t Wl Wt Hle) as [Ws Es].
  destruct (fee_share n _ Hn Ws) as [A0 A1]. destruct (fee_share n t Hn Wt) as [T0 T1]. split; [done|]. split; [done|].
  set (A := input_after_fee n (fee_sub lp t)) in *. set (T := input_after_fee n t) in *.
  destruct Wl as [Nl Dl], Wt as [Nt Dt], Ws as [Ns Ds], Hn as [Hn _]. set (s := fee_sub lp t) in *. unfold ratio_le in Hle.
  assert (A * (denom lp * denom t) <= n * (numer lp * denom t - numer t * denom lp)) as HA.
  { apply (Z.mul_le_mono_pos_r _ _ (denom s) Ds). transitivity (n * (numer s * (denom lp * denom t))); [|rewrite Es; nia].
    replace (A * (denom lp * denom t) * denom s) with (A * denom s * (denom lp * denom t)) by ring.
    rewrite (Z.mul_assoc n (numer s)). apply Z.mul_le_mono_nonneg_r; [nia|done]. }
  assert (T * (denom lp * denom t) <= n * (numer t * denom lp)) as HT by nia.
  assert ((A + T) * (denom lp * denom t) <= n * (denom lp * denom t)) as HS by nia.
  apply (Z.mul_le_mono_pos_r _ _ (denom lp * denom t)) in HS; nia.
Qed.

(** A swap, in terms of the asset that is paid. *)
Lemma balance_swap_Ok rounds p input p' : balance_wf p -> balance_swap rounds p input = Ok p' ->
  exists out, 
    (p' = balance_with p (add_u64 (bp_reserves_x p) (LbTypes.unwrap input)) (sub_u64 (bp_reserves_y p) out) (bp_liquidity p)
            (add_u64 (bp_treasury_x p) (input_after_fee (LbTypes.unwrap input) (bp_treasury_fee p))) (bp_treasury_y p) /\
     weighted_output rounds (bp_tradable_x p) (bp_weight_x p) (bp_tradable_y p) (bp_weight_y p) (LbTypes.unwrap input)
       (fee_sub (bp_lp_fee_x p) (bp_treasury_fee p)) = Ok out) \/
    (p' = balance_with p (sub_u64 (bp_reserves_x p) out) (add_u64 (bp_reserves_y p) (LbTypes.unwrap input)) (bp_liquidity p)
            (bp_treasury_x p) (add_u64 (bp_treasury_y p) (input_after_fee (LbTypes.unwrap input) (bp_treasury_fee p))) /\
     weighted_output rounds (bp_tradable_y p) (bp_weight_y p) (bp_tradable_x p) (bp_weight_x p) (LbTypes.unwrap input)
       (fee_sub (bp_lp_fee_y p) (bp_treasury_fee p)) = Ok out).
Proof.
  intros W. pose proof (bw_assets _ W) as Hne. unfold balance_swap. intros (out & Ho & Hrest)%bind_Ok_inv. apply bind_Ok_inv in Hrest as (t & Ht & [= <-]).
  unfold balance_treasury_part in Ht. destruct (_ =? 0); [done|]. injection Ht as <-. fold (input_after_fee (LbTypes.unwrap input) (bp_treasury_fee p)).
  exists out. unfold balance_pool_output, balance_output_amount, balance_cfmm_output_amount in Ho.
  destruct (base_quote_cases (bp_asset_x p) (bp_asset_y p)) as [[Eb Eq]|[Eb Eq]], input as [n|n]; rewrite ?Eb, ?Eq in *; cbn [LbTypes.unwrap] in *;
    rewrite ?bool_decide_eq_true_2, ?bool_decide_eq_false_2 in * by done; cbn [negb]; auto.
Qed.

(** What the quote guarantees, for the asset that is paid ([a]) and the one that is
    received ([b]). *)
Lemma weighted_trade rounds ra ta wa rb tb wb n lp t out : 0 <= ta <= ra -> 0 <= tb <= rb -> 0 <= wa -> 0 <= wb -> is_u64 n -> ra + n <= u64_max ->
  ratio_wf lp -> ratio_wf t -> ratio_le t lp -> numer lp <= denom lp ->
  weighted_output rounds (sub_u64 ra ta) wa (sub_u64 rb tb) wb n (fee_sub lp t) = Ok out ->
  out <= rb - tb /\ add_u64 ra n = ra + n /\ add_u64 ta (input_after_fee n t) = ta + input_after_fee n t /\ sub_u64 rb out = rb - out /\
  0 <= ta + input_after_fee n t <= ra + n /\
  (ra - ta) ^ wa * (rb - tb) ^ wb <= (ra + n - (ta + input_after_fee n t)) ^ wa * (rb - out - tb) ^ wb.
Proof.
  intros Ha Hb Hwa Hwb Hn Hs Wl Wt Hle Hone Ho. destruct (fee_parts n lp t Hn Wl Wt Hle Hone) as (A0 & T0 & HS).
  assert (forall a b, b <= a -> sub_u64 a b = a - b) as Hsub by (intros a b ?; unfold sub_u64; by rewrite (proj2 (Z.leb_le _ _)) by lia).
  rewrite !Hsub in Ho by lia. apply weighted_output_Ok in Ho as [Hinv Hout]. destruct Hn as [Hn0 _].
  split; [done|]. unfold add_u64. rewrite !(proj2 (Z.leb_le _ _)) by lia. split; [done|]. split; [done|]. split; [apply Hsub; lia|]. split; [lia|].
  etransitivity; [exact Hinv|]. replace (rb - tb - out) with (rb - out - tb) by lia.
  apply Z.mul_le_mono_nonneg_r; [apply Z.pow_nonneg; lia|]. apply Z.pow_le_mono_l. lia.
Qed.

(** A swap that succeeds pays at most what is tradable, keeps the treasury apart and
    does not lower the invariant, whatever the decimal estimate was. *)
Theorem balance_swap_keeps_invariant rounds p input p' : balance_wf p -> is_u64 (LbTypes.unwrap input) ->
  bp_reserves_x p + LbTypes.unwrap input <= u64_max -> bp_reserves_y p + LbTypes.unwrap input <= u64_max ->
  balance_swap rounds p input = Ok p' -> balance_value p <= balance_value p' /\ balance_wf p'.
Proof.
  intros W Hn Hx Hy Hsw. destruct (balance_swap_Ok _ _ _ _ W Hsw) as (out & [[-> Ho]|[-> Ho]]);
    pose proof W as [Hne [Wx Wy] Tx Ty Wt (Lx & Lex & Onex) (Ly & Ley & Oney)]; unfold bp_tradable_x, bp_tradable_y in Ho; unfold balance_value;
    cbn [balance_with bp_reserves_x bp_reserves_y bp_treasury_x bp_treasury_y bp_weight_x bp_weight_y];
    apply weighted_trade in Ho as (Hout & -> & -> & -> & Ht & Hinv); try done.
  - split; [done|]. split; cbn; try done; lia.
  - split; [nia|]. split; cbn; try done; lia.
Qed.
End Swap.
