(* ===== verification/BalancePoolExamples.v ===== *)
(** * A pool of one part ADA and four parts gold

    The witnesses of the theorems of [BalancePoolProofs.v], and an input so large
    that the fee wraps around. *)

From stdpp Require Import base gmap list.
From Stdlib Require Import ZArith QArith Qround Lia Strings.Byte.
From S2P Require Import Prelude Mpf LbTypes Assets PlutusData Intention GreenOrder LbCore LbCoreProofs AccountStore.
From S2P Require Import AccountIndex RoyaltyPool LbState LbGreen Containers Redeemers TxBlueprint RoyaltyDatum RoyaltyDatumProofs Graduation EventSink LimitOrder.
From S2P Require Import ConstFnPool ConstFnPoolProofs PoolOrders StablePool StablePoolProofs QuadraticPoolProofs BalancePool BalancePoolProofs.

Module Weighted.
#[local] Open Scope Z_scope.
#[local] Existing Instance exact_fee.
#[local] Existing Instance exact_fee_laws.

(** Fractions, with the fourth root of an integer rounded down. *)
#[local] Instance roots : BigNumberLib := {|
  f64 := Q; bignum := Q; as_f64 := inject_Z; f64_half := Qmake 1 2; ratio_to_f64 := fun _ => None; bn_from := fun q => q; bn_from_int := inject_Z;
  bn_add := Qplus; bn_sub := Qminus; bn_mul := Qmult; bn_div := Qdiv;
  bn_pow := fun b e => if Qeq_bool e (Qmake 1 4) then inject_Z (Z.sqrt (Z.sqrt (Qfloor b))) else Qpower b (Qfloor e);
  bn_to_u64 := fun q => let z := Qfloor q in if (0 <=? z) && (z <=? u64_max) then Some z else None;
|}.
#[local] Instance root_numbers : StableNumberLib := {|
  bn_from_u512 := inject_Z; bn_from_f32 := inject_Z; bn_to_i64 := fun q : Q => Some (Qfloor q); ratio_checked_sub := fun a b => Some (fee_sub a b);
|}.

Definition gold : Token := mkToken (replicate 28 x0a) (mkAssetName 1 (x47 :: replicate 31 x00)).
Definition lp : Token := mkToken (replicate 28 x0b) (mkAssetName 1 (x4c :: replicate 31 x00)).
Definition pool (rx tx ry ty : Z) : BalancePool :=
  mkBalance lp rx ADA_WEIGHT ry TOKEN_WEIGHT 1000000 Native (TokenAsset gold) (TokenAsset lp) (mkRatio 99700 100000) (mkRatio 99700 100000)
    (mkRatio 100 100000) tx ty BalanceV1 (mkExUnits 5 7) 1000000.

(** A hundred ADA for gold. *)
Definition before : BalancePool := pool 1000001000 1000 400000050 50.
Definition buy : OnSide Z := OnAsk 100000000.
Definition after : BalancePool := match balance_swap 10 before buy with Ok p => p | _ => before end.

Example gold_bought : (bp_reserves_x after, bp_treasury_x after, bp_reserves_y after, bp_treasury_y after) = (1100001000, 101000, 390617202, 50).
Proof. vm_compute. reflexivity. Qed.

Lemma before_wf : balance_wf before.
Proof. split; try (vm_compute; split_and!; discriminate); [discriminate|vm_compute; split; [discriminate|reflexivity]|..]; vm_compute; split_and!; first [discriminate|reflexivity|split; [discriminate|reflexivity]]. Qed.

Lemma balance_swap_keeps_invariant_witness : balance_value before <= balance_value after /\ balance_wf after.
Proof.
  apply (balance_swap_keeps_invariant 10 before buy after);
    [exact before_wf|vm_compute; split; discriminate|vm_compute; discriminate|vm_compute; discriminate|vm_compute; reflexivity].
Defined.

(** The quote of a small trade, in as many rounds as it may need. *)
Lemma weighted_quote_found_witness :
  exists out, weighted_output 94 1000000 1 4000 4 100000 (mkRatio 996 1000) = Ok out /\ 0 <= out <= 4000 - 3906.
Proof.
  apply (weighted_quote_found 94 1000000 1 4000 4 100000 (mkRatio 996 1000) 1099600 3906);
    [vm_compute; split; discriminate..|vm_compute; discriminate|vm_compute; discriminate|vm_compute; discriminate| |vm_compute; discriminate
    |vm_compute; reflexivity|vm_compute; reflexivity|vm_compute; split; discriminate|vm_compute; discriminate].
  split; [vm_compute; discriminate|reflexivity].
Defined.

(** The check counts what the fee leaves of the input in 64 bits, the estimate
    counts all of it: two hundred trillion are checked as if they were fifteen, and
    the output is lowered one by one from far above what the check admits. *)
Definition fee : Ratio := mkRatio 99683 100000.
Example input_wraps : input_after_fee 200000000000000 fee < 15000000000000.
Proof. vm_compute. reflexivity. Qed.
Example search_goes_on : weighted_output 1000 1000000000000000 1 400000000000000 4 200000000000000 fee = Err OutOfRounds.
Proof. vm_compute. reflexivity. Qed.
End Weighted.
