(* ===== verification/ClassifiedPool.v ===== *)
(** * Pools that graduated from the launchpad

    [pools/classified.rs], the fee of [graduation.rs] and the orders that pay it
    ([orders/mod.rs]): a pool with its origin and the operator's fee that trades
    through it have to pay, a share of the ADA of the trade.  The source wraps [AnyPool]; here the pool inside is any
    [MarketMaker], as the code uses nothing else of it.  At the end: a trade with a
    graduated pool conserves both assets, the fee included. *)

From stdpp Require Import base gmap list.
From Stdlib Require Import ZArith Lia Strings.Byte.
From S2P Require Import Prelude Mpf LbTypes Assets PlutusData Intention GreenOrder LbCore LbCoreProofs AccountStore AccountIndex RoyaltyPool RoyaltyPoolProofs.
From S2P Require Import LbState ToyHash LbGreen Containers RoyaltyDatum Graduation EventSink LimitOrder LimitOrderProofs LimitOrderExamples GridOrder.

#[local] Notation delete := base.delete.
#[local] Notation insert := base.insert.
#[local] Open Scope Z_scope.

Inductive PoolOrigin := Direct | SnekGraduated.
#[export] Instance pool_origin_eq_dec : EqDecision PoolOrigin.
Proof. solve_decision. Defined.

(** A percentage, at most 99. *)
Record GraduatedPoolFeeConfig := mkFeeConfig { fee_enabled : bool; relative_fee_percent : Z }.

Definition try_enabled (percent : Z) : option GraduatedPoolFeeConfig := if 99 <? percent then None else Some (mkFeeConfig true percent).

Definition graduated_fee (c : GraduatedPoolFeeConfig) (amount : Z) : Z :=
  if fee_enabled c then wrap_u64 (wrap_u128 (amount * relative_fee_percent c) / 100) else 0.

(** Takers that pay the fee. *)
Class FeeEligible (T : Type) := graduated_splash_fee_eligible : T -> bool.

(** ** Orders of both kinds *)

Inductive AnyOrder := AnyLimit (o : LimitOrder) | AnyGrid (o : GridOrder).

#[export] Instance any_behaviour : TakerBehaviour AnyOrder := {|
  with_updated_time := fun o time =>
    match o with
    | AnyLimit o => map_succ AnyLimit (with_updated_time o time)
    | AnyGrid o => map_succ AnyGrid (with_updated_time o time)
    end;
  with_applied_trade := fun o removed added =>
    match o with
    | AnyLimit o => map_succ AnyLimit (with_applied_trade o removed added)
    | AnyGrid o => map_succ AnyGrid (with_applied_trade o removed added)
    end;
  with_budget_corrected := fun o delta =>
    match o with
    | AnyLimit o => let '(d, s) := with_budget_corrected o delta in (d, AnyLimit s)
    | AnyGrid o => let '(d, s) := with_budget_corrected o delta in (d, AnyGrid s)
    end;
  with_fee_charged := fun o fee =>
    match o with AnyLimit o => AnyLimit (with_fee_charged o fee) | AnyGrid o => AnyGrid (with_fee_charged o fee) end;
  with_output_added := fun o added =>
    match o with AnyLimit o => AnyLimit (with_output_added o added) | AnyGrid o => AnyGrid (with_output_added o added) end;
  try_terminate := fun o =>
    match o with AnyLimit o => map_succ AnyLimit (try_terminate o) | AnyGrid o => map_succ AnyGrid (try_terminate o) end;
|}.

#[export] Instance any_fee_eligible : FeeEligible AnyOrder := fun o => match o with AnyLimit _ => true | AnyGrid _ => false end.

(** ** Classified pools *)

Record ClassifiedPool (M : Type) := mkClassified {
  cl_inner : M;
  cl_origin : PoolOrigin;
  cl_fee_config : GraduatedPoolFeeConfig;
  cl_pending_operator_fee : Z;
}.
Arguments mkClassified {M} _ _ _ _.
Arguments cl_inner {M} _.
Arguments cl_origin {M} _.
Arguments cl_fee_config {M} _.
Arguments cl_pending_operator_fee {M} _.

Definition accumulated_operator_fee (pending_operator_fee operator_fee : Z) : option Z := checked_add pending_operator_fee operator_fee.

Definition net_amount_after_operator_fee (gross_amount operator_fee : Z) : option Z :=
  net_amount ← checked_sub gross_amount operator_fee;
  if 0 <? net_amount then Some net_amount else None.

Section Classified.
Context {M U : Type} `{MK : MarketMaker M U} `{MB : MakerBehavior M} `{TR : Tradable M (AssetClass * AssetClass)} `{ST : Stable M Token}.

Definition with_inner (p : ClassifiedPool M) (m : M) (pending : Z) : ClassifiedPool M := mkClassified m (cl_origin p) (cl_fee_config p) pending.

Definition with_inner_and_added_operator_fee (p : ClassifiedPool M) (m : M) (operator_fee : Z) : option (ClassifiedPool M) :=
  pending ← accumulated_operator_fee (cl_pending_operator_fee p) operator_fee;
  Some (with_inner p m pending).

Definition no_trade {T} (p : ClassifiedPool M) (t : T) : TakeInProgress T * MakeInProgress (ClassifiedPool M) := (mkTrans t (Succ t), mkTrans p (Succ p)).

Definition fee_applicable {T} `{FeeEligible T} (p : ClassifiedPool M) (t : T) : bool :=
  bool_decide (cl_origin p = SnekGraduated) && fee_enabled (cl_fee_config p) && graduated_splash_fee_eligible t.

Definition trade_assets (p : ClassifiedPool M) (input : OnSide Z) : AssetClass * AssetClass :=
  let '(base, quote) := pair_of_entity (cl_inner p) in
  match input with OnAsk _ => (base, quote) | OnBid _ => (quote, base) end.

#[export] Instance classified_stable : Stable (ClassifiedPool M) Token := fun p => stable_id (cl_inner p).
#[export] Instance classified_pair : Tradable (ClassifiedPool M) (AssetClass * AssetClass) := fun p => pair_of_entity (cl_inner p).

#[export] Instance classified_behavior : MakerBehavior (ClassifiedPool M) := {|
  swap := fun p input => map_succ (fun m => with_inner p m 0) (swap (cl_inner p) input);
  preserve_preview_metadata := fun _ previewed rebalanced =>
    mkClassified (cl_inner rebalanced) (cl_origin rebalanced) (cl_fee_config rebalanced) (cl_pending_operator_fee previewed);
|}.

#[export] Instance classified_maker : MarketMaker (ClassifiedPool M) U := {|
  static_price := fun p => static_price (cl_inner p);
  real_price := fun p => real_price (cl_inner p);
  quality := fun p => quality (cl_inner p);
  maker_marginal_cost_hint := fun p => maker_marginal_cost_hint (cl_inner p);
  liquidity := fun p => liquidity (cl_inner p);
  available_liquidity_on_side := fun p => available_liquidity_on_side (cl_inner p);
  estimated_trade := fun p => estimated_trade (cl_inner p);
  is_active := fun p => is_active (cl_inner p);
|}.

Definition on_side_map {A B} (f : A -> B) (s : OnSide A) : OnSide B := match s with OnBid a => OnBid (f a) | OnAsk a => OnAsk (f a) end.

Definition classified_swap_with_taker {T} `{TakerBehaviour T} `{FeeEligible T} (p : ClassifiedPool M) (t : T) (input : OnSide Z)
    : TakeInProgress T * MakeInProgress (ClassifiedPool M) :=
  if negb (fee_applicable p t) then default_swap_with_taker t p input
  else
    let '(input_asset, output_asset) := trade_assets p input in
    let gross_input := LbTypes.unwrap input in
    if bool_decide (input_asset = Native) then
      let operator_fee := graduated_fee (cl_fee_config p) gross_input in
      match net_amount_after_operator_fee gross_input operator_fee with
      | None => no_trade p t
      | Some net_input =>
        match with_inner_and_added_operator_fee p (swap_succ (cl_inner p) (on_side_map (fun _ => net_input) input)) operator_fee with
        | None => no_trade p t
        | Some next_pool =>
          let make := mkTrans p (Succ next_pool) in
          let trade_output := default 0 (LbTypes.unwrap <$> make_loss make) in
          (mkTrans t (with_applied_trade t gross_input trade_output), make)
        end
      end
    else if bool_decide (output_asset = Native) then
      let next_inner := swap_succ (cl_inner p) input in
      let gross_output := default 0 (LbTypes.unwrap <$> make_loss (mkTrans (cl_inner p) (Succ next_inner))) in
      let operator_fee := graduated_fee (cl_fee_config p) gross_output in
      match net_amount_after_operator_fee gross_output operator_fee with
      | None => no_trade p t
      | Some net_output =>
        match with_inner_and_added_operator_fee p next_inner operator_fee with
        | None => no_trade p t
        | Some next_pool => (mkTrans t (with_applied_trade t gross_input net_output), mkTrans p (Succ next_pool))
        end
      end
    else no_trade p t.

Definition classified_effective_price {T} `{FeeEligible T} (p : ClassifiedPool M) (t : T) (input : OnSide Z) : option AbsolutePrice :=
  if negb (fee_applicable p t) then real_price (cl_inner p) input
  else
    let '(input_asset, output_asset) := trade_assets p input in
    let gross_input := LbTypes.unwrap input in
    let price output := match input with OnAsk _ => price_new output gross_input | OnBid _ => price_new gross_input output end in
    if bool_decide (input_asset = Native) then
      let operator_fee := graduated_fee (cl_fee_config p) gross_input in
      net_input ← net_amount_after_operator_fee gross_input operator_fee;
      _ ← accumulated_operator_fee (cl_pending_operator_fee p) operator_fee;
      estimated ← estimated_trade (cl_inner p) (on_side_map (fun _ => net_input) input);
      price (available_output estimated)
    else if bool_decide (output_asset = Native) then
      estimated ← estimated_trade (cl_inner p) input;
      let operator_fee := graduated_fee (cl_fee_config p) (available_output estimated) in
      net_output ← net_amount_after_operator_fee (available_output estimated) operator_fee;
      _ ← accumulated_operator_fee (cl_pending_operator_fee p) operator_fee;
      price net_output
    else None.

#[export] Instance classified_for_taker {T} `{TakerBehaviour T} `{FeeEligible T} : MakerForTaker T (ClassifiedPool M) := {|
  effective_price := classified_effective_price;
  swap_with_taker := classified_swap_with_taker;
|}.

(** [inner] is what [AnyPool::try_from_ledger] reads. *)
Definition classified_try_from_ledger (g : GraduationState) (config : GraduatedPoolFeeConfig) (read : TransactionOutput -> option M) (o : TransactionOutput)
    : option (ClassifiedPool M) :=
  m ← read o;
  let origin := if bool_decide (stable_id m ∈ graduated g) then SnekGraduated else Direct in
  Some (mkClassified m origin config 0).
End Classified.

(** ** The fee is conserved *)

Lemma graduated_fee_share c amount : 0 <= relative_fee_percent c <= 99 -> is_u64 amount ->
  0 <= graduated_fee c amount <= amount /\ 100 * graduated_fee c amount <= relative_fee_percent c * amount.
Proof.
  intros Hp [H0 H1]. unfold graduated_fee. destruct (fee_enabled c); [|split; nia]. unfold wrap_u128. rewrite (Z.mod_small (amount * _)) by (unfold u64_max in *; nia).
  pose proof (Z.mul_div_le (amount * relative_fee_percent c) 100 ltac:(lia)). assert (0 <= amount * relative_fee_percent c / 100) by (apply Z.div_pos; nia).
  rewrite wrap_u64_small by (unfold is_u64; nia). split; nia.
Qed.

(** What an input adds to the reserves of its asset, and what it takes from the
    others. *)
Definition moved (i s : AbsoluteReserves) (input : OnSide Z) : Z * Z :=
  match input with
  | OnAsk _ => (base_reserve s - base_reserve i, quote_reserve i - quote_reserve s)
  | OnBid _ => (quote_reserve s - quote_reserve i, base_reserve i - base_reserve s)
  end.

Section Conservation.
Context {M U : Type} `{MK : MarketMaker M U} `{MB : MakerBehavior M} `{TR : Tradable M (AssetClass * AssetClass)} `{ST : Stable M Token}.
Context (swap_ok : M -> OnSide Z -> Prop) `{ML : !MakerTradeLaws M U Token swap_ok}.
Context {T : Type} `{TB : TakerBehaviour T} `{FE : FeeEligible T}.

(** A swap of the pool inside: its gain is the input, and its loss is recorded. *)
Lemma inner_swap m input : swap_ok m input -> 0 < LbTypes.unwrap input ->
  let '(gain, loss) := moved (liquidity m) (liquidity (swap_succ m input)) input in
  gain = LbTypes.unwrap input /\ 0 <= loss /\ loss <= base_reserve (liquidity m) + quote_reserve (liquidity m) /\
  default 0 (LbTypes.unwrap <$> make_loss (mkTrans m (Succ (swap_succ m input)))) = loss.
Proof.
  intros Hok Hn. pose proof (swap_nonneg _ _ Hok) as [B Q]. unfold make_loss, make_result, checked_sub. cbn [target result].
  destruct input as [x|x]; cbn [LbTypes.unwrap moved] in *.
  - destruct (swap_bid _ _ Hok) as [-> Hb]. rewrite (proj2 (Z.leb_le _ _)) by lia. cbn. split_and!; lia.
  - destruct (swap_ask _ _ Hok) as [-> Hq]. rewrite (proj2 (Z.leb_gt _ _)) by lia. rewrite (proj2 (Z.leb_le _ _)) by lia. cbn. split_and!; lia.
Qed.

Lemma net_amount_inv gross fee net : net_amount_after_operator_fee gross fee = Some net -> net = gross - fee /\ 0 < net.
Proof.
  unfold net_amount_after_operator_fee. intros (n & [? ->]%checked_sub_inv & E)%bind_Some. destruct (Z.ltb_spec 0 (gross - fee)); [|done]. by injection E as <-.
Qed.

Lemma added_fee_inv (p p' : ClassifiedPool M) m fee : with_inner_and_added_operator_fee p m fee = Some p' ->
  p' = with_inner p m (cl_pending_operator_fee p + fee).
Proof. unfold with_inner_and_added_operator_fee, accumulated_operator_fee, checked_add. destruct (_ <=? _); [|done]. by intros [= <-]. Qed.

(** A trade with a graduated pool that owes the operator a fee is either refused,
    and changes nothing, or: where ADA is paid, the pool's gain and the fee are what
    the taker gave up, and the taker gets the pool's loss; where ADA is received, the
    pool gains what the taker gave up, and what the taker gets and the fee are the
    pool's loss.  The fee is pending on the pool, and at most its share of the ADA. *)
Theorem graduated_trade_conserves (p : ClassifiedPool M) (t : T) input take make : fee_applicable p t = true ->
  0 <= relative_fee_percent (cl_fee_config p) <= 99 -> is_u64 (LbTypes.unwrap input) -> 0 < LbTypes.unwrap input ->
  base_reserve (liquidity (cl_inner p)) + quote_reserve (liquidity (cl_inner p)) <= u64_max ->
  (forall n, 0 < n <= LbTypes.unwrap input -> swap_ok (cl_inner p) (on_side_map (fun _ => n) input)) ->
  classified_swap_with_taker p t input = (take, make) ->
  (take = mkTrans t (Succ t) /\ make = mkTrans p (Succ p)) \/
  exists p' out fee, make = mkTrans p (Succ p') /\ take = mkTrans t (with_applied_trade t (LbTypes.unwrap input) out) /\
    cl_pending_operator_fee p' = cl_pending_operator_fee p + fee /\ 0 <= fee /\
    let '(gain, loss) := moved (liquidity p) (liquidity p') input in
    if bool_decide ((trade_assets p input).1 = Native)
    then gain + fee = LbTypes.unwrap input /\ out = loss /\ 100 * fee <= relative_fee_percent (cl_fee_config p) * LbTypes.unwrap input
    else (trade_assets p input).2 = Native /\ gain = LbTypes.unwrap input /\ out + fee = loss /\ 100 * fee <= relative_fee_percent (cl_fee_config p) * loss.
Proof.
  intros Happ Hp Hu Hpos Hliq Hok. unfold classified_swap_with_taker. rewrite Happ. cbn [negb]. destruct (trade_assets p input) as [ia oa]. cbn [fst snd].
  destruct (bool_decide (ia = Native)).
  - destruct (graduated_fee_share _ _ Hp Hu) as [F1 F2]. destruct (net_amount_after_operator_fee _ _) as [net|] eqn:En; [|intros [= <- <-]; by left].
    apply net_amount_inv in En as [-> Hnet]. destruct (with_inner_and_added_operator_fee _ _ _) as [p'|] eqn:Ep; [|intros [= <- <-]; by left].
    apply added_fee_inv in Ep as ->. intros [= <- <-]. right. eexists _, _, _. do 4 (split; [done||lia|]).
    set (fee := graduated_fee _ _) in *. set (net := LbTypes.unwrap input - fee) in *.
    pose proof (inner_swap (cl_inner p) (on_side_map (fun _ => net) input) (Hok net ltac:(lia))) as Hin.
    change (liquidity (with_inner p ?m ?f)) with (liquidity m). change (liquidity p) with (liquidity (cl_inner p)).
    destruct input as [x|x]; cbn [on_side_map LbTypes.unwrap moved] in *; destruct (Hin Hnet) as (G & L0 & _ & Eo); cbn in Eo |- *; split_and!; try lia; exact Eo.
  - destruct (bool_decide (oa = Native)) eqn:Eo; [|intros [= <- <-]; by left]. apply bool_decide_eq_true_1 in Eo as ->.
    pose proof (inner_swap (cl_inner p) input) as Hin.
    assert (swap_ok (cl_inner p) input) as Hi by (specialize (Hok (LbTypes.unwrap input) ltac:(lia)); by destruct input).
    specialize (Hin Hi Hpos). destruct (moved _ _ input) as [gain loss] eqn:Em. destruct Hin as (-> & L0 & L1 & ->).
    destruct (graduated_fee_share (cl_fee_config p) loss Hp) as [F1 F2]; [unfold is_u64; lia|].
    destruct (net_amount_after_operator_fee _ _) as [net|] eqn:En; [|intros [= <- <-]; by left].
    apply net_amount_inv in En as [-> Hnet]. destruct (with_inner_and_added_operator_fee _ _ _) as [p'|] eqn:Ep; [|intros [= <- <-]; by left].
    apply added_fee_inv in Ep as ->. intros [= <- <-]. right. eexists _, _, _. do 4 (split; [done||lia|]).
    change (liquidity (with_inner p ?m ?f)) with (liquidity m). change (liquidity p) with (liquidity (cl_inner p)). rewrite Em. split_and!; [done|done|lia|done].
Qed.
End Conservation.

(** ** Ten ADA through a graduated pool *)

Module Graduate.
#[local] Existing Instance exact_ratio.
#[local] Existing Instance exact_fee.
#[local] Existing Instance exact_fee_laws.
#[local] Existing Instance no_bignum.
#[local] Instance v1_pair : Tradable RoyaltyV1PoolOnly (AssetClass * AssetClass) := fun p => order_canonical (asset_x (inner p)) (asset_y (inner p)).

Definition graduate : ClassifiedPool RoyaltyV1PoolOnly := mkClassified (mkV1Only sample_pool) SnekGraduated (mkFeeConfig true 2) 500000.
Definition order : AnyOrder := AnyLimit Sale.sale.

Lemma graduate_swaps n : 0 < n <= 10000000 -> royalty_swap_ok sample_pool (OnAsk n).
Proof.
  intros Hn. split; [exact sample_pool_wf|].
  assert (tradable (base_balances sample_pool) = 9994000000 /\ tradable (quote_balances sample_pool) = 19992000000 /\
          b_reserves (base_balances sample_pool) = 10000000000) as (Eb & Eq & Er) by (vm_compute; done).
  split; cbn; rewrite ?Eb, ?Eq, ?Er; unfold u64_max, u128_max; try lia. intros _. vm_compute. discriminate.
Qed.

Lemma graduated_trade_conserves_witness :
  let '(take, make) := classified_swap_with_taker graduate order (OnAsk 10000000) in
  (take = mkTrans order (Succ order) /\ make = mkTrans graduate (Succ graduate)) \/
  exists p' out fee, make = mkTrans graduate (Succ p') /\ take = mkTrans order (with_applied_trade order 10000000 out) /\
    cl_pending_operator_fee p' = 500000 + fee /\ 0 <= fee /\
    (base_reserve (liquidity p') - base_reserve (liquidity graduate)) + fee = 10000000 /\
    out = quote_reserve (liquidity graduate) - quote_reserve (liquidity p') /\ 100 * fee <= 2 * 10000000.
Proof.
  destruct (classified_swap_with_taker graduate order (OnAsk 10000000)) as [take make] eqn:E.
  refine (graduated_trade_conserves (FE := any_fee_eligible) (fun p i => royalty_swap_ok (inner p) i) graduate order (OnAsk 10000000) take make
    _ _ _ _ _ graduate_swaps E); [vm_compute; reflexivity|vm_compute; split; discriminate..|vm_compute; reflexivity|vm_compute; discriminate].
Defined.

(** Two percent of the ten ADA are pending, and the trade is not refused. *)
Example fee_pending :
  cl_pending_operator_fee (make_result (classified_swap_with_taker graduate order (OnAsk 10000000)).2) = 700000.
Proof. vm_compute. reflexivity. Qed.
End Graduate.
