(* ===== verification/PoolExec.v ===== *)
(** * Execution of pools of every kind

    [execution_engine/instances.rs]: the making of a pool becomes an input and an
    output of the transaction.  Constant-product, balance and stable pools are
    executed alike; [AnyPool] ([data/pool.rs]) and the classified pool pass the
    execution on, the latter with the operator's fee.  At the end: the output of an
    executed pool holds what the book predicted. *)

From stdpp Require Import base gmap list.
From Stdlib Require Import ZArith Lia Strings.Byte.
From S2P Require Import Prelude Mpf LbTypes Assets PlutusData Intention GreenOrder LbCore LbCoreProofs AccountStore.
From S2P Require Import AccountIndex RoyaltyPool LbState LbGreen Containers Redeemers TxBlueprint StateIndex Engine Interpreter.
From S2P Require Import GreenExec RoyaltyDatum RoyaltyDatumProofs Graduation EventSink LimitOrder ConstFnPool PoolOrders StablePool BalancePool ClassifiedPool.

#[local] Notation delete := base.delete.
#[local] Notation insert := base.insert.
#[local] Open Scope Z_scope.

(** ** What moved *)

(** [trade_side], [loss] and [gain] of a make, from the reserves before and after. *)
Definition reserves_side (i s : AbsoluteReserves) : option Side :=
  if (base_reserve s <? base_reserve i) && (quote_reserve i <? quote_reserve s) then Some Bid
  else if (base_reserve i <? base_reserve s) && (quote_reserve s <? quote_reserve i) then Some Ask
  else None.
Definition reserves_gain (i s : AbsoluteReserves) : option Z :=
  match checked_sub (base_reserve s) (base_reserve i) with Some v => Some v | None => checked_sub (quote_reserve s) (quote_reserve i) end.
Definition reserves_loss (i s : AbsoluteReserves) : option Z :=
  match checked_sub (base_reserve i) (base_reserve s) with Some v => Some v | None => checked_sub (quote_reserve i) (quote_reserve s) end.

(** They are those of the book. *)
Lemma reserves_of_make {M U} `{MarketMaker M U} (t : MakeInProgress M) :
  let i := liquidity (target t) in
  let s := liquidity (make_result t) in
  make_trade_side t = reserves_side i s /\ (LbTypes.unwrap <$> make_gain t) = reserves_gain i s /\ (LbTypes.unwrap <$> make_loss t) = reserves_loss i s.
Proof.
  unfold make_trade_side, make_gain, make_loss, reserves_side, reserves_gain, reserves_loss. split; [done|]. split.
  - destruct (checked_sub _ _); [done|]. by destruct (checked_sub _ _).
  - destruct (checked_sub _ _); [done|]. by destruct (checked_sub _ _).
Qed.

(** ** One execution for three kinds of pools *)

Class ExecutablePool (M : Type) := {
  ep_asset_x : M -> AssetClass;
  ep_asset_y : M -> AssetClass;
  ep_reserves_x : M -> Z;
  ep_reserves_y : M -> Z;
  ep_validator : M -> DeployedValidatorErased;
  (* previous and next state, and the index of the input *)
  ep_redeemer : M -> M -> nat -> panics PlutusData;
  ep_update_datum : M -> PlutusData -> panics PlutusData;
}.

Section Exec.
Context {M : Type} `{EP : ExecutablePool M} `{VL : ValueLib}.

Definition ep_reserves (p : M) : AbsoluteReserves := pool_reserves (ep_asset_x p) (ep_asset_y p) (ep_reserves_x p) (ep_reserves_y p).

Definition ep_mapping (p : M) (side : Side) : PoolAssetMapping :=
  let x := ep_asset_x p in
  let y := ep_asset_y p in
  if bool_decide (pool_base x y = x) then
    match side with Bid => mkMapping x y | Ask => mkMapping y x end
  else
    match side with Bid => mkMapping y x | Ask => mkMapping x y end.

Definition traded_output (o : TransactionOutput) (m : PoolAssetMapping) (removed added : Z) (next : M) : panics TransactionOutput :=
  v ← sub_asset (out_value o) (asset_to_deduct_from m) removed;
  v ← add_asset v (asset_to_add_to m) added;
  datum ← match out_datum o with Some d => d ← ep_update_datum next d; Ok (Some d) | None => Ok None end;
  Ok (mkTxOut (out_address o) v datum (out_script_ref o)).

Definition pool_exec (pool next : M) (bearer : FinalizedTxOut) (state : ExecutionState) : panics (ExecutionState * EffectPreview M) :=
  side ← unwrap_option (reserves_side (ep_reserves pool) (ep_reserves next));
  removed ← unwrap_option (reserves_loss (ep_reserves pool) (ep_reserves next));
  added ← unwrap_option (reserves_gain (ep_reserves pool) (ep_reserves next));
  let consumed_out := fin_output bearer in
  let in_ref := reference bearer in
  let v := ep_validator pool in
  produced_out ← traded_output consumed_out (ep_mapping pool side) removed added next;
  let input := mkScriptInput in_ref consumed_out (dv_hash v) (marginal_script_cost v)
                 (DelayedR (fun o => ix ← index_of o in_ref; ep_redeemer pool next ix)) [] in
  let b := add_io (tx_blueprint state) input produced_out in
  let b := add_ref_input b (ref_input v) (ref_output v) in
  Ok (set_blueprint state b, EffUpdated (mkBundled pool bearer) (mkBundled next produced_out)).
End Exec.

(** ** The three kinds *)

Definition const_fn_assets (p : ConstFnPool) : AssetClass * AssetClass :=
  match p with
  | Classic p => (cp_asset_x p, cp_asset_y p)
  | FeeSwitch p => (fs_asset_x p, fs_asset_y p)
  | Royalty p => (asset_x p, asset_y p)
  end.

(** [unsafe_datum_update]. *)
Definition const_fn_datum (p : ConstFnPool) (d : PlutusData) : panics PlutusData :=
  match p with
  | FeeSwitch p => update_pd_fee_switch d (fs_treasury_x p) (fs_treasury_y p)
  | Royalty p => match ver p with V2 => update_pd_royalty_v2 d p | _ => update_pd_royalty d p end
  | Classic _ => Ok d
  end.

Definition const_fn_executable (vs : PoolValidators) : ExecutablePool ConstFnPool := {|
  ep_asset_x := fun p => (const_fn_assets p).1;
  ep_asset_y := fun p => (const_fn_assets p).2;
  ep_reserves_x := fun p => let '(x, _, _) := absolute_reserves p in x;
  ep_reserves_y := fun p => let '(_, y, _) := absolute_reserves p in y;
  ep_validator := const_fn_validator vs;
  ep_redeemer := fun _ _ ix => Ok (cfmm_pool_redeemer (Z.of_nat ix) ActSwap);
  ep_update_datum := const_fn_datum;
|}.

Definition balance_executable (v1 v2 : DeployedValidatorErased) : ExecutablePool BalancePool := {|
  ep_asset_x := bp_asset_x;
  ep_asset_y := bp_asset_y;
  ep_reserves_x := bp_reserves_x;
  ep_reserves_y := bp_reserves_y;
  ep_validator := balance_validator v1 v2;
  ep_redeemer := fun _ _ ix => Ok (balance_redeemer ActSwap (Z.of_nat ix));
  ep_update_datum := fun next d => update_pd_balance d (bp_treasury_x next) (bp_treasury_y next);
|}.

(** The search for the invariant in the redeemer is given a number of rounds, and
    panics when it is used up. *)
Definition stable_executable (rounds : nat) (v : DeployedValidatorErased) : ExecutablePool StablePoolT2T := {|
  ep_asset_x := sp_asset_x;
  ep_asset_y := sp_asset_y;
  ep_reserves_x := sp_reserves_x;
  ep_reserves_y := sp_reserves_y;
  ep_validator := fun _ => v;
  ep_redeemer := fun pool next ix =>
    match stable_redeemer rounds ActSwap (Z.of_nat ix) (Z.of_nat ix) pool next with Ok d => Ok d | _ => Panic end;
  ep_update_datum := fun next d => update_pd_stable d (sp_treasury_x next) (sp_treasury_y next);
|}.

(** ** Any pool *)

Inductive AnyPool := PureCFMM (p : ConstFnPool) | BalancedCFMM (p : BalancePool) | StableCFMM (p : StablePoolT2T).

#[export] Instance any_pool_stable : Stable AnyPool Token := fun p =>
  match p with PureCFMM p => const_fn_stable_id p | BalancedCFMM p => stable_id p | StableCFMM p => stable_id p end.
#[export] Instance any_pool_pair : Tradable AnyPool (AssetClass * AssetClass) := fun p =>
  match p with
  | PureCFMM p => order_canonical (const_fn_assets p).1 (const_fn_assets p).2
  | BalancedCFMM p => order_canonical (bp_asset_x p) (bp_asset_y p)
  | StableCFMM p => order_canonical (sp_asset_x p) (sp_asset_y p)
  end.

#[export] Instance const_fn_market_maker `{FeeLib} `{BigNumberLib} : MarketMaker ConstFnPool ExUnits := {|
  static_price := fun p => match p with Classic p => static_price p | FeeSwitch p => static_price p | Royalty p => static_price p end;
  real_price := fun p i => match p with Classic p => real_price p i | FeeSwitch p => real_price p i | Royalty p => real_price p i end;
  quality := fun p => match p with Classic p => quality p | FeeSwitch p => quality p | Royalty p => quality p end;
  maker_marginal_cost_hint := fun p =>
    match p with Classic p => maker_marginal_cost_hint p | FeeSwitch p => maker_marginal_cost_hint p | Royalty p => maker_marginal_cost_hint p end;
  liquidity := fun p => match p with Classic p => liquidity p | FeeSwitch p => liquidity p | Royalty p => liquidity p end;
  available_liquidity_on_side := fun p w =>
    match p with Classic p => available_liquidity_on_side p w | FeeSwitch p => available_liquidity_on_side p w | Royalty p => available_liquidity_on_side p w end;
  estimated_trade := fun p i => match p with Classic p => estimated_trade p i | FeeSwitch p => estimated_trade p i | Royalty p => estimated_trade p i end;
  is_active := fun p => match p with Classic p => is_active p | FeeSwitch p => is_active p | Royalty p => is_active p end;
|}.

Section AnyTrade.
Context (rounds : nat) `{FL : FeeLib} `{SN : StableNumberLib}.

Definition any_pool_swap (p : AnyPool) (input : OnSide Z) : looping AnyPool :=
  match p with
  | PureCFMM p => match const_fn_swap p input with Succ p => Ok (PureCFMM p) | Term e => match e with end end
  | BalancedCFMM p => p ← balance_swap rounds p input; Ok (BalancedCFMM p)
  | StableCFMM p => p ← stable_swap rounds p input; Ok (StableCFMM p)
  end.

Definition any_pool_static_price (p : AnyPool) : looping AbsolutePrice :=
  match p with
  | PureCFMM p => Ok (static_price p)
  | BalancedCFMM p => match balance_static_price p with Ok q => Ok q | _ => Panic end
  | StableCFMM p => stable_static_price rounds p
  end.

Definition any_pool_real_price (p : AnyPool) (input : OnSide Z) : looping (option AbsolutePrice) :=
  match p with
  | PureCFMM p => Ok (real_price p input)
  | BalancedCFMM p => balance_real_price rounds p input
  | StableCFMM p => stable_real_price rounds p input
  end.

(** A stable pool is never estimated. *)
Definition any_pool_estimated_trade (p : AnyPool) (input : OnSide Z) : looping (option AvailableLiquidity) :=
  match p with
  | PureCFMM p => Ok (estimated_trade p input)
  | BalancedCFMM p => balance_estimated_trade rounds p input
  | StableCFMM _ => Ok None
  end.

Definition any_pool_liquidity (p : AnyPool) : AbsoluteReserves :=
  match p with
  | PureCFMM p => liquidity p
  | BalancedCFMM p => balance_liquidity p
  | StableCFMM p => pool_reserves (sp_asset_x p) (sp_asset_y p) (sp_reserves_x p) (sp_reserves_y p)
  end.

Definition any_pool_is_active (p : AnyPool) : bool :=
  match p with PureCFMM p => is_active p | BalancedCFMM p => balance_is_active p | StableCFMM _ => true end.
End AnyTrade.

Definition any_pool_try_from_ledger `{BigUintLib} (c : CfmmContext) (b : BalanceContext) (stable_script : ScriptInfo) (o : TransactionOutput) : option AnyPool :=
  match const_fn_try_from_ledger c o with
  | Some p => Some (PureCFMM p)
  | None =>
    match balance_try_from_ledger b o with
    | Some p => Some (BalancedCFMM p)
    | None => StableCFMM <$> stable_try_from_ledger stable_script (bx_bounds b) o
    end
  end.

Record AnyPoolContext := mkAnyPoolContext {
  ac_const_fn : PoolValidators;
  ac_balance_v1 : DeployedValidatorErased;
  ac_balance_v2 : DeployedValidatorErased;
  ac_stable : DeployedValidatorErased;
}.

(** [ExecutionEff::bimap] with [Bundled::map]. *)
Definition map_effect {A B} (f g : A -> B) (e : EffectPreview A) : EffectPreview B :=
  match e with
  | EffUpdated c p => EffUpdated (mkBundled (f (bundled c)) (bearer c)) (mkBundled (g (bundled p)) (bearer p))
  | EffEliminated c => EffEliminated (mkBundled (f (bundled c)) (bearer c))
  end.

Section Routing.
Context (rounds : nat) `{VL : ValueLib}.

(** A pool stays of its kind. *)
Definition any_pool_exec (c : AnyPoolContext) (pool next : AnyPool) (src : FinalizedTxOut) (state : ExecutionState)
    : panics (ExecutionState * EffectPreview AnyPool) :=
  match pool, next with
  | PureCFMM p, PureCFMM p2 =>
    '(st, res) ← pool_exec (EP := const_fn_executable (ac_const_fn c)) p p2 src state;
    Ok (st, map_effect PureCFMM PureCFMM res)
  | BalancedCFMM p, BalancedCFMM p2 =>
    '(st, res) ← pool_exec (EP := balance_executable (ac_balance_v1 c) (ac_balance_v2 c)) p p2 src state;
    Ok (st, map_effect BalancedCFMM BalancedCFMM res)
  | StableCFMM p, StableCFMM p2 =>
    '(st, res) ← pool_exec (EP := stable_executable rounds (ac_stable c)) p p2 src state;
    Ok (st, map_effect StableCFMM StableCFMM res)
  | _, _ => Panic
  end.

(** The pending fee goes to the operator, once. *)
Definition classified_exec (c : AnyPoolContext) (pool next : ClassifiedPool AnyPool) (src : FinalizedTxOut) (state : ExecutionState)
    : panics (ExecutionState * EffectPreview (ClassifiedPool AnyPool)) :=
  '(state, effect) ← any_pool_exec c (cl_inner pool) (cl_inner next) src state;
  let state := add_operator_interest state (cl_pending_operator_fee next) in
  let consumed_next_pool := mkClassified (cl_inner next) (cl_origin next) (cl_fee_config next) 0 in
  Ok (state, map_effect (fun _ => pool) (fun _ => consumed_next_pool) effect).
End Routing.

(** ** The output of an executed pool *)

Lemma side_flows i s side removed added : reserves_side i s = Some side -> reserves_loss i s = Some removed -> reserves_gain i s = Some added ->
  match side with
  | Bid => removed = base_reserve i - base_reserve s /\ added = quote_reserve s - quote_reserve i
  | Ask => removed = quote_reserve i - quote_reserve s /\ added = base_reserve s - base_reserve i
  end.
Proof.
  unfold reserves_side, reserves_loss, reserves_gain, checked_sub.
  destruct (Z.ltb_spec (base_reserve s) (base_reserve i)), (Z.ltb_spec (quote_reserve i) (quote_reserve s)),
    (Z.ltb_spec (base_reserve i) (base_reserve s)), (Z.ltb_spec (quote_reserve s) (quote_reserve i)); cbn [andb]; try lia; try discriminate; intros [= <-];
    repeat match goal with |- context [?a <=? ?b] => destruct (Z.leb_spec a b) end; try lia; intros [= <-] [= <-]; lia.
Qed.

Section Executed.
Context {M : Type} `{EP : ExecutablePool M} `{VLaws : ValueLaws}.

(** What a trade moves, by asset. *)
Definition net_flow (pool next : M) (a : AssetClass) : Z :=
  (if decide (ep_asset_x pool = a) then ep_reserves_x next - ep_reserves_x pool else 0) +
  (if decide (ep_asset_y pool = a) then ep_reserves_y next - ep_reserves_y pool else 0).

Lemma mapping_flow pool next side removed added a : ep_asset_x pool <> ep_asset_y pool ->
  ep_asset_x next = ep_asset_x pool -> ep_asset_y next = ep_asset_y pool ->
  reserves_side (ep_reserves pool) (ep_reserves next) = Some side ->
  reserves_loss (ep_reserves pool) (ep_reserves next) = Some removed -> reserves_gain (ep_reserves pool) (ep_reserves next) = Some added ->
  (if decide (asset_to_add_to (ep_mapping pool side) = a) then added else 0) - (if decide (asset_to_deduct_from (ep_mapping pool side) = a) then removed else 0) =
  net_flow pool next a.
Proof.
  intros Hne Ex Ey Hs Hl Hg. pose proof (side_flows _ _ _ _ _ Hs Hl Hg) as Hf. unfold net_flow, ep_mapping, ep_reserves, pool_reserves in *. rewrite Ex, Ey in *.
  destruct (bool_decide _), side; cbn in Hf |- *; destruct Hf as [-> ->]; repeat case_decide; subst; try done; lia.
Qed.

(** The transaction gets one more input, the pool's, and one more output, with the
    same address; it holds of every asset what the pool's output held and what the
    trade moved according to the book: where the pool's output held the reserves of
    the pool, the new one holds those of the pool that was predicted. *)
Theorem executed_pool_matches (pool next : M) bearer state state' eff : ep_asset_x pool <> ep_asset_y pool ->
  asset_wf (ep_asset_x pool) -> asset_wf (ep_asset_y pool) -> ep_asset_x next = ep_asset_x pool -> ep_asset_y next = ep_asset_y pool ->
  pool_exec pool next bearer state = Ok (state', eff) ->
  exists input o, eff = EffUpdated (mkBundled pool bearer) (mkBundled next o) /\ si_utxo input = fin_output bearer /\
    script_io (tx_blueprint state') = script_io (tx_blueprint state) ++ [(input, o)] /\ out_address o = out_address (fin_output bearer) /\
    forall a, asset_wf a -> amount (out_value o) a = amount (out_value (fin_output bearer)) a + net_flow pool next a.
Proof.
  intros Hne Wx Wy Ex Ey. unfold pool_exec, unwrap_option.
  destruct (reserves_side _ _) as [side|] eqn:Hs; [|done]. destruct (reserves_loss _ _) as [removed|] eqn:Hl; [|done].
  destruct (reserves_gain _ _) as [added|] eqn:Hg; [|done]. cbn [mbind outcome_bind]. intros (o & Ho & E)%bind_Ok_inv. injection E as <- <-.
  eexists _, o. refine (conj eq_refl (conj _ (conj eq_refl _))); [reflexivity|].
  unfold traded_output, sub_asset, add_asset in Ho. destruct (value_checked_sub _ _) as [v1|] eqn:E1; [|done]. cbn [mbind outcome_bind] in Ho.
  destruct (value_checked_add _ _) as [v2|] eqn:E2; [|done]. cbn [mbind outcome_bind] in Ho. apply bind_Ok_inv in Ho as (d & _ & [= <-]).
  split; [done|]. intros a Wa. cbn [out_value].
  assert (asset_wf (asset_to_add_to (ep_mapping pool side)) /\ asset_wf (asset_to_deduct_from (ep_mapping pool side))) as [W1 W2]
    by (unfold ep_mapping; destruct (bool_decide _), side; done).
  rewrite <- (mapping_flow pool next side removed added a Hne Ex Ey Hs Hl Hg).
  rewrite (value_add_amount _ _ _ a E2), (value_sub_amount _ _ _ a E1), !into_value_amount by done. lia.
Qed.
End Executed.

(** ** Any pool the book traded with *)

Lemma const_fn_swap_assets `{FeeLib} p input p' : const_fn_swap p input = Succ p' -> const_fn_assets p' = const_fn_assets p.
Proof.
  destruct p as [p|p|p]; cbn; intros [= <-]; cbn.
  - destruct (classic_swap _ _) as [q| |] eqn:E; [|done..]. unfold classic_swap in E. apply bind_Ok_inv in E as (? & _ & E).
    repeat case_match; by simplify_eq.
  - destruct (fee_switch_swap _ _) as [q| |] eqn:E; [|done..]. unfold fee_switch_swap in E. apply bind_Ok_inv in E as (? & _ & E).
    destruct (if bool_decide _ then _ else _). apply bind_Ok_inv in E as ([? ?] & _ & E). destruct (if bool_decide _ then _ else _). by injection E as <-.
  - destruct (royalty_swap _ _) as [q| |] eqn:E; [|done..]. unfold royalty_swap in E. apply bind_Ok_inv in E as (? & _ & E).
    destruct (if bool_decide _ then _ else _). apply bind_Ok_inv in E as ([? ?] & _ & E). destruct (bool_decide _); by injection E as <-.
Qed.

Lemma balance_swap_assets rounds `{StableNumberLib} `{FeeLib} p input p' : balance_swap rounds p input = Ok p' ->
  bp_asset_x p' = bp_asset_x p /\ bp_asset_y p' = bp_asset_y p.
Proof.
  unfold balance_swap. intros (? & _ & E)%bind_Ok_inv. apply bind_Ok_inv in E as (? & _ & E). injection E as <-. by case_match.
Qed.

Lemma stable_swap_assets rounds p input p' : stable_swap rounds p input = Ok p' -> sp_asset_x p' = sp_asset_x p /\ sp_asset_y p' = sp_asset_y p.
Proof.
  unfold stable_swap. intros (? & _ & E)%bind_Ok_inv. repeat case_match; apply bind_Ok_inv in E as ([? ?] & _ & E); repeat case_match; by simplify_eq.
Qed.

(** What the book says a trade moves, by asset. *)
Definition book_flow `{FeeLib} `{BigNumberLib} (p p' : AnyPool) (a : AssetClass) : Z :=
  let '(base, quote) := pair_of_entity p in
  let i := any_pool_liquidity p in
  let s := any_pool_liquidity p' in
  (if decide (base = a) then base_reserve s - base_reserve i else 0) + (if decide (quote = a) then quote_reserve s - quote_reserve i else 0).

Lemma canonical_flow {M} `{ExecutablePool M} (pool next : M) a : ep_asset_x pool <> ep_asset_y pool ->
  ep_asset_x next = ep_asset_x pool -> ep_asset_y next = ep_asset_y pool ->
  let '(base, quote) := order_canonical (ep_asset_x pool) (ep_asset_y pool) in
  (if decide (base = a) then base_reserve (ep_reserves next) - base_reserve (ep_reserves pool) else 0) +
  (if decide (quote = a) then quote_reserve (ep_reserves next) - quote_reserve (ep_reserves pool) else 0) = net_flow pool next a.
Proof.
  intros Hne Ex Ey. unfold net_flow, ep_reserves, pool_reserves, pool_base. rewrite Ex, Ey. unfold order_canonical.
  destruct (asset_cmp _ _); cbn [fst snd]; case_bool_decide; try congruence; cbn; lia.
Qed.

Lemma canonical_pair x y base quote : order_canonical x y = (base, quote) -> base <> quote -> asset_wf base -> asset_wf quote ->
  x <> y /\ asset_wf x /\ asset_wf y.
Proof. unfold order_canonical. destruct (asset_cmp x y); intros [= <- <-]; auto. Qed.

Section AnyExecuted.
Context (rounds : nat) `{FL : FeeLib} `{SN : StableNumberLib} `{VLaws : ValueLaws}.

Lemma routed_exec {M} `{EP : ExecutablePool M} (inj : M -> AnyPool) (pool next : M) src state state' eff base quote :
  order_canonical (ep_asset_x pool) (ep_asset_y pool) = (base, quote) -> base <> quote -> asset_wf base -> asset_wf quote ->
  ep_asset_x next = ep_asset_x pool -> ep_asset_y next = ep_asset_y pool ->
  any_pool_pair (inj pool) = order_canonical (ep_asset_x pool) (ep_asset_y pool) ->
  (forall p, p = pool \/ p = next -> any_pool_liquidity (inj p) = ep_reserves p) ->
  ('(st, res) ← pool_exec pool next src state; Ok (st, map_effect inj inj res)) = Ok (state', eff) ->
  exists input o, eff = EffUpdated (mkBundled (inj pool) src) (mkBundled (inj next) o) /\
    script_io (tx_blueprint state') = script_io (tx_blueprint state) ++ [(input, o)] /\ si_utxo input = fin_output src /\
    out_address o = out_address (fin_output src) /\
    forall a, asset_wf a -> amount (out_value o) a = amount (out_value (fin_output src)) a + book_flow (inj pool) (inj next) a.
Proof.
  intros Hc Hne W1 W2 Ex Ey Hp Hl ([st res] & E & E')%bind_Ok_inv. injection E' as <- <-. destruct (canonical_pair _ _ _ _ Hc Hne W1 W2) as (Hxy & Wx & Wy).
  destruct (executed_pool_matches pool next src state st res Hxy Wx Wy Ex Ey E) as (input & o & -> & Hu & Hio & Ha & Hv).
  exists input, o. split_and!; [done..|]. intros a Wa. rewrite (Hv a Wa). f_equal. pose proof (canonical_flow pool next a Hxy Ex Ey) as Hf.
  unfold book_flow, pair_of_entity. rewrite Hp, !Hl by auto. rewrite Hc in *. by symmetry.
Qed.

(** Whatever kind of pool the book trades with: the execution of the swap it made
    adds the pool's input with its output at the same address, and of every asset
    that output holds what the pool's output held and what the book says the swap
    moved. *)
Theorem any_swap_executes c p input p' src state state' eff base quote :
  pair_of_entity p = (base, quote) -> base <> quote -> asset_wf base -> asset_wf quote ->
  any_pool_swap rounds p input = Ok p' -> any_pool_exec rounds c p p' src state = Ok (state', eff) ->
  exists i o, eff = EffUpdated (mkBundled p src) (mkBundled p' o) /\
    script_io (tx_blueprint state') = script_io (tx_blueprint state) ++ [(i, o)] /\ si_utxo i = fin_output src /\
    out_address o = out_address (fin_output src) /\
    forall a, asset_wf a -> amount (out_value o) a = amount (out_value (fin_output src)) a + book_flow p p' a.
Proof.
  intros Hp Hne W1 W2 Hs He. destruct p as [p|p|p]; cbn [any_pool_swap] in Hs.
  - destruct (const_fn_swap p input) as [q|[]] eqn:E; injection Hs as <-. apply const_fn_swap_assets in E.
    refine (routed_exec (EP := const_fn_executable (ac_const_fn c)) PureCFMM p q src state state' eff base quote Hp Hne W1 W2 _ _ eq_refl _ He);
      [cbn; by rewrite E..|]. intros r _. by destruct r.
  - apply bind_Ok_inv in Hs as (q & [Ex Ey]%balance_swap_assets & [= <-]).
    by refine (routed_exec (EP := balance_executable (ac_balance_v1 c) (ac_balance_v2 c)) BalancedCFMM p q src state state' eff base quote Hp Hne W1 W2 Ex Ey eq_refl _ He).
  - apply bind_Ok_inv in Hs as (q & [Ex Ey]%stable_swap_assets & [= <-]).
    by refine (routed_exec (EP := stable_executable rounds (ac_stable c)) StableCFMM p q src state state' eff base quote Hp Hne W1 W2 Ex Ey eq_refl _ He).
Qed.
End AnyExecuted.
