(* ===== verification/PoolExecExamples.v ===== *)
(** * A weighted pool is executed

    The witnesses of the theorems of [PoolExec.v], on the trade of
    [BalancePoolExamples.v]. *)

From stdpp Require Import base gmap list.
From Stdlib Require Import ZArith Lia Strings.Byte.
From S2P Require Import Prelude Mpf LbTypes Assets PlutusData Intention GreenOrder LbCore LbCoreProofs AccountStore.
From S2P Require Import AccountIndex RoyaltyPool LbState LbGreen Containers Redeemers TxBlueprint StateIndex Engine Interpreter.
From S2P Require Import GreenExec RoyaltyDatum RoyaltyDatumProofs Graduation EventSink LimitOrder ConstFnPool PoolOrders StablePool BalancePool.
From S2P Require Import BalancePoolProofs BalancePoolExamples ClassifiedPool PoolExec.

Module WeightedTrade.
Import Weighted.
#[local] Open Scope Z_scope.
#[local] Existing Instance pointwise_value.
#[local] Existing Instance pointwise_value_laws.

Definition pool_tx_output : TransactionOutput :=
  mkTxOut (mkAddress (Some (ScriptCred (replicate 28 x44))) None [])
    (mkValue 1000001000 (asset_set (asset_set ∅ gold 400000050) lp 9000000))
    (Some (PdConstr 0 (replicate 8 (PdInteger 0)))) None.
Definition bearer : FinalizedTxOut := mkFinalized pool_tx_output (replicate 32 x01, 0).
Definition validator : DeployedValidatorErased := mkValidator (replicate 32 x30, 0) pool_tx_output (replicate 28 x44) (mkExUnits 100 200) (mkExUnits 5 7).
#[local] Instance executable : ExecutablePool BalancePool := balance_executable validator validator.

Lemma executed_pool_matches_witness :
  exists state' eff, pool_exec before after bearer execution_state_new = Ok (state', eff) /\
    exists input o, eff = EffUpdated (mkBundled before bearer) (mkBundled after o) /\ si_utxo input = pool_tx_output /\
      script_io (tx_blueprint state') = script_io (tx_blueprint execution_state_new) ++ [(input, o)] /\ out_address o = out_address pool_tx_output /\
      forall a, asset_wf a -> amount (out_value o) a = amount (out_value pool_tx_output) a + net_flow before after a.
Proof.
  assert (match pool_exec before after bearer execution_state_new with Ok _ => True | _ => False end) as L by (vm_compute; exact I).
  destruct (pool_exec before after bearer execution_state_new) as [[state' eff]| |] eqn:E; [|destruct L..].
  exists state', eff. split; [reflexivity|].
  apply (executed_pool_matches before after bearer execution_state_new state' eff); [discriminate|exact I| |vm_compute; reflexivity|vm_compute; reflexivity|exact E].
  vm_compute. repeat split; reflexivity || discriminate.
Defined.

#[local] Existing Instance exact_fee.
#[local] Existing Instance roots.
#[local] Existing Instance root_numbers.

Definition context : AnyPoolContext :=
  mkAnyPoolContext (mkPoolValidators validator validator validator validator validator validator validator validator) validator validator validator.

Lemma any_swap_executes_witness :
  exists state' eff, any_pool_exec 10 context (BalancedCFMM before) (BalancedCFMM after) bearer execution_state_new = Ok (state', eff) /\
    exists i o, eff = EffUpdated (mkBundled (BalancedCFMM before) bearer) (mkBundled (BalancedCFMM after) o) /\
      script_io (tx_blueprint state') = script_io (tx_blueprint execution_state_new) ++ [(i, o)] /\ si_utxo i = pool_tx_output /\
      out_address o = out_address pool_tx_output /\
      forall a, asset_wf a -> amount (out_value o) a = amount (out_value pool_tx_output) a + book_flow (BalancedCFMM before) (BalancedCFMM after) a.
Proof.
  assert (match any_pool_exec 10 context (BalancedCFMM before) (BalancedCFMM after) bearer execution_state_new with Ok _ => True | _ => False end) as L
    by (vm_compute; exact I).
  destruct (any_pool_exec 10 context (BalancedCFMM before) (BalancedCFMM after) bearer execution_state_new) as [[state' eff]| |] eqn:E; [|destruct L..].
  exists state', eff. split; [reflexivity|].
  apply (any_swap_executes 10 context (BalancedCFMM before) buy (BalancedCFMM after) bearer execution_state_new state' eff Native (TokenAsset gold));
    [vm_compute; reflexivity|discriminate|exact I| |vm_compute; reflexivity|exact E].
  vm_compute. repeat split; reflexivity || discriminate.
Defined.

(** A hundred ADA in, and gold out. *)
Example ada_moved : book_flow (BalancedCFMM before) (BalancedCFMM after) Native = 100000000 /\
  book_flow (BalancedCFMM before) (BalancedCFMM after) (TokenAsset gold) = 390617202 - 400000050.
Proof. vm_compute. split; reflexivity. Qed.
End WeightedTrade.
